(* ===== verification/_CoqProject ===== *)
-Q . S2P
Prelude.v
Primitives.v
Text.v
Tools.v
State.v
StateProps.v
Transaction.v
Contract.v
Currency.v
CurrencyProps.v
Builtins.v
Block.v
Machine.v
Runtime.v
Sdk.v
VmExample.v
MachineProps.v
BuiltinProps.v
Execution.v
ExecutionProps.v
Consumer.v
Producer.v
Sled.v
BlockStore.v
StoreExample.v
CurrencyTyping.v
RuntimeProps.v
RuntimeExample.v
BlockStoreProps.v
Rpc.v
RpcProps.v
StoreService.v
Dbsync.v
DbsyncProps.v
DbsyncExample.v
Cli.v
Schedule.v
ScheduleProps.v
Episub.v
Cache.v
PlumTree.v
NetExample.v
PlumTreeProps.v
Broadcast.v
HyParView.v
HyParViewProps.v
Topic.v
TopicProps.v
Behaviour.v
BehaviourProps.v
Codec.v
Handler.v
WireExample.v
HandlerProps.v
Network.v
NetworkProps.v
ForkTree.v
ForkTreeProps.v
Orphans.v
OrphansProps.v
Chain.v
Majority.v
ChainExample.v
ChainProps.v
ChainSafety.v
Sources.v
Accountability.v
Liveness.v
Finality.v
ProducerProps.v
Node.v
NodeProps.v
NodeExample.v
NodeVotes.v
SlotFinality.v
Agreement.v
Forks.v
RpcExample.v
