(* ===== verification/Prelude.v ===== *)
(** * The Rensa validator: a model of the node and its correctness

    Rensa (src/, in Rust) is a proof-of-stake blockchain validator. A node
    executes transactions on a virtual machine with native and WASM contracts,
    proposes blocks when the schedule makes it the leader, votes on checkpoints,
    finalizes blocks that two thirds of the stake confirmed twice, and exchanges
    blocks, votes and transactions over an epidemic broadcast protocol. This
    library models the node as executable definitions that follow the functions
    of the source, and proves what the parts promise to each other. The
    definitions keep the names of the source where the language allows it;
    paths in the comments are relative to the root of the repository or, for the
    node itself, to its crate (src/consensus is src/src/consensus).

    ** Parts

    Foundations.
    - Prelude (this file): results, outcomes, the [?] operator, machine integers
      and their encodings, stable sorting, insertion-ordered maps, tactics.
    - Primitives (primitives/{keys,account}.rs): keys, hashes, derived addresses.
      Text (primitives/{keys,b58}.rs): their base58 texts.
    - State, StateProps (vm/state.rs, storage/state.rs): state diffs, merging,
      overlays, the store of finalized state.

    Execution.
    - Transaction (vm/transaction.rs), Contract (vm/{contract,output}.rs): the
      data that clients sign and that contracts exchange with the machine.
    - Currency, CurrencyProps, CurrencyTyping, Builtins, BuiltinProps
      (vm/builtin/): the native contracts.
    - Machine, MachineProps (vm/{machine,unit}.rs): execution units and nested
      calls. Execution, ExecutionProps (vm/{machine,executed}.rs): blocks.
    - Runtime, RuntimeProps, RuntimeExample (vm/runtime.rs): how the machine
      talks to a WASM contract. Sdk (sdk/rust): the contract's side of it.

    Consensus.
    - Block (consensus/{genesis,validator,vote,block}.rs): genesis, blocks, votes.
    - ForkTree, ForkTreeProps (consensus/forktree.rs), Orphans, OrphansProps
      (consensus/orphans.rs): blocks that are not final, and those that wait.
    - Chain, ChainProps, ChainSafety, Sources, Accountability, Liveness, Majority,
      Finality (consensus/chain.rs): the state machine of inclusion, votes,
      confirmation and finality. Sources follows blocks and votes from where a chain
      takes them; Forks shows what the rules for own votes do not rule out.
    - Schedule, ScheduleProps (consensus/schedule.rs, network/responder.rs):
      the leaders of slots, and replay requests.

    Services.
    - Consumer (consumer.rs): how blocks reach the services. Producer,
      ProducerProps (producer.rs): the mempool and block production.
    - Sled, BlockStore, BlockStoreProps (storage/blocks.rs): stored blocks.
    - Rpc, RpcProps, StoreService (rpc.rs, primitives/stream.rs): the service for
      clients, over the block store.
    - Dbsync, DbsyncProps (dbsync/mod.rs): the copy in an SQL database.
    - Cli (cli.rs): what a node derives from its options. Tools
      (bin/{keygen,keydump}.rs): the programs that print keys.

    Network.
    - Episub, Cache, PlumTree, PlumTreeProps, Broadcast, HyParView,
      HyParViewProps, Topic, TopicProps, Behaviour, BehaviourProps
      (network/episub/): the gossip protocol of one topic and of one node, and a
      broadcast among nodes. Codec, Handler, HandlerProps: frames on one
      connection.
    - Network, NetworkProps (network/mod.rs): the four topics of a chain and the
      task that owns them.

    Node, NodeProps, NodeVotes (main.rs) connect all of this: the arms of the main loop and
    the tasks beside it are the steps of a relation on a record of the components.
    SlotFinality and Agreement are about two nodes: the leader of a slot and a validator
    that receives its block, and nodes that finalize. The files named
    Example hold concrete instances on which the theorems are evaluated.

    ** How code is modelled

    - Rust's [Result] is [Result E A]; a function that may panic returns an
      [Outcome], whose third value [OutOfFuel] says only that the fuel given to the
      model did not suffice. [x ←? e ; k] is the [?] operator under panics.
    - Unsigned integers are values of [Z] with [wrap64], [wrap32] and the
      saturating operations where the code computes on them; bytes are lists of
      [byte], 32-byte arrays [array32].
    - Mutable objects are passed and returned. Where the code shares them
      (the fork tree with its parent pointers, the two clones of the
      producer) the model says how: a reference into the tree is a node with the
      path above it, clones are one state.
    - Maps with an order are association lists or sorted listings; a map without
      one is a [gmap], or a list in an order that theorems leave open.
    - The clock and sources of randomness are arguments. Joined asynchronous tasks
      run one after the other; independent tasks are separate steps.
    - Floating-point numbers are those of the standard library's specification.

    ** Parameters

    Code of other packages is a class of operations, with its documented
    behaviour as a class of laws of which an executable instance is given:
    [Crypto], [CryptoLaws] (hashes, signatures, base58), [TextForms], [SecretBytes],
    [Borsh], [Bincode], [SledDb], [SledTree] and their laws (serialization and
    storage), [WeightedRng], [Rand] (generators), [Libp2p], [Zstd], [Wire],
    [Framed] (network), [Wasmer], [GuestHeap], [Traps] (the WASM engine and a
    contract's allocator), [SqlDatabase], [HostSystem], [ToJson]. The machine sees
    the WASM runtime through the class [WasmRuntime] only, which Runtime
    implements; consensus sees execution through [Executable], and blocks through
    [BlockData]; the main loop and the channel see services through
    [BlockConsumer].

    ** Theorems

    - Consensus: the forest of blocks stays well formed in every reachable
      chain; finality takes two confirmed checkpoints in a row; the finalized chain grows block by block, and no more than two
      epochs behind a head that brings a quorum for its parent; the supermajority,
      computed with doubles, exceeds two thirds; every operation ends; the head is
      the heaviest chain (ChainSafety, Accountability, Liveness, ForkTreeProps,
      Majority).
    - Several nodes: of two blocks that nodes have finalized, more than a third of the
      stake has signed votes for both, or for blocks above them, in blocks that these nodes took
      up, so that finalized forks come with evidence (Agreement); when a leader has
      collected the votes of a supermajority, its block reaches a validator, is
      included there and finalizes all but the last two epochs (SlotFinality).
    - Execution: contracts change what the machine allows and no more; a call
      implements the specification of its outputs within the limits; nonces go up
      and nothing is replayed; the supply of a currency is backed by its
      coins, debits are signed for, accounts keep their type (MachineProps,
      ExecutionProps, CurrencyProps, CurrencyTyping, BuiltinProps).
    - Contracts of the development kit return what they compute, through both
      sides of the memory protocol (RuntimeProps).
    - Storage and services: the stores implement maps; a store with details
      serves every block it holds; the RPC service forwards only verified
      transactions and walks the confirmed blocks to the newest write; a confirmed
      block is written to a database as a whole, each statement one row
      (StateProps, BlockStoreProps, StoreService, RpcProps, DbsyncProps).
    - Network: messages reach every connected node; a lost one is repaired; views
      keep their bounds and the tree follows them; frames are read as they were
      sent; only validators are heard (Broadcast, PlumTreeProps, HyParViewProps,
      TopicProps, HandlerProps, NetworkProps).
    - The node: finalized blocks are delivered in order (NodeProps); a vote that
      was cast goes into a block (NodeVotes); the keys that the tools print are
      keys of validators (Tools).
    - What does not hold is proved too, on the model and by evaluation: a validator that
      follows the rules for its votes can make two forks final, a transfer to oneself
      creates coins, the validity of a block depends on how much a validator has
      finalized, a contract can stop the validators through its allocator, texts
      of logs become SQL statements, a gap in the confirmed blocks keeps a request
      waiting for ever, and others that the files list as theorems or lemmas.

    ** Fuel

    Contract calls take fuel for the depth of nested calls ([vm_fuel]): more never changes a
    result ([call_depth_monotone]), and native calls need one. Inclusion needs more than
    the number of orphans ([include_total]), finalization takes the size of the
    forest ([poll_next_total]), the schedule more than the number of the announced
    slot ([slot_leader_determined]), a poll of a connection three times its queue
    and four ([handler_poll_total]), and the walk over confirmed blocks their
    number ([enough_fuel]).

    ** Not modelled

    The loop of the swarm and its transport, the HTTP server and its routes, the
    engine of WASM, opening databases, parsing of command lines and JSON, logging: calls
    of packages. The tests of the repository have no part in the node. The raw parent pointers of the fork tree are modelled as they are when they are
    valid; that they can dangle is a finding of the development, not a behaviour of it. What else no definition covers are
    imports, implementations of Debug and Display for logs, and accessors that the
    node does not call.

    A network of nodes is not one transition system here: what a node receives is
    arbitrary in the theorems about consensus, which is more than a network can do,
    and Broadcast has the run of the gossip protocol among nodes. *)
From stdpp Require Export prelude gmap strings list fin_maps sorting pretty.
From Stdlib Require Export ZArith Lia.
From Stdlib Require Import Strings.Byte.

#[global] Open Scope Z_scope.

(** ** Results and outcomes *)

(** Rust's [Result<A, E>]. The error type comes first so that [Result E] is a
    monad in the success type. *)
Inductive Result (E A : Type) : Type :=
  | Ok (a : A)
  | Err (e : E).
Arguments Ok {E A} _.
Arguments Err {E A} _.

#[export] Instance result_ret E : MRet (Result E) := λ A a, Ok a.
#[export] Instance result_bind E : MBind (Result E) := λ A B f r,
  match r with Ok a => f a | Err e => Err e end.

(** Rust's [?] after [map_err]: replace the error of a failing call. *)
Definition map_err {E F A} (f : E → F) (r : Result E A) : Result F A :=
  match r with Ok a => Ok a | Err e => Err (f e) end.

(** [Option::ok_or] *)
Definition ok_or {E A} (o : option A) (e : E) : Result E A :=
  match o with Some a => Ok a | None => Err e end.

(** An early return [if c { return Err(e) }]. *)
Definition reject_if {E} (c : bool) (e : E) : Result E unit :=
  if c then Err e else Ok tt.

Definition is_ok {E A} (r : Result E A) : bool :=
  match r with Ok _ => true | Err _ => false end.

(** What running a piece of code can come to: it returns a value, it panics
    (a failed [assert!], an [unwrap] of an error, an overflowing stack), or
    the fuel given to the model was not enough to tell. *)
Inductive Outcome (A : Type) : Type :=
  | Done (a : A)
  | Panic
  | OutOfFuel.
Arguments Done {A} _.
Arguments Panic {A}.
Arguments OutOfFuel {A}.

#[export] Instance outcome_eq_dec {A} `{EqDecision A} : EqDecision (Outcome A).
Proof. solve_decision. Defined.

#[export] Instance outcome_ret : MRet Outcome := λ A a, Done a.
#[export] Instance outcome_bind : MBind Outcome := λ A B f o,
  match o with Done a => f a | Panic => Panic | OutOfFuel => OutOfFuel end.

#[export] Instance Done_inj A : Inj (=) (=) (@Done A).
Proof. by intros x y [= ->]. Qed.

(** [finished o] holds unless the fuel ran out. *)
Definition finished {A} (o : Outcome A) : bool :=
  match o with OutOfFuel => false | _ => true end.

(** [done_or o a] is what [o] returned, and [a] when it did not. *)
Definition done_or {A} (o : Outcome A) (a : A) : A := match o with Done x => x | _ => a end.
Definition is_done {A} (o : Outcome A) : bool := match o with Done _ => true | _ => false end.
Definition panics {A} (o : Outcome A) : bool := match o with Panic => true | _ => false end.
Definition is_some {A} (o : option A) : bool := match o with Some _ => true | None => false end.

(** The next lemmas turn an evaluated test into the equation it decides. *)
Lemma is_done_eq {A} (o : Outcome A) a : is_done o = true → o = Done (done_or o a).
Proof. by destruct o. Qed.
Lemma is_done_exists {A} (o : Outcome A) : is_done o = true → ∃ a, o = Done a.
Proof. destruct o; [by eexists|done..]. Qed.
Lemma panics_eq {A} (o : Outcome A) : panics o = true → o = Panic.
Proof. by destruct o. Qed.
Lemma is_some_default {A} (o : option A) d : is_some o = true → o = Some (default d o).
Proof. by destruct o. Qed.
Lemma is_some_none {A} (o : option A) : is_some o = false → o = None.
Proof. by destruct o. Qed.

(** Sequencing of code that may panic and may also return [Err]: the [?]
    operator inside a function whose callees may panic. *)
Definition try_bind {E A B} (o : Outcome (Result E A))
    (k : A → Outcome (Result E B)) : Outcome (Result E B) :=
  match o with
  | Done (Ok a) => k a
  | Done (Err e) => Done (Err e)
  | Panic => Panic
  | OutOfFuel => OutOfFuel
  end.

Declare Scope rensa_scope.
Delimit Scope rensa_scope with rensa.
Notation "x ←? e ; k" := (try_bind e (λ x, k))
  (at level 20, e at level 100, k at level 200, right associativity) : rensa_scope.
Notation "' x ←? e ; k" := (try_bind e (λ x, k))
  (at level 20, x pattern, e at level 100, k at level 200, right associativity) : rensa_scope.
#[global] Open Scope rensa_scope.

Lemma bind_ok {E A B} (r : Result E A) (f : A → Result E B) b :
  (r ≫= f) = Ok b ↔ ∃ a, r = Ok a ∧ f a = Ok b.
Proof. destruct r; simpl; naive_solver. Qed.

Lemma reject_if_ok {E} c (e : E) u : reject_if c e = Ok u ↔ c = false.
Proof. destruct c, u; simpl; naive_solver. Qed.

Lemma map_err_ok {E F A} (f : E → F) (r : Result E A) a :
  map_err f r = Ok a ↔ r = Ok a.
Proof. destruct r; simpl; naive_solver. Qed.

Lemma ok_or_ok {E A} (o : option A) (e : E) a : ok_or o e = Ok a ↔ o = Some a.
Proof. destruct o; simpl; naive_solver. Qed.

Lemma try_bind_ok {E A B} (o : Outcome (Result E A)) (k : A → Outcome (Result E B)) b :
  try_bind o k = Done (Ok b) ↔ ∃ a, o = Done (Ok a) ∧ k a = Done (Ok b).
Proof. destruct o as [[]| |]; simpl; naive_solver. Qed.

Lemma outcome_bind_done {A B} (o : Outcome A) (k : A → Outcome B) b :
  (o ≫= k) = Done b ↔ ∃ a, o = Done a ∧ k a = Done b.
Proof. destruct o; simpl; naive_solver. Qed.

(** ** Machine integers *)

Definition u64_modulus : Z := 2 ^ 64.
Definition u64_max : Z := 2 ^ 64 - 1.
Definition is_u64 (z : Z) : Prop := 0 ≤ z ≤ u64_max.

(** Addition as a release build of the validator performs it (the crate does
    not turn overflow checks on). *)
Definition wrap64 (z : Z) : Z := z mod u64_modulus.
Definition wrap32 (z : Z) : Z := z mod 2 ^ 32.
Definition saturating_add (a b : Z) : Z := Z.min (a + b) u64_max.
Definition saturating_sub (a b : Z) : Z := Z.max (a - b) 0.

Lemma wrap64_id z : is_u64 z → wrap64 z = z.
Proof. unfold is_u64, wrap64, u64_max, u64_modulus. intros. apply Z.mod_small. lia. Qed.

Lemma wrap64_bounds z : is_u64 (wrap64 z).
Proof.
  unfold is_u64, wrap64, u64_max, u64_modulus.
  pose proof (Z.mod_pos_bound z (2 ^ 64) ltac:(lia)). lia.
Qed.

Lemma saturating_add_exact a b : a + b ≤ u64_max → saturating_add a b = a + b.
Proof. unfold saturating_add. lia. Qed.

Lemma saturating_sub_exact a b : b ≤ a → saturating_sub a b = a - b.
Proof. unfold saturating_sub. lia. Qed.

(** ** Bytes *)

Abbreviation bytes := (list byte).

#[export] Instance byte_eq_dec : EqDecision byte := Byte.byte_eq_dec.
#[export] Program Instance byte_countable : Countable byte :=
  inj_countable Byte.to_N Byte.of_N _.
Next Obligation. intros b. apply Byte.of_to_N. Qed.

Definition byte_of_Z (z : Z) : byte :=
  default x00 (Byte.of_N (Z.to_N (z mod 256))).
Definition Z_of_byte (b : byte) : Z := Z.of_N (Byte.to_N b).

(** [uN::to_le_bytes] for a value of [n] bytes. *)
Fixpoint le_bytes (n : nat) (z : Z) : bytes :=
  match n with
  | O => []
  | S n => byte_of_Z z :: le_bytes n (z / 256)
  end.

(** [uN::to_be_bytes]. *)
Definition be_bytes (n : nat) (z : Z) : bytes := reverse (le_bytes n z).

(** [u64::from_le_bytes] *)
Fixpoint of_le_bytes (l : bytes) : Z :=
  match l with
  | [] => 0
  | b :: l => Z_of_byte b + 256 * of_le_bytes l
  end.
Definition of_be_bytes (l : bytes) : Z := of_le_bytes (reverse l).

Definition u64_le (z : Z) : bytes := le_bytes 8 z.
Definition bool_byte (b : bool) : byte := if b then x01 else x00.

Lemma Z_of_byte_of_Z z : Z_of_byte (byte_of_Z z) = z mod 256.
Proof.
  unfold Z_of_byte, byte_of_Z.
  pose proof (Z.mod_pos_bound z 256 ltac:(lia)) as Hb.
  destruct (Byte.of_N (Z.to_N (z mod 256))) as [b|] eqn:E; simpl.
  - apply Byte.to_of_N in E. lia.
  - apply Byte.of_N_None_iff in E. lia.
Qed.

Lemma length_le_bytes n z : length (le_bytes n z) = n.
Proof. revert z. induction n as [|n IH]; intros; simpl; [done|]. by rewrite IH. Qed.

Lemma length_be_bytes n z : length (be_bytes n z) = n.
Proof. unfold be_bytes. by rewrite length_reverse, length_le_bytes. Qed.

Lemma of_le_bytes_le_bytes n z : of_le_bytes (le_bytes n z) = z mod 256 ^ Z.of_nat n.
Proof.
  revert z. induction n as [|n IH]; intros z; [by rewrite Z.mod_1_r|].
  cbn [le_bytes of_le_bytes]. rewrite Z_of_byte_of_Z, IH, Nat2Z.inj_succ, Z.pow_succ_r by lia.
  rewrite Z.rem_mul_r; lia.
Qed.

Lemma of_be_bytes_be_bytes n z : of_be_bytes (be_bytes n z) = z mod 256 ^ Z.of_nat n.
Proof. unfold of_be_bytes, be_bytes. by rewrite reverse_involutive, of_le_bytes_le_bytes. Qed.

Lemma Z_of_byte_bounds b : 0 ≤ Z_of_byte b < 256.
Proof. unfold Z_of_byte. pose proof (Byte.to_N_bounded b). lia. Qed.

Lemma byte_of_Z_of_byte b : byte_of_Z (Z_of_byte b) = b.
Proof.
  pose proof (Z_of_byte_bounds b). unfold byte_of_Z. rewrite Z.mod_small by lia.
  unfold Z_of_byte. by rewrite N2Z.id, Byte.of_to_N.
Qed.

Lemma le_bytes_of_le_bytes l : le_bytes (length l) (of_le_bytes l) = l.
Proof.
  induction l as [|b l IH]; [done|]. cbn [length le_bytes of_le_bytes]. pose proof (Z_of_byte_bounds b).
  assert (byte_of_Z (Z_of_byte b + 256 * of_le_bytes l) = b) as ->.
  { rewrite <- (byte_of_Z_of_byte b) at 2. unfold byte_of_Z. do 3 f_equal. rewrite (Z.mul_comm 256), Z.mod_add by lia. done. }
  rewrite (Z.mul_comm 256), Z.div_add, Z.div_small, Z.add_0_l, IH by lia. done.
Qed.

Lemma be_bytes_of_be_bytes l : be_bytes (length l) (of_be_bytes l) = l.
Proof. unfold be_bytes, of_be_bytes. by rewrite <- length_reverse, le_bytes_of_le_bytes, reverse_involutive. Qed.

Lemma u64_le_inj a b : is_u64 a → is_u64 b → u64_le a = u64_le b → a = b.
Proof.
  intros Ha Hb H%(f_equal of_le_bytes). unfold u64_le in H.
  rewrite !of_le_bytes_le_bytes in H. unfold is_u64, u64_max in *.
  rewrite !Z.mod_small in H by (change (256 ^ Z.of_nat 8) with (2 ^ 64); lia). done.
Qed.

(** A byte string for every positive number and back: what the codecs used for
    evaluation are made of. *)
Fixpoint pos_bytes (p : positive) : bytes :=
  match p with
  | xH => []
  | xO p => x00 :: pos_bytes p
  | xI p => x01 :: pos_bytes p
  end.
Fixpoint bytes_pos (l : bytes) : positive :=
  match l with
  | [] => xH
  | b :: l => if bool_decide (b = x00) then xO (bytes_pos l) else xI (bytes_pos l)
  end.

Lemma bytes_pos_bytes p : bytes_pos (pos_bytes p) = p.
Proof.
  induction p as [p IH|p IH|]; cbn [pos_bytes bytes_pos]; [rewrite bool_decide_false by done|rewrite bool_decide_true by done|done]; by rewrite IH.
Qed.

(** ** Stable sorting *)

(** [slice::sort_by] is a stable sort; insertion from the right keeps equal
    elements in their original order. *)
Section stable_sort.
Context {A : Type} (le : A → A → bool).

Fixpoint insert_sorted (x : A) (l : list A) : list A :=
  match l with
  | [] => [x]
  | y :: l' => if le x y then x :: l else y :: insert_sorted x l'
  end.

Definition stable_sort (l : list A) : list A := foldr insert_sorted [] l.

Lemma insert_sorted_perm x l : insert_sorted x l ≡ₚ x :: l.
Proof.
  induction l as [|y l IH]; simpl; [done|].
  destruct (le x y); [done|]. rewrite IH. apply Permutation_swap.
Qed.

Lemma stable_sort_perm l : stable_sort l ≡ₚ l.
Proof. induction l as [|x l IH]; simpl; [done|]. by rewrite insert_sorted_perm, IH. Qed.

Hypothesis le_total : ∀ x y, le x y = true ∨ le y x = true.

Lemma insert_sorted_sorted x l :
  Sorted (λ a b, le a b = true) l → Sorted (λ a b, le a b = true) (insert_sorted x l).
Proof.
  induction 1 as [|y l Hs IH Hd]; simpl; [by repeat constructor|].
  destruct (le x y) eqn:E; [by repeat constructor|].
  constructor; [done|].
  destruct (le_total x y) as [?|Hyx]; [congruence|].
  destruct l as [|z l]; simpl in *; [by constructor|].
  apply HdRel_inv in Hd. destruct (le x z); by constructor.
Qed.

Lemma stable_sort_sorted l : Sorted (λ a b, le a b = true) (stable_sort l).
Proof. induction l; simpl; [constructor|]. by apply insert_sorted_sorted. Qed.
End stable_sort.

(** The last element of a sorted list is a maximum. *)
Lemma sorted_last_max {A} (R : relation A) `{!Transitive R} l m x :
  Sorted R l → last l = Some m → x ∈ l → x = m ∨ R x m.
Proof.
  intros Hs%Sorted_StronglySorted; [|done].
  induction Hs as [|y l Hs IH Hall]; [done|].
  intros Hlast Hx. destruct l as [|z l].
  { simpl in *. simplify_eq. left. by apply list_elem_of_singleton in Hx. }
  change (last (y :: z :: l)) with (last (z :: l)) in Hlast.
  apply elem_of_cons in Hx as [->|Hx]; [|by auto].
  right. rewrite Forall_forall in Hall. apply Hall. by apply last_Some_elem_of.
Qed.

(** ** Insertion-ordered maps *)

(** [indexmap::IndexMap]: inserting under a present key replaces the value
    in place, a new key goes to the end. *)
Section index_map.
Context {K V : Type} `{EqDecision K}.

Fixpoint im_insert (k : K) (v : V) (m : list (K * V)) : list (K * V) :=
  match m with
  | [] => [(k, v)]
  | (k', v') :: m' =>
      if bool_decide (k = k') then (k', v) :: m' else (k', v') :: im_insert k v m'
  end.

Fixpoint im_get (k : K) (m : list (K * V)) : option V :=
  match m with
  | [] => None
  | (k', v) :: m' => if bool_decide (k = k') then Some v else im_get k m'
  end.

(** [HashMap::remove] on the same representation. *)
Definition im_remove (k : K) (m : list (K * V)) : list (K * V) :=
  filter (λ p, p.1 ≠ k) m.

Lemma im_get_insert_eq k v m : im_get k (im_insert k v m) = Some v.
Proof.
  induction m as [|[k' v'] m IH]; simpl; [by rewrite bool_decide_true|].
  case_bool_decide; simpl; [by rewrite bool_decide_true|by rewrite bool_decide_false].
Qed.

Lemma im_get_insert_ne k k' v m : k ≠ k' → im_get k' (im_insert k v m) = im_get k' m.
Proof.
  intros Hne. induction m as [|[k0 v0] m IH]; simpl; [by rewrite bool_decide_false|].
  repeat (case_bool_decide; simpl); simplify_eq; try done.
Qed.

Lemma im_get_none k m v : im_get k m = None → (k, v) ∉ m.
Proof.
  induction m as [|[k0 v0] m IH]; simpl; [intros _; apply not_elem_of_nil|].
  case_bool_decide; [done|]. intros Hn Hin. apply elem_of_cons in Hin as [[= -> ->]|Hin]; [done|by apply IH].
Qed.

Lemma im_get_elem_of k v m : im_get k m = Some v → (k, v) ∈ m.
Proof.
  induction m as [|[k0 v0] m IH]; simpl; [done|].
  case_bool_decide; intros; simplify_eq; set_solver.
Qed.
End index_map.

(** ** Lists *)

(** [iter().find_map(f)]: the first success. *)
Definition find_map {A B} (f : A → option B) : list A → option B :=
  fix go l :=
    match l with
    | [] => None
    | x :: l => match f x with Some y => Some y | None => go l end
    end.

Lemma find_map_some {A B} (f : A → option B) l y :
  find_map f l = Some y → ∃ x, x ∈ l ∧ f x = Some y.
Proof.
  induction l as [|x l IH]; simpl; [done|]. destruct (f x) eqn:E.
  - intros; simplify_eq. set_solver.
  - intros (z & ? & ?)%IH. set_solver.
Qed.

Lemma find_map_none {A B} (f : A → option B) l :
  find_map f l = None ↔ ∀ x, x ∈ l → f x = None.
Proof.
  induction l as [|x l IH]; simpl; [set_solver|]. destruct (f x) eqn:E; [|set_solver].
  split; [done|]. intros H. specialize (H x). set_solver.
Qed.

(** [iter().enumerate().find(p).map(|(i, _)| i)] *)
Fixpoint find_index {A} (p : A → bool) (l : list A) : option nat :=
  match l with
  | [] => None
  | x :: l => if p x then Some 0%nat else S <$> find_index p l
  end.

Lemma find_index_some {A} (p : A → bool) l i :
  find_index p l = Some i → ∃ x, l !! i = Some x ∧ p x = true.
Proof.
  revert i. induction l as [|x l IH]; intros i; simpl; [done|].
  destruct (p x) eqn:E; [intros; simplify_eq; eauto|].
  destruct (find_index p l) eqn:F; simpl; intros; simplify_eq. naive_solver.
Qed.

Lemma filter_all_true {A} (P : A → Prop) `{∀ x, Decision (P x)} (l : list A) :
  (∀ x, x ∈ l → P x) → filter P l = l.
Proof.
  induction l as [|x l IH]; intros Hl; [done|]. rewrite filter_cons, decide_True by (apply Hl; by left).
  f_equal. apply IH. intros y Hy. apply Hl. by right.
Qed.

(** The sum of a list of integers. *)
Definition sum_Z (l : list Z) : Z := foldr Z.add 0 l.

Lemma sum_Z_app l k : sum_Z (l ++ k) = sum_Z l + sum_Z k.
Proof. induction l as [|x l IH]; simpl; [done|]. unfold sum_Z in *. simpl. lia. Qed.

#[export] Instance sum_Z_perm : Proper ((≡ₚ) ==> (=)) sum_Z.
Proof. intros l k H. induction H; unfold sum_Z in *; simpl; lia. Qed.

Lemma sum_Z_nonneg l : (∀ x, x ∈ l → 0 ≤ x) → 0 ≤ sum_Z l.
Proof.
  induction l as [|x l IH]; intros H; [done|]. unfold sum_Z in *; simpl.
  assert (0 ≤ x) by (apply H; set_solver).
  assert (0 ≤ foldr Z.add 0 l) by (apply IH; set_solver). lia.
Qed.

(** ** Automation *)

Create HintDb rensa.
Create Rewrite HintDb rensa_inv.
#[export] Hint Resolve wrap64_bounds : rensa.
#[export] Hint Rewrite @bind_ok @reject_if_ok @map_err_ok @ok_or_ok @try_bind_ok
  @outcome_bind_done : rensa_inv.

(** Invert one successful step of a [Result] computation held in [H]. *)
Ltac result_step H :=
  first
    [ apply bind_ok in H; destruct H as (? & ? & H)
    | apply reject_if_ok in H
    | apply map_err_ok in H
    | apply ok_or_ok in H
    | apply try_bind_ok in H; destruct H as (? & ? & H)
    | apply outcome_bind_done in H; destruct H as (? & ? & H) ].

(** Split every [match] and [if] that a hypothesis of the form [_ = Ok _]
    still goes through, dropping the failing branches. *)
Ltac case_match_in H :=
  match type of H with
  | context [match ?x with _ => _ end] => destruct x eqn:?; simplify_eq/=
  end.

Ltac result_inv :=
  repeat match goal with
    | H : (_ ≫= _) = Ok _ |- _ => apply bind_ok in H as (? & ? & ?)
    | H : mbind _ _ = Done _ |- _ => apply outcome_bind_done in H as (? & ? & ?)
    | H : try_bind _ _ = Done (Ok _) |- _ => apply try_bind_ok in H as (? & ? & ?)
    | H : reject_if _ _ = Ok _ |- _ => apply reject_if_ok in H
    | H : map_err _ _ = Ok _ |- _ => apply map_err_ok in H
    | H : ok_or _ _ = Ok _ |- _ => apply ok_or_ok in H
    | H : Ok _ = Ok _ |- _ => injection H as H; subst
    | H : Err _ = Ok _ |- _ => discriminate H
    | H : mret _ = Ok _ |- _ => injection H as H; subst
    | H : Done _ = Done _ |- _ => injection H as H; subst
    | H : bool_decide _ = true |- _ => apply bool_decide_eq_true in H
    | H : bool_decide _ = false |- _ => apply bool_decide_eq_false in H
    | H : negb _ = true |- _ => apply negb_true_iff in H
    | H : negb _ = false |- _ => apply negb_false_iff in H
    | H : _ || _ = false |- _ => apply orb_false_iff in H as [? ?]
    | H : _ && _ = true |- _ => apply andb_true_iff in H as [? ?]
    | u : unit |- _ => destruct u
    end.
