(* ===== verification/Primitives.v ===== *)
(** * Keys, hashes and accounts (src/primitives)

    [Crypto] is the interface of the cryptographic crates the node calls
    (multihash, sha3, ed25519-dalek, curve25519-dalek, bs58): nothing of them is
    defined here, every development that hashes or verifies takes an instance.
    [CryptoLaws] states what the code relies on. [toy_crypto] is an executable
    instance of both, used to evaluate the model on concrete inputs. *)
From S2P Require Import Prelude.
From Stdlib Require Import Strings.Byte.

(** ** 32-byte arrays *)

Record array32 := Array32 { b32 : bytes; b32_len : length b32 = 32%nat }.

(** An address is a 32-byte array. *)
Abbreviation Pubkey := array32.

Lemma array32_eq (a b : array32) : b32 a = b32 b → a = b.
Proof. destruct a as [la Ha], b as [lb Hb]; simpl. intros ->. f_equal. apply proof_irrel. Qed.

#[export] Instance array32_eq_dec : EqDecision array32.
Proof.
  refine (λ a b, match decide (b32 a = b32 b) with left H => left (array32_eq _ _ H) | right H => right _ end).
  abstract congruence.
Defined.

Definition array32_of_bytes (l : bytes) : option array32 :=
  match decide (length l = 32%nat) with left H => Some (Array32 l H) | right _ => None end.

Lemma array32_of_bytes_b32 a : array32_of_bytes (b32 a) = Some a.
Proof.
  unfold array32_of_bytes. destruct (decide _) as [H|H]; [|by destruct H; apply b32_len].
  f_equal. by apply array32_eq.
Qed.

#[export] Program Instance array32_countable : Countable array32 :=
  inj_countable b32 array32_of_bytes _.
Next Obligation. apply array32_of_bytes_b32. Qed.

(** The big-endian 32-byte representation of an integer. *)
Definition array32_of_Z (z : Z) : array32 := Array32 (be_bytes 32 z) (length_be_bytes 32 z).

(** Lexicographic order on bytes, the derived [Ord] of [Pubkey]. *)
Fixpoint bytes_leb (a b : bytes) : bool :=
  match a, b with
  | [], _ => true
  | _ :: _, [] => false
  | x :: a, y :: b =>
      if bool_decide (x = y) then bytes_leb a b else Z_of_byte x <? Z_of_byte y
  end.

Definition pubkey_leb (a b : Pubkey) : bool := bytes_leb (b32 a) (b32 b).

(** ** Cryptographic interface *)

Class Crypto := {
  Multihash : Type;
  #[global] Multihash_eq_dec :: EqDecision Multihash;
  #[global] Multihash_countable :: Countable Multihash;
  (** [Ord] of multihashes *)
  multihash_leb : Multihash → Multihash → bool;
  (** [Multihash::to_bytes] *)
  mh_to_bytes : Multihash → bytes;
  (** [MultihashCode::Sha3_256.wrap(digest)] *)
  mh_sha3 : array32 → Multihash;
  (** [Sha3_256::default()], [update] with the given bytes, [finalize] *)
  Sha3_256 : bytes → array32;
  Signature : Type;
  #[global] Signature_eq_dec :: EqDecision Signature;
  #[global] Signature_countable :: Countable Signature;
  sig_to_bytes : Signature → bytes;
  Keypair : Type;
  keypair_public : Keypair → Pubkey;
  ed25519_sign : Keypair → bytes → Signature;
  (** [PublicKey::from_bytes(key)] succeeds and its [verify(msg, sig)] too *)
  ed25519_verify : Pubkey → bytes → Signature → bool;
  (** [CompressedEdwardsY::from_slice(key).decompress().is_some()] *)
  on_curve : Pubkey → bool;
  (** [bs58::encode(bytes).into_string()] *)
  bs58_encode : bytes → string;
  (** a number of bump seeds within which an off-curve digest is found *)
  derive_bound : nat
}.

Class CryptoLaws `{Crypto} : Prop := {
  multihash_leb_total : ∀ a b, multihash_leb a b = true ∨ multihash_leb b a = true;
  multihash_leb_trans : ∀ a b c,
    multihash_leb a b = true → multihash_leb b c = true → multihash_leb a c = true;
  multihash_leb_antisym : ∀ a b,
    multihash_leb a b = true → multihash_leb b a = true → a = b;
  sign_verify : ∀ kp msg, ed25519_verify (keypair_public kp) msg (ed25519_sign kp msg) = true;
  derive_bound_ok : ∀ seed, ∃ bump, (bump < derive_bound)%nat ∧
    on_curve (Sha3_256 (seed ++ u64_le (Z.of_nat bump))) = false
}.

Section keys.
Context `{Crypto}.

(** ** Program derived addresses (src/primitives/keys.rs) *)

Definition has_private_key (key : Pubkey) : bool := on_curve key.

(** One round of the loop of [derive]. *)
Definition derive_key (key : Pubkey) (seeds : list bytes) (bump : Z) : Pubkey :=
  Sha3_256 (b32 key ++ concat seeds ++ u64_le bump).

Fixpoint derive_loop (fuel : nat) (key : Pubkey) (seeds : list bytes) (bump : Z) : option Pubkey :=
  match fuel with
  | O => None
  | S fuel =>
      let k := derive_key key seeds bump in
      if negb (has_private_key k) then Some k else derive_loop fuel key seeds (bump + 1)
  end.

(** The loop has no bound in the code; [derive_bound] rounds are enough
    under [CryptoLaws] ([derive_loop_total]), and then the default is not
    reached. *)
Definition derive (key : Pubkey) (seeds : list bytes) : Pubkey :=
  default (derive_key key seeds 0) (derive_loop derive_bound key seeds 0).

Lemma derive_loop_some fuel key seeds b k :
  derive_loop fuel key seeds b = Some k →
  ∃ n : nat, (n < fuel)%nat ∧ k = derive_key key seeds (b + Z.of_nat n) ∧
    has_private_key k = false ∧
    ∀ m : nat, (m < n)%nat → has_private_key (derive_key key seeds (b + Z.of_nat m)) = true.
Proof.
  revert b. induction fuel as [|fuel IH]; intros b; simpl; [done|].
  destruct (has_private_key (derive_key key seeds b)) eqn:E; simpl; intros Hk.
  - apply IH in Hk as (n & Hn & -> & Hoff & Hmin). exists (S n).
    replace (b + Z.of_nat (S n)) with (b + 1 + Z.of_nat n) by lia.
    split_and!; [lia|done|done|]. intros [|m] Hm; [by rewrite Z.add_0_r|].
    replace (b + Z.of_nat (S m)) with (b + 1 + Z.of_nat m) by lia. apply Hmin. lia.
  - simplify_eq. exists 0%nat. rewrite Z.add_0_r. split_and!; [lia|done|done|lia].
Qed.

Lemma derive_loop_none fuel key seeds b n :
  derive_loop fuel key seeds b = None → (n < fuel)%nat →
  has_private_key (derive_key key seeds (b + Z.of_nat n)) = true.
Proof.
  revert b n. induction fuel as [|fuel IH]; intros b n; simpl; [lia|].
  destruct (has_private_key (derive_key key seeds b)) eqn:E; simpl; [|done].
  intros Hn Hlt. destruct n as [|n]; [by rewrite Z.add_0_r|].
  replace (b + Z.of_nat (S n)) with (b + 1 + Z.of_nat n) by lia. apply IH; [done|lia].
Qed.

Lemma derive_loop_total `{!CryptoLaws} key seeds :
  is_Some (derive_loop derive_bound key seeds 0).
Proof.
  destruct (derive_loop derive_bound key seeds 0) as [k|] eqn:E; [by eauto|exfalso].
  destruct (derive_bound_ok (b32 key ++ concat seeds)) as (n & Hn & Hoff).
  eapply derive_loop_none in E; [|exact Hn]. rewrite Z.add_0_l in E.
  unfold derive_key, has_private_key in E. rewrite app_assoc in E. congruence.
Qed.
End keys.

(** ** Accounts (src/primitives/account.rs) *)

Record Account := MkAccount {
  executable : bool;
  nonce : Z;
  owner : option Pubkey;
  data : option bytes
}.

#[export] Instance account_eq_dec : EqDecision Account.
Proof. solve_decision. Defined.

(** [Account::default()] *)
Definition account_default : Account := MkAccount false 0 None None.

Definition account_hash `{Crypto} (a : Account) : Multihash :=
  mh_sha3 (Sha3_256 (u64_le (nonce a)
    ++ match owner a with Some o => b32 o | None => [] end
    ++ default [] (data a))).

(** ** An executable instance *)

Definition toy_mask : Z := 18446744073709551615.
Definition toy_step (acc : Z) (b : byte) : Z := Z.land (acc * 257 + Z_of_byte b + 1) toy_mask.
Definition toy_digest (l : bytes) : Z := foldl toy_step 0 l.

#[export] Instance toy_crypto : Crypto := {|
  Multihash := bytes;
  multihash_leb := bytes_leb;
  mh_to_bytes := id;
  mh_sha3 d := [x16; x20] ++ b32 d;
  Sha3_256 l := array32_of_Z (toy_digest l);
  Signature := bytes;
  sig_to_bytes := id;
  Keypair := Pubkey;
  keypair_public := id;
  ed25519_sign kp msg := b32 kp ++ msg;
  ed25519_verify pk msg sig := bool_decide (sig = b32 pk ++ msg);
  on_curve k := Z.odd (of_be_bytes (b32 k));
  bs58_encode := String.string_of_list_byte;
  derive_bound := 2
|}.

Definition toy_key (z : Z) : @Keypair toy_crypto := array32_of_Z z.

Lemma bytes_leb_total a b : bytes_leb a b = true ∨ bytes_leb b a = true.
Proof.
  revert b. induction a as [|x a IH]; intros [|y b]; simpl; auto.
  case_bool_decide as Hxy; subst.
  { rewrite bool_decide_true by done. apply IH. }
  rewrite bool_decide_false by done.
  assert (Z_of_byte x ≠ Z_of_byte y); [|lia].
  unfold Z_of_byte. intros Heq%N2Z.inj. apply Hxy.
  apply (f_equal Byte.of_N) in Heq. rewrite !Byte.of_to_N in Heq. congruence.
Qed.

Lemma bytes_leb_trans a b c : bytes_leb a b = true → bytes_leb b c = true → bytes_leb a c = true.
Proof.
  revert b c. induction a as [|x a IH]; intros [|y b] [|z c]; simpl; auto; try done.
  repeat case_bool_decide; subst; eauto; try done; try lia.
Qed.

Lemma bytes_leb_antisym a b : bytes_leb a b = true → bytes_leb b a = true → a = b.
Proof.
  revert b. induction a as [|x a IH]; intros [|y b]; simpl; try done.
  repeat case_bool_decide; subst; try done; try lia.
  intros. f_equal. by apply IH.
Qed.

Lemma toy_digest_app l k : toy_digest (l ++ k) = foldl toy_step (toy_digest l) k.
Proof. unfold toy_digest. by rewrite foldl_app. Qed.

Lemma toy_step_odd acc b : Z.odd (toy_step acc b) = Z.odd (acc + Z_of_byte b + 1).
Proof.
  unfold toy_step. rewrite <-!Z.bit0_odd, Z.land_spec. rewrite andb_true_r.
  rewrite !Z.bit0_odd, !Z.odd_add, Z.odd_mul. by rewrite andb_true_r.
Qed.

#[export] Instance toy_crypto_laws : CryptoLaws.
Proof.
  constructor.
  - apply bytes_leb_total.
  - apply bytes_leb_trans.
  - apply bytes_leb_antisym.
  - intros kp msg. simpl. by apply bool_decide_true.
  - intros seed. cbn [derive_bound Sha3_256 on_curve toy_crypto].
    assert (∀ l, of_be_bytes (b32 (array32_of_Z (toy_digest l))) = toy_digest l mod 2 ^ 256) as Hd.
    { intros l. apply of_be_bytes_be_bytes. }
    assert (∀ z, Z.odd (z mod 2 ^ 256) = Z.odd z) as Hodd.
    { intros z. rewrite <-!Z.bit0_odd. by apply Z.mod_pow2_bits_low. }
    setoid_rewrite Hd. setoid_rewrite Hodd. setoid_rewrite toy_digest_app.
    destruct (Z.odd (foldl toy_step (toy_digest seed) (u64_le (Z.of_nat 0)))) eqn:E;
      [exists 1%nat|exists 0%nat]; (split; [lia|]); [|done].
    revert E. cbn. rewrite !toy_step_odd, !Z.odd_add, !toy_step_odd, !Z.odd_add.
    rewrite !toy_step_odd, !Z.odd_add, !toy_step_odd, !Z.odd_add, !toy_step_odd, !Z.odd_add.
    rewrite !toy_step_odd, !Z.odd_add, !toy_step_odd, !Z.odd_add, !toy_step_odd, !Z.odd_add.
    cbn. by destruct (Z.odd (toy_digest seed)).
Qed.
