(* ===== verification/Text.v ===== *)
(** * Text forms (src/primitives/{keys,b58}.rs)

    Keys, signatures and hashes as base58 text: [Display] and [FromStr], and the
    serialized forms of configuration files, of the RPC service and of what is
    gossiped. The codecs of the packages are a class. *)
From S2P Require Import Prelude Primitives.
From Stdlib Require Import Strings.Byte.

(** Values in the form of JSON, as far as they are built here. *)
Inductive Json :=
  | JNull
  | JNumber (z : Z)
  | JString (s : string)
  | JArray (l : list Json)
  | JObject (l : list (string * Json)).

(** [bs58::decode(s).into_vec()], the readers of multihashes, signatures and
    secret keys, and how the packages' errors print. *)
Class TextForms `{Crypto} := {
  Bs58Error : Type;
  buffer_too_small : Bs58Error;
  bs58_decode : string → Result Bs58Error bytes;
  mh_from_bytes : bytes → option Multihash;
  sig_from_bytes : bytes → option Signature;
  Ed25519Error : Type;
  secret_from_bytes : bytes → Result Ed25519Error Keypair
}.

Class TextFormsLaws `{TextForms} : Prop := {
  bs58_roundtrip : ∀ l, bs58_decode (bs58_encode l) = Ok l;
  bs58_canonical : ∀ s l, bs58_decode s = Ok l → bs58_encode l = s;
  mh_roundtrip : ∀ h, mh_from_bytes (mh_to_bytes h) = Some h;
  sig_roundtrip : ∀ s, sig_from_bytes (sig_to_bytes s) = Some s
}.

Section text.
Context `{TextForms}.
Implicit Types (k : Pubkey) (s : string).

(** ** Keys (keys.rs) *)

(** [Display], [From<Pubkey> for String] *)
Definition pubkey_display k : string := bs58_encode (b32 k).
Definition pubkey_debug k : string := ("Pubkey(" ++ bs58_encode (b32 k) ++ ")")%string.

Definition zero_bytes (n : nat) : bytes := replicate n x00.

Lemma padded_length (l : bytes) : (length l ≤ 32)%nat → length (l ++ zero_bytes (32 - length l)) = 32%nat.
Proof. intros Hl. unfold zero_bytes. rewrite length_app, length_replicate. lia. Qed.

(** [bs58::decode(s).into(&mut [0u8; 32])]: what is decoded goes to the front of
    the array, whose rest stays zero. *)
Definition decode_into_array s : Result Bs58Error array32 :=
  l ← bs58_decode s;
  match decide (length l ≤ 32)%nat with
  | left Hl => Ok (Array32 _ (padded_length l Hl))
  | right _ => Err buffer_too_small
  end.

(** [FromStr], [TryFrom<&str>] *)
Definition pubkey_from_str s : Result Bs58Error Pubkey := decode_into_array s.

(** [Keypair] *)
Definition keypair_display (kp : Keypair) : string := ("Keypair(" ++ bs58_encode (b32 (keypair_public kp)) ++ ")")%string.

Inductive KeypairError := Base58ParseError (e : Bs58Error) | Ed25519 (e : Ed25519Error).

Definition keypair_try_from (value : bytes) : Result KeypairError Keypair := map_err Ed25519 (secret_from_bytes value).

Definition keypair_from_str s : Result KeypairError Keypair :=
  secret ← map_err Base58ParseError (decode_into_array s);
  map_err Ed25519 (secret_from_bytes (b32 secret)).

(** ** Serialized forms (b58.rs, keys.rs) *)

Definition to_b58 (l : bytes) : string := bs58_encode l.

(** [deserialize_str] *)
Definition json_string (j : Json) : option string := match j with JString s => Some s | _ => None end.

Definition b58_serialize (l : bytes) : Json := JString (bs58_encode l).
Definition b58_deserialize (j : Json) : option bytes :=
  s ← json_string j; match bs58_decode s with Ok l => Some l | Err _ => None end.

(** [serialize] and [Deserialize for Pubkey], of a format that has strings. *)
Definition pubkey_serialize k : Json := JString (pubkey_display k).
Definition pubkey_deserialize (j : Json) : option Pubkey :=
  s ← json_string j; match pubkey_from_str s with Ok k => Some k | Err _ => None end.

Definition signature_serialize (sig : Signature) : Json := JString (bs58_encode (sig_to_bytes sig)).
Definition signature_deserialize (j : Json) : option Signature := b58_deserialize j ≫= sig_from_bytes.

Definition signatures_serialize (l : list Signature) : Json := JArray (signature_serialize <$> l).
Definition signatures_deserialize (j : Json) : option (list Signature) :=
  match j with JArray l => mapM signature_deserialize l | _ => None end.

(** A tuple struct of two fields. *)
Definition validator_serialize (p : Pubkey * Signature) : Json := JArray [pubkey_serialize p.1; signature_serialize p.2].
Definition validator_deserialize (j : Json) : option (Pubkey * Signature) :=
  match j with
  | JArray [k; sig] => k ← pubkey_deserialize k; sig ← signature_deserialize sig; Some (k, sig)
  | _ => None
  end.

Definition multihash_serialize (h : Multihash) : Json := JString (bs58_encode (mh_to_bytes h)).
Definition multihash_deserialize (j : Json) : option Multihash := b58_deserialize j ≫= mh_from_bytes.

(** ** What is read is what was written *)

Context `{!TextFormsLaws}.

Lemma decode_into_array_spec s l :
  bs58_decode s = Ok l → (length l ≤ 32)%nat → ∃ k, decode_into_array s = Ok k ∧ b32 k = l ++ zero_bytes (32 - length l).
Proof. intros Hs Hl. unfold decode_into_array. rewrite Hs. cbn. destruct (decide _) as [Hl'|]; [|done]. by eexists. Qed.

Lemma pubkey_from_display k : pubkey_from_str (pubkey_display k) = Ok k.
Proof.
  destruct (decode_into_array_spec (pubkey_display k) (b32 k)) as (k' & Hk & Hb); [apply bs58_roundtrip|by rewrite b32_len|].
  unfold pubkey_from_str. rewrite Hk. f_equal. apply array32_eq. rewrite Hb, b32_len. by rewrite app_nil_r.
Qed.

Lemma b58_deserialize_serialize l : b58_deserialize (b58_serialize l) = Some l.
Proof. unfold b58_deserialize, b58_serialize. cbn. by rewrite bs58_roundtrip. Qed.

Lemma pubkey_deserialize_serialize k : pubkey_deserialize (pubkey_serialize k) = Some k.
Proof. unfold pubkey_deserialize, pubkey_serialize. cbn. by rewrite pubkey_from_display. Qed.

Lemma signature_deserialize_serialize sig : signature_deserialize (signature_serialize sig) = Some sig.
Proof. unfold signature_deserialize, signature_serialize, b58_deserialize. cbn. rewrite bs58_roundtrip. cbn. apply sig_roundtrip. Qed.

Lemma signatures_deserialize_serialize l : signatures_deserialize (signatures_serialize l) = Some l.
Proof.
  cbn. induction l as [|sig l IH]; [done|]. cbn [fmap list_fmap mapM]. rewrite signature_deserialize_serialize. cbn. by rewrite IH.
Qed.

Lemma validator_deserialize_serialize p : validator_deserialize (validator_serialize p) = Some p.
Proof. destruct p as [k sig]. cbn -[pubkey_deserialize signature_deserialize]. by rewrite pubkey_deserialize_serialize, signature_deserialize_serialize. Qed.

Lemma multihash_deserialize_serialize h : multihash_deserialize (multihash_serialize h) = Some h.
Proof. unfold multihash_deserialize, multihash_serialize, b58_deserialize. cbn. rewrite bs58_roundtrip. cbn. apply mh_roundtrip. Qed.

(** Everything that is written as text is read back: keys, signatures, lists of
    them, the producer of a block with its signature, hashes and raw bytes. *)
Theorem text_forms_roundtrip k sig sigs h l :
  pubkey_deserialize (pubkey_serialize k) = Some k ∧ signature_deserialize (signature_serialize sig) = Some sig ∧
  signatures_deserialize (signatures_serialize sigs) = Some sigs ∧ validator_deserialize (validator_serialize (k, sig)) = Some (k, sig) ∧
  multihash_deserialize (multihash_serialize h) = Some h ∧ b58_deserialize (b58_serialize l) = Some l ∧ pubkey_from_str (pubkey_display k) = Ok k.
Proof.
  split_and!; [apply pubkey_deserialize_serialize|apply signature_deserialize_serialize|apply signatures_deserialize_serialize|
    apply validator_deserialize_serialize|apply multihash_deserialize_serialize|apply b58_deserialize_serialize|apply pubkey_from_display].
Qed.

(** A text that is too short for a key is taken for one all the same: it is
    filled up with zeros, so that several texts stand for the same key and a key
    that lost its end is not noticed. *)
Theorem short_text_accepted l :
  (length l < 32)%nat →
  ∃ k, pubkey_from_str (bs58_encode l) = Ok k ∧ b32 k = l ++ zero_bytes (32 - length l) ∧ pubkey_display k ≠ bs58_encode l.
Proof.
  intros Hl. destruct (decode_into_array_spec (bs58_encode l) l) as (k & Hk & Hb); [apply bs58_roundtrip|lia|].
  exists k. split_and!; [done..|]. intros Heq. apply (f_equal bs58_decode) in Heq. unfold pubkey_display in Heq. rewrite !bs58_roundtrip in Heq.
  injection Heq as Heq. apply (f_equal length) in Heq. rewrite b32_len in Heq. lia.
Qed.
End text.

(** ** An executable instance *)

#[export] Instance toy_text_forms : TextForms := {|
  Bs58Error := unit;
  buffer_too_small := tt;
  bs58_decode s := Ok (String.list_byte_of_string s);
  mh_from_bytes := Some : bytes → option (@Multihash toy_crypto);
  sig_from_bytes := Some : bytes → option (@Signature toy_crypto);
  Ed25519Error := unit;
  secret_from_bytes l := match array32_of_bytes l with Some k => Ok (k : @Keypair toy_crypto) | None => Err tt end
|}.

#[export] Instance toy_text_forms_laws : TextFormsLaws.
Proof.
  constructor; cbn [bs58_decode toy_text_forms bs58_encode toy_crypto]; try done.
  - intros l. f_equal. apply String.list_byte_of_string_of_list_byte.
  - intros s l [= <-]. apply String.string_of_list_byte_of_string.
Qed.

Lemma short_text_accepted_witness :
  ∃ k, pubkey_from_str "" = Ok k ∧ pubkey_display k ≠ ""%string.
Proof. destruct (short_text_accepted []) as (k & Hk & _ & Hne); [cbn; lia|]. exists k. split; [exact Hk|exact Hne]. Defined.
