(* ===== verification/Tools.v ===== *)
(** * The key tools (src/bin/{keygen,keydump}.rs)

    The two programs as functions of their arguments, their first one being the
    program's name, and of the random numbers that they draw; their results are the
    lines that they print. *)
From S2P Require Import Prelude Primitives Text.
From Stdlib Require Import Strings.Ascii Strings.Byte.

(** The bytes of a secret key: those that it was made from. *)
Class SecretBytes `{TextForms} := { secret_bytes : Keypair → bytes }.
Class SecretBytesLaws `{SecretBytes} : Prop := {
  secret_bytes_of l kp : secret_from_bytes l = Ok kp → secret_bytes kp = l
}.

(** ** Numbers (u32::from_str) *)

Definition u32_max : Z := 2 ^ 32 - 1.

Definition digit_of (a : ascii) : option Z :=
  let d := Z.of_nat (nat_of_ascii a) - 48 in if (0 <=? d) && (d <=? 9) then Some d else None.

Fixpoint parse_digits (acc : Z) (s : string) : option Z :=
  match s with
  | EmptyString => Some acc
  | String a s => d ← digit_of a; if 10 * acc + d <=? u32_max then parse_digits (10 * acc + d) s else None
  end.

Definition parse_u32 (s : string) : option Z :=
  let digits := match s with String "+" rest => rest | _ => s end in
  match digits with EmptyString => None | _ => parse_digits 0 digits end.

Section tools.
Context `{SecretBytes} {Rng : Type} (fill_bytes : Rng → array32 * Rng).
Implicit Types (rng : Rng) (kp : Keypair).

(** ** keygen *)

(** What is printed for a key pair. *)
Definition key_lines kp : list string :=
  [("pubkey: " ++ bs58_encode (b32 (keypair_public kp)))%string; ("secret: " ++ bs58_encode (secret_bytes kp))%string; ""%string].

(** The loop of [main]. *)
Fixpoint keygen_loop (count : nat) rng : Outcome (list string) :=
  match count with
  | O => Done []
  | S count =>
      let '(randbytes, rng) := fill_bytes rng in
      match secret_from_bytes (b32 randbytes) with
      | Err _ => Panic
      | Ok sk => rest ← keygen_loop count rng; mret (key_lines sk ++ rest)
      end
  end.

Definition keygen (args : list string) rng : Outcome (list string) :=
  match parse_u32 (default "1"%string (args !! 1%nat)) with
  | None => Panic
  | Some count => keygen_loop (Z.to_nat count) rng
  end.

(** ** keydump *)

Fixpoint debug_items (l : bytes) : string :=
  match l with
  | [] => ""
  | [b] => pretty (Z.of_N (Byte.to_N b))
  | b :: l => pretty (Z.of_N (Byte.to_N b)) ++ ", " ++ debug_items l
  end.

Definition keydump (args : list string) : Outcome string :=
  match args !! 1%nat with
  | None => Panic
  | Some b58string =>
      match bs58_decode b58string with
      | Err _ => Panic
      | Ok l => Done ("bytes (" ++ pretty (Z.of_nat (length l)) ++ "): [" ++ debug_items l ++ "]")%string
      end
  end.

(** ** Theorems *)

Context `{!TextFormsLaws} `{!SecretBytesLaws}.

(** The secret of a key pair that was made from 32 bytes is read as the key pair. *)
Lemma secret_read (r : array32) kp :
  secret_from_bytes (b32 r) = Ok kp → keypair_from_str (bs58_encode (secret_bytes kp)) = Ok kp.
Proof.
  intros Hkp. rewrite (secret_bytes_of _ _ Hkp). unfold keypair_from_str.
  destruct (decode_into_array_spec (bs58_encode (b32 r)) (b32 r)) as (k & Hk & Hb); [apply bs58_roundtrip|by rewrite b32_len|].
  rewrite Hk. cbn. rewrite Hb, b32_len. cbn. by rewrite app_nil_r, Hkp.
Qed.

(** Every secret that keygen prints is accepted as the key of a validator, whose
    public key is the one printed with it; as many are printed as were asked for. *)
Theorem generated_keys_usable args rng lines :
  keygen args rng = Done lines →
  ∃ kps, parse_u32 (default "1"%string (args !! 1%nat)) = Some (Z.of_nat (length kps)) ∧ lines = concat (key_lines <$> kps) ∧
    Forall (λ kp, keypair_from_str (bs58_encode (secret_bytes kp)) = Ok kp) kps.
Proof.
  unfold keygen. destruct (parse_u32 _) as [count|] eqn:Hcount; [|done].
  assert (0 ≤ count) as Hpos.
  { assert (∀ s acc z, 0 ≤ acc → parse_digits acc s = Some z → 0 ≤ z) as Hdig.
    { intros s. induction s as [|a s IH]; intros acc z Hacc; cbn [parse_digits]; [by intros [= <-]|].
      unfold digit_of. destruct (_ && _) eqn:Hd; [|done]. cbn. apply andb_true_iff in Hd as [Hd%Z.leb_le _].
      destruct (_ <=? u32_max); [|done]. apply IH. lia. }
    revert Hcount. unfold parse_u32. intros Hc. repeat case_match; try done; by eapply Hdig in Hc. }
  intros Hl. assert (∃ kps, length kps = Z.to_nat count ∧ lines = concat (key_lines <$> kps) ∧
    Forall (λ kp, keypair_from_str (bs58_encode (secret_bytes kp)) = Ok kp) kps) as (kps & Hlen & ? & ?).
  { clear Hcount. revert rng lines Hl. induction (Z.to_nat count) as [|k IH]; intros rng lines; cbn [keygen_loop].
    - intros [= <-]. by exists [].
    - destruct (fill_bytes rng) as [r rng']. destruct (secret_from_bytes (b32 r)) as [sk|] eqn:Hsk; [|done].
      intros (rest & Hrest & [= <-])%outcome_bind_done. destruct (IH _ _ Hrest) as (kps & <- & -> & Hall).
      exists (sk :: kps). split_and!; [done|done|]. constructor; [by eapply secret_read|done]. }
  exists kps. split_and!; [f_equal; lia|done|done].
Qed.

(** What keydump prints of a key starts with the length of the key. *)
Lemma keydump_length args b58string l :
  args !! 1%nat = Some b58string → bs58_decode b58string = Ok l →
  keydump args = Done ("bytes (" ++ pretty (Z.of_nat (length l)) ++ "): [" ++ debug_items l ++ "]")%string.
Proof. intros Ha Hl. unfold keydump. by rewrite Ha, Hl. Qed.
End tools.

(** ** Witness *)

#[export] Instance toy_secret_bytes : SecretBytes := { secret_bytes (kp : @Keypair toy_crypto) := b32 kp }.
#[export] Instance toy_secret_bytes_laws : SecretBytesLaws.
Proof.
  split. intros l kp. cbn [secret_from_bytes toy_text_forms secret_bytes toy_secret_bytes].
  unfold array32_of_bytes. destruct (decide _); [|done]. by intros [= <-].
Qed.

Definition counting (n : Z) : array32 * Z := (array32_of_Z n, n + 1).
Lemma generated_keys_usable_witness :
  ∃ kps : list (@Keypair toy_crypto), length kps = 2%nat ∧ Forall (λ kp, keypair_from_str (bs58_encode (secret_bytes kp)) = Ok kp) kps.
Proof.
  destruct (generated_keys_usable counting ["keygen"; "2"]%string 5 (done_or (keygen counting ["keygen"; "2"]%string 5) [])) as (kps & Hc & _ & Hall).
  - apply is_done_eq. by vm_compute.
  - exists kps. assert (Some 2 = Some (Z.of_nat (length kps))) as [= Hl] by exact Hc.
    split; [apply Nat2Z.inj; symmetry; exact Hl|exact Hall].
Defined.
