(* ===== verification/State.v ===== *)
(** * Blockchain state (src/vm/state.rs, src/storage/state.rs)

    The [State] interface, state diffs and their merge, overlays of states, and
    the persistent state that finalized blocks are applied to. *)
From S2P Require Import Prelude Primitives.
From Stdlib Require Import Strings.Byte.

(** ** The interface *)

Inductive StateError := WritesNotSupported | StorageEngineError.

(** The part of [dyn State] that readers use. *)
Abbreviation View := (Pubkey → option Account).

(** [trait State]. The writing methods take the state by [&mut]: they return
    the new state with their result. *)
Class State (S : Type) := {
  state_get : S → Pubkey → option Account;
  state_set : S → Pubkey → Account → Result StateError (option Account * S);
  state_remove : S → Pubkey → Result StateError S
}.

(** What the writable implementation promises to the transactions that use it. *)
Class WritableState (S : Type) `{State S} : Prop := {
  set_ok : ∀ s a acc, ∃ s', state_set s a acc = Ok (state_get s a, s') ∧
    state_get s' a = Some acc ∧ ∀ b, b ≠ a → state_get s' b = state_get s b;
  remove_ok : ∀ s a, is_ok (state_remove s a) = true
}.

(** What the read-only ones promise. *)
Class ReadOnlyState (S : Type) `{State S} : Prop := {
  set_refused : ∀ s a acc, state_set s a acc = Err WritesNotSupported;
  remove_refused : ∀ s a, state_remove s a = Err WritesNotSupported
}.

(** ** Overlays *)

Record Overlayed := MkOverlayed { base : View; overlay : View }.

Definition Overlayed_get (s : Overlayed) (address : Pubkey) : option Account :=
  match overlay s address with
  | None => base s address
  | Some value => Some value
  end.

#[export] Instance Overlayed_State : State Overlayed := {|
  state_get := Overlayed_get;
  state_set _ _ _ := Err WritesNotSupported;
  state_remove _ _ := Err WritesNotSupported
|}.

#[export] Instance Overlayed_read_only : ReadOnlyState Overlayed.
Proof. by split. Qed.

(** ** State diffs *)

Record StateDiff := MkStateDiff {
  sd_data : gmap Pubkey Account;
  sd_deletes : gset Pubkey
}.

#[export] Instance state_diff_eq_dec : EqDecision StateDiff.
Proof. solve_decision. Defined.

(** [StateDiff::default()] *)
Definition sd_default : StateDiff := MkStateDiff ∅ ∅.

(** Iteration order of B-trees: by address. *)
Definition btree_iter {V} (m : gmap Pubkey V) : list (Pubkey * V) :=
  stable_sort (λ p q, pubkey_leb p.1 q.1) (map_to_list m).
Definition btree_keys (s : gset Pubkey) : list Pubkey := stable_sort pubkey_leb (elements s).

(** The first loop of [merge], over [newer.data]. *)
Definition merge_account (acc : gmap Pubkey Account * gset Pubkey) (p : Pubkey * Account) :
    gmap Pubkey Account * gset Pubkey :=
  (<[p.1 := p.2]> acc.1, acc.2 ∖ {[p.1]}).

Definition merge (self newer : StateDiff) : StateDiff :=
  let dd := foldl merge_account (sd_data self, sd_deletes self) (btree_iter (sd_data newer)) in
  MkStateDiff dd.1 (foldl (λ ds addr, {[addr]} ∪ ds) dd.2 (btree_keys (sd_deletes newer))).

Definition sd_get (s : StateDiff) (address : Pubkey) : option Account := sd_data s !! address.

Definition sd_set (s : StateDiff) (address : Pubkey) (account : Account) : option Account * StateDiff :=
  (sd_data s !! address,
   MkStateDiff (<[address := account]> (sd_data s)) (sd_deletes s ∖ {[address]})).

Definition sd_remove (s : StateDiff) (address : Pubkey) : StateDiff :=
  MkStateDiff (sd_data s) ({[address]} ∪ sd_deletes s).

#[export] Instance StateDiff_State : State StateDiff := {|
  state_get := sd_get;
  state_set s a acc := Ok (sd_set s a acc);
  state_remove s a := Ok (sd_remove s a)
|}.

#[export] Instance StateDiff_writable : WritableState StateDiff.
Proof.
  split; [|done]. intros s a acc. eexists. split; [done|]. split; simpl; unfold sd_get; simpl.
  - by rewrite lookup_insert_eq.
  - intros b Hb. by rewrite lookup_insert_ne.
Qed.

(** [StateDiff::iter]: all changed accounts, then all deleted ones. *)
Definition sd_iter (s : StateDiff) : list (Pubkey * option Account) :=
  ((λ p, (p.1, Some p.2)) <$> btree_iter (sd_data s)) ++ ((λ a, (a, None)) <$> btree_keys (sd_deletes s)).

Definition sd_hash `{Crypto} (s : StateDiff) : Multihash :=
  mh_sha3 (Sha3_256 (concat ((λ p, b32 p.1 ++ mh_to_bytes (account_hash p.2)) <$> btree_iter (sd_data s)))).

Lemma btree_iter_lookup {V} (m : gmap Pubkey V) k v : (k, v) ∈ btree_iter m ↔ m !! k = Some v.
Proof. unfold btree_iter. rewrite stable_sort_perm. apply elem_of_map_to_list. Qed.

Lemma btree_keys_elem s k : k ∈ btree_keys s ↔ k ∈ s.
Proof. unfold btree_keys. rewrite stable_sort_perm. apply elem_of_elements. Qed.

(** ** Stores of finalized state *)

(** [trait StateStore]: [apply] on a store that is shared by reference; a
    storage error leaves no new store. *)
Class StateStore (S : Type) := {
  #[global] store_state :: State S;
  store_apply : S → StateDiff → option S
}.

(** What applying a diff does to a view: the accounts of the diff are written,
    then its deletes are removed. *)
Definition apply_spec (d : StateDiff) (v : View) : View := λ a,
  if bool_decide (a ∈ sd_deletes d) then None
  else match sd_data d !! a with Some acc => Some acc | None => v a end.

(** *** The persistent state *)

(** The fields of an [Account] that serde writes: [executable] is marked
    [#[serde(skip)]]. *)
Record StoredAccount := MkStored {
  stored_nonce : Z;
  stored_owner : option Pubkey;
  stored_data : option bytes
}.

Definition to_stored (a : Account) : StoredAccount := MkStored (nonce a) (owner a) (data a).
Definition of_stored (s : StoredAccount) : Account :=
  MkAccount false (stored_nonce s) (stored_owner s) (stored_data s).

(** [bincode] on the serialized fields. *)
Class Bincode (A : Type) := {
  bincode_serialize : A → bytes;
  bincode_deserialize : bytes → option A
}.
Class BincodeLaws (A : Type) `{Bincode A} : Prop := {
  bincode_roundtrip : ∀ a : A, bincode_deserialize (bincode_serialize a) = Some a
}.

(** The key-value database behind the stores (sled), by its interface. A batch
    is a list of insertions and removals. *)
Class SledDb (DB : Type) := {
  db_is_empty : DB → bool;
  db_get : DB → bytes → option bytes;
  db_insert : DB → bytes → bytes → DB;
  (** [None] is an error of the storage engine *)
  db_apply_batch : DB → list (bytes * option bytes) → option DB
}.

(** The last operation of a batch on a key. *)
Definition batch_last (ops : list (bytes * option bytes)) (k : bytes) : option (option bytes) :=
  foldl (λ r op, if bool_decide (op.1 = k) then Some op.2 else r) None ops.

Class SledDbLaws (DB : Type) `{SledDb DB} : Prop := {
  db_is_empty_get : ∀ d k, db_is_empty d = true → db_get d k = None;
  db_get_insert : ∀ d k v k', db_get (db_insert d k v) k' = if bool_decide (k = k') then Some v else db_get d k';
  db_get_batch : ∀ d ops d' k, db_apply_batch d ops = Some d' →
    db_get d' k = match batch_last ops k with Some o => o | None => db_get d k end
}.

(** A database in memory, for evaluation. *)
#[export] Instance gmap_SledDb : SledDb (gmap bytes bytes) := {|
  db_is_empty m := bool_decide (m = ∅);
  db_get m k := m !! k;
  db_insert m k v := <[k := v]> m;
  db_apply_batch m ops :=
    Some (foldl (λ m op, match op.2 with Some v => <[op.1 := v]> m | None => delete op.1 m end) m ops)
|}.

#[export] Instance gmap_SledDbLaws : SledDbLaws (gmap bytes bytes).
Proof.
  split.
  - intros d k Hd%bool_decide_eq_true. simpl. by subst.
  - intros d k v k'. simpl. case_bool_decide; subst; [apply lookup_insert_eq|by apply lookup_insert_ne].
  - intros d ops d' k Hd. simpl in *. simplify_eq. unfold batch_last.
    induction ops as [|[k' [v|]] ops IH] using rev_ind; [done| |];
      rewrite !foldl_app; simpl; case_bool_decide; subst.
    + by rewrite lookup_insert_eq.
    + by rewrite lookup_insert_ne.
    + by rewrite lookup_delete_eq.
    + by rewrite lookup_delete_ne.
Qed.

Section persistent.
Context {DB : Type} `{SledDb DB} `{Bincode StoredAccount}.

(** [PersistentState::new] on the database found on disk. *)
Definition ps_new (genesis_state : gmap Pubkey Account) (on_disk : DB) : DB :=
  if db_is_empty on_disk
  then foldl (λ db p, match db_get db (b32 p.1) with
                      | None => db_insert db (b32 p.1) (bincode_serialize (to_stored p.2))
                      | Some _ => db
                      end) on_disk (btree_iter genesis_state)
  else on_disk.

Definition ps_batch (diff : StateDiff) : list (bytes * option bytes) :=
  (λ p : Pubkey * option Account, match p.2 with
     | Some account => (b32 p.1, Some (bincode_serialize (to_stored account)))
     | None => (b32 p.1, None)
     end) <$> sd_iter diff.

Definition ps_apply (s : DB) (diff : StateDiff) : option DB := db_apply_batch s (ps_batch diff).

(** A value that does not deserialize makes the code panic; values are only
    written by [ps_new] and [ps_apply]. *)
Definition ps_get (s : DB) (address : Pubkey) : option Account :=
  of_stored <$> (db_get s (b32 address) ≫= bincode_deserialize).

Definition PersistentState_store : StateStore DB := {|
  store_state := {| state_get := ps_get;
                    state_set _ _ _ := Err WritesNotSupported;
                    state_remove _ _ := Err WritesNotSupported |};
  store_apply := ps_apply
|}.
End persistent.

(** An executable codec, for evaluation. *)
#[export] Instance stored_eq_dec : EqDecision StoredAccount.
Proof. solve_decision. Defined.

#[export] Program Instance stored_countable : Countable StoredAccount :=
  inj_countable' (λ a, (stored_nonce a, stored_owner a, stored_data a)) (λ '(n, o, d), MkStored n o d) _.
Next Obligation. by intros []. Qed.

#[export] Instance toy_bincode : Bincode StoredAccount := {|
  bincode_serialize a := pos_bytes (encode a);
  bincode_deserialize l := decode (bytes_pos l)
|}.

#[export] Instance toy_bincode_laws : BincodeLaws StoredAccount.
Proof. constructor. intros a. simpl. by rewrite bytes_pos_bytes, decode_encode. Qed.

(** ** Properties *)

Lemma sd_eq a b : sd_data a = sd_data b → sd_deletes a = sd_deletes b → a = b.
Proof. destruct a, b; simpl; intros; congruence. Qed.

Lemma btree_iter_map {V} (m : gmap Pubkey V) : list_to_map (btree_iter m) = m.
Proof.
  rewrite <-(list_to_map_to_list m) at 2. apply list_to_map_proper; [|apply stable_sort_perm].
  unfold btree_iter. rewrite stable_sort_perm. apply NoDup_fst_map_to_list.
Qed.

Lemma btree_iter_nodup {V} (m : gmap Pubkey V) : NoDup (btree_iter m).*1.
Proof. unfold btree_iter. rewrite stable_sort_perm. apply NoDup_fst_map_to_list. Qed.

Lemma foldl_merge_account m (l : list (Pubkey * Account)) :
  NoDup l.*1 →
  foldl merge_account m l = ((list_to_map l : gmap Pubkey Account) ∪ m.1, m.2 ∖ list_to_set l.*1).
Proof.
  revert m. induction l as [|[k v] l IH]; intros [dt dl] Hnd.
  { simpl. rewrite (left_id_L ∅ (∪)). f_equal. set_solver. }
  inversion_clear Hnd as [|? ? Hk Hnd']. simpl. rewrite IH by done. simpl. f_equal.
  - rewrite <-insert_union_r by (by apply not_elem_of_list_to_map_1). by rewrite insert_union_l.
  - set_solver.
Qed.

Lemma foldl_insert_keys (ds : gset Pubkey) (l : list Pubkey) :
  foldl (λ ds addr, {[addr]} ∪ ds) ds l = list_to_set l ∪ ds.
Proof. revert ds. induction l as [|k l IH]; intros ds; simpl; [set_solver|]. rewrite IH. set_solver. Qed.

(** [merge] in closed form: the newer accounts win and are not deleted, and
    everything the newer diff deletes is deleted. *)
Lemma merge_eq a b :
  merge a b = MkStateDiff (sd_data b ∪ sd_data a) ((sd_deletes a ∖ dom (sd_data b)) ∪ sd_deletes b).
Proof.
  unfold merge. rewrite foldl_merge_account by apply btree_iter_nodup. simpl.
  rewrite btree_iter_map, foldl_insert_keys. f_equal. apply set_eq. intros k.
  rewrite !elem_of_union, !elem_of_difference, !elem_of_list_to_set, btree_keys_elem.
  assert (k ∈ (btree_iter (sd_data b)).*1 ↔ k ∈ dom (sd_data b)) as ->; [|tauto].
  rewrite elem_of_dom, list_elem_of_fmap. split.
  - intros ([? v] & -> & Hv). rewrite btree_iter_lookup in Hv. eauto.
  - intros [v Hv]. exists (k, v). by rewrite btree_iter_lookup.
Qed.

Lemma merge_default_l d : merge sd_default d = d.
Proof. rewrite merge_eq. apply sd_eq; simpl; [apply (right_id_L ∅ (∪))|set_solver]. Qed.

Lemma merge_default_r d : merge d sd_default = d.
Proof. rewrite merge_eq. apply sd_eq; simpl; [apply (left_id_L ∅ (∪))|rewrite dom_empty_L; set_solver]. Qed.

Lemma merge_get a b k : sd_get (merge a b) k = match sd_get b k with Some v => Some v | None => sd_get a k end.
Proof. rewrite merge_eq. unfold sd_get. simpl. rewrite lookup_union. destruct (sd_data b !! k), (sd_data a !! k); done. Qed.

Lemma merge_assoc_lemma a b c : merge a (merge b c) = merge (merge a b) c.
Proof.
  rewrite !merge_eq. apply sd_eq; simpl; [by rewrite (assoc_L (∪))|].
  apply set_eq. intros k. rewrite dom_union_L. set_unfold. tauto.
Qed.

Lemma apply_spec_merge_lemma a b v k : apply_spec (merge a b) v k = apply_spec b (apply_spec a v) k.
Proof.
  rewrite merge_eq. unfold apply_spec. simpl. rewrite lookup_union.
  destruct (decide (k ∈ sd_deletes b)) as [Hb|Hb].
  { rewrite !bool_decide_true by set_solver. done. }
  rewrite (bool_decide_false (k ∈ sd_deletes b)) by done.
  destruct (sd_data b !! k) as [x|] eqn:Eb.
  { assert (k ∈ dom (sd_data b)) by (apply elem_of_dom; eauto).
    rewrite bool_decide_false by set_solver. by destruct (sd_data a !! k). }
  assert (k ∉ dom (sd_data b)) by (by apply not_elem_of_dom).
  destruct (decide (k ∈ sd_deletes a)).
  - rewrite !bool_decide_true by set_solver. done.
  - rewrite !bool_decide_false by set_solver. by destruct (sd_data a !! k).
Qed.

(** Batches built from a list without repeated addresses. *)
Lemma batch_last_app ops1 ops2 k :
  batch_last (ops1 ++ ops2) k = match batch_last ops2 k with Some o => Some o | None => batch_last ops1 k end.
Proof.
  unfold batch_last. rewrite foldl_app. generalize (foldl (λ r op, if bool_decide (op.1 = k) then Some op.2 else r) None ops1).
  induction ops2 as [|op ops2 IH] using rev_ind; intros o; [done|].
  rewrite !foldl_app. simpl. case_bool_decide; [done|apply IH].
Qed.

Lemma batch_last_cons op ops k :
  batch_last (op :: ops) k = match batch_last ops k with
                             | Some o => Some o
                             | None => if bool_decide (op.1 = k) then Some op.2 else None
                             end.
Proof. apply (batch_last_app [op]). Qed.

Lemma batch_last_removes (ks : list Pubkey) (k : Pubkey) :
  batch_last ((λ a, (b32 a, None)) <$> ks) (b32 k) = if bool_decide (k ∈ ks) then Some None else None.
Proof.
  induction ks as [|x ks IH] using rev_ind; [done|].
  rewrite fmap_app, batch_last_app, IH. unfold batch_last. simpl.
  destruct (decide (x = k)) as [->|Hne].
  - rewrite !bool_decide_true by set_solver. done.
  - rewrite (bool_decide_false (b32 x = b32 k)) by (by intros ?%array32_eq).
    by rewrite (bool_decide_ext (k ∈ ks ++ [x]) (k ∈ ks)) by set_solver.
Qed.

Lemma batch_last_inserts {V} (f : V → bytes) (l : list (Pubkey * V)) (k : Pubkey) :
  NoDup l.*1 →
  batch_last ((λ p, (b32 p.1, Some (f p.2))) <$> l) (b32 k) =
    (λ v, Some (f v)) <$> (list_to_map l : gmap Pubkey V) !! k.
Proof.
  intros Hnd. induction l as [|[x v] l IH]; [done|]. inversion_clear Hnd as [|? ? Hx Hnd'].
  rewrite fmap_cons, batch_last_cons, IH by done. simpl.
  destruct (decide (x = k)) as [->|Hne].
  - rewrite lookup_insert_eq, not_elem_of_list_to_map_1 by done. simpl. by rewrite bool_decide_true.
  - rewrite lookup_insert_ne by done. rewrite bool_decide_false by (by intros ?%array32_eq).
    by destruct ((list_to_map l : gmap Pubkey V) !! k).
Qed.

Lemma ps_batch_last `{Bincode StoredAccount} d k :
  batch_last (ps_batch d) (b32 k) =
    if bool_decide (k ∈ sd_deletes d) then Some None
    else (λ acc, Some (bincode_serialize (to_stored acc))) <$> sd_data d !! k.
Proof.
  unfold ps_batch, sd_iter. rewrite fmap_app, <-!list_fmap_compose, batch_last_app.
  change (batch_last (((λ a, (b32 a, None)) : Pubkey → bytes * option bytes) <$> btree_keys (sd_deletes d)) (b32 k))
    with (batch_last ((λ a, (b32 a, None)) <$> btree_keys (sd_deletes d)) (b32 k)).
  setoid_rewrite batch_last_removes.
  rewrite (bool_decide_ext (k ∈ btree_keys (sd_deletes d)) (k ∈ sd_deletes d)) by apply btree_keys_elem.
  case_bool_decide; [done|].
  pose proof (batch_last_inserts (λ a, bincode_serialize (to_stored a)) (btree_iter (sd_data d)) k (btree_iter_nodup _)) as Hb.
  rewrite btree_iter_map in Hb. exact Hb.
Qed.

(** What the store returns after a diff was applied. *)
Lemma ps_get_apply {DB} `{SledDbLaws DB} `{BincodeLaws StoredAccount} (s s' : DB) d k :
  ps_apply s d = Some s' →
  ps_get s' k = if bool_decide (k ∈ sd_deletes d) then None
                else match sd_data d !! k with
                     | Some acc => Some (of_stored (to_stored acc))
                     | None => ps_get s k
                     end.
Proof.
  intros Hd. unfold ps_get. erewrite db_get_batch by exact Hd. rewrite ps_batch_last.
  case_bool_decide; [done|]. destruct (sd_data d !! k); simpl; [|done]. by rewrite bincode_roundtrip.
Qed.

