(* ===== verification/StateProps.v ===== *)
(** * Properties of state diffs and stores

    Merging diffs is sequential composition of their application, the store of
    finalized state applies them faithfully up to the executable flag, and what
    overlays and state hashes do not see. *)
From S2P Require Import Prelude Primitives State.
From Stdlib Require Import Strings.Byte.

(** ** Derived addresses *)

Section derived.
Context `{CryptoLaws}.

(** An address derived by a contract is the digest of its seeds with the
    smallest bump for which no private key exists: nobody can sign for it, the
    search for it ends, and the result does not depend on how the seeds are
    split. *)
Theorem derive_first_off_curve key seeds :
  has_private_key (derive key seeds) = false ∧
  ∃ bump : nat, derive key seeds = Sha3_256 (b32 key ++ concat seeds ++ u64_le (Z.of_nat bump)) ∧
    ∀ b : nat, (b < bump)%nat → has_private_key (Sha3_256 (b32 key ++ concat seeds ++ u64_le (Z.of_nat b))) = true.
Proof.
  unfold derive. destruct (derive_loop_total key seeds) as [k Hk]. rewrite Hk.
  apply derive_loop_some in Hk as (n & _ & -> & Hoff & Hmin). split; [done|]. by exists n.
Qed.
End derived.

Lemma derive_first_off_curve_witness : has_private_key (derive (array32_of_Z 1) [b32 (array32_of_Z 7)]) = false.
Proof. exact (proj1 (derive_first_off_curve (array32_of_Z 1) [b32 (array32_of_Z 7)])). Defined.

(** ** Diffs *)

(** Merging two state diffs and applying the result is applying them one
    after the other, on every account of every state. *)
Theorem merge_is_sequential a b v k : apply_spec (merge a b) v k = apply_spec b (apply_spec a v) k.
Proof. apply apply_spec_merge_lemma. Qed.

(** Diffs form a monoid under merging, so the grouping in which the diffs
    of transactions and blocks are accumulated does not matter. *)
Theorem merge_monoid a b c :
  merge a (merge b c) = merge (merge a b) c ∧ merge sd_default a = a ∧ merge a sd_default = a.
Proof. split_and!; [apply merge_assoc_lemma|apply merge_default_l|apply merge_default_r]. Qed.

(** An overlay shows deleted accounts: an account that the overlaid diff
    deletes and does not write is still returned by the view that transactions
    and forks run on, although it is gone once the diff is applied. *)
Theorem overlay_ignores_deletes v d a acc :
  v a = Some acc → a ∈ sd_deletes d → sd_data d !! a = None →
  Overlayed_get (MkOverlayed v (state_get d)) a = Some acc ∧ apply_spec d v a = None.
Proof.
  intros Hv Hdel Hd. unfold Overlayed_get, apply_spec. simpl. unfold sd_get. rewrite Hd.
  split; [done|]. by rewrite bool_decide_true.
Qed.

(** The hash that a block declares for its state changes does not cover
    deletions: two diffs with different effects, one of which deletes an account
    that the other keeps, have the same hash. *)
Theorem state_hash_ignores_deletes `{Crypto} d v a acc :
  v a = Some acc → sd_data d !! a = None → a ∉ sd_deletes d →
  sd_hash (sd_remove d a) = sd_hash d ∧
  apply_spec (sd_remove d a) v a = None ∧ apply_spec d v a = Some acc.
Proof.
  intros Hv Hd Hn. split; [done|]. unfold apply_spec. simpl. rewrite Hd.
  rewrite bool_decide_true by set_solver. by rewrite bool_decide_false.
Qed.

(** ** The store of finalized state *)

(** What survives serialization: everything but the executable flag. *)
Definition forget_executable (a : Account) : Account := MkAccount false (nonce a) (owner a) (data a).

Lemma of_to_stored a : of_stored (to_stored a) = forget_executable a.
Proof. done. Qed.

Lemma forget_executable_ps_get {DB} `{SledDb DB} `{Bincode StoredAccount} (s : DB) a :
  forget_executable <$> ps_get s a = ps_get s a.
Proof. unfold ps_get. by destruct (db_get s (b32 a) ≫= bincode_deserialize). Qed.

(** C22: applying the diff of a finalized block to the persistent store does
    what the specification says, on every account, except that the executable
    flag of accounts is forgotten. *)
Theorem persistent_store_refines {DB} `{SledDbLaws DB} `{BincodeLaws StoredAccount} (s s' : DB) d a :
  ps_apply s d = Some s' → ps_get s' a = forget_executable <$> apply_spec d (ps_get s) a.
Proof.
  intros Hs. rewrite (ps_get_apply s s' d a Hs). unfold apply_spec. case_bool_decide; [done|].
  destruct (sd_data d !! a) as [acc|]; simpl; [by rewrite of_to_stored|]. by rewrite forget_executable_ps_get.
Qed.

(** A contract account loses its executable flag when the block that
    creates it is finalized. *)
Theorem executable_lost_on_finalization {DB} `{SledDbLaws DB} `{BincodeLaws StoredAccount} (s s' : DB) d a acc acc' :
  ps_apply s d = Some s' → sd_data d !! a = Some acc → executable acc = true → a ∉ sd_deletes d →
  ps_get s' a = Some acc' → executable acc' = false.
Proof.
  intros Hs Ha _ Hdel. rewrite (ps_get_apply s s' d a Hs), bool_decide_false, Ha by done. by intros [= <-].
Qed.

(** ** Witnesses *)

(** A store with one account and a diff that makes another one executable. *)
Module StateExample.
Definition a1 : Pubkey := array32_of_Z 1.
Definition a2 : Pubkey := array32_of_Z 2.
Definition code : Account := MkAccount true 0 (Some a1) (Some [Byte.x01]).
Definition plain : Account := MkAccount false 3 None (Some []).
Definition db0 : gmap bytes bytes := ps_new {[a1 := plain]} ∅.
Definition d1 : StateDiff := (sd_set sd_default a2 code).2.
Definition db1 : gmap bytes bytes := default ∅ (ps_apply db0 d1).
Lemma db1_ok : ps_apply db0 d1 = Some db1.
Proof. reflexivity. Qed.
End StateExample.
Import StateExample.

Lemma overlay_ignores_deletes_witness :
  Overlayed_get (MkOverlayed (λ _, Some plain) (state_get (sd_remove sd_default a1))) a1 = Some plain ∧
  apply_spec (sd_remove sd_default a1) (λ _, Some plain) a1 = None.
Proof.
  apply (overlay_ignores_deletes (λ _, Some plain) (sd_remove sd_default a1) a1 plain); [done|set_solver|done].
Defined.

Lemma persistent_store_refines_witness : ps_get db1 a1 = forget_executable <$> apply_spec d1 (ps_get db0) a1.
Proof. exact (persistent_store_refines db0 db1 d1 a1 db1_ok). Defined.

Lemma executable_lost_on_finalization_witness :
  executable code = true ∧ ∀ acc', ps_get db1 a2 = Some acc' → executable acc' = false.
Proof.
  split; [done|]. intros acc'. apply (executable_lost_on_finalization db0 db1 d1 a2 code acc' db1_ok); [done|done|set_solver].
Defined.

Lemma state_hash_ignores_deletes_witness :
  sd_hash (sd_remove sd_default a1) = sd_hash sd_default ∧
  apply_spec (sd_remove sd_default a1) (λ _, Some plain) a1 = None ∧ apply_spec sd_default (λ _, Some plain) a1 = Some plain.
Proof. apply (state_hash_ignores_deletes sd_default (λ _, Some plain) a1 plain); [done|done|set_solver]. Defined.
