(* ===== verification/Transaction.v ===== *)
(** * Transactions (src/vm/transaction.rs) and limits (src/consensus/genesis.rs) *)
From S2P Require Import Prelude Primitives.
From Stdlib Require Import Strings.Byte.

(** The limits a genesis block configures. Sizes are [usize] values. *)
Record Limits := MkLimits {
  max_justification_age : Z;
  minimum_stake : Z;
  max_input_accounts : nat;
  max_account_size : nat;
  max_log_size : nat;
  max_logs_count : nat;
  max_block_transactions : nat;
  max_contract_size : nat;
  max_block_size : nat;
  max_transaction_params_size : nat
}.

Record AccountRef := MkAccountRef {
  address : Pubkey;
  ref_writable : bool;
  ref_signer : bool
}.

#[export] Instance account_ref_eq_dec : EqDecision AccountRef.
Proof. solve_decision. Defined.

(** [AccountRef::readonly] and [AccountRef::writable]; the address argument may
    fail to convert. *)
Definition AccountRef_readonly (addr : option Pubkey) (signer : bool) : option AccountRef :=
  (λ a, MkAccountRef a false signer) <$> addr.
Definition AccountRef_writable (addr : option Pubkey) (signer : bool) : option AccountRef :=
  (λ a, MkAccountRef a true signer) <$> addr.

Inductive TransactionError := TooManyAccounts | ParamsTooBig.
Inductive SignatureError := InvalidSignature | MissingSigners.

#[export] Instance signature_error_eq_dec : EqDecision SignatureError.
Proof. solve_decision. Defined.

Section transaction.
Context `{Crypto}.

Record Transaction := MkTransaction {
  contract : Pubkey;
  tx_nonce : Z;
  payer : Pubkey;
  accounts : list AccountRef;
  params : bytes;
  signatures : list Signature
}.

#[export] Instance transaction_eq_dec : EqDecision Transaction.
Proof. solve_decision. Defined.

(** [verify_limits] *)
Definition verify_limits (tx : Transaction) (limits : Limits) : Result TransactionError unit :=
  if (max_input_accounts limits <? length (accounts tx))%nat then Err TooManyAccounts
  else if (max_transaction_params_size limits <? length (params tx))%nat then Err ParamsTooBig
  else Ok tt.

(** The bytes a reference to an account contributes to the signed message. *)
Definition account_ref_fields (r : AccountRef) : bytes :=
  b32 (address r) ++ [bool_byte (ref_writable r)] ++ [bool_byte (ref_signer r)].

(** [hash_fields]: the digest every signer of the transaction signs. *)
Definition hash_fields (contract : Pubkey) (nonce : Z) (payer : Pubkey)
    (accounts : list AccountRef) (params : bytes) : bytes :=
  b32 (Sha3_256 (b32 contract ++ u64_le nonce ++ b32 payer
    ++ concat (account_ref_fields <$> accounts) ++ params)).

Definition fields_hash (tx : Transaction) : bytes :=
  hash_fields (contract tx) (tx_nonce tx) (payer tx) (accounts tx) (params tx).

(** [Transaction::hash] *)
Definition tx_hash (tx : Transaction) : Multihash :=
  mh_sha3 (Sha3_256 (b32 (contract tx) ++ u64_le (tx_nonce tx) ++ b32 (payer tx)
    ++ concat ((λ r, b32 (address r) ++ [bool_byte (ref_writable r)]) <$> accounts tx)
    ++ params tx ++ concat (sig_to_bytes <$> signatures tx))).

(** [Transaction::new] *)
Definition Transaction_new (contract : Pubkey) (nonce : Z) (payer : Keypair)
    (accounts : list AccountRef) (params : bytes) (signers : list Keypair) : Transaction :=
  let fields_hash := hash_fields contract nonce (keypair_public payer) accounts params in
  MkTransaction contract nonce (keypair_public payer) accounts params
    (ed25519_sign payer fields_hash :: ((λ s, ed25519_sign s fields_hash) <$> signers)).

(** The addresses that have to sign besides the payer. *)
Definition signing_accs (tx : Transaction) : list Pubkey :=
  address <$> filter (λ a, ref_signer a = true) (accounts tx).

(** [verify_signatures] *)
Definition verify_signatures (tx : Transaction) : Result SignatureError unit :=
  match signatures tx with
  | [] => Err MissingSigners
  | first :: rest =>
      if negb (ed25519_verify (payer tx) (fields_hash tx) first) then Err InvalidSignature
      else
        let expected_signatures := length (signing_accs tx) in
        let signers := zip (signing_accs tx) rest in
        if bool_decide (length signers ≠ expected_signatures) then Err MissingSigners
        else if forallb (λ p, ed25519_verify p.1 (fields_hash tx) p.2) signers then Ok tt
        else Err InvalidSignature
  end.

(** ** Properties *)

(** The signatures that a verified transaction carries. *)
Definition signed_by_all (tx : Transaction) : Prop :=
  ∃ first rest, signatures tx = first :: rest ∧
    ed25519_verify (payer tx) (fields_hash tx) first = true ∧
    ∀ i pk, signing_accs tx !! i = Some pk →
      ∃ s, rest !! i = Some s ∧ ed25519_verify pk (fields_hash tx) s = true.

Lemma zip_full_lookup {A B} (l : list A) (k : list B) :
  length (zip l k) = length l ↔ (length l ≤ length k)%nat.
Proof. rewrite length_zip_with. lia. Qed.

Lemma verify_signatures_lemma tx : verify_signatures tx = Ok tt ↔ signed_by_all tx.
Proof.
  unfold verify_signatures, signed_by_all. destruct (signatures tx) as [|first rest]; [naive_solver|].
  destruct (ed25519_verify (payer tx) (fields_hash tx) first) eqn:Hp; simpl;
    [|split; [done|intros (? & ? & [= <- <-] & ? & ?); congruence]].
  generalize (signing_accs tx) as k. intros k.
  case_bool_decide as Hlen.
  - split; [done|]. intros (? & ? & [= <- <-] & _ & Hall). destruct Hlen.
    apply zip_full_lookup. destruct (le_lt_dec (length k) (length rest)) as [|Hlt]; [done|].
    destruct (lookup_lt_is_Some_2 k (length rest) Hlt) as [pk Hpk].
    apply Hall in Hpk as (s & Hs & _). apply lookup_lt_Some in Hs. lia.
  - apply zip_full_lookup in Hlen.
    destruct (forallb _ _) eqn:Hf.
    + split; [intros _|done]. exists first, rest. split_and!; [done..|]. intros i pk Hpk.
      destruct (lookup_lt_is_Some_2 rest i) as [s Hs]; [apply lookup_lt_Some in Hpk; lia|].
      exists s. split; [done|]. rewrite forallb_forall in Hf. apply (Hf (pk, s)). apply list_elem_of_In.
      apply list_elem_of_lookup. exists i. apply lookup_zip_with_Some. eauto.
    + split; [done|]. intros (? & ? & [= <- <-] & _ & Hall). exfalso.
      apply not_true_iff_false in Hf. apply Hf. apply forallb_forall. intros [pk s] Hin%list_elem_of_In.
      apply list_elem_of_lookup in Hin as [i Hi]. apply lookup_zip_with_Some in Hi as (pk' & s' & [= -> ->] & Hpk & Hs).
      apply Hall in Hpk as (s2 & Hs2 & Hv). simpl. by simplify_eq.
Qed.

Lemma account_ref_fields_move accs r ps :
  concat (account_ref_fields <$> (accs ++ [r])) ++ ps = concat (account_ref_fields <$> accs) ++ account_ref_fields r ++ ps.
Proof. rewrite fmap_app, concat_app. simpl. by rewrite app_nil_r, <-app_assoc. Qed.

Lemma signing_accs_snoc tx accs r :
  accounts tx = accs ++ [r] → ref_signer r = false →
  signing_accs tx = address <$> filter (λ a, ref_signer a = true) accs.
Proof.
  intros Ha Hr. unfold signing_accs. rewrite Ha, filter_app, fmap_app.
  rewrite (filter_cons_False _ r []) by (by rewrite Hr). simpl. by rewrite app_nil_r.
Qed.

(** Signature verification accepts exactly the transactions that carry,
    first, a valid signature of the payer and then, in order, one of every
    account listed as a signer; extra signatures are ignored. *)
Theorem verify_signatures_iff tx : verify_signatures tx = Ok tt ↔ signed_by_all tx.
Proof. apply verify_signatures_lemma. Qed.

(** A transaction created with the keys of its payer and of the accounts
    it lists as signers, in their order, passes verification. *)
Theorem new_transaction_verifies `{!CryptoLaws} contract nonce payer accounts params signers :
  keypair_public <$> signers = address <$> filter (λ a, ref_signer a = true) accounts →
  verify_signatures (Transaction_new contract nonce payer accounts params signers) = Ok tt.
Proof.
  intros Hs. apply verify_signatures_lemma. unfold signed_by_all, signing_accs, fields_hash. simpl.
  eexists _, _. split_and!; [reflexivity|apply sign_verify|]. rewrite <-Hs. intros i pk Hpk.
  apply list_lookup_fmap_Some in Hpk as (kp & -> & Hkp). eexists. rewrite list_lookup_fmap, Hkp.
  split; [reflexivity|apply sign_verify].
Qed.

(** The signed message does not separate accounts from parameters: when
    the last account a transaction lists is not a signer, the transaction
    that drops it and puts its encoding in front of the parameters passes
    verification with the very same signatures, although nobody signed it. *)
Theorem signatures_do_not_bind_accounts tx accs r :
  verify_signatures tx = Ok tt → accounts tx = accs ++ [r] → ref_signer r = false →
  let tx' := MkTransaction (contract tx) (tx_nonce tx) (payer tx) accs (account_ref_fields r ++ params tx) (signatures tx) in
  verify_signatures tx' = Ok tt ∧ length (accounts tx') ≠ length (accounts tx) ∧ params tx' ≠ params tx.
Proof.
  intros Hv Ha Hr. cbv zeta. split_and!.
  - assert (fields_hash (MkTransaction (contract tx) (tx_nonce tx) (payer tx) accs (account_ref_fields r ++ params tx)
      (signatures tx)) = fields_hash tx) as Hh.
    { unfold fields_hash, hash_fields. simpl. by rewrite Ha, account_ref_fields_move. }
    apply verify_signatures_lemma in Hv. apply verify_signatures_lemma. unfold signed_by_all in *. rewrite Hh.
    by rewrite (signing_accs_snoc tx accs r Ha Hr) in Hv.
  - rewrite Ha, length_app. simpl. lia.
  - simpl. intros Hp%(f_equal length). rewrite length_app in Hp. unfold account_ref_fields in Hp.
    rewrite !length_app, b32_len in Hp. simpl in Hp. lia.
Qed.
End transaction.

(** ** Witnesses *)

Definition example_accounts : list AccountRef :=
  [MkAccountRef (array32_of_Z 3) true true; MkAccountRef (array32_of_Z 4) true false].
Definition example_tx : Transaction :=
  Transaction_new (array32_of_Z 1) 0 (toy_key 3) example_accounts [x01] [toy_key 3].

Lemma new_transaction_verifies_witness : verify_signatures example_tx = Ok tt.
Proof.
  apply (new_transaction_verifies (array32_of_Z 1) 0 (toy_key 3) example_accounts [x01] [toy_key 3]).
  reflexivity.
Defined.

Lemma signatures_do_not_bind_accounts_witness :
  verify_signatures (MkTransaction (contract example_tx) 0 (payer example_tx) [MkAccountRef (array32_of_Z 3) true true]
    (account_ref_fields (MkAccountRef (array32_of_Z 4) true false) ++ [x01]) (signatures example_tx)) = Ok tt.
Proof.
  apply (signatures_do_not_bind_accounts example_tx [MkAccountRef (array32_of_Z 3) true true]
    (MkAccountRef (array32_of_Z 4) true false)); [|reflexivity|reflexivity].
  apply verify_signatures_lemma. eexists _, _. split_and!; [reflexivity|vm_compute; reflexivity|].
  intros i pk Hpk. destruct i as [|i]; [|done]. injection Hpk as <-. eexists. split; [reflexivity|vm_compute; reflexivity].
Defined.
