(* ===== verification/Contract.v ===== *)
(** * The contract interface (src/vm/contract.rs) and executed output (src/vm/output.rs) *)
From S2P Require Import Prelude Primitives State Transaction.
From Stdlib Require Import Strings.Byte.

Inductive ContractError :=
  | InvalidTransactionNonce
  | AccountAlreadyExists
  | AccountDoesNotExist
  | TooManyInputAccounts
  | AccountTooLarge
  | LogTooLarge
  | TooManyLogs
  | InvalidInputAccounts
  | InvalidAccountOwner
  | InvalidOutputAccount
  | AccountNotWritable
  | ContractDoesNotExit
  | AccountIsNotExecutable
  | ContractSignatureError (e : SignatureError)
  | InvalidInputParameters
  | UnauthorizedOperation
  | Runtime (msg : string)
  | Other (msg : string)
  | ComputationalBudgetExhausted.

#[export] Instance contract_error_eq_dec : EqDecision ContractError.
Proof. solve_decision. Defined.

Record AccountView := MkAccountView {
  view_signer : bool;
  view_writable : bool;
  view_executable : bool;
  view_owner : option Pubkey;
  view_data : option bytes
}.

Inductive Output :=
  | LogEntry (key value : string)
  | CreateOwnedAccount (addr : Pubkey) (data : option bytes)
  | WriteAccountData (addr : Pubkey) (data : option bytes)
  | DeleteOwnedAccount (addr : Pubkey)
  | ContractInvoke (contract : Pubkey) (accounts : list AccountRef) (params : bytes)
  | CreateExecutableAccount (addr : Pubkey) (bytecode : bytes).

#[export] Instance output_eq_dec : EqDecision Output.
Proof. solve_decision. Defined.

Record Environment := MkEnvironment {
  caller : option Pubkey;
  env_address : Pubkey;
  env_accounts : list (Pubkey * AccountView)
}.

(** [contract::Result] *)
Abbreviation ContractResult := (Result ContractError (list Output)).

(** [borsh]: serialization into a vector, and its two readers, one that demands
    the whole slice and one that leaves the rest of it alone. *)
Class Borsh (A : Type) := {
  try_to_vec : A → Result string bytes;
  try_from_slice : bytes → option A;
  borsh_deserialize : bytes → option A
}.
Class BorshLaws (A : Type) `{Borsh A} : Prop := {
  borsh_roundtrip : ∀ (a : A) b, try_to_vec a = Ok b → try_from_slice b = Some a
}.

(** An executable codec, for evaluation, which refuses in both directions the
    values that a machine cannot hold. *)
Definition toy_decode {A} `{Countable A} (valid : A → bool) (l : bytes) : option A :=
  a ← decode (bytes_pos l); if valid a then Some a else None.

Definition toy_borsh {A} `{Countable A} (valid : A → bool) : Borsh A := {|
  try_to_vec a := if valid a then Ok (pos_bytes (encode a)) else Err "out of range";
  try_from_slice := toy_decode valid;
  borsh_deserialize := toy_decode valid
|}.

Lemma toy_borsh_laws {A} `{Countable A} (valid : A → bool) : @BorshLaws A (toy_borsh valid).
Proof.
  constructor. intros a b. simpl. destruct (valid a) eqn:E; intros; simplify_eq.
  unfold toy_decode. rewrite bytes_pos_bytes, decode_encode. simpl. by rewrite E.
Qed.

Lemma toy_decode_valid {A} `{Countable A} (valid : A → bool) l a : toy_decode valid l = Some a → valid a = true.
Proof. unfold toy_decode. destruct (decode (bytes_pos l)) as [x|]; simpl; [|done]. destruct (valid x) eqn:E; naive_solver. Qed.

(** ** Output of transactions and blocks *)

(** The result of a transaction. *)
Record TransactionOutput := MkTxOutput {
  state_diff : StateDiff;
  log_entries : list (string * string)
}.

Definition txout_default : TransactionOutput := MkTxOutput sd_default [].

(** [TransactionOutput::merge] *)
Definition txout_merge (self newer : TransactionOutput) : TransactionOutput :=
  MkTxOutput (merge (state_diff self) (state_diff newer)) (log_entries self ++ log_entries newer).

Section output.
Context `{Crypto}.

Record BlockOutput := MkBlockOutput {
  out_state : StateDiff;
  out_logs : list (Multihash * list (string * string));
  out_errors : list (Multihash * ContractError)
}.

Definition str_bytes (s : string) : bytes := String.list_byte_of_string s.

(** [LogsMap::hash] *)
Definition logs_hash (m : list (Multihash * list (string * string))) : Multihash :=
  mh_sha3 (Sha3_256 (concat ((λ p : Multihash * list (string * string),
    mh_to_bytes p.1 ++ concat ((λ l : string * string, str_bytes l.1 ++ str_bytes l.2) <$> p.2)) <$> m))).

(** [thiserror]'s [Display] of an error. *)
Definition contract_error_to_string (e : ContractError) : string :=
  match e with
  | InvalidTransactionNonce => "Invalid transaction nonce value for this payer"
  | AccountAlreadyExists => "Account already exists"
  | AccountDoesNotExist => "Account does not exist"
  | TooManyInputAccounts => "The number of input accounts exceeds the maximum limit"
  | AccountTooLarge => "Account is exceeding the maximum size limit"
  | LogTooLarge => "Log is exceeding the maximum size limit"
  | TooManyLogs => "Logs count for this transaction is exceeding the maximum limit"
  | InvalidInputAccounts => "Invalid contract input accounts"
  | InvalidAccountOwner => "Attempt to modify an account not owned by the contract"
  | InvalidOutputAccount => "Contract attempting to write to an account not in the transaction accounts list"
  | AccountNotWritable => "The specified account is not writable"
  | ContractDoesNotExit => "Contract does not exit"
  | AccountIsNotExecutable => "The called account is not executable"
  | ContractSignatureError InvalidSignature => "Signature Error: Signature verification failed"
  | ContractSignatureError MissingSigners => "Signature Error: Missing Signers"
  | InvalidInputParameters => "Invalid contract input paramters data"
  | UnauthorizedOperation => "This contract is not allowed to perform this operation"
  | Runtime msg => "Runtime Error: " +:+ msg
  | Other msg => "Contract error: " +:+ msg
  | ComputationalBudgetExhausted => "The transaction has used up all compute units before completing"
  end.

(** [ErrorsMap::hash] *)
Definition errors_hash (m : list (Multihash * ContractError)) : Multihash :=
  mh_sha3 (Sha3_256 (concat ((λ p : Multihash * ContractError,
    mh_to_bytes p.1 ++ str_bytes (contract_error_to_string p.2)) <$> m))).

(** [BlockOutput::hash], declared in the header of a block. *)
Definition block_output_hash (o : BlockOutput) : Multihash :=
  mh_sha3 (Sha3_256 (mh_to_bytes (sd_hash (out_state o))
    ++ mh_to_bytes (logs_hash (out_logs o)) ++ mh_to_bytes (errors_hash (out_errors o)))).
End output.

Lemma txout_merge_default_l o : txout_merge txout_default o = o.
Proof. destruct o. unfold txout_merge. simpl. by rewrite merge_default_l. Qed.

Lemma txout_merge_default_r o : txout_merge o txout_default = o.
Proof. destruct o. unfold txout_merge. simpl. by rewrite merge_default_r, app_nil_r. Qed.

Lemma txout_merge_assoc a b c : txout_merge a (txout_merge b c) = txout_merge (txout_merge a b) c.
Proof. unfold txout_merge. simpl. by rewrite merge_assoc_lemma, (assoc_L (++)). Qed.

#[export] Hint Rewrite txout_merge_default_l txout_merge_default_r : rensa_inv.

(** ** What a list of outputs means for account contents

    The contents of accounts as contracts see them, and the contents after the
    outputs of a contract have been carried out in order. This is the
    specification that the contracts are compared with; the virtual machine's
    own processing of outputs is in [Unit]. *)
Abbreviation Contents := (Pubkey → option bytes).

Definition set_contents (v : Contents) (a : Pubkey) (d : option bytes) : Contents :=
  λ b, if bool_decide (a = b) then d else v b.

Definition output_effect (v : Contents) (o : Output) : Contents :=
  match o with
  | CreateOwnedAccount a d | WriteAccountData a d => set_contents v a d
  | DeleteOwnedAccount a => set_contents v a None
  | CreateExecutableAccount a code => set_contents v a (Some code)
  | LogEntry _ _ | ContractInvoke _ _ _ => v
  end.

Definition outputs_effect (outs : list Output) (v : Contents) : Contents := foldl output_effect v outs.

(** The environment shows the contents it was built from. *)
Definition env_shows (env : Environment) (v : Contents) : Prop :=
  ∀ a view, (a, view) ∈ env_accounts env → view_data view = v a.

(** The account an output writes to. *)
Definition output_target (o : Output) : option Pubkey :=
  match o with
  | CreateOwnedAccount a _ | WriteAccountData a _ | DeleteOwnedAccount a | CreateExecutableAccount a _ => Some a
  | LogEntry _ _ | ContractInvoke _ _ _ => None
  end.

Lemma set_contents_eq v a d : set_contents v a d a = d.
Proof. unfold set_contents. by rewrite bool_decide_true. Qed.

Lemma set_contents_ne v a d b : a ≠ b → set_contents v a d b = v b.
Proof. intros. unfold set_contents. by rewrite bool_decide_false. Qed.

#[export] Hint Rewrite set_contents_eq : rensa_inv.


Lemma outputs_effect_untouched outs v a :
  a ∉ omap output_target outs → outputs_effect outs v a = v a.
Proof.
  revert v. induction outs as [|o outs IH]; intros v Ha; [done|].
  simpl in *. destruct o; simpl in *; try (rewrite not_elem_of_cons in Ha; destruct Ha as [Hne Ha]);
    rewrite IH by done; try done; by apply set_contents_ne.
Qed.
