(* ===== verification/Currency.v ===== *)
(** * The native currency contract (src/vm/builtin/currency.rs)

    The operations of the contract on an [Environment], an abstract token
    ledger, and the refinement between the two. *)
From S2P Require Import Prelude Primitives State Transaction Contract.

Record Mint := MkMint {
  authority : option Pubkey;
  supply : Z;
  decimals : Z;
  name : option string;
  symbol : option string
}.

Record CoinAccount := MkCoin {
  coin_mint : Pubkey;
  coin_owner : Pubkey;
  balance : Z
}.

#[export] Instance mint_eq_dec : EqDecision Mint.
Proof. solve_decision. Defined.
#[export] Instance coin_eq_dec : EqDecision CoinAccount.
Proof. solve_decision. Defined.

Inductive Instruction :=
  | Create (seed : array32) (authority : Pubkey) (decimals : Z) (name symbol : option string)
  | MintCoins (amount : Z)
  | Transfer (amount : Z)
  | Burn (amount : Z)
  | SetAuthority (authority : option Pubkey).

Section currency.
Context `{Crypto} `{Borsh Mint} `{Borsh CoinAccount} `{Borsh Instruction}.

Definition pubkey_to_string (a : Pubkey) : string := bs58_encode (b32 a).
Definition u64_to_string (z : Z) : string := pretty (Z.to_N z).

(** [value.try_to_vec()?]: the I/O error becomes [ContractError::Other]. *)
Definition to_vec {A} `{Borsh A} (a : A) : Result ContractError bytes := map_err Other (try_to_vec a).

Definition bad_length (s : option string) (max : nat) : bool :=
  match s with
  | Some s => (String.length s =? 0)%nat || (max <? String.length s)%nat
  | None => false
  end.

Definition process_create (env : Environment) (seed : bytes) (auth : Pubkey) (decs : Z)
    (nm sym : option string) : ContractResult :=
  match env_accounts env with
  | [(addr, value)] =>
      let expected_mint_address := derive (env_address env) [seed] in
      _ ← reject_if (bool_decide (expected_mint_address ≠ addr)) InvalidInputAccounts;
      _ ← reject_if (bool_decide (is_Some (view_data value)) || bool_decide (is_Some (view_owner value)))
            AccountAlreadyExists;
      _ ← reject_if (bad_length sym 10) InvalidInputParameters;
      _ ← reject_if (bad_length nm 64) InvalidInputParameters;
      _ ← reject_if (20 <? decs) InvalidInputParameters;
      let spec := MkMint (Some auth) 0 decs nm sym in
      spec_bytes ← map_err (λ _, InvalidInputParameters) (try_to_vec spec);
      Ok [ CreateOwnedAccount expected_mint_address (Some spec_bytes);
           LogEntry "action" "create";
           LogEntry "address" (pubkey_to_string addr);
           LogEntry "name" (default "" nm);
           LogEntry "symbol" (default "" sym);
           LogEntry "decimals" (u64_to_string decs) ]
  | _ => Err InvalidInputAccounts
  end.

Definition read_coin_mint (addr : Pubkey) (acc : AccountView) (env : Environment) : Result ContractError Mint :=
  if has_private_key addr then Err InvalidInputAccounts else
  match view_owner acc with
  | Some owner =>
      if bool_decide (owner ≠ env_address env) then Err InvalidAccountOwner else
      match view_data acc with
      | Some data => ok_or (try_from_slice data) InvalidInputAccounts
      | None => Err InvalidInputAccounts
      end
  | None => Err InvalidAccountOwner
  end.

Definition read_coin_account (coin_addr : Pubkey) (coin_acc : AccountView) (mint_addr wallet_addr : Pubkey)
    (env : Environment) : Result ContractError (option CoinAccount) :=
  _ ← reject_if (bool_decide (coin_addr ≠ derive (env_address env) [b32 mint_addr; b32 wallet_addr]))
        InvalidInputAccounts;
  _ ← reject_if (match view_owner coin_acc with
                 | Some owner => bool_decide (owner ≠ env_address env)
                 | None => false
                 end) InvalidAccountOwner;
  match view_data coin_acc with
  | Some data =>
      coin ← ok_or (try_from_slice (A := CoinAccount) data) InvalidInputAccounts;
      _ ← reject_if (bool_decide (mint_addr ≠ coin_mint coin)) InvalidInputAccounts;
      _ ← reject_if (bool_decide (wallet_addr ≠ coin_owner coin)) InvalidAccountOwner;
      Ok (Some coin)
  | None => Ok None
  end.

Definition set_balance (c : CoinAccount) (b : Z) : CoinAccount := MkCoin (coin_mint c) (coin_owner c) b.
Definition set_supply (m : Mint) (s : Z) : Mint := MkMint (authority m) s (decimals m) (name m) (symbol m).
Definition set_mint_authority (m : Mint) (a : option Pubkey) : Mint :=
  MkMint a (supply m) (decimals m) (name m) (symbol m).

(** Crediting the recipient, at the end of [process_mint] and of
    [process_transfer]: an existing coin account is rewritten, a missing one
    is created. *)
Definition credit_output (coin : option CoinAccount) (coin_addr mint_addr wallet_addr : Pubkey) (amount : Z) :
    Result ContractError Output :=
  match coin with
  | Some coin =>
      bs ← to_vec (set_balance coin (saturating_add (balance coin) amount));
      Ok (WriteAccountData coin_addr (Some bs))
  | None =>
      bs ← to_vec (MkCoin mint_addr wallet_addr amount);
      Ok (CreateOwnedAccount coin_addr (Some bs))
  end.

Definition process_mint (env : Environment) (amount : Z) : ContractResult :=
  match env_accounts env with
  | [(mint_addr, mint_data); (auth_addr, auth_acc); (wallet_addr, _); (coin_addr, coin_acc)] =>
      _ ← reject_if (amount =? 0) InvalidInputParameters;
      mint ← read_coin_mint mint_addr mint_data env;
      _ ← match authority mint with
          | Some mint_authority =>
              _ ← reject_if (bool_decide (mint_authority ≠ auth_addr))
                    (Other "account not authorized to mint new coins of this currency");
              reject_if (negb (view_signer auth_acc)) (ContractSignatureError MissingSigners)
          | None => Err (Other "Minting new coins is disabled for this currency")
          end;
      coin ← read_coin_account coin_addr coin_acc mint_addr wallet_addr env;
      credit ← credit_output coin coin_addr mint_addr wallet_addr amount;
      mint_bytes ← to_vec (set_supply mint (saturating_add (supply mint) amount));
      Ok [ LogEntry "action" "mint";
           LogEntry "to" (pubkey_to_string wallet_addr);
           LogEntry "amount" (u64_to_string amount);
           credit;
           WriteAccountData mint_addr (Some mint_bytes) ]
  | _ => Err InvalidInputAccounts
  end.

(** The dust collection at the end of debits. *)
Definition collect_dust (coin_addr : Pubkey) (new_balance : Z) : list Output :=
  if new_balance =? 0 then [DeleteOwnedAccount coin_addr] else [].

Definition process_transfer (env : Environment) (amount : Z) : ContractResult :=
  match env_accounts env with
  | [(mint_addr, mint_acc); (sender_wallet_addr, sender_wallet_acc); (sender_coin_addr, sender_coin_acc);
     (recipient_wallet_addr, _); (recipient_coin_addr, recipient_coin_acc)] =>
      _ ← reject_if (amount =? 0) InvalidInputParameters;
      _ ← read_coin_mint mint_addr mint_acc env;
      sender ← read_coin_account sender_coin_addr sender_coin_acc mint_addr sender_wallet_addr env;
      match sender with
      | None => Err AccountDoesNotExist
      | Some sender_coin =>
          _ ← reject_if (negb (view_signer sender_wallet_acc)) (ContractSignatureError MissingSigners);
          _ ← reject_if (balance sender_coin <? amount) (Other "Not enough balance in sender's account");
          let new_balance := saturating_sub (balance sender_coin) amount in
          sender_bytes ← to_vec (set_balance sender_coin new_balance);
          recipient ← read_coin_account recipient_coin_addr recipient_coin_acc mint_addr recipient_wallet_addr env;
          credit ← credit_output recipient recipient_coin_addr mint_addr recipient_wallet_addr amount;
          Ok ([ LogEntry "action" "transfer";
                LogEntry "from" (pubkey_to_string sender_wallet_addr);
                LogEntry "coin" (pubkey_to_string mint_addr);
                LogEntry "to" (pubkey_to_string recipient_wallet_addr);
                LogEntry "amount" (u64_to_string amount);
                WriteAccountData sender_coin_addr (Some sender_bytes) ]
              ++ collect_dust sender_coin_addr new_balance ++ [credit])
      end
  | _ => Err InvalidInputAccounts
  end.

Definition process_burn (env : Environment) (amount : Z) : ContractResult :=
  match env_accounts env with
  | [(mint_addr, mint_acc); (wallet_addr, wallet_acc); (coin_addr, coin_acc)] =>
      _ ← reject_if (amount =? 0) InvalidInputParameters;
      mint ← read_coin_mint mint_addr mint_acc env;
      found ← read_coin_account coin_addr coin_acc mint_addr wallet_addr env;
      match found with
      | None => Err AccountDoesNotExist
      | Some coin =>
          _ ← reject_if (negb (view_signer wallet_acc)) (ContractSignatureError MissingSigners);
          _ ← reject_if (balance coin <? amount) (Other "Not enough balance in sender's account");
          let new_supply := saturating_sub (supply mint) amount in
          let new_balance := saturating_sub (balance coin) amount in
          mint_bytes ← to_vec (set_supply mint new_supply);
          coin_bytes ← to_vec (set_balance coin new_balance);
          Ok ([ LogEntry "action" "burn";
                LogEntry "wallet" (pubkey_to_string wallet_addr);
                LogEntry "amount" (u64_to_string amount);
                LogEntry "coin" (pubkey_to_string mint_addr);
                WriteAccountData mint_addr (Some mint_bytes);
                WriteAccountData coin_addr (Some coin_bytes) ]
              ++ collect_dust coin_addr new_balance)
      end
  | _ => Err InvalidInputAccounts
  end.

Definition process_set_authority (env : Environment) (auth : option Pubkey) : ContractResult :=
  match env_accounts env with
  | [(mint_addr, mint_acc); (current_auth_addr, current_auth_acc)] =>
      mint ← read_coin_mint mint_addr mint_acc env;
      match authority mint with
      | Some existing_authority =>
          _ ← reject_if (bool_decide (existing_authority ≠ current_auth_addr))
                (Other "account not authorized to change mint authority");
          _ ← reject_if (negb (view_signer current_auth_acc)) (ContractSignatureError MissingSigners);
          mint_bytes ← to_vec (set_mint_authority mint auth);
          Ok [ LogEntry "action" "set-authority";
               LogEntry "coin.address" (pubkey_to_string mint_addr);
               LogEntry "coin.name" (default "" (name mint));
               LogEntry "coin.symbol" (default "" (symbol mint));
               LogEntry "to" (match auth with Some a => pubkey_to_string a | None => "" end);
               WriteAccountData mint_addr (Some mint_bytes) ]
      | None => Err (Other "Authority has been removed for this coin")
      end
  | _ => Err InvalidInputAccounts
  end.

(** The entry point of the contract. *)
Definition currency_contract (env : Environment) (params : bytes) : ContractResult :=
  instruction ← ok_or (borsh_deserialize params) InvalidInputParameters;
  match instruction with
  | Create seed auth decs nm sym => process_create env (b32 seed) auth decs nm sym
  | MintCoins amount => process_mint env amount
  | Transfer amount => process_transfer env amount
  | Burn amount => process_burn env amount
  | SetAuthority account => process_set_authority env account
  end.
End currency.

(** ** Executable codecs *)

Definition u64_valid (z : Z) : bool := (0 <=? z) && (z <=? u64_max).

Lemma u64_valid_true z : u64_valid z = true → is_u64 z.
Proof. unfold u64_valid, is_u64. lia. Qed.

#[export] Program Instance mint_countable : Countable Mint :=
  inj_countable' (λ m, (authority m, supply m, decimals m, name m, symbol m))
    (λ '(a, s, d, n, y), MkMint a s d n y) _.
Next Obligation. by intros []. Qed.

#[export] Program Instance coin_countable : Countable CoinAccount :=
  inj_countable' (λ c, (coin_mint c, coin_owner c, balance c)) (λ '(m, o, b), MkCoin m o b) _.
Next Obligation. by intros []. Qed.

#[export] Instance instruction_eq_dec : EqDecision Instruction.
Proof. solve_decision. Defined.

#[export] Program Instance instruction_countable : Countable Instruction :=
  inj_countable' (λ i, match i with
    | Create s a d n y => inl (s, a, d, n, y)
    | MintCoins n => inr (inl n)
    | Transfer n => inr (inr (inl n))
    | Burn n => inr (inr (inr (inl n)))
    | SetAuthority a => inr (inr (inr (inr a)))
    end)
    (λ c, match c with
    | inl (s, a, d, n, y) => Create s a d n y
    | inr (inl n) => MintCoins n
    | inr (inr (inl n)) => Transfer n
    | inr (inr (inr (inl n))) => Burn n
    | inr (inr (inr (inr a))) => SetAuthority a
    end) _.
Next Obligation. by intros []. Qed.

(** The amount an instruction carries. *)
Definition instruction_amount (i : Instruction) : Z :=
  match i with MintCoins n | Transfer n | Burn n => n | Create _ _ _ _ _ | SetAuthority _ => 0 end.

#[export] Instance toy_mint_borsh : Borsh Mint := toy_borsh (λ m, u64_valid (supply m)).
#[export] Instance toy_coin_borsh : Borsh CoinAccount := toy_borsh (λ c, u64_valid (balance c)).
#[export] Instance toy_instruction_borsh : Borsh Instruction := toy_borsh (λ i, u64_valid (instruction_amount i)).
#[export] Instance toy_mint_laws : BorshLaws Mint := toy_borsh_laws _.
#[export] Instance toy_coin_laws : BorshLaws CoinAccount := toy_borsh_laws _.

(** What decoding promises about machine integers. *)
Class CurrencyCodec `{Borsh Mint} `{Borsh CoinAccount} `{Borsh Instruction} : Prop := {
  mint_u64 : ∀ b (x : Mint), try_from_slice b = Some x → is_u64 (supply x);
  coin_u64 : ∀ b (x : CoinAccount), try_from_slice b = Some x → is_u64 (balance x);
  amount_u64 : ∀ b (i : Instruction), borsh_deserialize b = Some i → is_u64 (instruction_amount i)
}.

#[export] Instance toy_currency_codec : CurrencyCodec.
Proof. split; intros b x Hx%toy_decode_valid; by apply u64_valid_true. Qed.
