(* ===== verification/CurrencyProps.v ===== *)
(** * The currency contract refines a token ledger

    Reading a contents map through the contract's own serialization gives the
    supply of each mint and the balance of each coin account; every successful
    instruction moves these numbers the way a ledger does. *)
From S2P Require Import Prelude Primitives State Transaction Contract Currency.

Section ledger.
Context `{Crypto} `{BorshLaws Mint} `{BorshLaws CoinAccount} `{Borsh Instruction}.
Implicit Types (v : Contents) (m c : Pubkey) (env : Environment).

(** ** The abstract ledger *)

Definition mint_in v m : option Mint := v m ≫= try_from_slice (A := Mint).
Definition supply_in v m : Z := match mint_in v m with Some x => supply x | None => 0 end.
Definition balance_in v c : Z :=
  match v c ≫= try_from_slice (A := CoinAccount) with Some x => balance x | None => 0 end.

(** Adding [n] to one entry of a ledger. *)
Definition ledger_add (b : Pubkey → Z) c (n : Z) : Pubkey → Z :=
  λ a, if bool_decide (c = a) then b a + n else b a.
Definition ledger_transfer (b : Pubkey → Z) (from to : Pubkey) (n : Z) : Pubkey → Z :=
  ledger_add (ledger_add b from (- n)) to n.

Definition total (b : Pubkey → Z) (cs : list Pubkey) : Z := sum_Z (b <$> cs).

Lemma total_ext b b' cs : (∀ c, c ∈ cs → b c = b' c) → total b cs = total b' cs.
Proof. intros Hb. unfold total. f_equal. apply list_fmap_ext. intros i x Hi. apply Hb. by eapply list_elem_of_lookup_2. Qed.

Lemma total_cons b a cs : total b (a :: cs) = b a + total b cs.
Proof. done. Qed.

Lemma total_add b cs c n : NoDup cs → c ∈ cs → total (ledger_add b c n) cs = total b cs + n.
Proof.
  intros Hnd Hc. induction Hnd as [|a cs Ha Hnd IH]; [by apply not_elem_of_nil in Hc|].
  rewrite !total_cons. apply elem_of_cons in Hc as [->|Hc].
  - rewrite (total_ext (ledger_add b a n) b cs).
    + unfold ledger_add. rewrite bool_decide_true by done. lia.
    + intros c' Hc'. unfold ledger_add. rewrite bool_decide_false; [done|]. by intros ->.
  - rewrite IH by done. unfold ledger_add at 1. rewrite bool_decide_false by (by intros ->). lia.
Qed.

(** ** Reading accounts *)

Definition coin_balance (o : option CoinAccount) : Z := default 0 (balance <$> o).

Lemma read_coin_account_balance ca view m w env v o :
  read_coin_account ca view m w env = Ok o → view_data view = v ca →
  balance_in v ca = coin_balance o ∧ ca = derive (env_address env) [b32 m; b32 w].
Proof.
  unfold read_coin_account, balance_in, coin_balance. intros Hr <-.
  apply bind_ok in Hr as ([] & Hca%reject_if_ok%bool_decide_eq_false%dec_stable & Hr).
  apply bind_ok in Hr as ([] & _ & Hr). split; [|done].
  destruct (view_data view) as [d|]; simpl; [|by result_inv].
  apply bind_ok in Hr as (coin & Hcoin%ok_or_ok & Hr). rewrite Hcoin.
  by result_inv.
Qed.

Lemma read_coin_mint_in m view env v mint :
  read_coin_mint m view env = Ok mint → view_data view = v m →
  mint_in v m = Some mint.
Proof.
  unfold read_coin_mint, mint_in. intros Hr <-.
  destruct (has_private_key m); [done|]. destruct (view_owner view); [|done].
  case_bool_decide; [done|]. destruct (view_data view); [|done].
  by result_inv.
Qed.

(** ** What the outputs do *)

Lemma to_vec_inv {A} `{BorshLaws A} (a : A) b : to_vec a = Ok b → try_from_slice b = Some a.
Proof. unfold to_vec. intros. result_inv. by apply borsh_roundtrip. Qed.

Lemma balance_in_coin v c b x : v c = Some b → try_from_slice b = Some x → balance_in v c = balance x.
Proof. intros Hv Hx. unfold balance_in. rewrite Hv. simpl. by rewrite Hx. Qed.

Lemma mint_in_eq v m b x : v m = Some b → try_from_slice b = Some x → mint_in v m = Some x.
Proof. intros Hv Hx. unfold mint_in. by rewrite Hv. Qed.

Lemma balance_in_cong v v' c : v c = v' c → balance_in v c = balance_in v' c.
Proof. unfold balance_in. by intros ->. Qed.

Lemma mint_in_cong v v' m : v m = v' m → mint_in v m = mint_in v' m.
Proof. unfold mint_in. by intros ->. Qed.

Lemma credit_effect coin ca m w n o v :
  credit_output coin ca m w n = Ok o → n ≤ u64_max →
  (∀ c, c ≠ ca → outputs_effect [o] v c = v c) ∧
  balance_in (outputs_effect [o] v) ca = saturating_add (coin_balance coin) n.
Proof.
  unfold credit_output. intros Hc Hn. destruct coin as [coin|]; simpl in *; result_inv; simpl;
    (split; [intros; by apply set_contents_ne|]);
    (erewrite balance_in_coin; [|apply set_contents_eq|by apply to_vec_inv]); simpl; [done|].
  unfold coin_balance. simpl. by rewrite saturating_add_exact.
Qed.

Lemma outputs_effect_app o1 o2 v : outputs_effect (o1 ++ o2) v = outputs_effect o2 (outputs_effect o1 v).
Proof. apply foldl_app. Qed.

(** Writing back a reduced balance and collecting dust. *)
Lemma debit_effect coin ca n bs v :
  to_vec (set_balance coin n) = Ok bs →
  (∀ c, c ≠ ca → outputs_effect (WriteAccountData ca (Some bs) :: collect_dust ca n) v c = v c) ∧
  balance_in (outputs_effect (WriteAccountData ca (Some bs) :: collect_dust ca n) v) ca = n.
Proof.
  intros Hb%to_vec_inv. unfold collect_dust. destruct (n =? 0) eqn:E; simpl.
  - apply Z.eqb_eq in E. split; [intros; by rewrite !set_contents_ne|].
    unfold balance_in. by rewrite set_contents_eq.
  - split; [intros; by apply set_contents_ne|].
    by erewrite balance_in_coin; [|apply set_contents_eq|exact Hb].
Qed.

(** ** Successful instructions

    Each relation says what a successful run has checked, in terms of the
    contents the environment shows, and the writes its outputs perform. *)

Inductive transfer_ok env v (n : Z) (outs : list Output) : Prop :=
  | TransferOk m mv sw swv sc scv rw rwv rc rcv coin recipient bs credit :
      env_accounts env = [(m, mv); (sw, swv); (sc, scv); (rw, rwv); (rc, rcv)] →
      n ≠ 0 → is_Some (mint_in v m) →
      sc = derive (env_address env) [b32 m; b32 sw] →
      rc = derive (env_address env) [b32 m; b32 rw] →
      view_signer swv = true →
      balance_in v sc = balance coin → n ≤ balance coin →
      balance_in v rc = coin_balance recipient →
      to_vec (set_balance coin (balance coin - n)) = Ok bs →
      credit_output recipient rc m rw n = Ok credit →
      outputs_effect outs v =
        outputs_effect ((WriteAccountData sc (Some bs) :: collect_dust sc (balance coin - n)) ++ [credit]) v →
      transfer_ok env v n outs.

Inductive mint_ok env v (n : Z) (outs : list Output) : Prop :=
  | MintOk m mv a av w wv ca cav mint coin bs credit :
      env_accounts env = [(m, mv); (a, av); (w, wv); (ca, cav)] →
      n ≠ 0 → mint_in v m = Some mint → authority mint = Some a → view_signer av = true →
      ca = derive (env_address env) [b32 m; b32 w] →
      balance_in v ca = coin_balance coin →
      credit_output coin ca m w n = Ok credit →
      to_vec (set_supply mint (saturating_add (supply mint) n)) = Ok bs →
      outputs_effect outs v = outputs_effect ([credit] ++ [WriteAccountData m (Some bs)]) v →
      mint_ok env v n outs.

Inductive burn_ok env v (n : Z) (outs : list Output) : Prop :=
  | BurnOk m mv w wv ca cav mint coin mbs cbs :
      env_accounts env = [(m, mv); (w, wv); (ca, cav)] →
      n ≠ 0 → mint_in v m = Some mint → view_signer wv = true →
      ca = derive (env_address env) [b32 m; b32 w] →
      balance_in v ca = balance coin → n ≤ balance coin →
      to_vec (set_supply mint (saturating_sub (supply mint) n)) = Ok mbs →
      to_vec (set_balance coin (balance coin - n)) = Ok cbs →
      outputs_effect outs v =
        outputs_effect ([WriteAccountData m (Some mbs)] ++
          (WriteAccountData ca (Some cbs) :: collect_dust ca (balance coin - n))) v →
      burn_ok env v n outs.

Inductive set_authority_ok env v (auth : option Pubkey) (outs : list Output) : Prop :=
  | SetAuthorityOk m mv a av mint bs :
      env_accounts env = [(m, mv); (a, av)] →
      mint_in v m = Some mint → authority mint = Some a → view_signer av = true →
      to_vec (set_mint_authority mint auth) = Ok bs →
      outputs_effect outs v = outputs_effect [WriteAccountData m (Some bs)] v →
      set_authority_ok env v auth outs.

Inductive create_ok env v (seed : bytes) (auth : Pubkey) (decs : Z) (nm sym : option string)
    (outs : list Output) : Prop :=
  | CreateOk m mv bs :
      env_accounts env = [(m, mv)] → m = derive (env_address env) [seed] → v m = None →
      view_owner mv = None → decs ≤ 20 → bad_length sym 10 = false → bad_length nm 64 = false →
      to_vec (MkMint (Some auth) 0 decs nm sym) = Ok bs →
      outputs_effect outs v = outputs_effect [CreateOwnedAccount m (Some bs)] v →
      create_ok env v seed auth decs nm sym outs.

Lemma process_transfer_ok env v n outs :
  process_transfer env n = Ok outs → env_shows env v → transfer_ok env v n outs.
Proof.
  unfold process_transfer. intros Hok Hshow.
  destruct (env_accounts env) as [|[m mv] [|[sw swv] [|[sc scv] [|[rw rwv] [|[rc rcv] []]]]]] eqn:Henv; try done.
  assert (∀ a view, (a, view) ∈ env_accounts env → view_data view = v a) as Hv by exact Hshow.
  rewrite Henv in Hv. apply bind_ok in Hok as ([] & Hn%reject_if_ok%Z.eqb_neq & Hok).
  apply bind_ok in Hok as (mint & Hmint%(read_coin_mint_in _ _ _ v) & Hok); [|apply Hv; set_solver].
  apply bind_ok in Hok as (sender & Hs%(read_coin_account_balance _ _ _ _ _ v) & Hok); [|apply Hv; set_solver].
  destruct Hs as [Hs Hsc]. destruct sender as [coin|]; [|done].
  apply bind_ok in Hok as ([] & Hsig%reject_if_ok%negb_false_iff & Hok).
  apply bind_ok in Hok as ([] & Hbal%reject_if_ok%Z.ltb_ge & Hok).
  rewrite saturating_sub_exact in Hok by done.
  apply bind_ok in Hok as (bs & Hbs & Hok).
  apply bind_ok in Hok as (r & Hr%(read_coin_account_balance _ _ _ _ _ v) & Hok); [|apply Hv; set_solver].
  destruct Hr as [Hr Hrc]. apply bind_ok in Hok as (credit & Hcredit & [= <-]).
  by eapply (TransferOk env v n _ m mv sw swv sc scv rw rwv rc rcv coin r bs credit).
Qed.

Lemma process_mint_ok env v n outs :
  process_mint env n = Ok outs → env_shows env v → mint_ok env v n outs.
Proof.
  unfold process_mint. intros Hok Hshow.
  destruct (env_accounts env) as [|[m mv] [|[a av] [|[w wv] [|[ca cav] []]]]] eqn:Henv; try done.
  assert (∀ a view, (a, view) ∈ env_accounts env → view_data view = v a) as Hv by exact Hshow.
  rewrite Henv in Hv. apply bind_ok in Hok as ([] & Hn%reject_if_ok%Z.eqb_neq & Hok).
  apply bind_ok in Hok as (mint & Hmint%(read_coin_mint_in _ _ _ v) & Hok); [|apply Hv; set_solver].
  apply bind_ok in Hok as ([] & Hauth & Hok).
  destruct (authority mint) as [ma|] eqn:Hma; [|done].
  apply bind_ok in Hauth as ([] & Ha%reject_if_ok%bool_decide_eq_false%dec_stable & Hsig%reject_if_ok%negb_false_iff).
  apply bind_ok in Hok as (r & Hr%(read_coin_account_balance _ _ _ _ _ v) & Hok); [|apply Hv; set_solver].
  destruct Hr as [Hr Hrc]. apply bind_ok in Hok as (credit & Hcredit & Hok).
  apply bind_ok in Hok as (bs & Hbs & [= <-]). subst ma.
  by eapply (MintOk env v n _ m mv a av w wv ca cav mint r bs credit).
Qed.

Lemma process_burn_ok env v n outs :
  process_burn env n = Ok outs → env_shows env v → burn_ok env v n outs.
Proof.
  unfold process_burn. intros Hok Hshow.
  destruct (env_accounts env) as [|[m mv] [|[w wv] [|[ca cav] []]]] eqn:Henv; try done.
  assert (∀ a view, (a, view) ∈ env_accounts env → view_data view = v a) as Hv by exact Hshow.
  rewrite Henv in Hv. apply bind_ok in Hok as ([] & Hn%reject_if_ok%Z.eqb_neq & Hok).
  apply bind_ok in Hok as (mint & Hmint%(read_coin_mint_in _ _ _ v) & Hok); [|apply Hv; set_solver].
  apply bind_ok in Hok as (r & Hr%(read_coin_account_balance _ _ _ _ _ v) & Hok); [|apply Hv; set_solver].
  destruct Hr as [Hr Hrc]. destruct r as [coin|]; [|done].
  apply bind_ok in Hok as ([] & Hsig%reject_if_ok%negb_false_iff & Hok).
  apply bind_ok in Hok as ([] & Hbal%reject_if_ok%Z.ltb_ge & Hok).
  rewrite (saturating_sub_exact (balance coin)) in Hok by done.
  apply bind_ok in Hok as (mbs & Hmbs & Hok). apply bind_ok in Hok as (cbs & Hcbs & [= <-]).
  by eapply (BurnOk env v n _ m mv w wv ca cav mint coin mbs cbs).
Qed.

Lemma process_set_authority_ok env v auth outs :
  process_set_authority env auth = Ok outs → env_shows env v → set_authority_ok env v auth outs.
Proof.
  unfold process_set_authority. intros Hok Hshow.
  destruct (env_accounts env) as [|[m mv] [|[a av] []]] eqn:Henv; try done.
  apply bind_ok in Hok as (mint & Hmint%(read_coin_mint_in _ _ _ v) & Hok);
    [|apply Hshow; rewrite Henv; set_solver].
  destruct (authority mint) as [ma|] eqn:Hma; [|done].
  apply bind_ok in Hok as ([] & Ha%reject_if_ok%bool_decide_eq_false%dec_stable & Hok).
  apply bind_ok in Hok as ([] & Hsig%reject_if_ok%negb_false_iff & Hok).
  apply bind_ok in Hok as (bs & Hbs & [= <-]). subst ma.
  by eapply (SetAuthorityOk env v auth _ m mv a av mint bs).
Qed.

Lemma process_create_ok env v seed auth decs nm sym outs :
  process_create env seed auth decs nm sym = Ok outs → env_shows env v →
  create_ok env v seed auth decs nm sym outs.
Proof.
  unfold process_create. intros Hok Hshow.
  destruct (env_accounts env) as [|[m mv] []] eqn:Henv; try done.
  apply bind_ok in Hok as ([] & Hm%reject_if_ok%bool_decide_eq_false%dec_stable & Hok).
  apply bind_ok in Hok as ([] & [Hd Ho]%reject_if_ok%orb_false_iff & Hok).
  apply bool_decide_eq_false, eq_None_not_Some in Hd, Ho.
  apply bind_ok in Hok as ([] & Hsym%reject_if_ok & Hok).
  apply bind_ok in Hok as ([] & Hnm%reject_if_ok & Hok).
  apply bind_ok in Hok as ([] & Hdec%reject_if_ok%Z.ltb_ge & Hok).
  apply bind_ok in Hok as (bs & Hbs%map_err_ok & [= <-]). rewrite Hm.
  eapply (CreateOk env v seed auth decs nm sym _ m mv bs); try done.
  - rewrite <-Hd. symmetry. apply Hshow. rewrite Henv. set_solver.
  - unfold to_vec. by rewrite Hbs.
Qed.

(** ** Effects on the ledger *)

(** A debit followed by the credit of another account. *)
Lemma debit_credit_effect v sc rc m rw n coin recipient bs credit :
  sc ≠ rc → n ≤ u64_max →
  balance_in v sc = balance coin → balance_in v rc = coin_balance recipient →
  to_vec (set_balance coin (balance coin - n)) = Ok bs →
  credit_output recipient rc m rw n = Ok credit →
  let v' := outputs_effect ((WriteAccountData sc (Some bs) :: collect_dust sc (balance coin - n)) ++ [credit]) v in
  balance_in v' sc = balance_in v sc - n ∧
  balance_in v' rc = saturating_add (balance_in v rc) n ∧
  ∀ c, c ≠ sc → c ≠ rc → v' c = v c.
Proof.
  intros Hne Hn Hsc Hrc Hbs Hcredit. cbv zeta.
  rewrite (outputs_effect_app (WriteAccountData sc (Some bs) :: _) [credit]).
  destruct (debit_effect coin sc _ bs v Hbs) as [Hv1 Hb1].
  revert Hv1 Hb1. generalize (outputs_effect (WriteAccountData sc (Some bs) :: collect_dust sc (balance coin - n)) v).
  intros v1 Hv1 Hb1. destruct (credit_effect _ _ _ _ _ _ v1 Hcredit Hn) as [Hv2 Hb2]. split_and!.
  - rewrite (balance_in_cong _ v1) by (by apply Hv2). lia.
  - by rewrite Hb2, Hrc.
  - intros c ??. by rewrite Hv2, Hv1.
Qed.

Lemma mint_ok_effect env v n outs (m : Pubkey * AccountView) rest :
  mint_ok env v n outs → env_accounts env = m :: rest → NoDup (env_accounts env).*1 → n ≤ u64_max →
  ∃ w ca x, ca = derive (env_address env) [b32 m.1; b32 w] ∧ ca ∈ rest.*1 ∧ ca ≠ m.1 ∧
    mint_in v m.1 = Some x ∧ is_Some (authority x) ∧
    mint_in (outputs_effect outs v) m.1 = Some (set_supply x (saturating_add (supply x) n)) ∧
    balance_in (outputs_effect outs v) ca = saturating_add (balance_in v ca) n ∧
    ∀ c, c ≠ m.1 → c ≠ ca → outputs_effect outs v c = v c.
Proof.
  intros [m' mv a av w wv ca cav x coin bs credit Henv _ Hx Hauth _ Hca Hbal Hcredit Hbs ->] Heq Hnd Hn.
  rewrite Henv in Heq, Hnd. injection Heq as <- <-. cbn [fmap list_fmap fst] in *.
  assert (ca ≠ m') as Hne by (intros ->; by inversion_clear Hnd; set_solver).
  exists w, ca, x. rewrite (outputs_effect_app [credit]).
  destruct (credit_effect _ _ _ _ _ _ v Hcredit Hn) as [Hv1 Hb1].
  revert Hv1 Hb1. generalize (outputs_effect [credit] v). intros v1 Hv1 Hb1. simpl. split_and!; try done.
  - set_solver.
  - eapply mint_in_eq; [apply set_contents_eq|by apply to_vec_inv].
  - rewrite (balance_in_cong _ v1) by (by apply set_contents_ne). by rewrite Hb1, Hbal.
  - intros c ??. rewrite set_contents_ne by done. by apply Hv1.
Qed.

Lemma burn_ok_effect env v n outs (m : Pubkey * AccountView) rest :
  burn_ok env v n outs → env_accounts env = m :: rest → NoDup (env_accounts env).*1 →
  ∃ w ca x, ca = derive (env_address env) [b32 m.1; b32 w] ∧ ca ∈ rest.*1 ∧ ca ≠ m.1 ∧
    n ≤ balance_in v ca ∧ mint_in v m.1 = Some x ∧
    mint_in (outputs_effect outs v) m.1 = Some (set_supply x (saturating_sub (supply x) n)) ∧
    balance_in (outputs_effect outs v) ca = balance_in v ca - n ∧
    ∀ c, c ≠ m.1 → c ≠ ca → outputs_effect outs v c = v c.
Proof.
  intros [m' mv w wv ca cav x coin mbs cbs Henv _ Hx _ Hca Hbal Hn Hmbs Hcbs ->] Heq Hnd.
  rewrite Henv in Heq, Hnd. injection Heq as <- <-. cbn [fmap list_fmap fst] in *.
  assert (ca ≠ m') as Hne by (intros ->; by inversion_clear Hnd; set_solver).
  exists w, ca, x.
  rewrite (outputs_effect_app [WriteAccountData m' (Some mbs)] (WriteAccountData ca (Some cbs) :: _)).
  change (outputs_effect [_] v) with (set_contents v m' (Some mbs)).
  destruct (debit_effect coin ca _ cbs (set_contents v m' (Some mbs)) Hcbs) as [Hv1 Hb1].
  split_and!; try done.
  - set_solver.
  - lia.
  - rewrite (mint_in_cong _ (set_contents v m' (Some mbs))) by (by apply Hv1).
    eapply mint_in_eq; [apply set_contents_eq|by apply to_vec_inv].
  - lia.
  - intros c ??. rewrite Hv1 by done. by apply set_contents_ne.
Qed.

Lemma transfer_ok_effect env v n outs (m : Pubkey * AccountView) rest :
  transfer_ok env v n outs → env_accounts env = m :: rest → NoDup (env_accounts env).*1 → n ≤ u64_max →
  ∃ sw sc rw rc, sc = derive (env_address env) [b32 m.1; b32 sw] ∧ rc = derive (env_address env) [b32 m.1; b32 rw] ∧
    sc ∈ rest.*1 ∧ rc ∈ rest.*1 ∧ sc ≠ rc ∧ m.1 ≠ sc ∧ m.1 ≠ rc ∧ n ≤ balance_in v sc ∧
    balance_in (outputs_effect outs v) sc = balance_in v sc - n ∧
    balance_in (outputs_effect outs v) rc = saturating_add (balance_in v rc) n ∧
    ∀ c, c ≠ sc → c ≠ rc → outputs_effect outs v c = v c.
Proof.
  intros [m' mv sw swv sc scv rw rwv rc rcv coin r bs credit Henv _ _ Hsc Hrc _ Hbs Hle Hbr Hbytes Hcredit ->]
    Heq Hnd Hn.
  rewrite Henv in Heq, Hnd. injection Heq as <- <-. cbn [fmap list_fmap fst] in *.
  repeat match goal with Hx : NoDup (_ :: _) |- _ => apply NoDup_cons in Hx as [? Hx] end.
  assert (sc ≠ rc) by set_solver.
  destruct (debit_credit_effect v sc rc m' rw n coin r bs credit) as (Hd & Hc & Hframe); try done.
  exists sw, sc, rw, rc. split_and!; [exact Hsc|exact Hrc|set_solver..|lia|exact Hd|exact Hc|exact Hframe].
Qed.

(** ** Runs of the contract on one mint *)

(** What can happen to the mint [m] of program [p] and to its coin accounts
    [cs] when no wallet is used twice in one call: an instruction on [m] that
    lists coin accounts of [cs] only and leaves the supply below the
    saturation point, or anything else that leaves these accounts alone. *)
Inductive mint_step (p m : Pubkey) (cs : list Pubkey) : Contents → Contents → Prop :=
  | StepInstruction v env view rest params outs :
      env_address env = p → env_shows env v →
      env_accounts env = (m, view) :: rest → NoDup (env_accounts env).*1 →
      (∀ w, derive p [b32 m; b32 w] ∈ rest.*1 → derive p [b32 m; b32 w] ∈ cs) →
      currency_contract env params = Ok outs →
      supply_in (outputs_effect outs v) m < u64_max →
      mint_step p m cs v (outputs_effect outs v)
  | StepOther v v' :
      v' m = v m → (∀ c, c ∈ cs → v' c = v c) → mint_step p m cs v v'.

(** The supply a mint records is the sum of the balances of its coin accounts. *)
Definition supply_backed (m : Pubkey) (cs : list Pubkey) v : Prop :=
  supply_in v m = total (balance_in v) cs.

Context `{!CurrencyCodec}.

Lemma balance_in_u64 v c : is_u64 (balance_in v c).
Proof.
  unfold balance_in. destruct (v c) as [b|]; simpl; [|by vm_compute].
  destruct (try_from_slice b) as [x|] eqn:E; [by eapply coin_u64|by vm_compute].
Qed.

Lemma supply_in_u64 v m : is_u64 (supply_in v m).
Proof.
  unfold supply_in, mint_in. destruct (v m) as [b|]; simpl; [|by vm_compute].
  destruct (try_from_slice b) as [x|] eqn:E; [by eapply mint_u64|by vm_compute].
Qed.

Lemma supply_in_some v m x : mint_in v m = Some x → supply_in v m = supply x.
Proof. unfold supply_in. by intros ->. Qed.

Lemma total_frame v v' cs : (∀ c, c ∈ cs → v' c = v c) → total (balance_in v') cs = total (balance_in v) cs.
Proof. intros Hv. apply total_ext. intros c Hc. apply balance_in_cong. by apply Hv. Qed.

(** The total when one entry changes and the others stay. *)
Lemma total_update (b b' : Pubkey → Z) cs c n :
  NoDup cs → c ∈ cs → b' c = b c + n → (∀ d, d ∈ cs → d ≠ c → b' d = b d) →
  total b' cs = total b cs + n.
Proof.
  intros Hnd Hc Hb Hframe. rewrite <-(total_add b cs c n Hnd Hc). apply total_ext.
  intros d Hd. unfold ledger_add. case_bool_decide as Hcd; [by subst|]. apply Hframe; congruence.
Qed.

Lemma total_ge cs v c : c ∈ cs → balance_in v c ≤ total (balance_in v) cs.
Proof.
  intros Hc. induction cs as [|d cs IH]; [by apply not_elem_of_nil in Hc|]. rewrite total_cons.
  pose proof (balance_in_u64 v d) as [? _].
  assert (0 ≤ total (balance_in v) cs) as ?.
  { apply sum_Z_nonneg. intros z (c' & -> & _)%list_elem_of_fmap. apply balance_in_u64. }
  apply elem_of_cons in Hc as [->|Hc]; [lia|]. specialize (IH Hc). lia.
Qed.

Lemma total_ge2 cs v c d :
  c ∈ cs → d ∈ cs → c ≠ d → balance_in v c + balance_in v d ≤ total (balance_in v) cs.
Proof.
  intros Hc Hd Hne. induction cs as [|e cs IH]; [by apply not_elem_of_nil in Hc|]. rewrite total_cons.
  pose proof (balance_in_u64 v e) as [? _].
  apply elem_of_cons in Hc as [->|Hc], Hd as [->|Hd]; [done|..].
  - pose proof (total_ge cs v d Hd). lia.
  - pose proof (total_ge cs v c Hc). lia.
  - specialize (IH Hc Hd). lia.
Qed.

Inductive instruction_ok env v (outs : list Output) : Prop :=
  | CreateRun seed auth decs nm sym : create_ok env v seed auth decs nm sym outs → instruction_ok env v outs
  | MintRun n : is_u64 n → mint_ok env v n outs → instruction_ok env v outs
  | TransferRun n : is_u64 n → transfer_ok env v n outs → instruction_ok env v outs
  | BurnRun n : is_u64 n → burn_ok env v n outs → instruction_ok env v outs
  | SetAuthorityRun auth : set_authority_ok env v auth outs → instruction_ok env v outs.

Lemma currency_contract_ok env v params outs :
  currency_contract env params = Ok outs → env_shows env v → instruction_ok env v outs.
Proof.
  unfold currency_contract. intros Hok Hshow.
  apply bind_ok in Hok as (i & Hi%ok_or_ok & Hok). apply amount_u64 in Hi.
  destruct i; simpl in Hi.
  - eapply CreateRun. by eapply process_create_ok.
  - eapply MintRun; [done|]. by eapply process_mint_ok.
  - eapply TransferRun; [done|]. by eapply process_transfer_ok.
  - eapply BurnRun; [done|]. by eapply process_burn_ok.
  - eapply SetAuthorityRun. by eapply process_set_authority_ok.
Qed.

(** Creation and change of authority write the mint account only. *)
Lemma create_ok_effect env v seed auth decs nm sym outs (m : Pubkey * AccountView) rest :
  create_ok env v seed auth decs nm sym outs → env_accounts env = m :: rest →
  mint_in v m.1 = None ∧ mint_in (outputs_effect outs v) m.1 = Some (MkMint (Some auth) 0 decs nm sym) ∧
  ∀ c, c ≠ m.1 → outputs_effect outs v c = v c.
Proof.
  intros [m' mv bs Henv _ Hnone _ _ _ _ Hbs ->] Heq. rewrite Henv in Heq. injection Heq as <- <-. simpl. split_and!.
  - unfold mint_in. by rewrite Hnone.
  - eapply mint_in_eq; [apply set_contents_eq|by apply to_vec_inv].
  - intros. by apply set_contents_ne.
Qed.

Lemma set_authority_ok_effect env v auth outs (m : Pubkey * AccountView) rest :
  set_authority_ok env v auth outs → env_accounts env = m :: rest →
  ∃ x, mint_in v m.1 = Some x ∧ is_Some (authority x) ∧
    mint_in (outputs_effect outs v) m.1 = Some (set_mint_authority x auth) ∧
    ∀ c, c ≠ m.1 → outputs_effect outs v c = v c.
Proof.
  intros [m' mv a av x bs Henv Hx Ha _ Hbs ->] Heq. rewrite Henv in Heq. injection Heq as <- <-. simpl.
  exists x. split_and!; [done|eauto| |].
  - eapply mint_in_eq; [apply set_contents_eq|by apply to_vec_inv].
  - intros. by apply set_contents_ne.
Qed.

(** Moving [n] from one coin account to another keeps the total, and cannot
    saturate while the total is representable. *)
Lemma total_transfer v v' cs sc rc n :
  NoDup cs → sc ∈ cs → rc ∈ cs → sc ≠ rc → n ≤ balance_in v sc →
  balance_in v' sc = balance_in v sc - n → balance_in v' rc = saturating_add (balance_in v rc) n →
  (∀ c, c ≠ sc → c ≠ rc → v' c = v c) → total (balance_in v) cs ≤ u64_max →
  total (balance_in v') cs = total (balance_in v) cs.
Proof.
  intros Hnd Hsc Hrc Hne Hle Hb Hb' Hframe Hmax.
  pose proof (total_ge2 cs v sc rc Hsc Hrc Hne). rewrite saturating_add_exact in Hb' by lia.
  set (b1 := ledger_add (balance_in v) sc (- n)).
  assert (total b1 cs = total (balance_in v) cs - n) as Ht1 by (unfold b1; rewrite total_add by done; lia).
  assert (b1 rc = balance_in v rc) as Hb1r by (unfold b1, ledger_add; by rewrite bool_decide_false).
  rewrite (total_update b1 _ cs rc n); [lia|done|done|lia|]. intros d Hd Hdr.
  unfold b1, ledger_add. case_bool_decide; [subst; lia|]. apply balance_in_cong, Hframe; auto.
Qed.

Lemma mint_step_backed p m cs v v' :
  NoDup cs → m ∉ cs → mint_step p m cs v v' → supply_backed m cs v → supply_backed m cs v'.
Proof.
  unfold supply_backed. intros Hnd Hm [v0 env view rest params outs Hp Hshow Henv Hdup Hcs Hok Hmax|v0 v1 Hvm Hvc] Hinv;
    [|by rewrite (total_frame v0 v1) by done; rewrite <-Hinv; unfold supply_in; rewrite (mint_in_cong v1 v0)].
  assert (∀ d, d ∈ cs → d ≠ m) as Hne by (by intros d Hd ->).
  destruct (currency_contract_ok _ _ _ _ Hok Hshow) as [s a d nm sym Hc|n Hn Hc|n Hn Hc|n Hn Hc|a Hc].
  - apply create_ok_effect with (m := (m, view)) (rest := rest) in Hc as (Hx & Hx' & Hframe); [|done].
    cbn [fst] in *. rewrite (supply_in_some _ _ _ Hx'). rewrite (total_frame v0) by auto. rewrite <-Hinv.
    unfold supply_in. by rewrite Hx.
  - destruct (mint_ok_effect _ _ _ _ _ _ Hc Henv Hdup (proj2 Hn))
      as (w & ca & x & Hca & Hin & Hcam & Hx & _ & Hx' & Hb & Hframe). cbn [fst] in *. subst p.
    rewrite (supply_in_some _ _ _ Hx') in *. rewrite (supply_in_some _ _ _ Hx) in Hinv. simpl in *.
    assert (ca ∈ cs) as Hin' by (rewrite Hca in *; by apply Hcs).
    pose proof (total_ge cs v0 ca Hin').
    unfold saturating_add in *. rewrite (total_update (balance_in v0) _ cs ca n); [lia|done|done|lia|].
    intros. apply balance_in_cong, Hframe; auto.
  - destruct (transfer_ok_effect _ _ _ _ _ _ Hc Henv Hdup (proj2 Hn))
      as (sw & sc & rw & rc & Hsc & Hrc & Hins & Hinr & Hsr & Hms & Hmr & Hle & Hb & Hb' & Hframe).
    cbn [fst] in *. subst p.
    assert (sc ∈ cs) as Hsc' by (rewrite Hsc in *; by apply Hcs).
    assert (rc ∈ cs) as Hrc' by (rewrite Hrc in *; by apply Hcs).
    rewrite (total_transfer v0 _ cs sc rc n); try done; [by unfold supply_in; rewrite (mint_in_cong _ v0) by auto|].
    pose proof (supply_in_u64 v0 m) as [_ ?]. lia.
  - destruct (burn_ok_effect _ _ _ _ _ _ Hc Henv Hdup)
      as (w & ca & x & Hca & Hin & Hcam & Hle & Hx & Hx' & Hb & Hframe). cbn [fst] in *. subst p.
    rewrite (supply_in_some _ _ _ Hx') in *. rewrite (supply_in_some _ _ _ Hx) in Hinv. simpl in *.
    assert (ca ∈ cs) as Hin' by (rewrite Hca in *; by apply Hcs).
    pose proof (total_ge cs v0 ca Hin'). rewrite saturating_sub_exact by lia.
    rewrite (total_update (balance_in v0) _ cs ca (- n)); [lia|done|done|lia|].
    intros. apply balance_in_cong, Hframe; auto.
  - destruct (set_authority_ok_effect _ _ _ _ _ _ Hc Henv) as (x & Hx & _ & Hx' & Hframe). cbn [fst] in *.
    rewrite (supply_in_some _ _ _ Hx'), (total_frame v0) by auto. simpl.
    by rewrite <-Hinv, (supply_in_some _ _ _ Hx).
Qed.

Lemma mint_in_supply_u64 v m x : mint_in v m = Some x → is_u64 (supply x).
Proof. intros Hx. rewrite <-(supply_in_some v m x Hx). apply supply_in_u64. Qed.

(** ** Who pays *)

Lemma saturating_add_ge a n : is_u64 a → is_u64 n → a ≤ saturating_add a n.
Proof. unfold is_u64, saturating_add. lia. Qed.

Lemma mint_debits_nothing env v n outs m view rest c :
  mint_ok env v n outs → env_accounts env = (m, view) :: rest → is_u64 n → c ≠ m →
  ¬ balance_in (outputs_effect outs v) c < balance_in v c.
Proof.
  intros [m' mv a av w wv ca cav x coin bs credit Henv _ _ _ _ _ Hbal Hcredit _ ->] Heq Hn Hcm.
  rewrite Henv in Heq. injection Heq as <- _ _. apply Z.nlt_ge. rewrite outputs_effect_app.
  destruct (credit_effect _ _ _ _ _ _ v Hcredit (proj2 Hn)) as [Hv1 Hb1].
  assert (balance_in (outputs_effect [WriteAccountData m' (Some bs)] (outputs_effect [credit] v)) c =
          balance_in (outputs_effect [credit] v) c) as ->.
  { apply balance_in_cong. by apply set_contents_ne. }
  destruct (decide (c = ca)) as [->|Hne]; [|by apply Z.eq_le_incl, balance_in_cong; rewrite Hv1].
  rewrite Hb1, <-Hbal. apply saturating_add_ge; [apply balance_in_u64|done].
Qed.

Lemma transfer_debits_signer env v n outs m view rest c :
  transfer_ok env v n outs → env_accounts env = (m, view) :: rest → is_u64 n →
  balance_in (outputs_effect outs v) c < balance_in v c →
  ∃ w wview, (w, wview) ∈ rest ∧ view_signer wview = true ∧ c = derive (env_address env) [b32 m; b32 w].
Proof.
  intros [m' mv sw swv sc scv rw rwv rc rcv coin r bs credit Henv _ _ Hsc Hrc Hsig Hbs Hle Hbr Hbytes Hcredit ->] Heq Hn Hlt.
  rewrite Henv in Heq. injection Heq as <- _ <-. destruct (decide (c = sc)) as [->|Hc].
  { exists sw, swv. split_and!; [set_solver|done|done]. }
  exfalso. revert Hlt. apply Z.nlt_ge. rewrite outputs_effect_app.
  destruct (debit_effect coin sc _ bs v Hbytes) as [Hv1 _].
  destruct (credit_effect _ _ _ _ _ _ (outputs_effect (WriteAccountData sc (Some bs) :: collect_dust sc (balance coin - n)) v)
    Hcredit (proj2 Hn)) as [Hv2 Hb2].
  destruct (decide (c = rc)) as [->|Hne].
  - rewrite Hb2, <-Hbr. apply saturating_add_ge; [apply balance_in_u64|done].
  - apply Z.eq_le_incl, balance_in_cong. by rewrite Hv2, Hv1.
Qed.

Lemma burn_debits_signer env v n outs m view rest c :
  burn_ok env v n outs → env_accounts env = (m, view) :: rest → c ≠ m →
  balance_in (outputs_effect outs v) c < balance_in v c →
  ∃ w wview, (w, wview) ∈ rest ∧ view_signer wview = true ∧ c = derive (env_address env) [b32 m; b32 w].
Proof.
  intros [m' mv w wv ca cav x coin mbs cbs Henv _ _ Hsig Hca _ _ _ Hcbs ->] Heq Hcm Hlt.
  rewrite Henv in Heq. injection Heq as <- _ <-. destruct (decide (c = ca)) as [->|Hc].
  { exists w, wv. split_and!; [set_solver|done|done]. }
  exfalso. revert Hlt. apply Z.nlt_ge. rewrite outputs_effect_app.
  destruct (debit_effect coin ca _ cbs (outputs_effect [WriteAccountData m' (Some mbs)] v) Hcbs) as [Hv1 _].
  apply Z.eq_le_incl, balance_in_cong. rewrite Hv1 by done. symmetry. apply set_contents_ne. congruence.
Qed.

Lemma mint_step_authority p m cs v v' x :
  mint_step p m cs v v' → mint_in v m = Some x → authority x = None →
  ∃ x', mint_in v' m = Some x' ∧ authority x' = None ∧ supply x' ≤ supply x.
Proof.
  intros [v0 env view rest params outs Hp Hshow Henv Hdup Hcs Hok Hmax|v0 v1 Hvm Hvc] Hx Hnone;
    [|exists x; split_and!; [by rewrite (mint_in_cong v1 v0)|done|lia]].
  destruct (currency_contract_ok _ _ _ _ Hok Hshow) as [s a d nm sym Hc|n Hn Hc|n Hn Hc|n Hn Hc|a Hc].
  - apply create_ok_effect with (m := (m, view)) (rest := rest) in Hc as (Hx' & _); [|done]. simpl in Hx'. congruence.
  - destruct (mint_ok_effect _ _ _ _ _ _ Hc Henv Hdup (proj2 Hn)) as (w & ca & y & _ & _ & _ & Hy & [a Ha] & _).
    simpl in Hy. congruence.
  - destruct (transfer_ok_effect _ _ _ _ _ _ Hc Henv Hdup (proj2 Hn))
      as (sw & sc & rw & rc & _ & _ & _ & _ & _ & Hms & Hmr & _ & _ & _ & Hframe). cbn [fst] in *.
    exists x. rewrite (mint_in_cong _ v0) by auto. split_and!; [done..|lia].
  - destruct (burn_ok_effect _ _ _ _ _ _ Hc Henv Hdup) as (w & ca & y & _ & _ & _ & Hle & Hy & Hy' & _).
    cbn [fst] in *. simplify_eq. eexists. split_and!; [done..|].
    pose proof (mint_in_supply_u64 _ _ _ Hx). unfold saturating_sub, is_u64 in *. destruct Hn. simpl. lia.
  - destruct (set_authority_ok_effect _ _ _ _ _ _ Hc Henv) as (y & Hy & [a' Ha] & _). simpl in Hy. congruence.
Qed.

Lemma debits_are_signed_lemma env v params outs m view rest c :
  env_shows env v → env_accounts env = (m, view) :: rest → currency_contract env params = Ok outs →
  c ≠ m → balance_in (outputs_effect outs v) c < balance_in v c →
  ∃ w wview, (w, wview) ∈ rest ∧ view_signer wview = true ∧ c = derive (env_address env) [b32 m; b32 w].
Proof.
  intros Hshow Henv Hok Hcm Hlt.
  destruct (currency_contract_ok _ _ _ _ Hok Hshow) as [s a d nm sym Hc|n Hn Hc|n Hn Hc|n Hn Hc|a Hc].
  - apply create_ok_effect with (m := (m, view)) (rest := rest) in Hc as (_ & _ & Hframe); [|done].
    rewrite (balance_in_cong _ v) in Hlt by (by apply Hframe). lia.
  - by eapply mint_debits_nothing in Hc.
  - by eapply transfer_debits_signer.
  - by eapply burn_debits_signer.
  - destruct (set_authority_ok_effect _ _ _ _ _ _ Hc Henv) as (x & _ & _ & _ & Hframe).
    rewrite (balance_in_cong _ v) in Hlt by (by apply Hframe). lia.
Qed.

(** ** Theorems *)

(** C6: the supply recorded by a mint always equals the sum of the balances
    of its coin accounts: whatever sequence of currency instructions is run
    on the mint, interleaved with anything that does not touch these
    accounts, the equality is preserved as long as no account is listed
    twice and the supply stays below the saturation point. *)
Theorem supply_conserved p m cs v v' :
  NoDup cs → m ∉ cs → rtc (mint_step p m cs) v v' → supply_backed m cs v → supply_backed m cs v'.
Proof. intros Hnd Hm. induction 1 as [|v v1 v2 Hstep _ IH]; [done|]. intros ?%(mint_step_backed _ _ _ _ _ Hnd Hm Hstep). auto. Qed.

(** Once the authority of a mint has been set to [None], no sequence of
    instructions brings it back or increases the supply: minting is disabled
    for good. *)
Theorem minting_disabled_forever p m cs v v' x :
  rtc (mint_step p m cs) v v' → mint_in v m = Some x → authority x = None →
  ∃ x', mint_in v' m = Some x' ∧ authority x' = None ∧ supply x' ≤ supply x.
Proof.
  intros Hrtc. revert x. induction Hrtc as [v|v v1 v2 Hstep _ IH]; intros x Hx Hnone; [eexists; split_and!; [done..|lia]|].
  destruct (mint_step_authority _ _ _ _ _ _ Hstep Hx Hnone) as (x1 & Hx1 & Hn1 & Hle).
  destruct (IH x1 Hx1 Hn1) as (x2 & ? & ? & ?). exists x2. split_and!; [done..|lia].
Qed.


(** When the sender's and the recipient's coin account are the same one,
    the transfer creates coins: the account ends up with the amount on top of
    its balance (the recipient is read before the debit is written, and its
    credited balance is written last). *)
Theorem self_transfer_inflates env v n outs m mv w wv c cv w' wv' cv' :
  env_shows env v → env_accounts env = [(m, mv); (w, wv); (c, cv); (w', wv'); (c, cv')] →
  is_u64 n → balance_in v c + n ≤ u64_max → process_transfer env n = Ok outs →
  balance_in (outputs_effect outs v) c = balance_in v c + n ∧ balance_in v c < balance_in v c + n.
Proof.
  intros Hshow Henv [Hn0 Hn] Hmax Hok.
  destruct (process_transfer_ok _ _ _ _ Hok Hshow)
    as [m1 mv1 sw swv sc scv rw rwv rc rcv coin r bs credit Henv1 Hnz _ _ _ _ _ _ Hbr _ Hcredit ->].
  rewrite Henv in Henv1. injection Henv1 as <- <- <- <- <- <- <- <- <- <-.
  rewrite outputs_effect_app. destruct (credit_effect r c m w' n credit
    (outputs_effect (WriteAccountData c (Some bs) :: collect_dust c (balance coin - n)) v) Hcredit Hn) as [_ ->].
  rewrite <-Hbr, saturating_add_exact by done. lia.
Qed.

(** Nobody loses coins without signing: if an instruction lowers the
    balance of an account other than the mint it names first, the account is
    the coin account of a listed wallet that signed the transaction. *)
Theorem debits_are_signed env v params outs m view rest c :
  env_shows env v → env_accounts env = (m, view) :: rest → currency_contract env params = Ok outs →
  c ≠ m → balance_in (outputs_effect outs v) c < balance_in v c →
  ∃ w wview, (w, wview) ∈ rest ∧ view_signer wview = true ∧ c = derive (env_address env) [b32 m; b32 w].
Proof. apply debits_are_signed_lemma. Qed.
End ledger.

(** Derived addresses have no private key. *)
Lemma derive_off_curve_lemma `{CryptoLaws} key seeds : on_curve (derive key seeds) = false.
Proof.
  unfold derive. destruct (derive_loop_total key seeds) as [k Hk]. rewrite Hk. simpl.
  by apply derive_loop_some in Hk as (n & _ & -> & ? & _).
Qed.

(** ** A concrete run *)

(** A currency with two wallets, of which Alice's holds ten coins. *)
Module CoinExample.
Definition prog : Pubkey := array32_of_Z 1.
Definition mint_addr : Pubkey := Eval vm_compute in derive prog [b32 (array32_of_Z 7)].
Definition alice : Pubkey := array32_of_Z 3.
Definition bob : Pubkey := array32_of_Z 5.
Definition coin_of (w : Pubkey) : Pubkey := derive prog [b32 mint_addr; b32 w].

Definition encoded {A} `{Borsh A} (a : A) : option bytes :=
  match try_to_vec a with Ok b => Some b | Err _ => None end.
Definition the_mint (auth : option Pubkey) (n : Z) : Mint := MkMint auth n 2 None None.
Definition start (auth : option Pubkey) : Contents := λ a,
  if bool_decide (a = mint_addr) then encoded (the_mint auth 10)
  else if bool_decide (a = coin_of alice) then encoded (MkCoin mint_addr alice 10)
  else None.

Definition shown (v : Contents) (signer : bool) (a : Pubkey) : Pubkey * AccountView :=
  (a, MkAccountView signer true false (match v a with Some _ => Some prog | None => None end) (v a)).
Definition params_of (i : Instruction) : bytes := default [] (encoded i).

Definition env_transfer (v : Contents) (from to : Pubkey) : Environment :=
  MkEnvironment None prog
    [shown v false mint_addr; shown v true from; shown v false (coin_of from);
     shown v false to; shown v false (coin_of to)].

Definition outs_of (r : ContractResult) : list Output := match r with Ok o => o | Err _ => [] end.
Definition run_transfer (v : Contents) (from to : Pubkey) (n : Z) : ContractResult :=
  currency_contract (env_transfer v from to) (params_of (Transfer n)).

Lemma shown_list v c p (l : list (bool * Pubkey)) : env_shows (MkEnvironment c p ((λ x, shown v x.1 x.2) <$> l)) v.
Proof. intros a view ([s b] & [= -> ->] & _)%list_elem_of_fmap. done. Qed.

Lemma env_transfer_shows v from to : env_shows (env_transfer v from to) v.
Proof. apply (shown_list v None prog [(false, mint_addr); (true, from); (false, coin_of from); (false, to); (false, coin_of to)]). Qed.

Lemma outs_of_ok r : is_ok r = true → r = Ok (outs_of r).
Proof. by destruct r. Qed.

Lemma run_ok v from to n : is_ok (run_transfer v from to n) = true →
  currency_contract (env_transfer v from to) (params_of (Transfer n)) = Ok (outs_of (run_transfer v from to n)).
Proof. apply outs_of_ok. Qed.

Definition v0 : Contents := start None.
Definition v1 : Contents := outputs_effect (outs_of (run_transfer v0 alice bob 4)) v0.

Lemma coin_of_not_wallet w x : on_curve x = true → coin_of w ≠ x.
Proof. intros Hx <-. unfold coin_of in Hx. by rewrite derive_off_curve_lemma in Hx. Qed.

(** Alice sends four coins to Bob. *)
Lemma first_step : mint_step prog mint_addr [coin_of alice; coin_of bob] v0 v1.
Proof.
  eapply (StepInstruction _ _ _ v0 (env_transfer v0 alice bob) _ _ (params_of (Transfer 4))).
  - reflexivity.
  - apply env_transfer_shows.
  - reflexivity.
  - by apply (bool_decide_unpack _); vm_compute.
  - intros w. change (derive _ _) with (coin_of w). simpl. rewrite !elem_of_cons.
    intros [Hw|[Hw|[Hw|[Hw|Hw]]]].
    + by apply coin_of_not_wallet in Hw.
    + by left.
    + by apply coin_of_not_wallet in Hw.
    + by right; left.
    + by apply not_elem_of_nil in Hw.
  - apply run_ok. vm_compute. reflexivity.
  - vm_compute. reflexivity.
Qed.
End CoinExample.

Import CoinExample.

Lemma supply_conserved_witness : supply_backed mint_addr [coin_of alice; coin_of bob] v1.
Proof.
  apply (supply_conserved prog mint_addr [coin_of alice; coin_of bob] v0 v1).
  - by apply (bool_decide_unpack _); vm_compute.
  - by apply (bool_decide_unpack _); vm_compute.
  - eapply rtc_once, first_step.
  - vm_compute. reflexivity.
Defined.

Lemma minting_disabled_forever_witness :
  ∃ x, mint_in v1 mint_addr = Some x ∧ authority x = None ∧ supply x ≤ 10.
Proof.
  apply (minting_disabled_forever prog mint_addr [coin_of alice; coin_of bob] v0 v1 (the_mint None 10)).
  - eapply rtc_once, first_step.
  - vm_compute. reflexivity.
  - reflexivity.
Defined.


(** Alice transfers four of her ten coins to herself and has fourteen. *)
Lemma self_transfer_inflates_witness :
  let v' := outputs_effect (outs_of (run_transfer v0 alice alice 4)) v0 in
  balance_in v0 (coin_of alice) = 10 ∧
  balance_in v' (coin_of alice) = balance_in v0 (coin_of alice) + 4 ∧
  balance_in v0 (coin_of alice) < balance_in v0 (coin_of alice) + 4.
Proof.
  split; [vm_compute; reflexivity|].
  eapply (self_transfer_inflates (env_transfer v0 alice alice) v0 4).
  - apply env_transfer_shows.
  - reflexivity.
  - by vm_compute.
  - vm_compute. discriminate.
  - vm_compute. reflexivity.
Defined.

Lemma debits_are_signed_witness :
  ∃ w wview, (w, wview) ∈ [shown v0 true alice; shown v0 false (coin_of alice); shown v0 false bob; shown v0 false (coin_of bob)] ∧
    view_signer wview = true ∧ coin_of alice = derive prog [b32 mint_addr; b32 w].
Proof.
  eapply (debits_are_signed (env_transfer v0 alice bob) v0 (params_of (Transfer 4)) (outs_of (run_transfer v0 alice bob 4))).
  - apply env_transfer_shows.
  - reflexivity.
  - apply run_ok. vm_compute. reflexivity.
  - by apply (bool_decide_unpack _); vm_compute.
  - vm_compute. reflexivity.
Defined.
