(* ===== verification/Builtins.v ===== *)
(** * The other native contracts (src/vm/builtin/{mod,sha3,staking,wasm}.rs)

    A native contract may panic, so its entry point returns an [Outcome]. Of
    the machine it is handed it reads the limits only. *)
From S2P Require Import Prelude Primitives State Transaction Contract Currency.

(** [NativeContractEntrypoint] *)
Abbreviation NativeEntrypoint := (Limits → Environment → bytes → Outcome ContractResult).

(** ** Staking and hashing *)

(** The body of the staking contract is [todo!()]. *)
Definition staking_contract : NativeEntrypoint := λ _ _ _, Panic.

Definition sha3_contract `{Crypto} (env : Environment) (params : bytes) : ContractResult :=
  match env_accounts env with
  | [(addr, accinfo)] =>
      if negb (view_writable accinfo) then Err AccountNotWritable
      else
        let digest := Sha3_256 (match view_data accinfo with Some data => data | None => params end) in
        Ok [WriteAccountData addr (Some (b32 digest)); LogEntry "action" "sha3"]
  | _ => Err InvalidInputAccounts
  end.

(** ** Deployment of contracts *)

(** 2kb max per uploaded slot *)
Definition MAX_SLOT_SIZE : nat := 2048.

Inductive WasmInstruction :=
  | Allocate (seed checksum : array32) (authority : Pubkey) (size : Z)
  | Upload (seed : array32) (index : nat) (chunk : bytes)
  | Install (seed : array32) (init : option bytes).

Record BytecodeAccount := MkBytecode {
  bc_authority : Pubkey;
  bc_size : Z;
  bc_checksum : array32;
  bc_mask : list bool;
  bc_bytecode : bytes
}.

Section wasm.
Context `{Crypto} `{Borsh BytecodeAccount} `{Borsh WasmInstruction}.

Definition bytecode_seed : bytes := str_bytes "bytecode".

Definition contract_account (seed : array32) (env : Environment) :
    Result ContractError (Pubkey * AccountView) :=
  let expected_addr := derive (env_address env) [b32 seed] in
  match env_accounts env with
  | (addr, acc) :: _ => if bool_decide (addr ≠ expected_addr) then Err InvalidInputAccounts else Ok (addr, acc)
  | [] => Err InvalidInputAccounts
  end.

Definition bytecode_account (seed : array32) (env : Environment) :
    Result ContractError (Pubkey * AccountView) :=
  let expected_addr := derive (env_address env) [b32 seed; bytecode_seed] in
  match env_accounts env !! 1%nat with
  | Some (addr, acc) => if bool_decide (addr ≠ expected_addr) then Err InvalidInputAccounts else Ok (addr, acc)
  | None => Err InvalidInputAccounts
  end.

(** An account that something is stored at or that somebody owns. *)
Definition account_taken (acc : AccountView) : bool :=
  bool_decide (is_Some (view_data acc)) || bool_decide (is_Some (view_owner acc)).

(** [b_acc.owner.map(|o| o == env.address).unwrap_or(false)] *)
Definition owned_by_env (acc : AccountView) (env : Environment) : bool :=
  match view_owner acc with Some o => bool_decide (o = env_address env) | None => false end.

(** The length the first guard of the instructions looks at is that of the
    contract's own address. The mask and the bytecode are created with
    [Vec::with_capacity]: they are empty. *)
Definition process_allocate (env : Environment) (seed checksum : array32) (auth : Pubkey) (size : Z)
    (limits : Limits) : ContractResult :=
  _ ← reject_if (negb (length (b32 (env_address env)) =? 2)%nat) InvalidInputAccounts;
  _ ← reject_if (Z.of_nat (max_contract_size limits) <? size) AccountTooLarge;
  c ← contract_account seed env;
  _ ← reject_if (view_executable c.2 || account_taken c.2) AccountAlreadyExists;
  b ← bytecode_account seed env;
  _ ← reject_if (account_taken b.2) AccountAlreadyExists;
  _ ← reject_if (negb (view_writable b.2)) AccountNotWritable;
  _ ← reject_if (negb (has_private_key auth)) InvalidInputAccounts;
  contents ← to_vec (MkBytecode auth size checksum [] []);
  Ok [ LogEntry "action" "allocate";
       LogEntry "contract" (pubkey_to_string c.1);
       LogEntry "size" (u64_to_string size);
       LogEntry "checksum" (bs58_encode (b32 checksum));
       LogEntry "authority" (pubkey_to_string auth);
       CreateOwnedAccount b.1 (Some contents) ].

(** Reading the third account of the environment panics when there are two. *)
Definition authority_account (env : Environment) : Outcome (Pubkey * AccountView) :=
  match env_accounts env !! 2%nat with Some a => Done a | None => Panic end.

(** The stored state of an upload, read by [Upload] and by [Install]. *)
Definition read_bytecode (b_acc : AccountView) : Result ContractError BytecodeAccount :=
  match view_data b_acc with
  | Some data => ok_or (try_from_slice data) InvalidInputAccounts
  | None => Err AccountDoesNotExist
  end.

Definition check_authority (content : BytecodeAccount) (a : Pubkey * AccountView) : Result ContractError unit :=
  _ ← reject_if (bool_decide (bc_authority content ≠ a.1)) InvalidInputAccounts;
  reject_if (negb (view_signer a.2)) (ContractSignatureError MissingSigners).

(** Marking slot [index] and copying the chunk into place; the range copied
    into is inclusive of its end, and a copy between slices of different
    lengths panics, as does an index outside of the mask. *)
Definition store_chunk (content : BytecodeAccount) (index : nat) (chunk : bytes) :
    Outcome (Result ContractError BytecodeAccount) :=
  if (index <=? length (bc_mask content))%nat then Done (Err InvalidInputParameters)
  else match bc_mask content !! index with
  | None => Panic
  | Some true => Done (Err (Other ("slot " +:+ u64_to_string (Z.of_nat index) +:+ " is already uploaded")))
  | Some false =>
      let start_offset := (index * MAX_SLOT_SIZE)%nat in
      if (length (bc_bytecode content) <=? start_offset)%nat then Done (Err InvalidInputParameters)
      else
        let end_offset := (start_offset + length chunk)%nat in
        if (length (bc_bytecode content) <=? end_offset)%nat then Done (Err InvalidInputParameters)
        else if negb (length chunk =? S end_offset - start_offset)%nat then Panic
        else Done (Ok (MkBytecode (bc_authority content) (bc_size content) (bc_checksum content)
               (<[index := true]> (bc_mask content))
               (take start_offset (bc_bytecode content) ++ chunk ++ drop (S end_offset) (bc_bytecode content))))
  end.

Definition process_upload (env : Environment) (seed : array32) (index : nat) (chunk : bytes) :
    Outcome ContractResult :=
  let checked : Result ContractError _ :=
    _ ← reject_if (negb (length (b32 (env_address env)) =? 3)%nat) InvalidInputAccounts;
    _ ← reject_if ((length chunk =? 0)%nat || (MAX_SLOT_SIZE <? length chunk)%nat) InvalidInputParameters;
    c ← contract_account seed env;
    _ ← reject_if (view_executable c.2 || account_taken c.2) AccountAlreadyExists;
    b ← bytecode_account seed env;
    _ ← reject_if (negb (view_writable b.2)) AccountNotWritable;
    _ ← reject_if (owned_by_env b.2 env) InvalidAccountOwner;
    content ← read_bytecode b.2;
    Ok (c.1, b.1, content) in
  p ←? Done checked;
  a ← authority_account env;
  u ←? Done (check_authority p.2 a);
  content ←? store_chunk p.2 index chunk;
  Done (contents ← to_vec content;
        Ok [ LogEntry "action" "upload";
             LogEntry "contract" (pubkey_to_string p.1.1);
             LogEntry "slot" (u64_to_string (Z.of_nat index));
             WriteAccountData p.1.2 (Some contents) ]).

(** The accounts passed on to the constructor. *)
Definition init_accounts (env : Environment) : list AccountRef :=
  (λ p, MkAccountRef p.1 (view_writable p.2) (view_signer p.2)) <$> drop 2 (env_accounts env).

Definition process_install (env : Environment) (seed : array32) (init : option bytes) : Outcome ContractResult :=
  let checked : Result ContractError _ :=
    _ ← reject_if (length (b32 (env_address env)) <? 3)%nat InvalidInputAccounts;
    c ← contract_account seed env;
    _ ← reject_if (negb (view_writable c.2)) AccountNotWritable;
    b ← bytecode_account seed env;
    _ ← reject_if (negb (view_writable b.2)) AccountNotWritable;
    _ ← reject_if (owned_by_env b.2 env) InvalidAccountOwner;
    content ← read_bytecode b.2;
    Ok (c.1, b.1, content) in
  p ←? Done checked;
  a ← authority_account env;
  u ←? Done (check_authority p.2 a);
  Done (if existsb negb (bc_mask p.2) then Err (Other "Not all bytecode slots are uploaded")
        else Ok ([ LogEntry "action" "install";
                   LogEntry "contract" (pubkey_to_string p.1.1);
                   DeleteOwnedAccount p.1.2;
                   CreateExecutableAccount p.1.1 (bc_bytecode p.2) ]
                 ++ match init with
                    | Some params => [ContractInvoke p.1.1 (init_accounts env) params]
                    | None => []
                    end)).

Definition wasm_contract : NativeEntrypoint := λ limits env params,
  instruction ←? Done (ok_or (borsh_deserialize params) InvalidInputParameters);
  match instruction with
  | Allocate seed checksum auth size => Done (process_allocate env seed checksum auth size limits)
  | Upload seed index chunk => process_upload env seed index chunk
  | Install seed init => process_install env seed init
  end.
End wasm.

(** ** The table of builtins *)

(** The addresses are base-58 literals of the source; they are taken as given. *)
Class BuiltinAddresses := {
  SHA3_ADDR : Pubkey;
  CURRENCY_ADDR : Pubkey;
  STAKING_ADDR : Pubkey;
  WASM_VM_BUILTIN_ADDR : Pubkey
}.

Section table.
Context `{Crypto} `{Borsh Mint} `{Borsh CoinAccount} `{Borsh Instruction}.
Context `{Borsh BytecodeAccount} `{Borsh WasmInstruction} `{BuiltinAddresses}.

Definition BUILTIN_CONTRACTS (addr : Pubkey) : option NativeEntrypoint :=
  if bool_decide (addr = SHA3_ADDR) then Some (λ _ env params, Done (sha3_contract env params))
  else if bool_decide (addr = CURRENCY_ADDR) then Some (λ _ env params, Done (currency_contract env params))
  else if bool_decide (addr = STAKING_ADDR) then Some staking_contract
  else if bool_decide (addr = WASM_VM_BUILTIN_ADDR) then Some wasm_contract
  else None.
End table.
