(* ===== verification/Block.v ===== *)
(** * Votes, validators, genesis and produced blocks (src/consensus/{vote,validator,genesis,block}.rs) *)
From S2P Require Import Prelude Primitives State Transaction.
From Stdlib Require Import Strings.Byte.

(** ** Validators *)

Record Validator := MkValidator { pubkey : Pubkey; stake : Z }.

#[export] Instance validator_eq_dec : EqDecision Validator.
Proof. solve_decision. Defined.

(** The order of [Ord for Validator]: by key, then by stake. *)
Definition validator_leb (a b : Validator) : bool :=
  if bool_decide (pubkey a = pubkey b) then stake a <=? stake b else pubkey_leb (pubkey a) (pubkey b).

Section votes.
Context `{Crypto}.

(** ** Votes *)

Record Vote := MkVote {
  validator : Pubkey;
  target : Multihash;
  justification : Multihash;
  vote_signature : Signature
}.

#[export] Instance vote_eq_dec : EqDecision Vote.
Proof. solve_decision. Defined.

(** The signed message of a vote. *)
Definition vote_message (target justification : Multihash) : bytes :=
  mh_to_bytes target ++ mh_to_bytes justification.

Definition Vote_verify_signature (v : Vote) : bool :=
  ed25519_verify (validator v) (vote_message (target v) (justification v)) (vote_signature v).

Definition Vote_new (keypair : Keypair) (target justification : Multihash) : Vote :=
  MkVote (keypair_public keypair) target justification (ed25519_sign keypair (vote_message target justification)).

Definition vote_hash (v : Vote) : Multihash :=
  mh_sha3 (Sha3_256 (b32 (validator v) ++ mh_to_bytes (target v) ++ mh_to_bytes (justification v)
    ++ sig_to_bytes (vote_signature v))).
End votes.

(** ** Genesis *)

(** Times are in milliseconds: [genesis_time] since the Unix epoch, the slot
    interval as a duration. *)
Record Genesis := MkGenesis {
  chain_id : string;
  genesis_time : Z;
  slot_interval : Z;
  epoch_blocks : Z;
  limits : Limits;
  builtins : list Pubkey;
  validators : list Validator;
  system_coin : Pubkey;
  genesis_state : gmap Pubkey Account
}.

Section genesis.
Context `{Crypto}.

Definition usize_le (n : nat) : bytes := u64_le (Z.of_nat n).

(** The limits in the order in which they are hashed. *)
Definition limits_bytes (l : Limits) : bytes :=
  usize_le (max_block_size l) ++ u64_le (max_justification_age l) ++ u64_le (minimum_stake l)
  ++ usize_le (max_log_size l) ++ usize_le (max_logs_count l) ++ usize_le (max_account_size l)
  ++ usize_le (max_input_accounts l) ++ usize_le (max_block_transactions l) ++ usize_le (max_contract_size l).

Definition genesis_account_bytes (p : Pubkey * Account) : bytes :=
  b32 p.1 ++ match owner p.2 with Some o => b32 o | None => [x00] end
          ++ match data p.2 with Some v => v | None => [x00] end.

Definition genesis_hash (g : Genesis) : Multihash :=
  mh_sha3 (Sha3_256 (String.list_byte_of_string (chain_id g) ++ le_bytes 8 (genesis_time g)
    ++ le_bytes 16 (slot_interval g) ++ u64_le (epoch_blocks g) ++ limits_bytes (limits g)
    ++ concat (b32 <$> builtins g)
    ++ concat ((λ v, b32 (pubkey v) ++ u64_le (stake v)) <$> validators g)
    ++ concat (genesis_account_bytes <$> btree_iter (genesis_state g)))).

(** [Genesis::state_hash]: the loop that fills a diff with the accounts. *)
Definition genesis_diff (g : Genesis) : StateDiff :=
  foldl (λ d p, (sd_set d p.1 p.2).2) sd_default (btree_iter (genesis_state g)).
Definition genesis_state_hash (g : Genesis) : Multihash := sd_hash (genesis_diff g).
End genesis.

(** ** Blocks *)

(** What a block carries: [BlockData] without its [Executable] part. The
    serialization of the data is bincode's. *)
Class BlockData (D : Type) := {
  #[global] data_eq_dec :: EqDecision D;
  data_default : D;
  data_bincode : D → bytes
}.

Section blocks.
Context `{Crypto} {D : Type} `{BlockData D}.

Definition data_hash (d : D) : Multihash := mh_sha3 (Sha3_256 (data_bincode d)).

Record Produced := MkProduced {
  parent : Multihash;
  state_hash : Multihash;
  height : Z;
  signature : Pubkey * Signature;
  block_data : D;
  votes : list Vote
}.

#[export] Instance produced_eq_dec : EqDecision Produced.
Proof. solve_decision. Defined.

Definition hash_parts (v : Pubkey) (height : Z) (parent state_hash : Multihash) (data : D) (votes : list Vote) :
    Multihash :=
  mh_sha3 (Sha3_256 (b32 v ++ mh_to_bytes parent ++ mh_to_bytes state_hash ++ u64_le height
    ++ mh_to_bytes (data_hash data) ++ concat ((λ v, mh_to_bytes (vote_hash v)) <$> votes))).

(** [Produced::hash]; the cache of the code holds this value. *)
Definition block_hash (b : Produced) : Multihash :=
  hash_parts (signature b).1 (height b) (parent b) (state_hash b) (block_data b) (votes b).

Definition Produced_new (keypair : Keypair) (height : Z) (parent : Multihash) (data : D)
    (state_hash : Multihash) (votes : list Vote) : Produced :=
  let sig := (keypair_public keypair,
    ed25519_sign keypair (mh_to_bytes (hash_parts (keypair_public keypair) height parent state_hash data votes))) in
  MkProduced parent state_hash height sig data votes.

Definition Produced_verify_signature (b : Produced) : bool :=
  ed25519_verify (signature b).1 (mh_to_bytes (block_hash b)) (signature b).2.

(** [Arc<dyn Block<D>>] *)
Inductive AnyBlock := GenesisBlock (g : Genesis) | ProducedBlock (b : Produced).

Definition any_hash (b : AnyBlock) : Multihash :=
  match b with GenesisBlock g => genesis_hash g | ProducedBlock b => block_hash b end.
Definition any_height (b : AnyBlock) : Z :=
  match b with GenesisBlock _ => 0 | ProducedBlock b => height b end.
Definition any_state_hash (b : AnyBlock) : Multihash :=
  match b with GenesisBlock g => genesis_state_hash g | ProducedBlock b => state_hash b end.
(** The error of the genesis block is [None]. *)
Definition any_parent (b : AnyBlock) : option Multihash :=
  match b with GenesisBlock _ => None | ProducedBlock b => Some (parent b) end.
Definition any_signature (b : AnyBlock) : option (Pubkey * Signature) :=
  match b with GenesisBlock _ => None | ProducedBlock b => Some (signature b) end.
Definition any_votes (b : AnyBlock) : list Vote :=
  match b with GenesisBlock _ => [] | ProducedBlock b => votes b end.
(** The genesis block has no payload: asking for it panics. *)
Definition any_payload (b : AnyBlock) : Outcome D :=
  match b with GenesisBlock _ => Panic | ProducedBlock b => Done (block_data b) end.
End blocks.
Arguments Produced {_} _.
Arguments AnyBlock {_} _.

(** ** Properties *)

Section signing.
Context `{CryptoLaws} {D : Type} `{BlockData D}.

(** What a validator signs verifies: every block and every vote made with
    a key pair carries the public key of the pair and a signature that
    verification accepts. *)
Theorem signed_blocks_and_votes_verify kp h p (d : D) sh vs tgt just :
  Produced_verify_signature (Produced_new kp h p d sh vs) = true ∧
  (signature (Produced_new kp h p d sh vs)).1 = keypair_public kp ∧
  Vote_verify_signature (Vote_new kp tgt just) = true ∧ validator (Vote_new kp tgt just) = keypair_public kp.
Proof. split_and!; [apply sign_verify|done|apply sign_verify|done]. Qed.
End signing.

#[export] Instance unit_block_data : BlockData unit := {| data_default := tt; data_bincode _ := [] |}.

Lemma signed_blocks_and_votes_verify_witness :
  Produced_verify_signature (Produced_new (toy_key 3) 1 (mh_sha3 (array32_of_Z 1)) tt (mh_sha3 (array32_of_Z 2)) []) = true.
Proof.
  exact (proj1 (signed_blocks_and_votes_verify (toy_key 3) 1 (mh_sha3 (array32_of_Z 1)) tt (mh_sha3 (array32_of_Z 2)) []
    (mh_sha3 (array32_of_Z 1)) (mh_sha3 (array32_of_Z 2)))).
Defined.

(** The genesis with another limit on transaction parameters. *)
Definition set_params_limit (g : Genesis) (n : nat) : Genesis :=
  let l := limits g in
  MkGenesis (chain_id g) (genesis_time g) (slot_interval g) (epoch_blocks g)
    (MkLimits (max_justification_age l) (minimum_stake l) (max_input_accounts l) (max_account_size l)
      (max_log_size l) (max_logs_count l) (max_block_transactions l) (max_contract_size l) (max_block_size l) n)
    (builtins g) (validators g) (system_coin g) (genesis_state g).

(** The genesis hash is not a fingerprint of the whole configuration: two
    chains that differ in the limit on transaction parameters (which decides
    which transactions are accepted) have the same hash. *)
Theorem genesis_hash_omits_params_limit `{Crypto} g n tx :
  genesis_hash (set_params_limit g n) = genesis_hash g ∧
  ((n < length (params tx))%nat → (length (params tx) ≤ max_transaction_params_size (limits g))%nat →
   (length (accounts tx) ≤ max_input_accounts (limits g))%nat →
   verify_limits tx (limits g) = Ok tt ∧ verify_limits tx (limits (set_params_limit g n)) = Err ParamsTooBig).
Proof.
  split; [done|]. intros Hn Hg Ha. unfold verify_limits. simpl.
  rewrite !(proj2 (Nat.ltb_ge _ _)) by done. by rewrite (proj2 (Nat.ltb_lt _ _)).
Qed.

Definition small_genesis : Genesis :=
  MkGenesis "small" 0 1000 4 (MkLimits 100 1 10 10000 1000 20 100 10000 100000 1000) [] [] (array32_of_Z 1) ∅.

Lemma genesis_hash_omits_params_limit_witness :
  genesis_hash (set_params_limit small_genesis 0) = genesis_hash small_genesis ∧
  verify_limits example_tx (limits (set_params_limit small_genesis 0)) = Err ParamsTooBig.
Proof.
  destruct (genesis_hash_omits_params_limit small_genesis 0 example_tx) as [Hh Hv]. split; [exact Hh|].
  apply Hv; simpl; lia.
Defined.
