(* ===== verification/Machine.v ===== *)
(** * The virtual machine and its execution units (src/vm/{machine,unit}.rs) *)
From S2P Require Import Prelude Primitives State Transaction Contract Currency Builtins Block.

(** The WASM runtime, by its interface: instantiating a module from bytecode
    and calling its entry point. A call that never comes back is [OutOfFuel]. *)
Class WasmRuntime := {
  Runtime : Type;
  runtime_new : bytes → Result ContractError Runtime;
  runtime_invoke : Runtime → Environment → bytes → Outcome ContractResult
}.

Inductive MachineError :=
  | InconsistentStateHash
  | InconsistentLogsHash
  | InvalidBlockHeight
  | InvalidTransactionsOrder
  | UndefinedBuiltin (addr : Pubkey).

(** A contract on which a machine can call: [enum Entrypoint]. *)
Inductive Entrypoint `{WasmRuntime} :=
  | Native (f : NativeEntrypoint)
  | External (r : Runtime).

Record Machine := MkMachine {
  vm_limits : Limits;
  vm_builtins : gmap Pubkey NativeEntrypoint
}.

Section machine.
Context `{Crypto} `{WasmRuntime} `{BuiltinAddresses}.
Implicit Types (vm : Machine) (state : View) (addr a : Pubkey).

(** [Machine::new], given the table of builtin contracts. *)
Definition Machine_new (table : Pubkey → option NativeEntrypoint) (genesis : Genesis) : Result MachineError Machine :=
  bs ← foldl (λ acc addr, m ← acc; match table addr with
                          | Some entrypoint => Ok (<[addr := entrypoint]> m)
                          | None => Err (UndefinedBuiltin addr)
                          end) (Ok ∅) (builtins genesis);
  Ok (MkMachine (limits genesis) bs).

Definition builtin vm addr : option NativeEntrypoint := vm_builtins vm !! addr.

(** [Machine::contract] *)
Definition machine_contract addr state : Result ContractError Runtime :=
  match state addr with
  | Some account =>
      match owner account, data account with
      | Some o, Some code =>
          if bool_decide (o = WASM_VM_BUILTIN_ADDR) && executable account
          then runtime_new code else Err AccountIsNotExecutable
      | _, _ => Err AccountIsNotExecutable
      end
  | None => Err ContractDoesNotExit
  end.

(** ** Execution units *)

Record ExecutionUnit := MkUnit {
  vm : Machine;
  entrypoint : Entrypoint;
  env : Environment;
  state : View;
  unit_contract : Pubkey;
  unit_params : bytes
}.

(** The effective [writable] flag of an account reference. *)
Definition writable_view state (contract : Pubkey) (account : AccountRef) : bool :=
  ref_writable account &&
  if has_private_key (address account) then ref_signer account
  else match state (address account) with
       | None => true
       | Some existing =>
           negb (executable existing) &&
           match owner existing with Some o => bool_decide (o = contract) | None => false end
       end.

Definition create_account_view state (contract : Pubkey) (account : AccountRef) : Pubkey * AccountView :=
  let account_data := state (address account) in
  (address account,
   MkAccountView (ref_signer account) (writable_view state contract account)
     (match account_data with Some a => executable a | None => false end)
     (account_data ≫= owner) (account_data ≫= data)).

Definition create_environment state (accounts : list AccountRef) (addr : Pubkey) (caller : option Pubkey) :
    Environment :=
  MkEnvironment caller addr (create_account_view state addr <$> accounts).

Definition find_entrypoint (vm : Machine) state (contract : Pubkey) : Result ContractError Entrypoint :=
  match builtin vm contract with
  | Some f => Ok (Native f)
  | None => r ← machine_contract contract state; Ok (External r)
  end.

Definition Unit_new (tx : Transaction) state (vm : Machine) : Result ContractError ExecutionUnit :=
  _ ← reject_if (max_input_accounts (vm_limits vm) <? length (accounts tx))%nat TooManyInputAccounts;
  _ ← map_err ContractSignatureError (verify_signatures tx);
  _ ← reject_if (negb (tx_nonce tx =? match state (payer tx) with Some a => nonce a | None => 0 end))
        InvalidTransactionNonce;
  e ← find_entrypoint vm state (contract tx);
  Ok (MkUnit vm e (create_environment state (accounts tx) (contract tx) None) state (contract tx) (params tx)).

Definition new_nested (u : ExecutionUnit) (contract : Pubkey) (accounts : list AccountRef) (params : bytes) :
    Result ContractError ExecutionUnit :=
  _ ← reject_if (max_input_accounts (vm_limits (vm u)) <? length accounts)%nat TooManyInputAccounts;
  e ← find_entrypoint (vm u) (state u) contract;
  Ok (MkUnit (vm u) e (create_environment (state u) accounts contract (Some (unit_contract u)))
        (state u) contract params).

(** ** Outputs *)

(** The loops of [set_account] and [delete_account] stop at the first listed
    account with the address. *)
Definition listed (u : ExecutionUnit) (a : Pubkey) : option AccountView :=
  find_map (λ p, if bool_decide (p.1 = a) then Some p.2 else None) (env_accounts (env u)).

Definition set_account (u : ExecutionUnit) (a : Pubkey) (value : Account) : Result ContractError StateDiff :=
  match listed u a with
  | Some view => if view_writable view then Ok (sd_set sd_default a value).2 else Err AccountNotWritable
  | None => Err InvalidOutputAccount
  end.

Definition create_account (u : ExecutionUnit) (a : Pubkey) (d : option bytes) : Result ContractError StateDiff :=
  match state u a with
  | None => set_account u a (MkAccount false 0 (Some (unit_contract u)) d)
  | Some _ => Err AccountAlreadyExists
  end.

Definition create_executable_account (u : ExecutionUnit) (a : Pubkey) (bytecode : bytes) :
    Result ContractError StateDiff :=
  if bool_decide (env_address (env u) ≠ WASM_VM_BUILTIN_ADDR) then Err UnauthorizedOperation
  else match state u a with
       | None => set_account u a (MkAccount true 0 (Some WASM_VM_BUILTIN_ADDR) (Some bytecode))
       | Some _ => Err AccountAlreadyExists
       end.

(** [Account { data, ..acc }] *)
Definition set_data (acc : Account) (d : option bytes) : Account :=
  MkAccount (executable acc) (nonce acc) (owner acc) d.

Definition modify_account (u : ExecutionUnit) (a : Pubkey) (d : option bytes) : Result ContractError StateDiff :=
  match state u a with
  | Some acc => set_account u a (set_data acc d)
  | None => Err AccountDoesNotExist
  end.

Definition delete_account (u : ExecutionUnit) (a : Pubkey) : Result ContractError StateDiff :=
  match listed u a with
  | Some view =>
      match view_owner view with
      | None => Err InvalidAccountOwner
      | Some o =>
          if bool_decide (o ≠ env_address (env u)) then Err InvalidAccountOwner
          else if negb (view_writable view) then Err AccountNotWritable
          else Ok (sd_remove sd_default a)
      end
  | None => Err InvalidOutputAccount
  end.

Definition data_too_large (d : option bytes) (max : nat) : bool :=
  match d with Some d => (max <? length d)%nat | None => false end.

Definition state_output (r : Result ContractError StateDiff) : Result ContractError TransactionOutput :=
  d ← r; Ok (MkTxOutput d []).

(** [process_output], given how nested units are executed. *)
Definition process_output (exec : ExecutionUnit → Outcome (Result ContractError TransactionOutput))
    (u : ExecutionUnit) (o : Output) : Outcome (Result ContractError TransactionOutput) :=
  let limits := vm_limits (vm u) in
  match o with
  | LogEntry key value =>
      Done (if (max_log_size limits <? String.length key + String.length value)%nat then Err LogTooLarge
            else Ok (MkTxOutput sd_default [(key, value)]))
  | CreateOwnedAccount a d =>
      Done (if data_too_large d (max_account_size limits) then Err AccountTooLarge
            else state_output (create_account u a d))
  | WriteAccountData a d =>
      Done (if data_too_large d (max_account_size limits) then Err AccountTooLarge
            else state_output (modify_account u a d))
  | DeleteOwnedAccount a => Done (state_output (delete_account u a))
  | ContractInvoke c accs ps =>
      n ←? Done (new_nested u c accs ps);
      exec n
  | CreateExecutableAccount a code =>
      Done (if (max_contract_size limits <? length code)%nat then Err AccountTooLarge
            else state_output (create_executable_account u a code))
  end.

(** The loop of [execute] over the outputs of the contract. *)
Fixpoint process_outputs (exec : ExecutionUnit → Outcome (Result ContractError TransactionOutput))
    (u : ExecutionUnit) (outs : list Output) (acc : TransactionOutput) :
    Outcome (Result ContractError TransactionOutput) :=
  match outs with
  | [] => Done (Ok acc)
  | o :: outs =>
      t ←? process_output exec u o;
      let acc := txout_merge acc t in
      if (max_logs_count (vm_limits (vm u)) <? length (log_entries acc))%nat then Done (Err TooManyLogs)
      else process_outputs exec u outs acc
  end.

Definition run_entrypoint (u : ExecutionUnit) : Outcome ContractResult :=
  match entrypoint u with
  | Native native => native (vm_limits (vm u)) (env u) (unit_params u)
  | External r => runtime_invoke r (env u) (unit_params u)
  end.

(** [execute]: [fuel] bounds the depth of nested invocations. *)
Fixpoint unit_execute (fuel : nat) (u : ExecutionUnit) : Outcome (Result ContractError TransactionOutput) :=
  match fuel with
  | O => OutOfFuel
  | S fuel =>
      outputs ←? run_entrypoint u;
      process_outputs (unit_execute fuel) u outputs txout_default
  end.
End machine.
