(* ===== verification/Runtime.v ===== *)
(** * The WASM runtime (src/vm/runtime.rs)

    How the machine hands its inputs to a contract and takes the outputs from it.
    The engine is not part of the repository: its operations on modules, exports
    and linear memory are a class. [wasmer_runtime] is the implementation of the
    interface [WasmRuntime] that the machine calls. *)
From S2P Require Import Prelude Primitives State Transaction Contract Currency Builtins Block Machine.

(** ** Limits of the memory *)

(** A memory as a module asks for it, in pages. *)
Record MemoryType := MkMemoryType { minimum : Z; maximum : option Z }.

Inductive MemoryError := MemoryGeneric (msg : string) | MemoryOther (msg : string).

(** Types of the engine that the code passes on. *)
Class WasmTypes := {
  MemoryStyle : Type;
  static_style : Z → Z → MemoryStyle;
  VMMemory : Type;
  MemoryLocation : Type;
  TableType : Type;
  TableStyle : Type;
  VMTable : Type;
  TableLocation : Type
}.

(** [trait Tunables] of the engine. *)
Record Tunables `{WasmTypes} := MkTunables {
  memory_style : MemoryType → MemoryStyle;
  table_style : TableType → TableStyle;
  create_host_memory : MemoryType → MemoryStyle → Result MemoryError VMMemory;
  create_vm_memory : MemoryType → MemoryStyle → MemoryLocation → Result MemoryError VMMemory;
  create_host_table : TableType → TableStyle → Result string VMTable;
  create_vm_table : TableType → TableStyle → TableLocation → Result string VMTable
}.

Section tunables.
Context `{WasmTypes} (limit : Z) (base : Tunables).

Definition adjust_memory (requested : MemoryType) : MemoryType := MkMemoryType (minimum requested) (Some limit).

Definition validate_memory (ty : MemoryType) : Result MemoryError unit :=
  _ ← reject_if (limit <? minimum ty)
        (MemoryGeneric ("Minimum " ++ u64_to_string (minimum ty) ++ " exceeds the allowed memory limit " ++ u64_to_string limit));
  match maximum ty with
  | Some max => reject_if (limit <? max) (MemoryGeneric "Maximum exceeds the allowed memory limit")
  | None => Err (MemoryGeneric "Maximum unset")
  end.

(** [impl Tunables for LimitingTunables] *)
Definition LimitingTunables : Tunables := {|
  memory_style _ := static_style limit 2147483648;
  table_style := table_style base;
  create_host_memory ty style :=
    let adjusted := adjust_memory ty in
    _ ← validate_memory adjusted;
    create_host_memory base adjusted style;
  create_vm_memory ty style location :=
    let adjusted := adjust_memory ty in
    _ ← validate_memory adjusted;
    create_vm_memory base adjusted style location;
  create_host_table := create_host_table base;
  create_vm_table := create_vm_table base
|}.
End tunables.

(** ** Instances *)

Inductive ValType := I32 | I64.

(** The engine. An instance holds the linear memory and whatever else the
    module's code keeps; calls change it. [wasm_export] looks a function up by
    name and type; a call that never comes back is [OutOfFuel]. The host function
    that ends a contract early is handed over when the module is instantiated;
    the other one only prints. *)
Class Wasmer `{WasmTypes} := {
  Module : Type;
  WasmInstance : Type;
  WasmFunction : Type;
  base_tunables : Tunables;
  Module_new : bytes → Result string Module;
  Instance_new : Tunables → (option bytes → Z → ContractError) → Module → Result string WasmInstance;
  wasm_export : string → list ValType → ValType → WasmInstance → Result string WasmFunction;
  wasm_call : WasmFunction → list Z → WasmInstance → Outcome (Result string (Z * WasmInstance));
  wasm_memory : WasmInstance → Result string bytes;
  wasm_set_memory : bytes → WasmInstance → WasmInstance;
  decode_message : bytes → string
}.

Section runtime.
Context `{Wasmer} `{!Borsh Environment} `{!Borsh bytes} `{!Borsh (list Output)} `{!Borsh ContractError}.
Implicit Types (i : WasmInstance).

(** A region of memory as one 64-bit integer: the address and the length. *)
Definition region_start (region : Z) : Z := Z.shiftr region 32.
Definition region_length (region : Z) : Z := Z.shiftr (wrap64 (Z.shiftl region 32)) 32.

(** The bytes of a region that ends before the last byte of the memory. *)
Definition region_bytes (memory : bytes) (region : Z) : option bytes :=
  let start := region_start region in
  let stop := start + region_length region in
  if Z.of_nat (length memory) <=? stop then None
  else Some (take (Z.to_nat (region_length region)) (drop (Z.to_nat start) memory)).

(** The host function [abort]: the contract's error. *)
Definition abort (memory : option bytes) (region : Z) : ContractError :=
  match memory with
  | Some memory =>
      match region_bytes memory region with
      | None => Contract.Runtime "Invalid error format"
      | Some b => default (Contract.Runtime (decode_message b)) (try_from_slice b)
      end
  | None => Contract.Runtime "inaccessible memory"
  end.

(** [Runtime::new]: four pages of memory. *)
Definition Runtime_new (bytecode : bytes) : Result ContractError WasmInstance :=
  m ← map_err Contract.Runtime (Module_new bytecode);
  map_err Contract.Runtime (Instance_new (LimitingTunables 4 base_tunables) abort m).

Definition wasm_get (name : string) (args : list ValType) (result : ValType) i : Outcome (Result ContractError WasmFunction) :=
  Done (map_err Contract.Runtime (wasm_export name args result i)).

Definition wasm_run (f : WasmFunction) (args : list Z) i : Outcome (Result ContractError (Z * WasmInstance)) :=
  r ← wasm_call f args i; mret (map_err Contract.Runtime r).

(** Room for an input, which the contract provides. *)
Definition allocate (size : Z) i : Outcome (Result ContractError (Z * WasmInstance)) :=
  f ←? wasm_get "allocate" [I32] I32 i;
  wasm_run f [wrap32 size] i.

(** Writing where the contract says; a slice that ends beyond the memory panics. *)
Definition copy_to_contract_memory (dst : Z) (src : bytes) i : Outcome (Result ContractError WasmInstance) :=
  memory ←? Done (map_err Contract.Runtime (wasm_memory i));
  let offset_from := Z.to_nat dst in
  let offset_to := (offset_from + length src)%nat in
  if (length memory <? offset_to)%nat then Panic
  else Done (Ok (wasm_set_memory (take offset_from memory ++ src ++ drop offset_to memory) i)).

Definition deliver_environment (env : Environment) i : Outcome (Result ContractError (Z * WasmInstance)) :=
  serialized_env ←? Done (map_err Contract.Runtime (try_to_vec env));
  '(env_ptr, i) ←? allocate (Z.of_nat (length serialized_env)) i;
  i ←? copy_to_contract_memory env_ptr serialized_env i;
  env_func ←? wasm_get "environment" [I32; I32] I32 i;
  wasm_run env_func [env_ptr; wrap32 (Z.of_nat (length serialized_env))] i.

Definition deliver_params (params : bytes) i : Outcome (Result ContractError (Z * WasmInstance)) :=
  params_func ←? wasm_get "params" [I32; I32] I32 i;
  serialized ←? Done (map_err Other (try_to_vec params));
  '(params_ptr, i) ←? allocate (Z.of_nat (length serialized)) i;
  i ←? copy_to_contract_memory params_ptr serialized i;
  wasm_run params_func [params_ptr; wrap32 (Z.of_nat (length serialized))] i.

Definition collect_output (ptr : Z) i : Outcome ContractResult :=
  output_func ←? wasm_get "output" [I32] I64 i;
  '(output_region, i) ←? wasm_run output_func [ptr] i;
  memory ←? Done (map_err Contract.Runtime (wasm_memory i));
  Done (match region_bytes memory output_region with
        | None => Err (Contract.Runtime "Invalid outputs format")
        | Some b => ok_or (try_from_slice b) (Contract.Runtime (decode_message b))
        end).

Definition invoke i (env : Environment) (params : bytes) : Outcome ContractResult :=
  main_func ←? wasm_get "main" [I32; I32] I32 i;
  '(env_ptr, i) ←? deliver_environment env i;
  '(params_ptr, i) ←? deliver_params params i;
  '(output_ptr, i) ←? wasm_run main_func [env_ptr; params_ptr] i;
  collect_output output_ptr i.

(** The implementation of what the machine calls. *)
#[export] Instance wasmer_runtime : WasmRuntime := {|
  Machine.Runtime := WasmInstance;
  runtime_new := Runtime_new;
  runtime_invoke := invoke
|}.
End runtime.
