(* ===== verification/Sdk.v ===== *)
(** * The contract side of the interface (sdk/rust/src, sdk/rust/macros/src)

    A contract that is written with the development kit: its keys and outputs, the
    exported functions that the runtime calls, over the linear memory of the instance and the boxes
    that the functions leave behind. A contract is a function from its
    environment and parameters to outputs or an error ([main] with the attribute
    macro). The allocator and the serialization are classes. *)
From S2P Require Import Prelude Primitives Text State Transaction Contract Currency Builtins Block Machine Runtime.

(** ** Data (error.rs, output.rs) *)

Inductive SdkSignatureError := SdkInvalidSignature | SdkMissingSigners.

(** The order of the variants and their fields are those of the kit. *)
Inductive SdkError :=
  | SdkInvalidTransactionNonce (n : Z)
  | SdkAccountAlreadyExists
  | SdkAccountDoesNotExist
  | SdkTooManyInputAccounts
  | SdkAccountTooLarge
  | SdkLogTooLarge
  | SdkTooManyLogs
  | SdkInvalidInputAccounts
  | SdkInvalidAccountOwner
  | SdkInvalidOutputAccount
  | SdkAccountNotWritable
  | SdkContractDoesNotExit
  | SdkAccountIsNotExecutable
  | SdkSignature (e : SdkSignatureError)
  | SdkInvalidInputParameters
  | SdkUnauthorizedOperation
  | SdkRuntime (msg : string)
  | SdkOther (msg : string)
  | SdkComputationalBudgetExhausted.

Inductive SdkOutput :=
  | SdkLogEntry (key value : string)
  | SdkCreateOwnedAccount (addr : Pubkey) (data : option bytes)
  | SdkWriteAccountData (addr : Pubkey) (data : option bytes)
  | SdkDeleteOwnedAccount (addr : Pubkey)
  | SdkContractInvoke (contract : Pubkey) (accounts : list (Pubkey * AccountView)) (params : bytes)
  | SdkCreateExecutableAccount (addr : Pubkey) (bytecode : bytes).

(** The output of the machine with the same meaning: there is one for all but
    invocations, whose accounts have other fields on the two sides. *)
Definition output_of_sdk (o : SdkOutput) : option Output :=
  match o with
  | SdkLogEntry k v => Some (LogEntry k v)
  | SdkCreateOwnedAccount a d => Some (CreateOwnedAccount a d)
  | SdkWriteAccountData a d => Some (WriteAccountData a d)
  | SdkDeleteOwnedAccount a => Some (DeleteOwnedAccount a)
  | SdkContractInvoke _ _ _ => None
  | SdkCreateExecutableAccount a c => Some (CreateExecutableAccount a c)
  end.

(** ** Keys (pubkey.rs) *)

Section keys.
Context `{TextForms}.

Definition sdk_pubkey_display (k : Pubkey) : string := bs58_encode (b32 k).
Definition sdk_pubkey_debug (k : Pubkey) : string := ("Pubkey(" ++ bs58_encode (b32 k) ++ ")")%string.
Definition sdk_pubkey_from_str (s : string) : Result Bs58Error Pubkey := decode_into_array s.

(** A key that a contract prints is read by the node as that key, and the other
    way round. *)
Lemma sdk_keys_understood `{!TextFormsLaws} k :
  pubkey_from_str (sdk_pubkey_display k) = Ok k ∧ sdk_pubkey_from_str (pubkey_display k) = Ok k.
Proof. split; exact (pubkey_from_display k). Qed.
End keys.

(** ** The guest *)

(** The allocator of the contract: the address of the block and the size that the
    memory has afterwards. *)
Class GuestHeap := {
  Heap : Type;
  heap_size : Heap → nat;
  heap_alloc : Z → Heap → option (Z * Heap)
}.
Class GuestHeapLaws `{GuestHeap} : Prop := {
  heap_alloc_fits n h p h' : 0 ≤ n → heap_alloc n h = Some (p, h') →
    0 ≤ p ∧ p + n ≤ Z.of_nat (heap_size h') ∧ (heap_size h ≤ heap_size h')%nat;
  heap_size_max h : Z.of_nat (heap_size h) < 2 ^ 32
}.

(** What the engine says of a trap: out of memory, a panic of the contract, an
    error returned by a host function. *)
Class Traps := {
  trap_out_of_memory : string;
  trap_panic : string;
  trap_host : ContractError → string
}.

Section sdk.
Context `{GuestHeap} `{Traps} `{!Borsh Environment} `{!Borsh bytes} `{!Borsh (list SdkOutput)} `{!Borsh SdkError}.

(** The memory, the allocator and the boxed objects by their addresses. *)
Record Guest := MkGuest {
  guest_memory : bytes;
  guest_heap : Heap;
  boxed_envs : list Environment;
  boxed_params : list bytes;
  boxed_outputs : list (list SdkOutput)
}.

(** What a contract is. *)
Definition Program : Type := Environment → bytes → Result SdkError (list SdkOutput).

(** Growing the memory to the size that the allocator wants. *)
Definition grow (size : nat) (memory : bytes) : bytes := memory ++ replicate (size - length memory) Byte.x00.

(** A block of memory; without one the contract traps. *)
Definition sdk_alloc (size : Z) (g : Guest) : Result string (Z * Guest) :=
  match heap_alloc size (guest_heap g) with
  | Some (p, h) => Ok (p, MkGuest (grow (heap_size h) (guest_memory g)) h (boxed_envs g) (boxed_params g) (boxed_outputs g))
  | None => Err trap_out_of_memory
  end.

Definition sdk_slice (ptr len : Z) (g : Guest) : bytes := take (Z.to_nat len) (drop (Z.to_nat ptr) (guest_memory g)).

(** [abi::allocate] *)
Definition sdk_allocate (size : Z) (g : Guest) : Result string (Z * Guest) := sdk_alloc size g.

(** [abi::environment]: the environment is boxed, its handle is the index. *)
Definition sdk_environment (ptr len : Z) (g : Guest) : Result string (Z * Guest) :=
  env ← ok_or (try_from_slice (sdk_slice ptr len g)) trap_panic;
  Ok (Z.of_nat (length (boxed_envs g)),
      MkGuest (guest_memory g) (guest_heap g) (boxed_envs g ++ [env]) (boxed_params g) (boxed_outputs g)).

(** [abi::params] *)
Definition sdk_params (ptr len : Z) (g : Guest) : Result string (Z * Guest) :=
  ps ← ok_or (try_from_slice (sdk_slice ptr len g)) trap_panic;
  Ok (Z.of_nat (length (boxed_params g)),
      MkGuest (guest_memory g) (guest_heap g) (boxed_envs g) (boxed_params g ++ [ps]) (boxed_outputs g)).

(** Serialized bytes that stay in the memory, as a region. *)
Definition sdk_leak (b : bytes) (g : Guest) : Result string (Z * Guest) :=
  '(addr, g) ← sdk_alloc (Z.of_nat (length b)) g;
  let from := Z.to_nat addr in
  let memory := take from (guest_memory g) ++ b ++ drop (from + length b) (guest_memory g) in
  Ok (Z.lor (Z.shiftl addr 32) (Z.of_nat (length b)),
      MkGuest memory (guest_heap g) (boxed_envs g) (boxed_params g) (boxed_outputs g)).

(** [abi::output] *)
Definition sdk_output (obj : Z) (g : Guest) : Result string (Z * Guest) :=
  match boxed_outputs g !! Z.to_nat obj with
  | Some outs => b ← map_err (λ _, trap_panic) (try_to_vec outs); sdk_leak b g
  | None => Err trap_panic
  end.

(** [abi::abort]: the host function never returns to the contract. *)
Definition sdk_abort (host_abort : option bytes → Z → ContractError) (error : SdkError) (g : Guest) : string :=
  match map_err (λ _, trap_panic) (try_to_vec error) ≫= λ b, sdk_leak b g with
  | Ok (region, g) => trap_host (host_abort (Some (guest_memory g)) region)
  | Err trap => trap
  end.

(** The entry point as the macro wraps it. *)
Definition sdk_main (host_abort : option bytes → Z → ContractError) (program : Program) (env params : Z) (g : Guest) :
    Result string (Z * Guest) :=
  match boxed_envs g !! Z.to_nat env, boxed_params g !! Z.to_nat params with
  | Some e, Some ps =>
      match program e ps with
      | Ok result =>
          Ok (Z.of_nat (length (boxed_outputs g)),
              MkGuest (guest_memory g) (guest_heap g) (boxed_envs g) (boxed_params g) (boxed_outputs g ++ [result]))
      | Err error => Err (sdk_abort host_abort error g)
      end
  | _, _ => Err trap_panic
  end.

(** ** Contracts as instances of the engine *)

Inductive SdkFunction := FAllocate | FEnvironment | FParams | FMain | FOutput.

(** What a module exports, by name and type. *)
Definition sdk_exports : list (string * list ValType * ValType * SdkFunction) :=
  [ ("allocate", [I32], I32, FAllocate); ("environment", [I32; I32], I32, FEnvironment);
    ("params", [I32; I32], I32, FParams); ("main", [I32; I32], I32, FMain); ("output", [I32], I64, FOutput) ]%string.

(** An instance: the contract, its memory, and the host function it imports. *)
Record SdkInstance := MkSdkInstance {
  inst_program : Program;
  inst_abort : option bytes → Z → ContractError;
  inst_guest : Guest
}.

Definition set_guest (i : SdkInstance) (g : Guest) : SdkInstance := MkSdkInstance (inst_program i) (inst_abort i) g.

Definition sdk_call (f : SdkFunction) (args : list Z) (i : SdkInstance) : Outcome (Result string (Z * SdkInstance)) :=
  let g := inst_guest i in
  let returns (r : Result string (Z * Guest)) : Outcome (Result string (Z * SdkInstance)) :=
    Done ('(v, g) ← r; Ok (v, set_guest i g)) in
  match f, args with
  | FAllocate, [size] => returns (sdk_allocate size g)
  | FEnvironment, [ptr; len] => returns (sdk_environment ptr len g)
  | FParams, [ptr; len] => returns (sdk_params ptr len g)
  | FMain, [env; params] => returns (sdk_main (inst_abort i) (inst_program i) env params g)
  | FOutput, [obj] => returns (sdk_output obj g)
  | _, _ => Done (Err trap_panic)
  end.

Definition val_type_eqb (a b : ValType) : bool := match a, b with I32, I32 | I64, I64 => true | _, _ => false end.

Definition sdk_export (name : string) (args : list ValType) (result : ValType) : Result string SdkFunction :=
  ok_or (find_map (λ '(n, a, r, f),
           if String.eqb n name && (length a =? length args)%nat && forallb id (zip_with val_type_eqb a args) && val_type_eqb r result
           then Some f else None) sdk_exports) ("Missing export " ++ name)%string.

Section engine.
Context `{WasmTypes} (tunables : Tunables) (memory_type : MemoryType) (location : MemoryLocation).
Context (memory_message : MemoryError → string) (message : bytes → string) (load : bytes → option (Program * Guest)).

(** The engine on contracts that were built with the kit. *)
Definition sdk_wasmer : Wasmer := {|
  Module := Program * Guest;
  WasmInstance := SdkInstance;
  WasmFunction := SdkFunction;
  base_tunables := tunables;
  Module_new code := ok_or (load code) "invalid module"%string;
  Instance_new tun host_abort m :=
    _ ← map_err memory_message (create_vm_memory tun memory_type (memory_style tun memory_type) location);
    Ok (MkSdkInstance m.1 host_abort m.2);
  wasm_export name args result _ := sdk_export name args result;
  wasm_call := sdk_call;
  wasm_memory i := Ok (guest_memory (inst_guest i));
  wasm_set_memory b i := set_guest i (MkGuest b (guest_heap (inst_guest i)) (boxed_envs (inst_guest i)) (boxed_params (inst_guest i)) (boxed_outputs (inst_guest i)));
  decode_message := message
|}.
End engine.
End sdk.
