(* ===== verification/VmExample.v ===== *)
(** * A machine to evaluate the model on

    A machine with the currency contract, a runtime whose every contract is a
    proxy, and a state with a mint, a coin account and such a proxy. *)
From S2P Require Import Prelude Primitives State Transaction Contract Currency CurrencyProps Builtins Block Machine.
Import CoinExample.

(** The bytecode of a proxy is an address: it invokes that contract with the
    accounts it was given, all of them marked as signers. *)
Definition proxy_invoke (code : bytes) (env : Environment) (params : bytes) : Outcome ContractResult :=
  Done match array32_of_bytes code with
       | Some target => Ok [ContractInvoke target ((λ p, MkAccountRef p.1 true true) <$> env_accounts env) params]
       | None => Ok []
       end.

#[export] Instance toy_runtime : WasmRuntime := {|
  Runtime := bytes;
  runtime_new code := Ok code;
  runtime_invoke := proxy_invoke
|}.

#[export] Instance toy_addresses : BuiltinAddresses := {|
  SHA3_ADDR := array32_of_Z 100;
  CURRENCY_ADDR := prog;
  STAKING_ADDR := array32_of_Z 102;
  WASM_VM_BUILTIN_ADDR := array32_of_Z 103
|}.

#[export] Instance bytecode_eq_dec : EqDecision BytecodeAccount.
Proof. solve_decision. Defined.
#[export] Program Instance bytecode_countable : Countable BytecodeAccount :=
  inj_countable' (λ b, (bc_authority b, bc_size b, bc_checksum b, bc_mask b, bc_bytecode b))
    (λ '(a, s, c, m, d), MkBytecode a s c m d) _.
Next Obligation. by intros []. Qed.
#[export] Instance wasm_instruction_eq_dec : EqDecision WasmInstruction.
Proof. solve_decision. Defined.
#[export] Program Instance wasm_instruction_countable : Countable WasmInstruction :=
  inj_countable' (λ i, match i with
    | Allocate s c a n => inl (s, c, a, n)
    | Upload s i b => inr (inl (s, i, b))
    | Install s i => inr (inr (s, i))
    end)
    (λ c, match c with
    | inl (s, c, a, n) => Allocate s c a n
    | inr (inl (s, i, b)) => Upload s i b
    | inr (inr (s, i)) => Install s i
    end) _.
Next Obligation. by intros []. Qed.
#[export] Instance toy_bytecode_borsh : Borsh BytecodeAccount := toy_borsh (λ _, true).
#[export] Instance toy_wasm_borsh : Borsh WasmInstruction := toy_borsh (λ _, true).

Module VmExample.
Definition toy_limits : Limits := MkLimits 100 1 10 10000 1000 20 100 10000 100000 1000.
Definition toy_genesis : Genesis :=
  MkGenesis "toy" 0 1000 4 toy_limits [prog; SHA3_ADDR; WASM_VM_BUILTIN_ADDR] [] prog ∅.
Definition toy_vm : Machine :=
  match Machine_new BUILTIN_CONTRACTS toy_genesis with Ok m => m | Err _ => MkMachine toy_limits ∅ end.

Definition mallory : Pubkey := array32_of_Z 9.
Definition proxy : Pubkey := array32_of_Z 200.

(** The state: the mint, Alice's coins and the proxy of the currency contract. *)
Definition owned (d : option bytes) : option Account := Some (MkAccount false 0 (Some prog) d).
Definition toy_state : View := λ a,
  if bool_decide (a = mint_addr) then owned (encoded (the_mint None 10))
  else if bool_decide (a = coin_of alice) then owned (encoded (MkCoin mint_addr alice 10))
  else if bool_decide (a = proxy) then Some (MkAccount true 0 (Some WASM_VM_BUILTIN_ADDR) (Some (b32 prog)))
  else None.

(** A transfer from one wallet to another, sent to [via] and signed by the
    payer and by the signers listed. *)
Definition transfer_tx (via payer from to : Pubkey) (n nonce : Z) (signers : list Pubkey) : Transaction :=
  Transaction_new via nonce payer
    [ MkAccountRef mint_addr false false; MkAccountRef from false (bool_decide (from ∈ signers));
      MkAccountRef (coin_of from) true false; MkAccountRef to false false; MkAccountRef (coin_of to) true false ]
    (params_of (Transfer n)) signers.

(** Alice pays Bob. *)
Definition good_tx : Transaction := transfer_tx prog alice alice bob 4 0 [alice].
Definition good_unit : ExecutionUnit :=
  match Unit_new good_tx toy_state toy_vm with
  | Ok u => u
  | Err _ => MkUnit toy_vm (External []) (MkEnvironment None prog []) toy_state prog []
  end.
Definition good_output : TransactionOutput :=
  match unit_execute 1 good_unit with Done (Ok t) => t | _ => txout_default end.

Lemma good_unit_ok : Unit_new good_tx toy_state toy_vm = Ok good_unit.
Proof.
  unfold good_unit. destruct (Unit_new good_tx toy_state toy_vm) as [u|e] eqn:E; [done|].
  apply (f_equal is_ok) in E. vm_compute in E. discriminate.
Qed.

Definition done_ok {A} (o : Outcome (Result ContractError A)) : bool :=
  match o with Done (Ok _) => true | _ => false end.

Lemma good_output_ok : unit_execute 1 good_unit = Done (Ok good_output).
Proof.
  unfold good_output. destruct (unit_execute 1 good_unit) as [[t|e]| |] eqn:E; [done|..];
    apply (f_equal done_ok) in E; vm_compute in E; discriminate.
Qed.
End VmExample.
