(* ===== verification/MachineProps.v ===== *)
(** * What execution units guarantee

    The effects of a contract call on the state are confined by the machine,
    whatever the contract asks for; the call's outputs are carried out as the
    specification of outputs says; native contracts are total where they are
    not left unimplemented. *)
From S2P Require Import Prelude Primitives State Transaction Contract Currency CurrencyProps Builtins Block Machine VmExample.

Section units.
Context `{Crypto} `{WasmRuntime} `{BuiltinAddresses}.
Implicit Types (u : ExecutionUnit) (st : View) (a c : Pubkey) (t : TransactionOutput).

Abbreviation Exec := (ExecutionUnit → Outcome (Result ContractError TransactionOutput)).

(** ** Well-formed units *)

(** The environment of a unit is the one built from its state. *)
Definition unit_wf u : Prop :=
  env_address (env u) = unit_contract u ∧
  ∃ accs, env_accounts (env u) = create_account_view (state u) (unit_contract u) <$> accs.

Lemma Unit_new_wf tx st m u :
  Unit_new tx st m = Ok u → unit_wf u ∧ state u = st ∧ vm u = m ∧ unit_contract u = contract tx.
Proof. unfold Unit_new. intros Hu. result_inv. split_and!; try done. split; [done|]. by exists (accounts tx). Qed.

Lemma new_nested_wf u c accs ps n :
  new_nested u c accs ps = Ok n → unit_wf n ∧ state n = state u ∧ vm n = vm u ∧ unit_contract n = c.
Proof. unfold new_nested. intros Hn. result_inv. split_and!; try done. split; [done|]. by exists accs. Qed.

Lemma listed_some u a view :
  unit_wf u → listed u a = Some view →
  ∃ r, address r = a ∧ create_account_view (state u) (unit_contract u) r = (a, view).
Proof.
  intros [_ [accs Haccs]] Hl. unfold listed in Hl. rewrite Haccs in Hl.
  apply find_map_some in Hl as ([a' v'] & Hin & Hv). case_bool_decide as Heq; [|done]. simpl in *.
  injection Hv as ->. apply list_elem_of_fmap in Hin as (r & Hr & _). exists r.
  assert (address r = a') by (unfold create_account_view in Hr; congruence). split; congruence.
Qed.

(** ** Induction over the calls of a unit *)

Lemma process_outputs_ind (P : TransactionOutput → Prop) (exec : Exec) u outs acc t :
  (∀ x y, P x → P y → P (txout_merge x y)) →
  (∀ o x, o ∈ outs → process_output exec u o = Done (Ok x) → P x) →
  P acc → process_outputs exec u outs acc = Done (Ok t) → P t.
Proof.
  intros Hmerge Hstep. revert acc. induction outs as [|o outs IH]; intros acc Hacc; simpl.
  { intros [= <-]. done. }
  intros Ht. apply try_bind_ok in Ht as (x & Hx & Ht). destruct (_ <? _)%nat; [done|].
  revert Ht. apply IH; [intros o' x' ?; apply Hstep; by right|].
  apply Hmerge; [done|]. apply (Hstep o); [by left|done].
Qed.

(** A property of outputs that holds initially, survives merging and holds of
    whatever a single output of a unit's contract does to the state, holds of the
    result of a whole call; [I] is an invariant of the units that call each other. *)
Lemma unit_execute_ind_run (I : ExecutionUnit → Prop) (P : TransactionOutput → Prop) :
  P txout_default → (∀ x y, P x → P y → P (txout_merge x y)) →
  (∀ u c accs ps n, I u → new_nested u c accs ps = Ok n → I n) →
  (∀ exec u outs o x, I u → run_entrypoint u = Done (Ok outs) → o ∈ outs → (∀ c accs ps, o ≠ ContractInvoke c accs ps) →
    process_output exec u o = Done (Ok x) → P x) →
  ∀ fuel u t, I u → unit_execute fuel u = Done (Ok t) → P t.
Proof.
  intros Hdef Hmerge Hnest Hleaf fuel. induction fuel as [|fuel IH]; intros u t Hu; [done|].
  cbn [unit_execute]. intros Ht. apply try_bind_ok in Ht as (outs & Hrun & Ht).
  revert Ht. apply process_outputs_ind; [done| |done]. intros o x Ho Hx.
  destruct o as [| | | |c accs ps|]; try (by eapply Hleaf in Hx).
  cbn [process_output] in Hx. apply try_bind_ok in Hx as (n & [= Hn] & Hx).
  eapply IH; [by eapply Hnest|exact Hx].
Qed.

Lemma unit_execute_ind st m (P : TransactionOutput → Prop) :
  P txout_default → (∀ x y, P x → P y → P (txout_merge x y)) →
  (∀ exec u o x, unit_wf u → state u = st → vm u = m → (∀ c accs ps, o ≠ ContractInvoke c accs ps) →
    process_output exec u o = Done (Ok x) → P x) →
  ∀ fuel u t, unit_wf u → state u = st → vm u = m → unit_execute fuel u = Done (Ok t) → P t.
Proof.
  intros Hdef Hmerge Hleaf fuel u t Hwf Hst Hvm.
  apply (unit_execute_ind_run (λ u, unit_wf u ∧ state u = st ∧ vm u = m)); [done|done| | |done].
  - intros u' c accs ps n (_ & <- & <-) (? & ? & ? & _)%new_nested_wf. done.
  - intros exec u' outs o x (? & ? & ?) _ _ ? Hx. by eapply Hleaf.
Qed.

(** ** More fuel changes nothing *)

Lemma process_outputs_mono (e1 e2 : Exec) u outs acc r :
  (∀ n x, e1 n = Done x → e2 n = Done x) →
  process_outputs e1 u outs acc = Done r → process_outputs e2 u outs acc = Done r.
Proof.
  intros He. revert acc. induction outs as [|o outs IH]; intros acc; [done|]. simpl.
  assert (∀ x, process_output e1 u o = Done x → process_output e2 u o = Done x) as Ho.
  { intros x. destruct o; try done. simpl. destruct (new_nested _ _ _ _); simpl; [apply He|done]. }
  destruct (process_output e1 u o) as [r1| |]; [|done..]. rewrite (Ho _ eq_refl).
  destruct r1; simpl; [|done]. destruct (_ <? _)%nat; [done|apply IH].
Qed.

Lemma unit_execute_mono f1 f2 u r : (f1 ≤ f2)%nat → unit_execute f1 u = Done r → unit_execute f2 u = Done r.
Proof.
  revert f2 u r. induction f1 as [|f1 IH]; intros [|f2] u r Hle; try done; [lia|].
  cbn [unit_execute]. destruct (run_entrypoint u) as [[outs|e]| |]; simpl; try done.
  apply process_outputs_mono. intros n x. apply IH. lia.
Qed.

(** ** What a call may do to the state *)

(** An account that a call may change: a wallet, a new account, or an account
    that a contract owns and that is not executable. *)
Definition mutable st a : Prop :=
  has_private_key a = true ∨
  match st a with None => True | Some acc => executable acc = false ∧ is_Some (owner acc) end.

(** A written account keeps its nonce, owner and kind, or is new. *)
Definition allowed_write st a (acc' : Account) : Prop :=
  match st a with
  | Some acc => acc' = set_data acc (data acc')
  | None => nonce acc' = 0 ∧ is_Some (owner acc') ∧
            (executable acc' = true → owner acc' = Some WASM_VM_BUILTIN_ADDR)
  end.

Definition diff_ok st (d : StateDiff) : Prop :=
  (∀ a acc', sd_data d !! a = Some acc' → mutable st a ∧ allowed_write st a acc') ∧
  (∀ a, a ∈ sd_deletes d → mutable st a ∧ ∃ acc, st a = Some acc ∧ is_Some (owner acc)).

Lemma diff_ok_default st : diff_ok st sd_default.
Proof. split; intros a; simpl; [intros acc'; by rewrite lookup_empty|set_solver]. Qed.

Lemma diff_ok_merge st d1 d2 : diff_ok st d1 → diff_ok st d2 → diff_ok st (merge d1 d2).
Proof.
  intros [Hw1 Hd1] [Hw2 Hd2]. rewrite merge_eq. split; intros a; simpl.
  - intros acc' Hl. apply lookup_union_Some_raw in Hl as [Hl|[_ Hl]]; auto.
  - intros Ha. apply elem_of_union in Ha as [Ha|Ha]; [apply Hd1; set_solver|auto].
Qed.

Lemma diff_ok_set st a acc' : mutable st a → allowed_write st a acc' → diff_ok st (sd_set sd_default a acc').2.
Proof.
  intros Hm Hw. split; intros b; simpl; [|set_solver].
  intros x Hx. apply lookup_insert_Some in Hx as [[<- <-]|[_ Hx]]; [done|by rewrite lookup_empty in Hx].
Qed.

Lemma writable_mutable st c r : writable_view st c r = true → mutable st (address r).
Proof.
  unfold writable_view, mutable. intros [_ Hw]%andb_true_iff.
  destruct (has_private_key (address r)); [by left|right]. destruct (st (address r)) as [acc|]; [|done].
  apply andb_true_iff in Hw as [He%negb_true_iff Ho]. destruct (owner acc); [eauto|done].
Qed.

Lemma set_account_diff_ok u a acc' d :
  unit_wf u → set_account u a acc' = Ok d → allowed_write (state u) a acc' → diff_ok (state u) d.
Proof.
  intros Hwf Hset Hw. unfold set_account in Hset. destruct (listed u a) as [view|] eqn:Hl; [|done].
  destruct (listed_some _ _ _ Hwf Hl) as (r & Hr & Hview).
  assert (view_writable view = writable_view (state u) (unit_contract u) r) as Hvw.
  { unfold create_account_view in Hview. by injection Hview as _ <-. }
  destruct (view_writable view) eqn:Hvt; [|done].
  injection Hset as <-. apply diff_ok_set; [|done]. rewrite <-Hr. eapply writable_mutable. by symmetry.
Qed.

Lemma delete_account_diff_ok u a d : unit_wf u → delete_account u a = Ok d → diff_ok (state u) d.
Proof.
  intros Hwf Hdel. unfold delete_account in Hdel. destruct (listed u a) as [view|] eqn:Hl; [|done].
  destruct (listed_some _ _ _ Hwf Hl) as (r & Hr & Hview).
  unfold create_account_view in Hview. injection Hview as _ <-. cbn [view_owner view_writable] in Hdel.
  destruct (state u (address r) ≫= owner) as [o|] eqn:Ho; [|done].
  case_bool_decide; [done|]. destruct (writable_view _ _ _) eqn:Hw; [|done]. injection Hdel as <-.
  apply writable_mutable in Hw. rewrite Hr in Hw, Ho. split; intros b; simpl.
  - intros x. by rewrite lookup_empty.
  - intros Hb. assert (b = a) as -> by set_solver. split; [done|].
    destruct (state u a) as [acc|]; [|done]. exists acc. split; [done|]. by exists o.
Qed.

Lemma state_output_ok r t : state_output r = Ok t → r = Ok (state_diff t) ∧ log_entries t = [].
Proof. unfold state_output. intros Ht. result_inv. done. Qed.

Lemma leaf_diff_ok (exec : Exec) u o t :
  unit_wf u → (∀ c accs ps, o ≠ ContractInvoke c accs ps) →
  process_output exec u o = Done (Ok t) → diff_ok (state u) (state_diff t).
Proof.
  intros Hwf Hleaf Ht. destruct o as [k v|a d|a d|a|c accs ps|a code]; cbn [process_output] in Ht;
    try (by destruct (Hleaf c accs ps));
    apply (inj Done) in Ht;
    try (match type of Ht with context [if ?b then _ else _] => destruct b; [done|] end);
    try (apply state_output_ok in Ht as [Ht _]).
  - injection Ht as <-. apply diff_ok_default.
  - unfold create_account in Ht. destruct (state u a) eqn:E; [done|].
    eapply set_account_diff_ok; [done..|]. unfold allowed_write. rewrite E. by split_and!; [|eauto|].
  - unfold modify_account in Ht. destruct (state u a) eqn:E; [|done].
    eapply set_account_diff_ok; [done..|]. unfold allowed_write. by rewrite E.
  - by eapply delete_account_diff_ok.
  - unfold create_executable_account in Ht. case_bool_decide; [done|]. destruct (state u a) eqn:E; [done|].
    eapply set_account_diff_ok; [done..|]. unfold allowed_write. rewrite E. by split_and!; [|eauto|].
Qed.

Lemma unit_execute_diff_ok fuel u t :
  unit_wf u → unit_execute fuel u = Done (Ok t) → diff_ok (state u) (state_diff t).
Proof.
  intros Hwf. apply (unit_execute_ind (state u) (vm u) (λ t, diff_ok (state u) (state_diff t)));
    [apply diff_ok_default| |..|done|done|done].
  - intros x y Hx Hy. unfold txout_merge. cbn [state_diff]. by apply diff_ok_merge.
  - intros exec u' o x Hwf' <- _ Hleaf Hx. by eapply leaf_diff_ok.
Qed.

(** ** Bounds *)

(** Every log entry and every account written fits the configured limits. *)
Definition entries_bounded (m : Machine) t : Prop :=
  (∀ k x, (k, x) ∈ log_entries t → (String.length k + String.length x ≤ max_log_size (vm_limits m))%nat) ∧
  (∀ a acc d, sd_data (state_diff t) !! a = Some acc → data acc = Some d →
    (length d ≤ max_account_size (vm_limits m))%nat ∨
    executable acc = true ∧ (length d ≤ max_contract_size (vm_limits m))%nat).

Lemma entries_bounded_default m : entries_bounded m txout_default.
Proof. split; simpl; [set_solver|intros a acc d; by rewrite lookup_empty]. Qed.

Lemma entries_bounded_merge m x y : entries_bounded m x → entries_bounded m y → entries_bounded m (txout_merge x y).
Proof.
  intros [Hl1 Hd1] [Hl2 Hd2]. unfold txout_merge. split; cbn [log_entries state_diff].
  - intros k v [?|?]%elem_of_app; auto.
  - intros a acc d. rewrite merge_eq. cbn [sd_data]. intros [Hx|[_ Hx]]%lookup_union_Some_raw; eauto.
Qed.

Lemma entries_bounded_set m a acc :
  (∀ d, data acc = Some d → (length d ≤ max_account_size (vm_limits m))%nat ∨
    executable acc = true ∧ (length d ≤ max_contract_size (vm_limits m))%nat) →
  entries_bounded m (MkTxOutput (sd_set sd_default a acc).2 []).
Proof.
  intros Hd. split; simpl; [set_solver|].
  intros b x d Hx. apply lookup_insert_Some in Hx as [[<- <-]|[_ Hx]]; [apply Hd|by rewrite lookup_empty in Hx].
Qed.

Lemma set_account_inv u a acc d : set_account u a acc = Ok d → d = (sd_set sd_default a acc).2.
Proof. unfold set_account. intros Hd. repeat case_match; congruence. Qed.

Lemma state_output_eq r t : state_output r = Ok t → ∃ d, r = Ok d ∧ t = MkTxOutput d [].
Proof. unfold state_output. intros Ht. result_inv. eauto. Qed.

Lemma data_too_large_bound d max x : data_too_large d max = false → d = Some x → (length x ≤ max)%nat.
Proof. intros Hd ->. by apply Nat.ltb_ge in Hd. Qed.

Lemma leaf_bounded (exec : Exec) u o t :
  (∀ c accs ps, o ≠ ContractInvoke c accs ps) → process_output exec u o = Done (Ok t) → entries_bounded (vm u) t.
Proof.
  intros Hleaf Ht. destruct o as [k v|a x|a x|a|c accs ps|a code]; cbn [process_output] in Ht;
    try (by destruct (Hleaf c accs ps));
    apply (inj Done) in Ht;
    try (match type of Ht with context [if ?b then _ else _] => destruct b eqn:Hb; [done|] end);
    try (apply state_output_eq in Ht as (d & Ht & ->)).
  - injection Ht as <-. apply Nat.ltb_ge in Hb. split; simpl.
    + intros k' v' Hin. apply list_elem_of_singleton in Hin as [= -> ->]. lia.
    + intros b acc d. by rewrite lookup_empty.
  - unfold create_account in Ht. destruct (state u a); [done|]. apply set_account_inv in Ht as ->.
    apply entries_bounded_set. simpl. intros d' Hd'. left. by eapply data_too_large_bound.
  - unfold modify_account in Ht. destruct (state u a); [|done]. apply set_account_inv in Ht as ->.
    apply entries_bounded_set. simpl. intros d' Hd'. left. by eapply data_too_large_bound.
  - unfold delete_account in Ht. repeat (case_match; try done). injection Ht as <-.
    split; simpl; [set_solver|intros b acc d'; by rewrite lookup_empty].
  - unfold create_executable_account in Ht. case_bool_decide; [done|]. destruct (state u a); [done|].
    apply set_account_inv in Ht as ->. apply entries_bounded_set. simpl. intros d' [= <-]. right.
    split; [done|]. by apply Nat.ltb_ge in Hb.
Qed.

Lemma unit_execute_bounded fuel u t :
  unit_wf u → unit_execute fuel u = Done (Ok t) → entries_bounded (vm u) t.
Proof.
  intros Hwf. apply (unit_execute_ind (state u) (vm u) (entries_bounded (vm u)));
    [apply entries_bounded_default| |..|done|done|done].
  - intros x y. apply entries_bounded_merge.
  - intros exec u' o x _ _ <- Hleaf Hx. by eapply leaf_bounded.
Qed.

Lemma process_outputs_logs (exec : Exec) u outs acc t :
  process_outputs exec u outs acc = Done (Ok t) →
  (length (log_entries acc) ≤ max_logs_count (vm_limits (vm u)))%nat →
  (length (log_entries t) ≤ max_logs_count (vm_limits (vm u)))%nat.
Proof.
  revert acc. induction outs as [|o outs IH]; intros acc; cbn [process_outputs]; [by intros [= <-]|].
  intros Ht _. apply try_bind_ok in Ht as (x & _ & Ht). destruct (_ <? _)%nat eqn:E; [done|].
  apply (IH _ Ht). by apply Nat.ltb_ge.
Qed.

Lemma unit_execute_logs fuel u t :
  unit_execute fuel u = Done (Ok t) → (length (log_entries t) ≤ max_logs_count (vm_limits (vm u)))%nat.
Proof.
  destruct fuel as [|fuel]; [done|]. cbn [unit_execute]. intros Ht. apply try_bind_ok in Ht as (outs & _ & Ht).
  eapply process_outputs_logs; [exact Ht|]. simpl. lia.
Qed.

(** ** Outputs are carried out in order *)

Definition contents st : Contents := λ a, st a ≫= data.

Lemma create_environment_shows st accs c caller : env_shows (create_environment st accs c caller) (contents st).
Proof. intros a view ([a' w sg] & [= -> ->] & _)%list_elem_of_fmap. done. Qed.

Lemma apply_set_contents st d a acc b :
  contents (apply_spec (merge d (sd_set sd_default a acc).2) st) b =
    set_contents (contents (apply_spec d st)) a (data acc) b.
Proof.
  unfold contents. rewrite apply_spec_merge_lemma. unfold apply_spec at 1, set_contents. simpl.
  rewrite bool_decide_false by set_solver. case_bool_decide as Hab.
  - subst. by rewrite lookup_insert_eq.
  - by rewrite lookup_insert_ne, lookup_empty.
Qed.

Lemma apply_remove_contents st d a b :
  contents (apply_spec (merge d (sd_remove sd_default a)) st) b =
    set_contents (contents (apply_spec d st)) a None b.
Proof.
  unfold contents. rewrite apply_spec_merge_lemma. unfold apply_spec at 1, set_contents. simpl.
  rewrite lookup_empty. destruct (decide (a = b)) as [<-|Hne].
  - rewrite !bool_decide_true by set_solver. done.
  - rewrite !bool_decide_false by set_solver. done.
Qed.

(** A single output, on top of what was accumulated. *)
Lemma leaf_effect (exec : Exec) u o t d b :
  (∀ c accs ps, o ≠ ContractInvoke c accs ps) → process_output exec u o = Done (Ok t) →
  contents (apply_spec (merge d (state_diff t)) (state u)) b =
    output_effect (contents (apply_spec d (state u))) o b.
Proof.
  intros Hleaf Ht. destruct o as [k v|a x|a x|a|c accs ps|a code]; cbn [process_output] in Ht;
    try (by destruct (Hleaf c accs ps));
    apply (inj Done) in Ht;
    try (match type of Ht with context [if ?b then _ else _] => destruct b; [done|] end);
    try (apply state_output_ok in Ht as [Ht _]); cbn [output_effect].
  - injection Ht as <-. cbn [state_diff]. by rewrite merge_default_r.
  - unfold create_account in Ht. destruct (state u a); [done|].
    apply set_account_inv in Ht as ->. apply apply_set_contents.
  - unfold modify_account in Ht. destruct (state u a); [|done].
    apply set_account_inv in Ht as ->. apply apply_set_contents.
  - unfold delete_account in Ht. repeat (case_match; try done). injection Ht as <-. apply apply_remove_contents.
  - unfold create_executable_account in Ht. case_bool_decide; [done|]. destruct (state u a); [done|].
    apply set_account_inv in Ht as ->. apply apply_set_contents.
Qed.

Lemma outputs_effect_ext outs (v v' : Contents) : (∀ a, v a = v' a) → ∀ a, outputs_effect outs v a = outputs_effect outs v' a.
Proof.
  revert v v'. induction outs as [|o outs IH]; intros v v' Hv a; [apply Hv|]. simpl. apply IH.
  intros b. destruct o; simpl; auto; unfold set_contents; case_bool_decide; auto.
Qed.

Definition no_invoke (outs : list Output) : Prop := ∀ c accs ps, ContractInvoke c accs ps ∉ outs.

Lemma process_outputs_effect (exec : Exec) u outs acc t a :
  no_invoke outs → process_outputs exec u outs acc = Done (Ok t) →
  contents (apply_spec (state_diff t) (state u)) a =
    outputs_effect outs (contents (apply_spec (state_diff acc) (state u))) a.
Proof.
  revert acc. induction outs as [|o outs IH]; intros acc Hno; cbn [process_outputs].
  { by intros [= <-]. }
  intros Ht. apply try_bind_ok in Ht as (x & Hx & Ht). destruct (_ <? _)%nat; [done|].
  rewrite (IH _ (λ c accs ps Hin, Hno c accs ps (list_elem_of_further _ _ _ Hin)) Ht). simpl. apply outputs_effect_ext. intros b.
  eapply leaf_effect; [|exact Hx]. intros c accs ps ->. apply (Hno c accs ps). by left.
Qed.

Lemma unit_execute_effect fuel u outs t a :
  run_entrypoint u = Done (Ok outs) → no_invoke outs → unit_execute fuel u = Done (Ok t) →
  contents (apply_spec (state_diff t) (state u)) a = outputs_effect outs (contents (state u)) a.
Proof.
  intros Hrun Hno Ht. destruct fuel as [|fuel]; [done|]. cbn [unit_execute] in Ht. rewrite Hrun in Ht. simpl in Ht.
  rewrite (process_outputs_effect _ _ _ _ _ _ Hno Ht). apply outputs_effect_ext. intros b.
  unfold contents, apply_spec. simpl. rewrite bool_decide_false by set_solver. by rewrite lookup_empty.
Qed.

(** Without nested calls one level of fuel is enough. *)
Lemma process_outputs_done (exec : Exec) u outs acc :
  no_invoke outs → ∃ r, process_outputs exec u outs acc = Done r.
Proof.
  revert acc. induction outs as [|o outs IH]; intros acc Hno; cbn [process_outputs]; [eauto|].
  assert (∃ r, process_output exec u o = Done r) as [[x|e] ->].
  { destruct o as [| | | |c accs ps|]; cbn [process_output]; eauto. destruct (Hno c accs ps). by left. }
  - simpl. destruct (_ <? _)%nat; [eauto|]. apply IH. intros c accs ps Hin. apply (Hno c accs ps). by right.
  - simpl. eauto.
Qed.

(** ** Whole calls *)

(** C12: whatever a contract asks for, a call changes only accounts it may
    change: wallets, new accounts and existing non-executable accounts that a
    contract owns. An account that exists before and after keeps its nonce,
    its owner and its executable flag; a new one starts with nonce zero and
    an owner, and is executable only if the deployment contract owns it. *)
Theorem call_effects_confined tx st m u fuel t a :
  Unit_new tx st m = Ok u → unit_execute fuel u = Done (Ok t) →
  let after := apply_spec (state_diff t) st a in
  (after ≠ st a → mutable st a) ∧
  match st a, after with
  | Some acc, Some acc' => nonce acc' = nonce acc ∧ owner acc' = owner acc ∧ executable acc' = executable acc
  | None, Some acc' => nonce acc' = 0 ∧ is_Some (owner acc') ∧
      (executable acc' = true → owner acc' = Some WASM_VM_BUILTIN_ADDR)
  | Some acc, None => is_Some (owner acc)
  | None, None => True
  end.
Proof.
  intros Hu Ht. destruct (Unit_new_wf _ _ _ _ Hu) as (Hwf & <- & _ & _).
  destruct (unit_execute_diff_ok _ _ _ Hwf Ht) as [Hw Hd]. cbv zeta. unfold apply_spec.
  case_bool_decide as Hdel.
  { destruct (Hd _ Hdel) as (Hm & acc & -> & Ho). done. }
  destruct (sd_data (state_diff t) !! a) as [acc'|] eqn:E; [|split; [done|]; by destruct (state u a)].
  destruct (Hw _ _ E) as [Hm Hallowed]. split; [done|]. unfold allowed_write in Hallowed.
  destruct (state u a) as [acc|]; [|done]. by rewrite Hallowed.
Qed.

(** C19: the resources of a call are bounded by the limits of the genesis
    block: the number of its log entries, the size of each of them, and the
    size of every account it writes, nested calls included. *)
Theorem call_resources_bounded tx st m u fuel t :
  Unit_new tx st m = Ok u → unit_execute fuel u = Done (Ok t) →
  (length (log_entries t) ≤ max_logs_count (vm_limits m))%nat ∧
  (∀ k x, (k, x) ∈ log_entries t → (String.length k + String.length x ≤ max_log_size (vm_limits m))%nat) ∧
  (∀ a acc d, sd_data (state_diff t) !! a = Some acc → data acc = Some d →
    (length d ≤ max_account_size (vm_limits m))%nat ∨
    executable acc = true ∧ (length d ≤ max_contract_size (vm_limits m))%nat).
Proof.
  intros Hu Ht. destruct (Unit_new_wf _ _ _ _ Hu) as (Hwf & _ & <- & _).
  destruct (unit_execute_bounded _ _ _ Hwf Ht). split; [by eapply unit_execute_logs|done].
Qed.

(** C13: a call without nested invocations that succeeds has exactly the
    effect its outputs describe: the contents of every account afterwards are
    those obtained by carrying out the outputs one after the other. *)
Theorem call_refines_outputs fuel u outs t a :
  run_entrypoint u = Done (Ok outs) → no_invoke outs → unit_execute fuel u = Done (Ok t) →
  contents (apply_spec (state_diff t) (state u)) a = outputs_effect outs (contents (state u)) a.
Proof. apply unit_execute_effect. Qed.

(** The depth of nesting the model is given does not matter once it is
    enough: more of it returns the same result. *)
Theorem call_depth_monotone f1 f2 u r : (f1 ≤ f2)%nat → unit_execute f1 u = Done r → unit_execute f2 u = Done r.
Proof. apply unit_execute_mono. Qed.
End units.

Import CoinExample VmExample.

(** Alice's coin account, after she paid Bob. *)
Lemma call_effects_confined_witness :
  let after := apply_spec (state_diff good_output) toy_state (coin_of alice) in
  (after ≠ toy_state (coin_of alice) → mutable toy_state (coin_of alice)) ∧
  match toy_state (coin_of alice), after with
  | Some acc, Some acc' => nonce acc' = nonce acc ∧ owner acc' = owner acc ∧ executable acc' = executable acc
  | None, Some acc' => nonce acc' = 0 ∧ is_Some (owner acc') ∧
      (executable acc' = true → owner acc' = Some WASM_VM_BUILTIN_ADDR)
  | Some acc, None => is_Some (owner acc)
  | None, None => True
  end.
Proof. exact (call_effects_confined good_tx toy_state toy_vm good_unit 1 good_output (coin_of alice) good_unit_ok good_output_ok). Defined.

Lemma call_resources_bounded_witness : (length (log_entries good_output) ≤ 20)%nat.
Proof. exact (proj1 (call_resources_bounded good_tx toy_state toy_vm good_unit 1 good_output good_unit_ok good_output_ok)). Defined.

Definition good_outs : list Output := outs_of (currency_contract (env good_unit) (unit_params good_unit)).

Lemma call_refines_outputs_witness :
  contents (apply_spec (state_diff good_output) toy_state) (coin_of bob) =
    outputs_effect good_outs (contents toy_state) (coin_of bob).
Proof.
  apply (call_refines_outputs 1 good_unit good_outs good_output (coin_of bob)).
  - assert (is_ok (currency_contract (env good_unit) (unit_params good_unit)) = true) as Hok by (vm_compute; reflexivity).
    transitivity (Done (currency_contract (env good_unit) (unit_params good_unit))); [reflexivity|].
    by rewrite (outs_of_ok _ Hok).
  - intros c accs ps Hin. apply list_elem_of_In in Hin. vm_compute in Hin. intuition discriminate.
  - exact good_output_ok.
Defined.

Lemma call_depth_monotone_witness : unit_execute 5 good_unit = Done (Ok good_output).
Proof. apply (call_depth_monotone 1 5 good_unit); [lia|exact good_output_ok]. Defined.
