(* ===== verification/BuiltinProps.v ===== *)
(** * Properties of the native contracts as the machine runs them

    Totality of the native contracts, what the deployment contract can and
    cannot do, and the authorisation of coin movements from the signatures of
    the transaction down to the balances. *)
From S2P Require Import Prelude Primitives State Transaction Contract Currency CurrencyProps Builtins Block Machine VmExample MachineProps.

(** ** No nested calls from the native contracts *)

Section no_invoke.
Context `{Crypto} `{Borsh Mint} `{Borsh CoinAccount} `{Borsh Instruction}.

Lemma elem_of_collect_dust o c n : o ∈ collect_dust c n → o = DeleteOwnedAccount c.
Proof. unfold collect_dust. destruct (n =? 0); [intros ?%list_elem_of_singleton|intros ?%not_elem_of_nil]; done. Qed.

Lemma credit_output_no_invoke coin a m w n o c accs ps :
  credit_output coin a m w n = Ok o → o ≠ ContractInvoke c accs ps.
Proof. unfold credit_output. intros Ho. destruct coin; result_inv; done. Qed.

Ltac solve_no_invoke :=
  intros ? ? ? Hin;
  repeat first
    [ apply elem_of_app in Hin as [Hin|Hin]
    | apply elem_of_cons in Hin as [Hin|Hin]
    | apply elem_of_collect_dust in Hin
    | by apply not_elem_of_nil in Hin ];
  try discriminate;
  by match goal with Ho : credit_output _ _ _ _ _ = Ok _ |- _ => eapply credit_output_no_invoke in Ho end.

Ltac open_accounts Hok :=
  repeat match type of Hok with
  | context [match ?l with [] => _ | _ :: _ => _ end] => destruct l as [|[? ?] ?]; try discriminate Hok
  end.

Lemma currency_no_invoke env params outs : currency_contract env params = Ok outs → no_invoke outs.
Proof.
  unfold currency_contract. intros Hok. apply bind_ok in Hok as (i & _ & Hok). destruct i.
  - unfold process_create in Hok. open_accounts Hok. result_inv. solve_no_invoke.
  - unfold process_mint in Hok. open_accounts Hok. result_inv. solve_no_invoke.
  - unfold process_transfer in Hok. open_accounts Hok. result_inv. case_match; [|done]. result_inv. solve_no_invoke.
  - unfold process_burn in Hok. open_accounts Hok. result_inv. case_match; [|done]. result_inv. solve_no_invoke.
  - unfold process_set_authority in Hok. open_accounts Hok. result_inv. case_match; [|done]. result_inv. solve_no_invoke.
Qed.

Lemma sha3_no_invoke env params outs : sha3_contract env params = Ok outs → no_invoke outs.
Proof.
  unfold sha3_contract. intros Hok. open_accounts Hok. case_match; [done|]. injection Hok as <-. solve_no_invoke.
Qed.
End no_invoke.

(** ** Totality *)

Section totality.
Context `{Crypto} `{Borsh Mint} `{Borsh CoinAccount} `{Borsh Instruction}.
Context `{Borsh BytecodeAccount} `{Borsh WasmInstruction} `{BuiltinAddresses} `{WasmRuntime}.

Lemma builtin_runs a f limits e ps :
  BUILTIN_CONTRACTS a = Some f → a ≠ STAKING_ADDR → a ≠ WASM_VM_BUILTIN_ADDR →
  ∃ r, f limits e ps = Done r ∧ ∀ outs, r = Ok outs → no_invoke outs.
Proof.
  unfold BUILTIN_CONTRACTS. intros Hf Hs Hw. rewrite (bool_decide_false (a = STAKING_ADDR)) in Hf by done.
  rewrite (bool_decide_false (a = WASM_VM_BUILTIN_ADDR)) in Hf by done.
  repeat case_bool_decide; simplify_eq; eexists; (split; [done|]); intros outs.
  - apply sha3_no_invoke.
  - apply currency_no_invoke.
Qed.

(** A call of the hashing or of the currency contract always comes back
    with a result, without panicking and without nested calls. *)
Theorem native_calls_terminate a f u :
  BUILTIN_CONTRACTS a = Some f → a ≠ STAKING_ADDR → a ≠ WASM_VM_BUILTIN_ADDR → entrypoint u = Native f →
  ∃ r, unit_execute 1 u = Done r.
Proof.
  intros Hf Hs Hw Hu. cbn [unit_execute]. unfold run_entrypoint. rewrite Hu.
  destruct (builtin_runs a f (vm_limits (vm u)) (env u) (unit_params u) Hf Hs Hw) as ([outs|e] & -> & Hno); simpl; [|eauto].
  apply process_outputs_done. by apply Hno.
Qed.

(** ** The deployment contract *)

Lemma allocate_refused e seed checksum auth size limits :
  process_allocate e seed checksum auth size limits = Err InvalidInputAccounts.
Proof. unfold process_allocate. by rewrite b32_len. Qed.

Lemma upload_refused e seed index chunk : process_upload e seed index chunk = Done (Err InvalidInputAccounts).
Proof. unfold process_upload. by rewrite b32_len. Qed.

Lemma install_inv e seed init outs :
  process_install e seed init = Done (Ok outs) →
  ∃ (c b : Pubkey * AccountView) code rest, bytecode_account seed e = Ok b ∧ owned_by_env b.2 e = false ∧
    outs = [LogEntry "action" "install"; LogEntry "contract" (pubkey_to_string c.1);
            DeleteOwnedAccount b.1; CreateExecutableAccount c.1 code] ++ rest.
Proof.
  unfold process_install. intros Hok.
  apply try_bind_ok in Hok as (p & Hp & Hok). apply (inj Done) in Hp.
  apply bind_ok in Hp as (? & _ & Hp). apply bind_ok in Hp as (c & _ & Hp). apply bind_ok in Hp as (? & _ & Hp).
  apply bind_ok in Hp as (b & Hb & Hp). apply bind_ok in Hp as (? & _ & Hp).
  apply bind_ok in Hp as (? & Ho%reject_if_ok & Hp). apply bind_ok in Hp as (content & _ & [= <-]).
  destruct (authority_account e) as [a| |]; [|done..]. simpl in Hok.
  destruct (check_authority content a); [|done]. apply (inj Done) in Hok.
  destruct (existsb negb (bc_mask content)); [done|]. injection Hok as <-.
  exists c, b, (bc_bytecode content). eexists. split_and!; [done..|]. reflexivity.
Qed.

(** The buffer an installation deletes is not owned by the contract. *)
Lemma foreign_buffer_not_deleted u b d seed :
  unit_wf u → bytecode_account seed (env u) = Ok b → owned_by_env b.2 (env u) = false → delete_account u b.1 = Ok d → False.
Proof.
  intros [Haddr [accs Haccs]] Hb Ho Hd. unfold bytecode_account in Hb.
  destruct (env_accounts (env u) !! 1%nat) as [[a view]|] eqn:E; [|done]. case_bool_decide; [done|]. injection Hb as <-.
  rewrite Haccs in E. apply list_lookup_fmap_Some in E as (r & [= -> ->] & _).
  unfold delete_account in Hd. cbn [fst] in Hd. destruct (listed u (address r)) as [view|] eqn:Hl; [|done].
  destruct (listed_some u _ _ (conj Haddr (ex_intro _ accs Haccs)) Hl) as (r' & Hr' & [= _ <-]).
  unfold owned_by_env in Ho. cbn [snd view_owner] in *. rewrite Hr' in Hd.
  destruct (state u (address r) ≫= owner) as [o|]; [|done]. apply bool_decide_eq_false in Ho.
  rewrite bool_decide_true in Hd by done. done.
Qed.

(** No contract can be deployed: no call of the deployment contract ever
    succeeds. Allocation and upload reject every call (the length they look
    at is that of an address), and an installation that passes its own checks
    emits the deletion of an account that it has just checked not to own,
    which the machine refuses. *)
Theorem deployment_never_succeeds u fuel t :
  unit_wf u → entrypoint u = Native wasm_contract → unit_execute fuel u ≠ Done (Ok t).
Proof.
  intros Hwf Hu Ht. destruct fuel as [|fuel]; [done|]. cbn [unit_execute] in Ht. unfold run_entrypoint in Ht.
  rewrite Hu in Ht. apply try_bind_ok in Ht as (outs & Hw & Ht). unfold wasm_contract in Hw.
  apply try_bind_ok in Hw as (i & _ & Hw). destruct i as [seed checksum auth size|seed index chunk|seed init].
  - by rewrite allocate_refused in Hw.
  - by rewrite upload_refused in Hw.
  - destruct (install_inv _ _ _ _ Hw) as (c & b & code & rest & Hb & Ho & ->).
    revert Ht. cbn [app process_outputs process_output]. intros Ht.
    apply try_bind_ok in Ht as (x1 & _ & Ht). destruct (_ <? _)%nat in Ht; [done|].
    apply try_bind_ok in Ht as (x2 & _ & Ht). destruct (_ <? _)%nat in Ht; [done|].
    apply try_bind_ok in Ht as (x3 & Hx3 & _). apply (inj Done) in Hx3.
    apply state_output_eq in Hx3 as (d & Hd & _). by eapply foreign_buffer_not_deleted in Hd.
Qed.
End totality.

(** ** From signatures to balances *)

Section authorisation.
Context `{Crypto} `{BorshLaws Mint} `{BorshLaws CoinAccount} `{Borsh Instruction} `{!CurrencyCodec}.
Context `{BuiltinAddresses} `{WasmRuntime}.

Lemma Unit_new_inv tx st m u :
  Unit_new tx st m = Ok u →
  verify_signatures tx = Ok tt ∧ find_entrypoint m st (contract tx) = Ok (entrypoint u) ∧
  env u = create_environment st (accounts tx) (contract tx) None ∧ unit_params u = params tx ∧
  tx_nonce tx = match st (payer tx) with Some a => nonce a | None => 0 end.
Proof.
  unfold Unit_new. intros Hu. apply bind_ok in Hu as (? & _ & Hu). apply bind_ok in Hu as ([] & Hv%map_err_ok & Hu).
  apply bind_ok in Hu as (? & Hn%reject_if_ok%negb_false_iff%Z.eqb_eq & Hu).
  apply bind_ok in Hu as (e & He & [= <-]). done.
Qed.

(** C9: coins leave an account only with the signature of its owner. If a
    transaction sent to the currency contract lowers the balance of an account
    other than the mint it names, the account is the coin account of a wallet
    that the transaction lists as a signer, and the transaction carries a
    valid signature of that wallet on all of its fields. *)
Theorem transaction_debits_signed tx st m u fuel t mref rest c :
  builtin m (contract tx) = Some (λ _ e ps, Done (currency_contract e ps)) →
  Unit_new tx st m = Ok u → unit_execute fuel u = Done (Ok t) → accounts tx = mref :: rest → c ≠ address mref →
  balance_in (contents (apply_spec (state_diff t) st)) c < balance_in (contents st) c →
  ∃ i w s, signing_accs tx !! i = Some w ∧ signatures tx !! S i = Some s ∧
    ed25519_verify w (fields_hash tx) s = true ∧ c = derive (contract tx) [b32 (address mref); b32 w].
Proof.
  intros Hm Hu Ht Haccs Hc Hlt. destruct (Unit_new_inv _ _ _ _ Hu) as (Hsig & He & Henv & Hps & _).
  destruct (Unit_new_wf _ _ _ _ Hu) as (_ & Hst & _).
  unfold find_entrypoint in He. rewrite Hm in He. injection He as He.
  assert (∃ outs, currency_contract (env u) (unit_params u) = Ok outs) as [outs Hrun].
  { destruct fuel; [done|]. cbn [unit_execute] in Ht. unfold run_entrypoint in Ht. rewrite <-He in Ht.
    apply try_bind_ok in Ht as (outs & Hr & _). apply (inj Done) in Hr. eauto. }
  assert (run_entrypoint u = Done (Ok outs)) as Hrun' by (unfold run_entrypoint; by rewrite <-He, Hrun).
  pose proof (unit_execute_effect fuel u outs t c Hrun' (currency_no_invoke _ _ _ Hrun) Ht) as Heff.
  rewrite Hst in Heff. rewrite (balance_in_cong _ (outputs_effect outs (contents st))) in Hlt by exact Heff.
  rewrite Henv in Hrun. unfold create_environment in Hrun. rewrite Haccs in Hrun.
  eapply debits_are_signed_lemma in Hlt as (w & view & Hin & Hs & ->);
    [|apply (create_environment_shows st (mref :: rest) (contract tx) None)|reflexivity|exact Hrun|exact Hc].
  apply list_elem_of_fmap in Hin as (r & [= -> ->] & Hin). cbn [view_signer] in Hs.
  assert (address r ∈ signing_accs tx) as [i Hi]%list_elem_of_lookup.
  { apply list_elem_of_fmap. exists r. split; [done|]. apply list_elem_of_filter. split; [done|]. rewrite Haccs. by right. }
  apply verify_signatures_lemma in Hsig as (first & sigs & Hsigs & _ & Hall). destruct (Hall _ _ Hi) as (s & Hs' & Hv).
  exists i, (address r), s. split_and!; [done|by rewrite Hsigs|done|done].
Qed.
End authorisation.

(** ** Witnesses *)

Import CoinExample VmExample.

Lemma native_calls_terminate_witness : ∃ r, unit_execute 1 good_unit = Done r.
Proof.
  apply (native_calls_terminate prog (λ _ env params, Done (currency_contract env params)) good_unit).
  - reflexivity.
  - by apply (bool_decide_unpack _); vm_compute.
  - by apply (bool_decide_unpack _); vm_compute.
  - reflexivity.
Defined.

(** A unit of the deployment contract. *)
Definition deploy_unit : ExecutionUnit :=
  MkUnit toy_vm (Native wasm_contract) (create_environment toy_state [] WASM_VM_BUILTIN_ADDR None)
    toy_state WASM_VM_BUILTIN_ADDR (default [] (encoded (Allocate mint_addr mint_addr alice 1))).

Lemma deployment_never_succeeds_witness : unit_execute 3 deploy_unit ≠ Done (Ok txout_default).
Proof.
  apply (deployment_never_succeeds deploy_unit 3 txout_default).
  - split; [reflexivity|]. by exists [].
  - reflexivity.
Defined.

(** Alice pays Bob: her signature is on the transaction. *)
Definition good_mint : AccountRef := MkAccountRef mint_addr false false.

Lemma transaction_debits_signed_witness :
  ∃ i w s, signing_accs good_tx !! i = Some w ∧ signatures good_tx !! S i = Some s ∧
    ed25519_verify w (fields_hash good_tx) s = true ∧ coin_of alice = derive (contract good_tx) [b32 (address good_mint); b32 w].
Proof.
  apply (transaction_debits_signed good_tx toy_state toy_vm good_unit 1 good_output good_mint
    (tail (accounts good_tx)) (coin_of alice)).
  - reflexivity.
  - exact good_unit_ok.
  - exact good_output_ok.
  - reflexivity.
  - by apply (bool_decide_unpack _); vm_compute.
  - vm_compute. reflexivity.
Defined.

(** Mallory asks the proxy to transfer Alice's coins; only Mallory signs. *)
Definition forged_tx : Transaction := transfer_tx proxy mallory alice mallory 10 0 [].

(** The restriction to transactions sent to the currency contract itself
    matters: an invocation from another contract chooses the signer flags of
    its accounts itself and nothing compares them with the flags of the
    transaction. Here a transaction that Alice did not sign, sent to a contract
    that passes its accounts on as signers, empties Alice's coin account. *)
Theorem nested_signers_unchecked :
  alice ∉ payer forged_tx :: signing_accs forged_tx ∧
  ∃ u t, Unit_new forged_tx toy_state toy_vm = Ok u ∧ unit_execute 2 u = Done (Ok t) ∧
    balance_in (contents toy_state) (coin_of alice) = 10 ∧
    balance_in (contents (apply_spec (state_diff t) toy_state)) (coin_of alice) = 0 ∧
    balance_in (contents (apply_spec (state_diff t) toy_state)) (coin_of mallory) = 10.
Proof.
  split; [by apply (bool_decide_unpack _); vm_compute|].
  destruct (Unit_new forged_tx toy_state toy_vm) as [u|e] eqn:Hu;
    [|apply (f_equal is_ok) in Hu; vm_compute in Hu; discriminate].
  exists u.
  assert (match Unit_new forged_tx toy_state toy_vm with
          | Ok u => match unit_execute 2 u with
                    | Done (Ok t) =>
                        let after := contents (apply_spec (state_diff t) toy_state) in
                        (balance_in after (coin_of alice) =? 0) && (balance_in after (coin_of mallory) =? 10)
                    | _ => false
                    end
          | Err _ => false end = true) as Hrun by (vm_compute; reflexivity).
  rewrite Hu in Hrun. destruct (unit_execute 2 u) as [[t|e]| |]; [|done..]. exists t.
  apply andb_true_iff in Hrun as [H1%Z.eqb_eq H2%Z.eqb_eq].
  split_and!; [done|done|vm_compute; reflexivity|exact H1|exact H2].
Qed.
