(* ===== verification/Execution.v ===== *)
(** * Execution of blocks (src/vm/{machine,executed,state}.rs)

    [Executable for Vec<Transaction>], the check of the declared state hash and
    the application of executed blocks to finalized state. *)
From S2P Require Import Prelude Primitives State Transaction Contract Currency Builtins Block Machine.

(** [trait Executable]: [fuel] bounds the depth of nested contract calls. *)
Class Executable `{Crypto} `{WasmRuntime} (D : Type) := {
  execute : nat → Machine → View → D → Outcome (Result MachineError BlockOutput)
}.

Section transactions.
Context `{Crypto} `{WasmRuntime} `{BuiltinAddresses}.

(** [verify_transactions_order]. The nonce of the previous transaction is
    decremented at 64 bits. *)
Definition is_within_payer_group (tx prev : Transaction) : bool :=
  bool_decide (payer tx = payer prev) && (tx_nonce tx =? wrap64 (tx_nonce prev - 1)).

(** [tx.hash().cmp(ghead.hash())] is [Less] *)
Definition hash_less (a b : Transaction) : bool := negb (multihash_leb (tx_hash b) (tx_hash a)).

Fixpoint order_loop (prev : Transaction) (group_head : option Transaction) (txs : list Transaction) : bool :=
  match txs with
  | [] => true
  | tx :: txs =>
      let group_head := if negb (is_within_payer_group tx prev) then Some tx else group_head in
      if match group_head with Some ghead => hash_less tx ghead | None => false end then false
      else order_loop tx group_head txs
  end.

Definition verify_transactions_order (txs : list Transaction) : bool :=
  match txs with
  | first :: rest => order_loop first None rest
  | [] => true
  end.

(** The view of a block under execution. *)
Definition overlay_on (state : View) (acc : StateDiff) : View := Overlayed_get (MkOverlayed state (sd_get acc)).

(** The payer's nonce goes up, whatever becomes of the transaction. *)
Definition bump_nonce (state : View) (accstate : StateDiff) (p : Pubkey) : StateDiff :=
  match overlay_on state accstate p with
  | Some acc => (sd_set accstate p (MkAccount (executable acc) (wrap64 (nonce acc + 1)) (owner acc) (data acc))).2
  | None => (sd_set accstate p (MkAccount false 1 None None)).2
  end.

Record BlockAcc := MkBlockAcc {
  accstate : StateDiff;
  acclogs : list (Multihash * list (string * string));
  accerrors : list (Multihash * ContractError)
}.

Definition block_acc_default : BlockAcc := MkBlockAcc sd_default [] [].

(** [ExecutionUnit::new(..).and_then(|unit| unit.execute())] *)
Definition run_transaction (fuel : nat) (vm : Machine) (view : View) (tx : Transaction) :
    Outcome (Result ContractError TransactionOutput) :=
  u ←? Done (Unit_new tx view vm);
  unit_execute fuel u.

(** One round of the loop over the transactions. *)
Definition execute_transaction (fuel : nat) (vm : Machine) (state : View) (acc : BlockAcc) (tx : Transaction) :
    Outcome BlockAcc :=
  let bumped := bump_nonce state (accstate acc) (payer tx) in
  r ← run_transaction fuel vm (overlay_on state bumped) tx;
  mret (match r with
        | Ok txout => MkBlockAcc (merge bumped (state_diff txout))
                        (im_insert (tx_hash tx) (log_entries txout) (acclogs acc)) (accerrors acc)
        | Err error => MkBlockAcc bumped (acclogs acc) (im_insert (tx_hash tx) error (accerrors acc))
        end).

Fixpoint execute_all (fuel : nat) (vm : Machine) (state : View) (acc : BlockAcc) (txs : list Transaction) :
    Outcome BlockAcc :=
  match txs with
  | [] => Done acc
  | tx :: txs =>
      acc ← execute_transaction fuel vm state acc tx;
      execute_all fuel vm state acc txs
  end.

Definition transactions_execute (fuel : nat) (vm : Machine) (state : View) (txs : list Transaction) :
    Outcome (Result MachineError BlockOutput) :=
  if negb (verify_transactions_order txs) then Done (Err InvalidTransactionsOrder)
  else
    acc ← execute_all fuel vm state block_acc_default txs;
    mret (Ok (MkBlockOutput (accstate acc) (acclogs acc) (accerrors acc))).

#[export] Instance transactions_executable : Executable (list Transaction) := {|
  execute := transactions_execute
|}.
End transactions.

Section executed.
Context `{Crypto} `{WasmRuntime} {D : Type} `{BlockData D} `{!Executable D}.

(** ** Executed blocks *)

Record Executed := MkExecuted { underlying : Produced D; output : BlockOutput }.

(** [Executed::new] *)
Definition Executed_new (fuel : nat) (state : View) (block : Produced D) (machine : Machine) :
    Outcome (Result MachineError Executed) :=
  output ←? execute fuel machine state (block_data block);
  Done (if bool_decide (block_output_hash output = state_hash block)
        then Ok (MkExecuted block output) else Err InconsistentStateHash).

Definition Executed_recreate (block : Produced D) (output : BlockOutput) : Executed := MkExecuted block output.

(** ** Finalized state *)

Record Finalized (St : Type) := MkFinalized { fin_underlying : AnyBlock D; fin_state : St }.

(** [Finalized::apply]: panics when the block is not a child of the last
    finalized one, and when the storage engine fails. *)
Definition Finalized_apply {St} `{StateStore St} (f : Finalized St) (block : Executed) : Outcome (Finalized St) :=
  if bool_decide (parent (underlying block) ≠ any_hash (fin_underlying _ f)) then Panic
  else match store_apply (fin_state _ f) (out_state (output block)) with
       | Some s => Done (MkFinalized St (ProducedBlock (underlying block)) s)
       | None => Panic
       end.
End executed.
Arguments Executed {_} _.
Arguments Finalized {_} _ _.
Arguments MkFinalized {_ _ _} _ _.
Arguments fin_underlying {_ _ _} _.
Arguments fin_state {_ _ _} _.
