(* ===== verification/ExecutionProps.v ===== *)
(** * Properties of block execution

    Nonce accounting and replay protection, the results a block reports for its
    transactions, and what the check of the transaction order comes to. *)
From S2P Require Import Prelude Primitives State Transaction Contract Currency CurrencyProps Builtins Block Machine VmExample MachineProps BuiltinProps Execution.

Section execution.
Context `{Crypto} `{WasmRuntime} `{BuiltinAddresses}.
Implicit Types (st : View) (a p : Pubkey) (tx : Transaction) (txs : list Transaction) (acc : BlockAcc) (m : Machine).

(** ** Nonces *)

Definition nonce_of st a : Z := match st a with Some acc => nonce acc | None => 0 end.

(** How many of the transactions [a] pays for. *)
Definition paid_by a txs : Z := Z.of_nat (length (filter (λ tx, payer tx = a) txs)).

Lemma paid_by_app a l k : paid_by a (l ++ k) = paid_by a l + paid_by a k.
Proof. unfold paid_by. rewrite filter_app, length_app. lia. Qed.

Lemma paid_by_one a tx : paid_by a [tx] = if bool_decide (payer tx = a) then 1 else 0.
Proof. unfold paid_by. rewrite filter_cons. case_decide; case_bool_decide; done. Qed.

Lemma overlay_sd_set st d a (acc : Account) b :
  overlay_on st (sd_set d a acc).2 b = if bool_decide (a = b) then Some acc else overlay_on st d b.
Proof.
  unfold overlay_on, Overlayed_get, sd_get. simpl. case_bool_decide; [subst; by rewrite lookup_insert_eq|].
  by rewrite lookup_insert_ne.
Qed.

Lemma overlay_merge st d1 d2 a :
  overlay_on st (merge d1 d2) a = match sd_get d2 a with Some v => Some v | None => overlay_on st d1 a end.
Proof. unfold overlay_on, Overlayed_get. simpl. rewrite merge_get. by destruct (sd_get d2 a). Qed.

Lemma bump_nonce_of st d p a :
  nonce_of (overlay_on st (bump_nonce st d p)) a =
    if bool_decide (p = a) then wrap64 (nonce_of (overlay_on st d) p + 1) else nonce_of (overlay_on st d) a.
Proof.
  unfold bump_nonce, nonce_of. destruct (overlay_on st d p) as [acc|] eqn:E;
    rewrite overlay_sd_set; case_bool_decide; done.
Qed.

Lemma diff_ok_nonce st d1 t a :
  diff_ok (overlay_on st d1) (state_diff t) →
  nonce_of (overlay_on st (merge d1 (state_diff t))) a = nonce_of (overlay_on st d1) a.
Proof.
  intros [Hw _]. unfold nonce_of. rewrite overlay_merge. unfold sd_get.
  destruct (sd_data (state_diff t) !! a) as [acc'|] eqn:E; [|done].
  destruct (Hw _ _ E) as [_ Ha]. unfold allowed_write in Ha. destruct (overlay_on st d1 a); [by rewrite Ha|by destruct Ha].
Qed.

Lemma run_transaction_diff_ok fuel m st tx t :
  run_transaction fuel m st tx = Done (Ok t) → diff_ok st (state_diff t) ∧ tx_nonce tx = nonce_of st (payer tx).
Proof.
  unfold run_transaction. intros Ht. apply try_bind_ok in Ht as (u & Hu & Ht). apply (inj Done) in Hu.
  destruct (Unit_new_wf _ _ _ _ Hu) as (Hwf & <- & _ & _). split; [by eapply unit_execute_diff_ok|].
  unfold Unit_new in Hu. apply bind_ok in Hu as (? & _ & Hu). apply bind_ok in Hu as (? & _ & Hu).
  apply bind_ok in Hu as (? & Hn%reject_if_ok%negb_false_iff%Z.eqb_eq & Hu).
  apply bind_ok in Hu as (? & _ & [= <-]). done.
Qed.

Lemma execute_transaction_nonce fuel m st acc tx acc' a :
  execute_transaction fuel m st acc tx = Done acc' →
  nonce_of (overlay_on st (accstate acc')) a =
    if bool_decide (payer tx = a) then wrap64 (nonce_of (overlay_on st (accstate acc)) a + 1)
    else nonce_of (overlay_on st (accstate acc)) a.
Proof.
  unfold execute_transaction. intros Hacc. apply outcome_bind_done in Hacc as (r & Hr & Hacc). injection Hacc as <-.
  transitivity (nonce_of (overlay_on st (bump_nonce st (accstate acc) (payer tx))) a).
  - destruct r as [t|e]; [|done]. apply run_transaction_diff_ok in Hr as [Hd _]. by apply diff_ok_nonce.
  - rewrite bump_nonce_of. case_bool_decide; by subst.
Qed.

Lemma wrap64_add z n : wrap64 (wrap64 z + n) = wrap64 (z + n).
Proof. unfold wrap64. by rewrite Zplus_mod_idemp_l. Qed.

Lemma execute_all_nonce fuel m st acc txs acc' a :
  is_u64 (nonce_of (overlay_on st (accstate acc)) a) → execute_all fuel m st acc txs = Done acc' →
  nonce_of (overlay_on st (accstate acc')) a = wrap64 (nonce_of (overlay_on st (accstate acc)) a + paid_by a txs).
Proof.
  revert acc. induction txs as [|tx txs IH]; intros acc Hu64; cbn [execute_all].
  { intros [= <-]. unfold paid_by. simpl. by rewrite Z.add_0_r, wrap64_id. }
  intros Hacc. apply outcome_bind_done in Hacc as (acc1 & Hs1 & Hacc).
  apply execute_transaction_nonce with (a := a) in Hs1.
  assert (nonce_of (overlay_on st (accstate acc1)) a =
    wrap64 (nonce_of (overlay_on st (accstate acc)) a + paid_by a [tx])) as Hn.
  { rewrite Hs1, paid_by_one. case_bool_decide; [done|]. by rewrite Z.add_0_r, wrap64_id. }
  rewrite (IH acc1); [|rewrite Hn; apply wrap64_bounds|done].
  change (tx :: txs) with ([tx] ++ txs). rewrite Hn, wrap64_add, paid_by_app. f_equal. lia.
Qed.

Lemma overlay_default st a : overlay_on st sd_default a = st a.
Proof. unfold overlay_on, Overlayed_get, sd_get. simpl. by rewrite lookup_empty. Qed.

Lemma execute_all_app fuel m st acc l k :
  execute_all fuel m st acc (l ++ k) = (execute_all fuel m st acc l ≫= λ acc, execute_all fuel m st acc k).
Proof.
  revert acc. induction l as [|tx l IH]; intros acc; [done|]. cbn [app execute_all].
  destruct (execute_transaction fuel m st acc tx); simpl; [apply IH|done|done].
Qed.

(** The transaction at position [i] ran to completion. *)
Definition succeeds_at (fuel : nat) m st txs (i : nat) : Prop :=
  ∃ tx acc t, txs !! i = Some tx ∧ execute_all fuel m st block_acc_default (take i txs) = Done acc ∧
    run_transaction fuel m (overlay_on st (bump_nonce st (accstate acc) (payer tx))) tx = Done (Ok t).

Lemma succeeds_nonce fuel m st txs i tx :
  (∀ a, is_u64 (nonce_of st a)) → txs !! i = Some tx → succeeds_at fuel m st txs i →
  tx_nonce tx = wrap64 (nonce_of st (payer tx) + paid_by (payer tx) (take (S i) txs)).
Proof.
  intros Hu64 Hi (tx' & acc & t & Hi' & Hacc & Ht). simplify_eq.
  apply run_transaction_diff_ok in Ht as [_ ->]. rewrite bump_nonce_of, bool_decide_true by done.
  assert (nonce_of (overlay_on st (accstate block_acc_default)) (payer tx) = nonce_of st (payer tx)) as Hz0.
  { unfold nonce_of. simpl. by rewrite overlay_default. }
  apply execute_all_nonce with (a := payer tx) in Hacc; [|by rewrite Hz0].
  rewrite Hacc, Hz0, wrap64_add. f_equal. rewrite (take_S_r _ _ _ Hi), paid_by_app, paid_by_one, bool_decide_true by done. lia.
Qed.

(** ** Results *)

Lemma im_insert_keys {V} (k : Multihash) (v : V) l k' : is_Some (im_get k' l) → is_Some (im_get k' (im_insert k v l)).
Proof.
  intros Hk. destruct (decide (k = k')) as [<-|Hne]; [rewrite im_get_insert_eq; eauto|by rewrite im_get_insert_ne].
Qed.

Definition reported acc (h : Multihash) : Prop := is_Some (im_get h (acclogs acc)) ∨ is_Some (im_get h (accerrors acc)).

Lemma execute_transaction_reported fuel m st acc tx acc' :
  execute_transaction fuel m st acc tx = Done acc' →
  reported acc' (tx_hash tx) ∧ ∀ h, reported acc h → reported acc' h.
Proof.
  unfold execute_transaction. intros Hacc. apply outcome_bind_done in Hacc as (r & Hr & Hacc). injection Hacc as <-.
  unfold reported. destruct r; simpl; rewrite im_get_insert_eq; (split; [eauto|]);
    intros h [|]; eauto using im_insert_keys.
Qed.

Lemma execute_all_reported fuel m st acc txs acc' :
  execute_all fuel m st acc txs = Done acc' →
  (∀ h, reported acc h → reported acc' h) ∧ ∀ tx, tx ∈ txs → reported acc' (tx_hash tx).
Proof.
  revert acc. induction txs as [|tx txs IH]; intros acc; cbn [execute_all].
  { intros [= <-]. split; [done|]. by intros tx ?%not_elem_of_nil. }
  intros Hacc. apply outcome_bind_done in Hacc as (acc1 & Hs1 & Hacc).
  apply execute_transaction_reported in Hs1 as [Htx Hkeep]. destruct (IH _ Hacc) as [Hkeep' Hall].
  split; [auto|]. intros tx' Hin. apply elem_of_cons in Hin as [->|Hin]; auto.
Qed.

Lemma transactions_execute_inv fuel m st txs out :
  transactions_execute fuel m st txs = Done (Ok out) →
  verify_transactions_order txs = true ∧
  ∃ acc, execute_all fuel m st block_acc_default txs = Done acc ∧
    out = MkBlockOutput (accstate acc) (acclogs acc) (accerrors acc).
Proof.
  unfold transactions_execute. destruct (verify_transactions_order txs); simpl; [|done].
  intros Hout. apply outcome_bind_done in Hout as (acc & Hacc & Hout). injection Hout as <-. eauto.
Qed.

(** ** Theorems *)

(** Executing a block raises the nonce of every account by exactly the
    number of transactions of the block that it pays for (at 64 bits),
    whether they succeed or fail and whatever the contracts they call do. *)
Theorem block_raises_nonces fuel m st txs out a :
  is_u64 (nonce_of st a) → transactions_execute fuel m st txs = Done (Ok out) →
  nonce_of (overlay_on st (out_state out)) a = wrap64 (nonce_of st a + paid_by a txs).
Proof.
  intros Hu64 Hout. apply transactions_execute_inv in Hout as (_ & acc & Hacc & ->).
  assert (nonce_of (overlay_on st (accstate block_acc_default)) a = nonce_of st a) as Hz0.
  { unfold nonce_of. simpl. by rewrite overlay_default. }
  apply execute_all_nonce with (a := a) in Hacc; [|by rewrite Hz0]. by rewrite <-Hz0.
Qed.

(** C8: no transaction runs twice: of two copies of a transaction in a block
    at most one succeeds. *)
Theorem no_replay_within_block fuel m st txs i j tx :
  (∀ a, is_u64 (nonce_of st a)) → Z.of_nat (length txs) ≤ u64_max →
  (i < j)%nat → txs !! i = Some tx → txs !! j = Some tx →
  succeeds_at fuel m st txs i → ¬ succeeds_at fuel m st txs j.
Proof.
  intros Hu64 Hlen Hij Hi Hj Hs1 Hs2.
  pose proof (succeeds_nonce _ _ _ _ _ _ Hu64 Hi Hs1) as N1. pose proof (succeeds_nonce _ _ _ _ _ _ Hu64 Hj Hs2) as N2.
  assert (paid_by (payer tx) (take (S j) txs) =
    paid_by (payer tx) (take (S i) txs) + paid_by (payer tx) (drop (S i) (take (S j) txs))) as Hsplit.
  { rewrite <-paid_by_app. f_equal. rewrite <-(take_drop (S i) (take (S j) txs)) at 1. by rewrite take_take, Nat.min_l by lia. }
  assert (1 ≤ paid_by (payer tx) (drop (S i) (take (S j) txs)) ≤ u64_max) as [Hlo Hhi].
  { split.
    - rewrite (take_S_r _ _ _ Hj), drop_app_le by (rewrite length_take; apply lookup_lt_Some in Hj; lia).
      rewrite paid_by_app, paid_by_one, bool_decide_true by done. unfold paid_by. lia.
    - unfold paid_by. pose proof (length_filter (λ x, payer x = payer tx) (drop (S i) (take (S j) txs))).
      rewrite length_drop, length_take in *. lia. }
  rewrite N1, Hsplit, Z.add_assoc in N2. revert N2. unfold wrap64, u64_modulus, u64_max in *.
  generalize (nonce_of st (payer tx) + paid_by (payer tx) (take (S i) txs)).
  generalize dependent (paid_by (payer tx) (drop (S i) (take (S j) txs))). intros n _ Hlo Hhi z Heq.
  assert ((z + n - z) mod 2 ^ 64 = 0) as Hmod by (rewrite Zminus_mod, <-Heq, Z.sub_diag; done).
  rewrite Z.add_simpl_l, Z.mod_small in Hmod by lia. lia.
Qed.

(** Every transaction of an executed block is accounted for: its hash is
    among the block's logs or among its errors. *)
Theorem transactions_accounted_for fuel m st txs out tx :
  transactions_execute fuel m st txs = Done (Ok out) → tx ∈ txs →
  is_Some (im_get (tx_hash tx) (out_logs out)) ∨ is_Some (im_get (tx_hash tx) (out_errors out)).
Proof.
  intros Hout Htx. apply transactions_execute_inv in Hout as (_ & acc & Hacc & ->).
  apply execute_all_reported in Hacc as [_ Hall]. exact (Hall tx Htx).
Qed.

(** No two neighbours are the descending pair that the code takes for a group. *)
Fixpoint no_groups (prev : Transaction) txs : bool :=
  match txs with
  | [] => true
  | tx :: txs => negb (is_within_payer_group tx prev) && no_groups tx txs
  end.

Lemma hash_less_irrefl `{!CryptoLaws} tx : hash_less tx tx = false.
Proof. unfold hash_less. destruct (multihash_leb_total (tx_hash tx) (tx_hash tx)) as [-> | ->]; done. Qed.

Lemma order_loop_no_groups `{!CryptoLaws} prev gh txs : no_groups prev txs = true → order_loop prev gh txs = true.
Proof.
  revert prev gh. induction txs as [|tx txs IH]; intros prev gh; [done|]. cbn [no_groups order_loop].
  intros [-> Hno]%andb_true_iff. rewrite hash_less_irrefl. by apply IH.
Qed.

(** The check of the transaction order does not enforce an order. A block
    passes it with its transactions in any arrangement of hashes, as long as
    no transaction directly follows one of the same payer with the next
    higher nonce: each transaction that does not continue such a descending
    group is compared with itself only. In particular a payer's transactions
    in increasing order of nonces are never compared with anything. *)
Theorem order_check_vacuous `{!CryptoLaws} first rest :
  no_groups first rest = true → verify_transactions_order (first :: rest) = true.
Proof. apply order_loop_no_groups. Qed.
End execution.

(** ** Witnesses *)

Import CoinExample VmExample.

(** Alice's payment, as the first transaction of a block (her nonce is one by
    the time it runs), and the same transaction again. *)
Definition block_tx : Transaction := transfer_tx prog alice alice bob 4 1 [alice].
Definition block_out : BlockOutput :=
  match transactions_execute 2 toy_vm toy_state [block_tx; block_tx] with
  | Done (Ok o) => o
  | _ => MkBlockOutput sd_default [] []
  end.

Lemma block_out_ok : transactions_execute 2 toy_vm toy_state [block_tx; block_tx] = Done (Ok block_out).
Proof.
  unfold block_out. destruct (transactions_execute 2 toy_vm toy_state [block_tx; block_tx]) as [[o|e]| |] eqn:E; [done|..];
    apply (f_equal (λ o, match o with Done (Ok _) => true | _ => false end)) in E; vm_compute in E; discriminate.
Qed.

Lemma toy_nonces a : is_u64 (nonce_of toy_state a).
Proof.
  assert (is_u64 0) as H0 by (unfold is_u64, u64_max; lia). unfold nonce_of, toy_state, owned.
  destruct (bool_decide (a = mint_addr)), (bool_decide (a = coin_of alice)), (bool_decide (a = proxy)); exact H0.
Qed.

Lemma block_raises_nonces_witness : nonce_of (overlay_on toy_state (out_state block_out)) alice = 2.
Proof. exact (block_raises_nonces 2 toy_vm toy_state _ block_out alice (toy_nonces alice) block_out_ok). Defined.

Lemma first_succeeds : succeeds_at 2 toy_vm toy_state [block_tx; block_tx] 0.
Proof.
  destruct (run_transaction 2 toy_vm (overlay_on toy_state (bump_nonce toy_state sd_default alice)) block_tx)
    as [[t|e]| |] eqn:E.
  - exists block_tx, block_acc_default, t. split_and!; [done|done|exact E].
  - apply (f_equal done_ok) in E. vm_compute in E. discriminate.
  - apply (f_equal done_ok) in E. vm_compute in E. discriminate.
  - apply (f_equal done_ok) in E. vm_compute in E. discriminate.
Qed.

Lemma no_replay_within_block_witness : ¬ succeeds_at 2 toy_vm toy_state [block_tx; block_tx] 1.
Proof.
  apply (no_replay_within_block 2 toy_vm toy_state [block_tx; block_tx] 0 1 block_tx);
    [exact toy_nonces|by vm_compute|lia|reflexivity|reflexivity|exact first_succeeds].
Defined.

Lemma transactions_accounted_for_witness :
  is_Some (im_get (tx_hash block_tx) (out_logs block_out)) ∨ is_Some (im_get (tx_hash block_tx) (out_errors block_out)).
Proof. apply (transactions_accounted_for 2 toy_vm toy_state [block_tx; block_tx] block_out block_tx block_out_ok). by left. Defined.

(** Two transactions of different payers, in either order. *)
Lemma order_check_vacuous_witness :
  verify_transactions_order [block_tx; forged_tx] = true ∧ verify_transactions_order [forged_tx; block_tx] = true.
Proof.
  split; [apply (order_check_vacuous block_tx [forged_tx])|apply (order_check_vacuous forged_tx [block_tx])]; vm_compute; reflexivity.
Defined.
