(* ===== verification/Consumer.v ===== *)
(** * Consumers of blocks (src/consumer.rs)

    The interface through which services follow the chain, and the channel that
    feeds them. Consumers of one block run as concurrent tasks; they share no
    state, so they are run one after the other here. A panic ends the task of one
    consumer for one block: what the task had done by then stays done, and the
    loop that joins the tasks goes on with the next block. *)
From S2P Require Import Prelude Primitives State Transaction Contract Block Machine Execution.

Inductive Commitment := Included | Confirmed | Finalized_.

#[export] Instance commitment_eq_dec : EqDecision Commitment.
Proof. solve_decision. Defined.

(** ** Tasks *)

(** Code that changes a state of type [S] and may panic half-way. *)
Definition Task (S : Type) : Type := S → S * Outcome unit.

Definition skip {S} : Task S := λ s, (s, Done tt).

(** One task after the other, the second only if the first one returned. *)
Definition and_then {S} (t k : Task S) : Task S := λ s,
  let '(s, r) := t s in match r with Done _ => k s | _ => (s, r) end.
Infix ";;;" := and_then (at level 60, right associativity).

Lemma and_then_done {S} (t k : Task S) s s' :
  (t ;;; k) s = (s', Done tt) → ∃ s1, t s = (s1, Done tt) ∧ k s1 = (s', Done tt).
Proof. unfold and_then. destruct (t s) as [s1 [[]| |]]; [by exists s1|done..]. Qed.

Lemma and_then_eq {S} (t k : Task S) s s1 : t s = (s1, Done tt) → (t ;;; k) s = k s1.
Proof. unfold and_then. by intros ->. Qed.

Lemma and_then_panic {S} (t k : Task S) s s1 : t s = (s1, Panic) → (t ;;; k) s = (s1, Panic).
Proof. unfold and_then. by intros ->. Qed.

(** What both tasks keep, they keep together, also when one of them panics. *)
Lemma and_then_keeps {S} (P : S → Prop) (t k : Task S) :
  (∀ s, P s → P (t s).1) → (∀ s, P s → P (k s).1) → ∀ s, P s → P ((t ;;; k) s).1.
Proof. intros Ht Hk s Hs. unfold and_then. specialize (Ht s Hs). destruct (t s) as [s1 [| |]]; auto. Qed.

(** ** Consumers *)

Section consumer.
Context `{Crypto} {D : Type} `{BlockData D}.

(** [trait BlockConsumer]: the state in which a consumer of type [C] is after
    it was given a block. *)
Class BlockConsumer (C : Type) := {
  consume : C → Executed D → Commitment → C
}.

(** Two consumers of the same blocks. *)
#[export] Instance both_consume {C1 C2} `{!BlockConsumer C1, !BlockConsumer C2} : BlockConsumer (C1 * C2) := {|
  consume p e c := (consume p.1 e c, consume p.2 e c)
|}.

(** The channel of [BlockConsumers], oldest block first. *)
Definition BlockConsumers : Type := list (Executed D * Commitment).

(** [BlockConsumers::consume] *)
Definition send (q : BlockConsumers) (e : Executed D) (c : Commitment) : BlockConsumers := q ++ [(e, c)].

(** One round of the loop of the background task. *)
Definition receive {C} `{!BlockConsumer C} (q : BlockConsumers) (cs : C) : BlockConsumers * C :=
  match q with
  | [] => ([], cs)
  | (e, c) :: q => (q, consume cs e c)
  end.

(** The task until the channel is empty. *)
Fixpoint drain {C} `{!BlockConsumer C} (q : BlockConsumers) (cs : C) : C :=
  match q with
  | [] => cs
  | (e, c) :: q => drain q (consume cs e c)
  end.
End consumer.
