(* ===== verification/Producer.v ===== *)
(** * The mempool and the block producer (src/producer.rs)

    The concurrent maps are association lists in the order of their iteration.
    The code leaves that order unspecified, so theorems speak about every list.
    The clone of the producer that consumes blocks shares its mempool: both are
    one state here. [fuel] bounds the depth of contract calls. *)
From S2P Require Import Prelude Primitives State Transaction Contract Currency Builtins Block Machine Execution Consumer.

Section producer.
Context `{Crypto} `{WasmRuntime} `{BuiltinAddresses} `{!BlockData (list Transaction)}.

(** ** The mempool *)

Record MempoolState := MkMempool {
  mp_validators : gset Pubkey;
  mp_votes : list (bytes * Vote);
  mp_txs : list (Multihash * Transaction)
}.

(** [MempoolState::new] *)
Definition Mempool_new (validators : gset Pubkey) : MempoolState := MkMempool validators [] [].

Definition mp_add_vote (vote : Vote) (mp : MempoolState) : MempoolState :=
  if bool_decide (validator vote ∈ mp_validators mp)
  then MkMempool (mp_validators mp) (im_insert (sig_to_bytes (vote_signature vote)) vote (mp_votes mp)) (mp_txs mp)
  else mp.

Definition add_transaction (tx : Transaction) (mp : MempoolState) : MempoolState :=
  match verify_signatures tx with
  | Ok _ => MkMempool (mp_validators mp) (mp_votes mp) (im_insert (tx_hash tx) tx (mp_txs mp))
  | Err _ => mp
  end.

Definition take_votes (mp : MempoolState) : list Vote * MempoolState :=
  ((mp_votes mp).*2, MkMempool (mp_validators mp) [] (mp_txs mp)).

(** [itertools::group_by]: runs of neighbours with the same payer. *)
Fixpoint group_by_payer (txs : list Transaction) : list (list Transaction) :=
  match txs with
  | [] => []
  | tx :: txs =>
      match group_by_payer txs with
      | (t :: g) :: gs => if bool_decide (payer tx = payer t) then (tx :: t :: g) :: gs else [tx] :: (t :: g) :: gs
      | gs => [tx] :: gs
      end
  end.

(** [BTreeMap::insert] on the pairs of the map in the order of the keys. *)
Fixpoint bt_insert {V} (k : Multihash) (v : V) (m : list (Multihash * V)) : list (Multihash * V) :=
  match m with
  | [] => [(k, v)]
  | (k', v') :: m' =>
      if bool_decide (k = k') then (k, v) :: m'
      else if multihash_leb k k' then (k, v) :: m else (k', v') :: bt_insert k v m'
  end.

Definition nonce_leb (a b : Transaction) : bool := tx_nonce a <=? tx_nonce b.

(** One round of the loop over the groups. *)
Definition insert_group (out : list (Multihash * list Transaction)) (txs : list Transaction) :
    list (Multihash * list Transaction) :=
  let txs := stable_sort nonce_leb txs in
  match txs with
  | first :: _ => bt_insert (tx_hash first) txs out
  | [] => out
  end.

Definition ordered_transactions (mp : MempoolState) : list Transaction :=
  concat (foldl insert_group [] (group_by_payer (mp_txs mp).*2)).*2.

Definition take_transactions (count : nat) (mp : MempoolState) : list Transaction * MempoolState :=
  let output := take count (ordered_transactions mp) in
  (output, MkMempool (mp_validators mp) (mp_votes mp) (foldl (λ m tx, im_remove (tx_hash tx) m) (mp_txs mp) output)).

(** ** The producer *)

Record BlockProducer := MkProducer {
  pr_keypair : Keypair;
  pr_limits : Limits;
  mempool : MempoolState;
  pending : option (Produced (list Transaction))
}.

Definition set_mempool (p : BlockProducer) (mp : MempoolState) : BlockProducer :=
  MkProducer (pr_keypair p) (pr_limits p) mp (pending p).

(** [BlockProducer::new] *)
Definition Producer_new (genesis : Genesis) (keypair : Keypair) : BlockProducer :=
  MkProducer keypair (limits genesis) (Mempool_new (list_to_set (pubkey <$> validators genesis))) None.

(** [produce]: the result of the execution is unwrapped. *)
Definition produce (fuel : nat) (state : View) (prev : AnyBlock (list Transaction)) (vm : Machine) (p : BlockProducer) :
    Outcome BlockProducer :=
  let prevheight := any_height prev in
  let prevhash := any_hash prev in
  let '(votes, mp) := take_votes (mempool p) in
  let '(txs, mp) := take_transactions (max_block_transactions (pr_limits p)) mp in
  blockoutput ← execute fuel vm state txs;
  match blockoutput with
  | Err _ => Panic
  | Ok blockoutput =>
      let state_hash := block_output_hash blockoutput in
      Done (MkProducer (pr_keypair p) (pr_limits p) mp
        (Some (Produced_new (pr_keypair p) (wrap64 (prevheight + 1)) prevhash txs state_hash votes)))
  end.

Definition record_vote (vote : Vote) (p : BlockProducer) : BlockProducer := set_mempool p (mp_add_vote vote (mempool p)).

Definition record_transaction (tx : Transaction) (p : BlockProducer) : BlockProducer :=
  match verify_limits tx (pr_limits p) with
  | Ok _ => set_mempool p (add_transaction tx (mempool p))
  | Err _ => p
  end.

Definition reuse_discarded (b : Produced (list Transaction)) (p : BlockProducer) : BlockProducer :=
  let p := foldl (λ p v, record_vote v p) p (votes b) in
  foldl (λ p tx, record_transaction tx p) p (block_data b).

(** [poll_next] *)
Definition producer_poll_next (p : BlockProducer) : option (Produced (list Transaction)) * BlockProducer :=
  (pending p, MkProducer (pr_keypair p) (pr_limits p) (mempool p) None).

(** [BlockConsumer for BlockProducer] *)
Definition producer_consume (p : BlockProducer) (e : Executed (list Transaction)) (c : Commitment) : BlockProducer :=
  match c with
  | Included =>
      let mp := mempool p in
      set_mempool p (MkMempool (mp_validators mp)
        (foldl (λ m v, im_remove (sig_to_bytes (vote_signature v)) m) (mp_votes mp) (votes (underlying e)))
        (foldl (λ m tx, im_remove (tx_hash tx) m) (mp_txs mp) (block_data (underlying e))))
  | _ => p
  end.

#[export] Instance producer_consumer : BlockConsumer BlockProducer := {|
  consume := producer_consume
|}.
End producer.
