(* ===== verification/Sled.v ===== *)
(** * Ordered trees of the storage engine

    The [sled::Tree] that the block store keeps its records in, by its
    documented interface: a map from byte strings to byte strings that is
    iterated in the lexicographic order of its keys. *)
From S2P Require Import Prelude Primitives.

Class SledTree (T : Type) := {
  tree_lookup : T → bytes → option bytes;
  tree_insert : T → bytes → bytes → T;
  tree_remove : T → bytes → T;
  tree_entries : T → list (bytes * bytes)
}.

Class SledTreeLaws (T : Type) `{SledTree T} : Prop := {
  tree_lookup_insert : ∀ t k v k',
    tree_lookup (tree_insert t k v) k' = if bool_decide (k = k') then Some v else tree_lookup t k';
  tree_lookup_remove : ∀ t k k',
    tree_lookup (tree_remove t k) k' = if bool_decide (k = k') then None else tree_lookup t k';
  tree_entries_lookup : ∀ t k v, (k, v) ∈ tree_entries t ↔ tree_lookup t k = Some v;
  tree_entries_sorted : ∀ t, Sorted (λ a b, bytes_leb a.1 b.1 = true) (tree_entries t)
}.

(** A tree in memory, for evaluation. *)
#[export] Instance gmap_SledTree : SledTree (gmap bytes bytes) := {|
  tree_lookup m k := m !! k;
  tree_insert m k v := <[k := v]> m;
  tree_remove m k := delete k m;
  tree_entries m := stable_sort (λ a b, bytes_leb a.1 b.1) (map_to_list m)
|}.

#[export] Instance gmap_SledTreeLaws : SledTreeLaws (gmap bytes bytes).
Proof.
  split.
  - intros t k v k'. simpl. case_bool_decide; subst; [apply lookup_insert_eq|by apply lookup_insert_ne].
  - intros t k k'. simpl. case_bool_decide; subst; [apply lookup_delete_eq|by apply lookup_delete_ne].
  - intros t k v. simpl. rewrite stable_sort_perm. apply elem_of_map_to_list.
  - intros t. apply stable_sort_sorted. intros x y. apply bytes_leb_total.
Qed.

(** ** Big-endian keys *)

Lemma be_bytes_S n z : be_bytes (S n) z = be_bytes n (z / 256) ++ [byte_of_Z z].
Proof. unfold be_bytes. cbn [le_bytes]. by rewrite reverse_cons. Qed.

Lemma be_bytes_inj n a b : 0 ≤ a < 256 ^ Z.of_nat n → 0 ≤ b < 256 ^ Z.of_nat n → be_bytes n a = be_bytes n b → a = b.
Proof. intros Ha Hb Heq%(f_equal of_be_bytes). rewrite !of_be_bytes_be_bytes, !Z.mod_small in Heq; done. Qed.

Lemma bytes_leb_snoc l k x y :
  length l = length k →
  bytes_leb (l ++ [x]) (k ++ [y]) = if bool_decide (l = k) then Z_of_byte x <=? Z_of_byte y else bytes_leb l k.
Proof.
  revert k. induction l as [|a l IH]; intros [|b k] Hlen; try done.
  - cbn [app bytes_leb]. rewrite (bool_decide_true ([] = [])) by done. case_bool_decide as Hxy; [subst; symmetry; apply Z.leb_le; lia|].
    assert (Z_of_byte x ≠ Z_of_byte y); [|lia].
    unfold Z_of_byte. intros Heq%N2Z.inj. apply Hxy.
    apply (f_equal Byte.of_N) in Heq. rewrite !Byte.of_to_N in Heq. congruence.
  - injection Hlen as Hlen. cbn [app bytes_leb]. rewrite IH by done.
    repeat case_bool_decide; simplify_eq; done.
Qed.

(** "Big endian for lexicographic byte order": keys sort like the numbers. *)
Lemma be_bytes_leb n a b :
  0 ≤ a < 256 ^ Z.of_nat n → 0 ≤ b < 256 ^ Z.of_nat n → bytes_leb (be_bytes n a) (be_bytes n b) = (a <=? b).
Proof.
  revert a b. induction n as [|n IH]; intros a b; [cbn; intros; symmetry; apply Z.leb_le; lia|].
  rewrite Nat2Z.inj_succ, Z.pow_succ_r by lia. intros Ha Hb. rewrite !be_bytes_S, bytes_leb_snoc by (by rewrite !length_be_bytes).
  assert (0 ≤ a / 256 < 256 ^ Z.of_nat n) as Ha' by (split; [apply Z.div_pos; lia|apply Z.div_lt_upper_bound; lia]).
  assert (0 ≤ b / 256 < 256 ^ Z.of_nat n) as Hb' by (split; [apply Z.div_pos; lia|apply Z.div_lt_upper_bound; lia]).
  rewrite !Z_of_byte_of_Z, IH by done. pose proof (Z.div_mod a 256). pose proof (Z.div_mod b 256).
  pose proof (Z.mod_pos_bound a 256). pose proof (Z.mod_pos_bound b 256). case_bool_decide as Heq.
  - apply be_bytes_inj in Heq; [|done|done]. apply Bool.eq_iff_eq_true. rewrite !Z.leb_le. lia.
  - assert (a / 256 ≠ b / 256) by congruence. apply Bool.eq_iff_eq_true. rewrite !Z.leb_le. lia.
Qed.

(** The keys under which heights are stored. *)
Definition height_key (h : Z) : bytes := be_bytes 8 h.

Lemma height_key_leb a b : is_u64 a → is_u64 b → bytes_leb (height_key a) (height_key b) = (a <=? b).
Proof. intros Ha Hb. unfold is_u64, u64_max in *. apply be_bytes_leb; change (256 ^ Z.of_nat 8) with (2 ^ 64); lia. Qed.

Lemma height_key_inj a b : is_u64 a → is_u64 b → height_key a = height_key b → a = b.
Proof. intros Ha Hb. unfold is_u64, u64_max in *. apply be_bytes_inj; change (256 ^ Z.of_nat 8) with (2 ^ 64); lia. Qed.

Lemma of_height_key h : is_u64 h → of_be_bytes (height_key h) = h.
Proof. intros Hh. unfold height_key, is_u64, u64_max in *. rewrite of_be_bytes_be_bytes. apply Z.mod_small. change (256 ^ Z.of_nat 8) with (2 ^ 64). lia. Qed.
