(* ===== verification/BlockStore.v ===== *)
(** * The block store (src/storage/blocks.rs)

    Five trees of the storage engine and the consumer that fills and prunes
    them. Tasks that the code joins have no point in common at which they could
    be interleaved: they run in the order in which they are listed. *)
From S2P Require Import Prelude Primitives State Transaction Contract Block Machine Execution Consumer Sled.

(** What is left of the output of a block after serialization: accounts lose
    their executable flags. *)
Record StoredOutput := MkStoredOutput {
  so_data : gmap Pubkey StoredAccount;
  so_deletes : gset Pubkey
}.

Section stored.
Context `{Crypto}.

Definition to_stored_output (o : BlockOutput) : StoredOutput * (list (Multihash * list (string * string)) * list (Multihash * ContractError)) :=
  (MkStoredOutput (to_stored <$> sd_data (out_state o)) (sd_deletes (out_state o)), (out_logs o, out_errors o)).
Definition of_stored_output (s : StoredOutput * (list (Multihash * list (string * string)) * list (Multihash * ContractError))) : BlockOutput :=
  MkBlockOutput (MkStateDiff (of_stored <$> so_data s.1) (so_deletes s.1)) s.2.1 s.2.2.

(** [ExecutedTransaction] (src/vm/transaction.rs) *)
Record ExecutedTransaction := MkExecutedTransaction {
  et_block : Z;
  et_transaction : Transaction;
  et_output : Result ContractError (list (string * string))
}.
End stored.

Abbreviation StoredOutputs := (StoredOutput * (list (Multihash * list (string * string)) * list (Multihash * ContractError)))%type.

(** [Option::unwrap] *)
Definition unwrap {A} (o : option A) : Outcome A := match o with Some a => Done a | None => Panic end.

Section store.
Context `{Crypto} `{WasmRuntime} `{!BlockData (list Transaction)} {T : Type} `{SledTree T}.
Context `{!Bincode (Produced (list Transaction))} `{!Bincode StoredOutputs} `{!Bincode ExecutedTransaction}.
Abbreviation BlockType := (list Transaction).

Record BlockStore := MkStore {
  detailed : bool;
  history_len : Z;
  confirmed_tree : T;
  finalized_tree : T;
  hashes : T;
  outputs : T;
  transactions : T
}.

(** ** Reading *)

Definition tree_last (t : T) : option (bytes * bytes) := last (tree_entries t).

Definition latest (s : BlockStore) (c : Commitment) : option (Produced BlockType) :=
  match c with
  | Included => None
  | Confirmed => tree_last (confirmed_tree s) ≫= λ p, bincode_deserialize p.2
  | Finalized_ => tree_last (finalized_tree s) ≫= λ p, bincode_deserialize p.2
  end.

Definition get_by_height (s : BlockStore) (h : Z) : Outcome (option (Executed BlockType * Commitment)) :=
  block ← match tree_lookup (confirmed_tree s) (height_key h) with
          | Some b => b ← unwrap (bincode_deserialize b); mret (Some (b, Confirmed))
          | None =>
              match tree_lookup (finalized_tree s) (height_key h) with
              | Some b => b ← unwrap (bincode_deserialize b); mret (Some (b, Finalized_))
              | None => mret None
              end
          end;
  match block with
  | Some (b, c) =>
      match tree_lookup (outputs s) (height_key h) with
      | Some o => o ← unwrap (bincode_deserialize o); mret (Some (Executed_recreate b (of_stored_output o), c))
      | None => mret None
      end
  | None => mret None
  end.

(** [get_by_hash]: a height that does not have eight bytes makes it panic. *)
Definition get_by_hash (s : BlockStore) (hash : Multihash) : Outcome (option (Executed BlockType * Commitment)) :=
  match tree_lookup (hashes s) (mh_to_bytes hash) with
  | Some h => if (length h =? 8)%nat then get_by_height s (of_be_bytes h) else Panic
  | None => mret None
  end.

Definition get_block_commitment (s : BlockStore) (h : Z) : option Commitment :=
  if tree_lookup (confirmed_tree s) (height_key h) then Some Confirmed
  else if tree_lookup (finalized_tree s) (height_key h) then Some Finalized_
  else None.

Definition get_transaction (s : BlockStore) (hash : Multihash) : Outcome (option ExecutedTransaction) :=
  if negb (detailed s) then Panic
  else match tree_lookup (transactions s) (mh_to_bytes hash) with
       | Some tx => tx ← unwrap (bincode_deserialize tx); mret (Some tx)
       | None => mret None
       end.

(** ** Writing *)

Definition insert_block (t : T) (b : Produced BlockType) : T := tree_insert t (height_key (height b)) (bincode_serialize b).

(** [store_raw_block]: panics when a finalized block does not follow the latest one. *)
Definition store_raw_block (b : Produced BlockType) (c : Commitment) : Task BlockStore := λ s,
  match c with
  | Included => (s, Done tt)
  | Confirmed =>
      (MkStore (detailed s) (history_len s) (insert_block (confirmed_tree s) b) (finalized_tree s) (hashes s) (outputs s) (transactions s), Done tt)
  | Finalized_ =>
      let latest_height := match latest s Finalized_ with Some b => height b | None => 0 end in
      if negb (height b =? wrap64 (latest_height + 1)) then (s, Panic)
      else (MkStore (detailed s) (history_len s) (tree_remove (confirmed_tree s) (height_key (height b)))
              (insert_block (finalized_tree s) b) (hashes s) (outputs s) (transactions s), Done tt)
  end.

(** The record of a transaction: its error, or else its logs, one of which is
    there. *)
Definition executed_transaction (e : Executed BlockType) (tx : Transaction) : Outcome ExecutedTransaction :=
  output ← unwrap match im_get (tx_hash tx) (out_errors (output e)) with
                  | Some error => Some (Err error)
                  | None => Ok <$> im_get (tx_hash tx) (out_logs (output e))
                  end;
  mret (MkExecutedTransaction (height (underlying e)) tx output).

(** The batch of the records, applied after all of them were made. *)
Fixpoint transactions_batch (e : Executed BlockType) (txs : list Transaction) : Outcome (list (bytes * bytes)) :=
  match txs with
  | [] => Done []
  | tx :: txs =>
      r ← executed_transaction e tx;
      batch ← transactions_batch e txs;
      mret ((mh_to_bytes (tx_hash tx), bincode_serialize r) :: batch)
  end.

Definition store_outputs (e : Executed BlockType) : Task BlockStore := λ s,
  if negb (detailed s) then (s, Panic)
  else
    let key := height_key (height (underlying e)) in
    let o := match tree_lookup (outputs s) key with
             | Some _ => outputs s
             | None => tree_insert (outputs s) key (bincode_serialize (to_stored_output (output e)))
             end in
    let s := MkStore (detailed s) (history_len s) (confirmed_tree s) (finalized_tree s) (hashes s) o (transactions s) in
    match transactions_batch e (block_data (underlying e)) with
    | Done batch =>
        (MkStore (detailed s) (history_len s) (confirmed_tree s) (finalized_tree s) (hashes s) o
           (foldl (λ t p, tree_insert t p.1 p.2) (transactions s) batch), Done tt)
    | Panic => (s, Panic)
    | OutOfFuel => (s, OutOfFuel)
    end.

(** ** Pruning *)

(** [tree.range(zero..height)] *)
Definition older_than (h : Z) (t : T) : list (bytes * bytes) :=
  filter (λ p, bytes_leb (height_key 0) p.1 = true ∧ bytes_leb (height_key h) p.1 = false) (tree_entries t).

(** [prune_tree] on the outputs. *)
Definition prune_outputs (h : Z) (t : T) : T := foldl (λ t p, tree_remove t p.1) t (older_than h t).

(** [prune_tree] on blocks: the tree, the hashes and the transactions. *)
Fixpoint prune_drain (detailed : bool) (drain : list (bytes * bytes)) : Task (T * T * T) := λ '(t, hashes, txs),
  match drain with
  | [] => ((t, hashes, txs), Done tt)
  | (k, v) :: drain =>
      match bincode_deserialize v : option (Produced BlockType) with
      | None => ((tree_remove t k, hashes, txs), Panic)
      | Some b =>
          let txs := if detailed then foldl (λ t tx, tree_remove t (mh_to_bytes (tx_hash tx))) txs (block_data b) else txs in
          prune_drain detailed drain (tree_remove t k, tree_remove hashes (mh_to_bytes (block_hash b)), txs)
      end
  end.

(** The same on the confirmed and on the finalized blocks. *)
Definition prune_confirmed (h : Z) : Task BlockStore := λ s,
  let '((confirmed, hs, txs), r) :=
    prune_drain (detailed s) (older_than h (confirmed_tree s)) (confirmed_tree s, hashes s, transactions s) in
  (MkStore (detailed s) (history_len s) confirmed (finalized_tree s) hs (outputs s) txs, r).
Definition prune_finalized (h : Z) : Task BlockStore := λ s,
  let '((finalized, hs, txs), r) :=
    prune_drain (detailed s) (older_than h (finalized_tree s)) (finalized_tree s, hashes s, transactions s) in
  (MkStore (detailed s) (history_len s) (confirmed_tree s) finalized hs (outputs s) txs, r).

Definition prune_older_than (h : Z) : Task BlockStore := λ s,
  if 0 <? h then
    let o := if detailed s then prune_outputs h (outputs s) else outputs s in
    (prune_confirmed h ;;; prune_finalized h)
      (MkStore (detailed s) (history_len s) (confirmed_tree s) (finalized_tree s) (hashes s) o (transactions s))
  else (s, Done tt).

(** ** The consumer *)

(** The index of the heights of blocks by their hashes. *)
Definition store_hash (b : Produced BlockType) (s : BlockStore) : BlockStore :=
  let hashkey := mh_to_bytes (block_hash b) in
  match tree_lookup (hashes s) hashkey with
  | Some _ => s
  | None => MkStore (detailed s) (history_len s) (confirmed_tree s) (finalized_tree s)
              (tree_insert (hashes s) hashkey (height_key (height b))) (outputs s) (transactions s)
  end.

Definition store_consume (e : Executed BlockType) (c : Commitment) : Task BlockStore := λ s,
  if bool_decide (c = Included) then (s, Done tt)
  else
    (store_raw_block (underlying e) c ;;;
     (if detailed s then store_outputs e else skip) ;;;
     prune_older_than (saturating_sub (height (underlying e)) (history_len s)) ;;;
     λ s, (store_hash (underlying e) s, Done tt)) s.

#[export] Instance store_consumer : BlockConsumer BlockStore := {| consume s e c := (store_consume e c s).1 |}.
End store.
