(* ===== verification/StoreExample.v ===== *)
(** * A store to evaluate the model on

    Injective encodings of what the block store writes, and an empty store. *)
From S2P Require Import Prelude Primitives State Transaction Contract Block Machine VmExample Execution Consumer Sled BlockStore CurrencyProps.
Import CoinExample VmExample.

#[export] Instance txs_block_data : BlockData (list Transaction) := {|
  data_default := [];
  data_bincode txs := concat (mh_to_bytes <$> (tx_hash <$> txs))
|}.

#[export] Program Instance account_ref_countable : Countable AccountRef :=
  inj_countable' (λ a, (address a, ref_writable a, ref_signer a)) (λ '(a, w, s), MkAccountRef a w s) _.
Next Obligation. by intros []. Qed.

#[export] Program Instance transaction_countable : Countable (@Transaction toy_crypto) :=
  inj_countable' (λ t, (contract t, tx_nonce t, payer t, accounts t, params t, signatures t : list bytes))
    (λ '(c, n, p, a, q, s), @MkTransaction toy_crypto c n p a q s) _.
Next Obligation. by intros []. Qed.

#[export] Program Instance vote_countable : Countable (@Vote toy_crypto) :=
  inj_countable' (λ v, (validator v, target v : bytes, justification v : bytes, vote_signature v : bytes))
    (λ '(v, t, j, s), @MkVote toy_crypto v t j s) _.
Next Obligation. by intros []. Qed.

#[export] Program Instance produced_countable : Countable (@Produced toy_crypto (list Transaction)) :=
  inj_countable' (λ b, (parent b : bytes, state_hash b : bytes, height b, (signature b).1, (signature b).2 : bytes, block_data b, votes b))
    (λ '(p, s, h, k, g, d, v), @MkProduced toy_crypto _ p s h (k, g) d v) _.
Next Obligation. by intros [? ? ? []]. Qed.

#[export] Program Instance signature_error_countable : Countable SignatureError :=
  inj_countable' (λ e, match e with MissingSigners => true | InvalidSignature => false end)
    (λ b : bool, if b then MissingSigners else InvalidSignature) _.
Next Obligation. by intros []. Qed.

(** Errors by their number, the nested error and the message. *)
Definition error_code (e : ContractError) : Z * option SignatureError * string :=
  match e with
  | InvalidTransactionNonce => (0, None, "") | AccountAlreadyExists => (1, None, "") | AccountDoesNotExist => (2, None, "")
  | TooManyInputAccounts => (3, None, "") | AccountTooLarge => (4, None, "") | LogTooLarge => (5, None, "")
  | TooManyLogs => (6, None, "") | InvalidInputAccounts => (7, None, "") | InvalidAccountOwner => (8, None, "")
  | InvalidOutputAccount => (9, None, "") | AccountNotWritable => (10, None, "") | ContractDoesNotExit => (11, None, "")
  | AccountIsNotExecutable => (12, None, "") | ContractSignatureError e => (13, Some e, "")
  | InvalidInputParameters => (14, None, "") | UnauthorizedOperation => (15, None, "") | Contract.Runtime m => (16, None, m)
  | Other m => (17, None, m) | ComputationalBudgetExhausted => (18, None, "")
  end.
Definition error_of_code (c : Z * option SignatureError * string) : option ContractError :=
  match c with
  | (0, None, _) => Some InvalidTransactionNonce | (1, None, _) => Some AccountAlreadyExists
  | (2, None, _) => Some AccountDoesNotExist | (3, None, _) => Some TooManyInputAccounts
  | (4, None, _) => Some AccountTooLarge | (5, None, _) => Some LogTooLarge | (6, None, _) => Some TooManyLogs
  | (7, None, _) => Some InvalidInputAccounts | (8, None, _) => Some InvalidAccountOwner
  | (9, None, _) => Some InvalidOutputAccount | (10, None, _) => Some AccountNotWritable
  | (11, None, _) => Some ContractDoesNotExit | (12, None, _) => Some AccountIsNotExecutable
  | (13, Some e, _) => Some (ContractSignatureError e) | (14, None, _) => Some InvalidInputParameters
  | (15, None, _) => Some UnauthorizedOperation | (16, None, m) => Some (Contract.Runtime m) | (17, None, m) => Some (Other m)
  | (18, None, _) => Some ComputationalBudgetExhausted
  | _ => None
  end.
#[export] Program Instance contract_error_countable : Countable ContractError := inj_countable error_code error_of_code _.
Next Obligation. by intros []. Qed.

#[export] Instance stored_output_eq_dec : EqDecision StoredOutput.
Proof. solve_decision. Defined.
#[export] Program Instance stored_output_countable : Countable StoredOutput :=
  inj_countable' (λ o, (so_data o, so_deletes o)) (λ '(d, x), MkStoredOutput d x) _.
Next Obligation. by intros []. Qed.

#[export] Instance tx_result_eq_dec : EqDecision (Result ContractError (list (string * string))).
Proof. solve_decision. Defined.
#[export] Program Instance tx_result_countable : Countable (Result ContractError (list (string * string))) :=
  inj_countable' (λ r, match r with Ok a => inl a | Err e => inr e end) (λ s, match s with inl a => Ok a | inr e => Err e end) _.
Next Obligation. by intros []. Qed.

#[export] Instance executed_transaction_eq_dec : EqDecision (@ExecutedTransaction toy_crypto).
Proof. solve_decision. Defined.
#[export] Program Instance executed_transaction_countable : Countable (@ExecutedTransaction toy_crypto) :=
  inj_countable' (λ t, (et_block t, et_transaction t, et_output t)) (λ '(b, t, o), @MkExecutedTransaction toy_crypto b t o) _.
Next Obligation. by intros []. Qed.

(** Any countable type has an encoding. *)
Definition count_bincode (A : Type) `{Countable A} : Bincode A := {|
  bincode_serialize a := pos_bytes (encode a);
  bincode_deserialize l := decode (bytes_pos l)
|}.
Lemma count_bincode_laws (A : Type) `{Countable A} : @BincodeLaws A (count_bincode A).
Proof. constructor. intros a. simpl. by rewrite bytes_pos_bytes, decode_encode. Qed.

#[export] Instance produced_bincode : Bincode (@Produced toy_crypto (list Transaction)) := count_bincode _.
#[export] Instance produced_bincode_laws : BincodeLaws (@Produced toy_crypto (list Transaction)) := count_bincode_laws _.
#[export] Instance outputs_bincode : Bincode StoredOutputs := count_bincode _.
#[export] Instance outputs_bincode_laws : BincodeLaws StoredOutputs := count_bincode_laws _.
#[export] Instance executed_bincode : Bincode (@ExecutedTransaction toy_crypto) := count_bincode _.
#[export] Instance executed_bincode_laws : BincodeLaws (@ExecutedTransaction toy_crypto) := count_bincode_laws _.

Module StoreExample.
Abbreviation ToyStore := (@BlockStore (gmap bytes bytes)).
Definition empty_store (detailed : bool) (history : Z) : ToyStore := MkStore detailed history ∅ ∅ ∅ ∅ ∅.

(** Blocks without transactions on top of each other, and one with a transaction. *)
Definition no_output : BlockOutput := MkBlockOutput sd_default [] [].
Definition block_at_height (h : Z) (p : Multihash) : Produced (list Transaction) :=
  Produced_new (toy_key 3) h p [] (block_output_hash no_output) [].
Definition s1 := block_at_height 1 (genesis_hash toy_genesis).
Definition s2 := block_at_height 2 (block_hash s1).
Definition s3 := block_at_height 3 (block_hash s2).
Definition e1 : Executed (list Transaction) := MkExecuted s1 no_output.
Definition e2 : Executed (list Transaction) := MkExecuted s2 no_output.
Definition e3 : Executed (list Transaction) := MkExecuted s3 no_output.
Definition paid : BlockOutput :=
  MkBlockOutput (sd_set sd_default (coin_of bob) (MkAccount false 0 (Some prog) None)).2 [(tx_hash good_tx, [("amount", "4")])] [].
Definition e1_paid : Executed (list Transaction) :=
  MkExecuted (Produced_new (toy_key 3) 1 (genesis_hash toy_genesis) [good_tx] (block_output_hash paid) []) paid.
End StoreExample.
