(* ===== verification/CurrencyTyping.v ===== *)
(** * The accounts of the currency contract keep their type

    Accounts carry bytes. Those that the currency contract owns always hold a
    mint or a coin account, whatever the transactions of a block do. *)
From S2P Require Import Prelude Primitives State Transaction Contract Currency CurrencyProps Builtins Block Machine VmExample MachineProps BuiltinProps Execution ExecutionProps StoreExample.

Section typing.
Context `{Crypto} `{WasmRuntime} `{BuiltinAddresses} `{Borsh Mint} `{Borsh CoinAccount} `{Borsh Instruction}.
Context `{!BorshLaws Mint} `{!BorshLaws CoinAccount} `{!CryptoLaws}.
Implicit Types (u : ExecutionUnit) (st : View) (a c p : Pubkey) (t : TransactionOutput) (m : Machine) (tx : Transaction).

(** ** What the contract writes *)

Definition typed_data (d : option bytes) : Prop :=
  ∃ b, d = Some b ∧ ((∃ x : Mint, try_from_slice b = Some x) ∨ (∃ x : CoinAccount, try_from_slice b = Some x)).

Definition typed_output (o : Output) : Prop :=
  match o with
  | CreateOwnedAccount a d => has_private_key a = false ∧ typed_data d
  | WriteAccountData a d => typed_data d
  | LogEntry _ _ | DeleteOwnedAccount _ => True
  | ContractInvoke _ _ _ | CreateExecutableAccount _ _ => False
  end.

Lemma mint_typed (x : Mint) b : to_vec x = Ok b → typed_data (Some b).
Proof. intros Hb%to_vec_inv. exists b. split; [done|left]. by exists x. Qed.

Lemma coin_typed (x : CoinAccount) b : to_vec x = Ok b → typed_data (Some b).
Proof. intros Hb%to_vec_inv. exists b. split; [done|right]. by exists x. Qed.

Lemma read_coin_account_address ca view mi w env o :
  read_coin_account ca view mi w env = Ok o → has_private_key ca = false.
Proof.
  unfold read_coin_account. intros (x & ->%reject_if_ok%bool_decide_eq_false%dec_stable & _)%bind_ok. apply derive_off_curve_lemma.
Qed.

Lemma credit_typed coin ca mi w n o : has_private_key ca = false → credit_output coin ca mi w n = Ok o → typed_output o.
Proof.
  intros Hca Ho. unfold credit_output in Ho. destruct coin; apply bind_ok in Ho as (b & Hb%coin_typed & [= <-]); [done|by split].
Qed.

Lemma dust_typed ca n : Forall typed_output (collect_dust ca n).
Proof. unfold collect_dust. destruct (n =? 0); by repeat constructor. Qed.

(** *** The five instructions *)

Lemma create_typed env seed auth decs nm sym outs : process_create env seed auth decs nm sym = Ok outs → Forall typed_output outs.
Proof.
  unfold process_create. destruct (env_accounts env) as [|[m mv] []]; try done. intros Ho. result_inv.
  repeat constructor; [apply derive_off_curve_lemma|]. eapply (mint_typed (MkMint (Some auth) 0 decs nm sym)). unfold to_vec.
  match goal with H : try_to_vec _ = Ok _ |- _ => by rewrite H end.
Qed.

Lemma mint_outputs_typed env n outs : process_mint env n = Ok outs → Forall typed_output outs.
Proof.
  unfold process_mint. destruct (env_accounts env) as [|[m mv] [|[a av] [|[w wv] [|[ca cav] []]]]]; try done.
  intros (_ & _ & (mint & _ & (_ & _ & (coin & Hcoin%read_coin_account_address & (credit & Hcr & (b & Hb%mint_typed & [= <-])%bind_ok)%bind_ok)%bind_ok)%bind_ok)%bind_ok)%bind_ok.
  by repeat constructor; [eapply credit_typed|].
Qed.

Lemma transfer_outputs_typed env n outs : process_transfer env n = Ok outs → Forall typed_output outs.
Proof.
  unfold process_transfer. destruct (env_accounts env) as [|[m mv] [|[sw swv] [|[sc scv] [|[rw rwv] [|[rc rcv] []]]]]]; try done.
  intros (_ & _ & (mint & _ & (sender & _ & Ho)%bind_ok)%bind_ok)%bind_ok. destruct sender as [coin|]; [|done].
  apply bind_ok in Ho as (_ & _ & (_ & _ & (b & Hb%coin_typed & (r & Hr%read_coin_account_address & (credit & Hcr & Ho)%bind_ok)%bind_ok)%bind_ok)%bind_ok).
  injection Ho as <-. apply (Forall_app _ [_;_;_;_;_;_]). split; [by repeat constructor|]. apply Forall_app. split; [apply dust_typed|].
  repeat constructor. by eapply credit_typed.
Qed.

Lemma burn_outputs_typed env n outs : process_burn env n = Ok outs → Forall typed_output outs.
Proof.
  unfold process_burn. destruct (env_accounts env) as [|[m mv] [|[w wv] [|[ca cav] []]]]; try done.
  intros (_ & _ & (mint & _ & (found & _ & Ho)%bind_ok)%bind_ok)%bind_ok. destruct found as [coin|]; [|done].
  apply bind_ok in Ho as (_ & _ & (_ & _ & (b & Hb%mint_typed & (b' & Hb'%coin_typed & [= <-])%bind_ok)%bind_ok)%bind_ok).
  apply (Forall_app _ [_;_;_;_;_;_]). split; [by repeat constructor|apply dust_typed].
Qed.

Lemma authority_outputs_typed env auth outs : process_set_authority env auth = Ok outs → Forall typed_output outs.
Proof.
  unfold process_set_authority. destruct (env_accounts env) as [|[m mv] [|[a av] []]]; try done.
  intros (mint & _ & Ho)%bind_ok. destruct (authority mint); [|done].
  apply bind_ok in Ho as (_ & _ & (_ & _ & (b & Hb%mint_typed & [= <-])%bind_ok)%bind_ok). by repeat constructor.
Qed.

Lemma currency_outputs_typed env params outs : currency_contract env params = Ok outs → Forall typed_output outs.
Proof.
  unfold currency_contract. intros (i & _ & Ho)%bind_ok. destruct i;
    eauto using create_typed, mint_outputs_typed, transfer_outputs_typed, burn_outputs_typed, authority_outputs_typed.
Qed.

(** ** States *)

(** An account of the contract has no private key, is not a program, and holds
    a mint or a coin account. *)
Definition account_typed p a (acc : Account) : Prop :=
  owner acc = Some p → has_private_key a = false ∧ executable acc = false ∧ typed_data (data acc).

Definition state_typed p st : Prop := ∀ a acc, st a = Some acc → account_typed p a acc.
Definition diff_typed p (d : StateDiff) : Prop := ∀ a acc, sd_data d !! a = Some acc → account_typed p a acc.

Lemma diff_typed_default p : diff_typed p sd_default.
Proof. intros a acc. cbn. by rewrite lookup_empty. Qed.

Lemma diff_typed_merge p d1 d2 : diff_typed p d1 → diff_typed p d2 → diff_typed p (merge d1 d2).
Proof. intros H1' H2' a acc. rewrite merge_eq. cbn. intros [Hl|[_ Hl]]%lookup_union_Some_raw; auto. Qed.

Lemma diff_typed_set p d a acc : diff_typed p d → account_typed p a acc → diff_typed p (sd_set d a acc).2.
Proof. intros Hd Ha b acc'. cbn. intros [[<- <-]|[_ Hl]]%lookup_insert_Some; [done|by apply Hd]. Qed.

Lemma overlay_typed p st d : state_typed p st → diff_typed p d → state_typed p (overlay_on st d).
Proof.
  intros Hst Hd a acc. unfold overlay_on, Overlayed_get. cbn. destruct (sd_get d a) as [x|] eqn:E; [intros [= <-]; by apply Hd|apply Hst].
Qed.

Lemma applied_typed p st d : state_typed p st → diff_typed p d → state_typed p (apply_spec d st).
Proof.
  intros Hst Hd a acc. unfold apply_spec. case_bool_decide; [done|]. destruct (sd_data d !! a) as [x|] eqn:E; [intros [= <-]; by apply Hd|apply Hst].
Qed.

(** ** One output of a unit *)

Section machine.
Context (m : Machine) (p : Pubkey).
Context (Hcurrency : builtin m p = Some (λ _ e ps, Done (currency_contract e ps))) (Hp : p ≠ WASM_VM_BUILTIN_ADDR).

(** A unit of the machine that runs the contract it is named for. *)
Definition entered u : Prop := unit_wf u ∧ vm u = m ∧ find_entrypoint m (state u) (unit_contract u) = Ok (entrypoint u).

Lemma Unit_new_entered tx st u : Unit_new tx st m = Ok u → entered u ∧ state u = st.
Proof.
  intros Hu. pose proof (Unit_new_wf _ _ _ _ Hu) as (Hwf & Hst & Hvm & Hc). split; [|done]. split_and!; [done..|].
  rewrite Hst, Hc. by destruct (Unit_new_inv _ _ _ _ Hu) as (_ & He & _).
Qed.

Lemma new_nested_entered u c accs ps n : vm u = m → new_nested u c accs ps = Ok n → entered n ∧ state n = state u.
Proof.
  intros Hvm Hn. pose proof (new_nested_wf _ _ _ _ _ Hn) as (Hwf & Hst & Hvm' & Hc). split; [|done]. split_and!; [done|congruence|].
  rewrite Hst, Hc. unfold new_nested in Hn. rewrite Hvm in Hn. by result_inv.
Qed.

Lemma set_account_typed u a acc d : account_typed p a acc → set_account u a acc = Ok d → diff_typed p d.
Proof. intros Ha ->%set_account_inv. apply diff_typed_set; [apply diff_typed_default|done]. Qed.

(** The contract's own outputs carry typed data, and nobody else's reach its accounts. *)
Lemma leaf_typed (exec : ExecutionUnit → Outcome (Result ContractError TransactionOutput)) u outs o t :
  entered u → state_typed p (state u) → run_entrypoint u = Done (Ok outs) → o ∈ outs → (∀ c accs ps, o ≠ ContractInvoke c accs ps) →
  process_output exec u o = Done (Ok t) → diff_typed p (state_diff t).
Proof.
  intros (Hwf & Hvm & Hentry) Hst Hrun Ho Hleaf Ht.
  assert (unit_contract u = p → typed_output o) as Hown.
  { intros Hc. unfold find_entrypoint in Hentry. rewrite Hc, Hcurrency in Hentry. injection Hentry as He.
    unfold run_entrypoint in Hrun. rewrite <- He in Hrun. apply (inj Done) in Hrun. apply currency_outputs_typed in Hrun.
    rewrite Forall_forall in Hrun. by apply Hrun. }
  destruct o as [k v|a d|a d|a|c accs ps|a code]; cbn [process_output] in Ht; try (by destruct (Hleaf c accs ps));
    apply (inj Done) in Ht; try (match type of Ht with context [if ?b then _ else _] => destruct b; [done|] end);
    try (apply state_output_ok in Ht as [Ht _]).
  - injection Ht as <-. apply diff_typed_default.
  - unfold create_account in Ht. destruct (state u a); [done|]. eapply set_account_typed; [|exact Ht].
    unfold account_typed; cbn [owner]. intros [= Hc]. by destruct (Hown Hc).
  - unfold modify_account in Ht. destruct (state u a) as [acc|] eqn:E; [|done]. eapply set_account_typed; [|exact Ht].
    intros Hc. destruct (Hst _ _ E Hc) as (Hcurve & Hex & _). split_and!; [done..|]. apply Hown.
    unfold set_account in Ht. destruct (listed u a) as [view|] eqn:Hl; [|done].
    destruct (listed_some _ _ _ Hwf Hl) as (r & Hr & Hview). unfold create_account_view in Hview. injection Hview as _ <-.
    cbn [view_writable] in Ht. unfold writable_view in Ht. rewrite Hr, Hcurve, E in Ht. cbn [owner set_data] in Hc. rewrite Hc in Ht.
    case_bool_decide as Hcontract; [done|]. by rewrite !andb_false_r in Ht.
  - unfold delete_account in Ht. repeat case_match; try done. injection Ht as <-. apply diff_typed_default.
  - unfold create_executable_account in Ht. case_bool_decide; [done|]. destruct (state u a); [done|].
    eapply set_account_typed; [|exact Ht]. unfold account_typed; cbn [owner]. by intros [= Heq].
Qed.

Lemma unit_execute_typed st fuel u t :
  state_typed p st → entered u → state u = st → unit_execute fuel u = Done (Ok t) → diff_typed p (state_diff t).
Proof.
  intros Hst He Hu. apply (unit_execute_ind_run (λ u, entered u ∧ state u = st) (λ t, diff_typed p (state_diff t)));
    [apply diff_typed_default| | | |done].
  - intros x y. apply diff_typed_merge.
  - intros u' c accs ps n [He' <-] Hn. apply new_nested_entered in Hn; [done|apply He'].
  - intros exec u' outs o x [He' <-]. by apply leaf_typed.
Qed.

(** ** Blocks *)

Lemma bump_typed st d a : state_typed p st → diff_typed p d → diff_typed p (bump_nonce st d a).
Proof.
  intros Hst Hd. unfold bump_nonce. destruct (overlay_on st d a) as [acc|] eqn:E; apply diff_typed_set; try done.
  exact (overlay_typed _ _ _ Hst Hd _ _ E).
Qed.

Lemma execute_transaction_typed fuel st acc tx acc' :
  state_typed p st → diff_typed p (accstate acc) → execute_transaction fuel m st acc tx = Done acc' → diff_typed p (accstate acc').
Proof.
  intros Hst Hd. unfold execute_transaction. intros (r & Hr & [= <-])%outcome_bind_done.
  pose proof (bump_typed st (accstate acc) (payer tx) Hst Hd) as Hb.
  destruct r as [t|e]; [|done]. cbn [accstate]. apply diff_typed_merge; [done|].
  unfold run_transaction in Hr. apply try_bind_ok in Hr as (u & Hu & Ht). apply (inj Done) in Hu.
  apply Unit_new_entered in Hu as [He Hs]. eapply unit_execute_typed; [|exact He|exact Hs|exact Ht]. by apply overlay_typed.
Qed.

Lemma execute_all_typed fuel st txs acc acc' :
  state_typed p st → diff_typed p (accstate acc) → execute_all fuel m st acc txs = Done acc' → diff_typed p (accstate acc').
Proof.
  intros Hst. revert acc. induction txs as [|tx txs IH]; intros acc Hd; cbn [execute_all]; [by intros [= <-]|].
  intros (acc1 & H1' & Hrest)%outcome_bind_done. by eapply IH, Hrest; eapply execute_transaction_typed.
Qed.

(** C7: the accounts of the currency contract keep their type. In a state where
    every account that the contract owns has no private key, is no program and
    holds a mint or a coin account, this is still so after any block: whatever
    its transactions ask for and whatever programs they run, in the view that
    the next block is executed on and in the state once the block is applied. *)
Theorem currency_accounts_typed fuel st txs out :
  transactions_execute fuel m st txs = Done (Ok out) → state_typed p st →
  state_typed p (overlay_on st (out_state out)) ∧ state_typed p (apply_spec (out_state out) st).
Proof.
  unfold transactions_execute. destruct (negb _); [done|]. intros (acc & Hacc & [= <-])%outcome_bind_done Hst.
  apply execute_all_typed in Hacc; [|done|apply diff_typed_default]. cbn [out_state]. split; [by apply overlay_typed|by apply applied_typed].
Qed.
End machine.
End typing.

(** ** Addresses that nobody can use any more *)

Section squatting.
Context `{Crypto} `{WasmRuntime} `{BuiltinAddresses}.
Implicit Types (st : View) (a : Pubkey) (m : Machine) (txs : list Transaction).

(** An account at a derived address that no contract owns. *)
Definition squatted st a : Prop := has_private_key a = false ∧ ∃ acc, st a = Some acc ∧ owner acc = None ∧ data acc = None.

Lemma squatted_immutable st a : squatted st a → ¬ mutable st a.
Proof. intros (Hk & acc & Hacc & Ho & _) [Hm|Hm]; [congruence|]. rewrite Hacc, Ho in Hm. destruct Hm as [_ [? ?]]. done. Qed.

Lemma bump_squatted st d p a :
  squatted (overlay_on st d) a ∨ (p = a ∧ has_private_key a = false ∧ overlay_on st d a = None) → squatted (overlay_on st (bump_nonce st d p)) a.
Proof.
  intros Hs. unfold bump_nonce. destruct (overlay_on st d p) as [acc|] eqn:E;
    (split; [by destruct Hs as [[? _]|(_ & ? & _)]|]); rewrite overlay_sd_set; case_bool_decide as Hpa.
  - subst p. destruct Hs as [(_ & acc' & Hacc & Ho & Hd)|(_ & _ & Hn)]; [|congruence].
    eexists. split; [reflexivity|]. rewrite E in Hacc. by injection Hacc as <-.
  - destruct Hs as [[_ Hs]|(? & _)]; [exact Hs|done].
  - by eexists.
  - destruct Hs as [[_ Hs]|(? & _)]; [exact Hs|done].
Qed.

Lemma execute_transaction_squatted fuel m st acc tx acc' a :
  squatted (overlay_on st (bump_nonce st (accstate acc) (payer tx))) a →
  execute_transaction fuel m st acc tx = Done acc' → squatted (overlay_on st (accstate acc')) a.
Proof.
  intros Hs. unfold execute_transaction. intros (r & Hr & [= <-])%outcome_bind_done. destruct r as [t|e]; [|done]. cbn [accstate].
  apply run_transaction_diff_ok in Hr as [[Hw _] _]. destruct (sd_data (state_diff t) !! a) as [x|] eqn:E.
  - destruct (Hw _ _ E) as [Hm _]. by destruct (squatted_immutable _ _ Hs).
  - unfold squatted. rewrite overlay_merge. unfold sd_get. rewrite E. exact Hs.
Qed.

Lemma execute_all_squatted fuel m st txs acc acc' a :
  squatted (overlay_on st (accstate acc)) a → execute_all fuel m st acc txs = Done acc' → squatted (overlay_on st (accstate acc')) a.
Proof.
  revert acc. induction txs as [|tx txs IH]; intros acc Hs; cbn [execute_all]; [by intros [= <-]|].
  intros (acc1 & H1' & Hrest)%outcome_bind_done. eapply IH, Hrest. eapply execute_transaction_squatted, H1'. apply bump_squatted. by left.
Qed.

Lemma leaf_touches (exec : ExecutionUnit → Outcome (Result ContractError TransactionOutput)) u o a d t :
  o ∈ [CreateOwnedAccount a d; WriteAccountData a d; DeleteOwnedAccount a] → process_output exec u o = Done (Ok t) →
  a ∈ dom (sd_data (state_diff t)) ∨ a ∈ sd_deletes (state_diff t).
Proof.
  assert (∀ acc x, set_account u a acc = Ok x → a ∈ dom (sd_data x)) as Hset.
  { intros acc x ->%set_account_inv. cbn. set_solver. }
  intros [->|[->|[->|[]%not_elem_of_nil]%elem_of_cons]%elem_of_cons]%elem_of_cons Ht; cbn [process_output] in Ht; apply (inj Done) in Ht;
    try (destruct (data_too_large _ _); [done|]); apply state_output_ok in Ht as [Ht _].
  - left. unfold create_account in Ht. destruct (state u a); [done|]. by eapply Hset.
  - left. unfold modify_account in Ht. destruct (state u a); [|done]. by eapply Hset.
  - right. unfold delete_account in Ht. repeat case_match; try done. injection Ht as <-. cbn. set_solver.
Qed.

(** Anybody who may put a transaction into a block can make an address
    unusable for ever. Before the payer's signature is looked at, its nonce is
    raised, and an account without owner and data is created where there was none.
    If the payer named is a derived address that is still free, such as that of
    somebody's future coin account, then from the first block on no contract can
    create an account there, write it or delete it, and no block changes that. *)
Theorem unsigned_payer_blocks_address fuel m st tx txs out a :
  payer tx = a → has_private_key a = false → st a = None →
  transactions_execute fuel m st (tx :: txs) = Done (Ok out) →
  let after := overlay_on st (out_state out) in
  squatted after a ∧
  (∀ exec u o d, unit_wf u → state u = after → o ∈ [CreateOwnedAccount a d; WriteAccountData a d; DeleteOwnedAccount a] →
    ∀ t, process_output exec u o ≠ Done (Ok t)) ∧
  (∀ fuel' txs' out', transactions_execute fuel' m after txs' = Done (Ok out') → squatted (overlay_on after (out_state out')) a).
Proof.
  intros Hp Hk Hnone Hex. cbv zeta.
  assert (squatted (overlay_on st (out_state out)) a) as Hs.
  { apply transactions_execute_inv in Hex as (_ & acc & Hacc & ->). cbn [execute_all] in Hacc. apply outcome_bind_done in Hacc as (acc1 & Hacc1 & Hrest).
    eapply execute_all_squatted, Hrest. eapply execute_transaction_squatted, Hacc1. apply bump_squatted. right.
    cbn [accstate block_acc_default]. by rewrite overlay_default. }
  split; [done|]. split.
  - intros exec u o d Hwf Hst Ho t Ht.
    assert (diff_ok (state u) (state_diff t)) as Hd.
    { eapply leaf_diff_ok; [exact Hwf| |exact Ht]. intros c accs ps ->. set_solver. }
    assert (a ∈ dom (sd_data (state_diff t)) ∨ a ∈ sd_deletes (state_diff t)) as Hin by exact (leaf_touches exec u o a d t Ho Ht).
    apply (squatted_immutable _ _ Hs). rewrite <- Hst. destruct Hin as [[x Hx]%elem_of_dom|Hx]; by apply Hd in Hx as [? _].
  - intros fuel' txs' out' Hex'. apply transactions_execute_inv in Hex' as (_ & acc & Hacc & ->). eapply execute_all_squatted, Hacc.
    cbn [accstate block_acc_default]. unfold squatted. by rewrite overlay_default.
Qed.
End squatting.

(** ** Deleted accounts *)

Import CoinExample VmExample.

Module TypingExample.
(** Alice sends everything; her account is deleted. Then she sends more. *)
Definition send_all : Transaction := transfer_tx prog alice alice bob 10 1 [alice].
Definition send_more : Transaction := transfer_tx prog alice alice bob 1 2 [alice].
Definition run (st : View) (tx : Transaction) : BlockOutput :=
  match transactions_execute 2 toy_vm st [tx] with Done (Ok o) => o | _ => MkBlockOutput sd_default [] [] end.
Definition done_block (o : Outcome (Result MachineError BlockOutput)) : bool := match o with Done (Ok _) => true | _ => false end.

Lemma run_done st tx : done_block (transactions_execute 2 toy_vm st [tx]) = true → transactions_execute 2 toy_vm st [tx] = Done (Ok (run st tx)).
Proof. unfold run. by destruct (transactions_execute 2 toy_vm st [tx]) as [[o|]| |]. Qed.

Definition sent : BlockOutput := run toy_state send_all.
Definition on_fork : View := overlay_on toy_state (out_state sent).
Definition on_final : View := apply_spec (out_state sent) toy_state.
Definition next_block : Produced (list Transaction) :=
  Produced_new (toy_key 3) 2 (genesis_hash toy_genesis) [send_more] (block_output_hash (run on_fork send_more)) [].

(** A block that only names the coin account of a wallet as its payer. *)
Definition blocker : Transaction := transfer_tx prog (coin_of bob) alice bob 1 0 [].
Definition blocked : BlockOutput := run toy_state blocker.
End TypingExample.
Import TypingExample.


(** ** Witnesses *)

Lemma toy_state_typed : state_typed prog toy_state.
Proof.
  intros a acc. unfold toy_state, owned. repeat case_bool_decide; subst; intros [= <-]; unfold account_typed; cbn [owner executable data]; intros Ho.
  - split_and!; [by vm_compute|done|]. exists (default [] (encoded (the_mint None 10))).
    split; [apply is_some_default; by vm_compute|left]. exists (the_mint None 10). apply (bool_decide_unpack _). by vm_compute.
  - split_and!; [by vm_compute|done|]. exists (default [] (encoded (MkCoin mint_addr alice 10))).
    split; [apply is_some_default; by vm_compute|right]. exists (MkCoin mint_addr alice 10). apply (bool_decide_unpack _). by vm_compute.
  - exfalso. assert (WASM_VM_BUILTIN_ADDR ≠ prog) as Hne by (apply (bool_decide_unpack _); by vm_compute). apply Hne. by apply (inj Some) in Ho.
Qed.

Lemma currency_accounts_typed_witness : state_typed prog (apply_spec (out_state sent) toy_state).
Proof.
  apply (currency_accounts_typed toy_vm prog) with (fuel := 2%nat) (txs := [send_all]).
  - reflexivity.
  - by vm_compute.
  - apply run_done. by vm_compute.
  - exact toy_state_typed.
Defined.

(** Bob cannot get coins any more. *)
Lemma unsigned_payer_blocks_address_witness : squatted (overlay_on toy_state (out_state blocked)) (coin_of bob).
Proof.
  destruct (unsigned_payer_blocks_address 2 toy_vm toy_state blocker [] blocked (coin_of bob)) as [Hs _].
  - reflexivity.
  - apply derive_off_curve_lemma.
  - apply is_some_none. by vm_compute.
  - apply run_done. by vm_compute.
  - exact Hs.
Defined.
