(* ===== verification/RuntimeProps.v ===== *)
(** * Properties of the WASM runtime: memory, contracts of the kit, rogue contracts *)
From S2P Require Import Prelude Primitives State Transaction Contract Currency Builtins Block Machine Runtime Sdk Execution.

(** ** Limits *)

Section limits.
Context `{WasmTypes}.

(** No memory is created that may grow beyond the limit, and the only modules
    refused are those that ask for more from the start. *)
Lemma memory_limited limit base ty style location :
  create_vm_memory (LimitingTunables limit base) ty style location =
    (if limit <? minimum ty
     then Err (MemoryGeneric ("Minimum " ++ u64_to_string (minimum ty) ++ " exceeds the allowed memory limit " ++ u64_to_string limit))
     else create_vm_memory base (MkMemoryType (minimum ty) (Some limit)) style location) ∧
  create_host_memory (LimitingTunables limit base) ty style =
    (if limit <? minimum ty
     then Err (MemoryGeneric ("Minimum " ++ u64_to_string (minimum ty) ++ " exceeds the allowed memory limit " ++ u64_to_string limit))
     else create_host_memory base (MkMemoryType (minimum ty) (Some limit)) style).
Proof.
  cbn [create_vm_memory create_host_memory LimitingTunables]. unfold validate_memory, adjust_memory. cbn [minimum maximum].
  destruct (limit <? minimum ty); cbn; [done|]. by rewrite Z.ltb_irrefl.
Qed.
End limits.

(** ** Regions *)

Lemma region_parts addr len :
  0 ≤ addr < 2 ^ 32 → 0 ≤ len < 2 ^ 32 →
  region_start (Z.lor (Z.shiftl addr 32) len) = addr ∧ region_length (Z.lor (Z.shiftl addr 32) len) = len.
Proof.
  intros Ha Hl.
  assert (Z.lor (Z.shiftl addr 32) len = addr * 2 ^ 32 + len) as ->.
  { rewrite <- Z.shiftl_mul_pow2 by lia. symmetry. apply Z.add_nocarry_lor.
    apply Z.bits_inj'. intros n Hn. rewrite Z.land_spec, Z.bits_0, Z.shiftl_spec by lia.
    destruct (decide (n < 32)); [by rewrite (Z.testbit_neg_r addr) by lia|].
    destruct (decide (len = 0)) as [->|]; [by rewrite Z.bits_0, andb_false_r|].
    rewrite (Z.bits_above_log2 len n), andb_false_r; [done|lia|]. enough (Z.log2 len < 32) by lia. apply Z.log2_lt_pow2; lia. }
  unfold region_start, region_length, wrap64, u64_modulus. rewrite !Z.shiftr_div_pow2, Z.shiftl_mul_pow2 by lia. split.
  - symmetry. apply (Z.div_unique _ _ _ len); lia.
  - replace ((addr * 2 ^ 32 + len) * 2 ^ 32) with (len * 2 ^ 32 + addr * 2 ^ 64) by lia.
    rewrite Z_mod_plus_full, Z.mod_small by lia. by rewrite Z.div_mul.
Qed.

Lemma splice_slice (m b : bytes) (p : nat) :
  (p ≤ length m)%nat → take (length b) (drop p (take p m ++ b ++ drop (p + length b) m)) = b.
Proof. intros Hp. rewrite drop_app_length' by (rewrite length_take; lia). apply take_app_length. Qed.

Lemma splice_length (m b : bytes) (p : nat) :
  (p + length b ≤ length m)%nat → length (take p m ++ b ++ drop (p + length b) m) = length m.
Proof. intros Hp. rewrite !length_app, length_take, length_drop. lia. Qed.

(** ** Where the runtime panics *)

Section panics.
Context `{Wasmer} `{!Borsh Environment} `{!Borsh bytes} `{!Borsh (list Output)} `{!Borsh ContractError}.
Implicit Types (i : WasmInstance).

(** The engine does not panic: what a contract does wrong is a trap. *)
Definition engine_traps : Prop := ∀ f args i, wasm_call f args i ≠ Panic.

(** The contract offers room for [size] bytes that its memory does not have. *)
Definition bad_allocation (size : nat) (i i' : WasmInstance) : Prop :=
  ∃ ptr memory, allocate (Z.of_nat size) i = Done (Ok (ptr, i')) ∧ wasm_memory i' = Ok memory ∧
    (length memory < Z.to_nat ptr + size)%nat.

Lemma try_bind_panic {E A B} (o : Outcome (Result E A)) (k : A → Outcome (Result E B)) :
  try_bind o k = Panic → o = Panic ∨ ∃ a, o = Done (Ok a) ∧ k a = Panic.
Proof. destruct o as [[a|e]| |]; cbn; intros Hk; try done; [right; by exists a|by left]. Qed.

Lemma wasm_run_no_panic f args i : engine_traps → wasm_run f args i ≠ Panic.
Proof. intros Ht Hr. unfold wasm_run in Hr. specialize (Ht f args i). destruct (wasm_call f args i); done. Qed.

Lemma allocate_no_panic size i : engine_traps → allocate size i ≠ Panic.
Proof. intros Ht [Hx|(f & _ & Hx)]%try_bind_panic; [done|]. by apply wasm_run_no_panic in Hx. Qed.

Lemma copy_panic dst src i :
  copy_to_contract_memory dst src i = Panic ↔ ∃ memory, wasm_memory i = Ok memory ∧ (length memory < Z.to_nat dst + length src)%nat.
Proof.
  unfold copy_to_contract_memory. destruct (wasm_memory i) as [memory|e]; cbn [map_err try_bind]; [|split; [done|by intros (? & ? & ?)]].
  destruct (Nat.ltb_spec (length memory) (Z.to_nat dst + length src)) as [Hlt|Hge]; split; try done.
  - intros _. by exists memory.
  - intros (x & [= <-] & ?). lia.
Qed.

(** The two deliveries, in the order of the code. *)
Lemma deliver_environment_panic env i :
  engine_traps → deliver_environment env i = Panic → ∃ b i', try_to_vec env = Ok b ∧ bad_allocation (length b) i i'.
Proof.
  intros Ht. unfold deliver_environment. intros [Hx|(b & Hb & Hx)]%try_bind_panic; [done|].
  apply (inj Done), map_err_ok in Hb. apply try_bind_panic in Hx as [Hx|([ptr i'] & Ha & Hx)]; [by apply allocate_no_panic in Hx|].
  apply try_bind_panic in Hx as [(m & Hm & Hlt)%copy_panic|(i2 & _ & Hx)]; [exists b, i'; split; [done|]; by exists ptr, m|].
  apply try_bind_panic in Hx as [Hx|(f & _ & Hx)]; [done|]. by apply wasm_run_no_panic in Hx.
Qed.

Lemma deliver_params_panic params i :
  engine_traps → deliver_params params i = Panic → ∃ b i', try_to_vec params = Ok b ∧ bad_allocation (length b) i i'.
Proof.
  intros Ht. unfold deliver_params. intros [Hx|(f & _ & Hx)]%try_bind_panic; [done|].
  apply try_bind_panic in Hx as [Hx|(b & Hb & Hx)]; [done|]. apply (inj Done), map_err_ok in Hb.
  apply try_bind_panic in Hx as [Hx|([ptr i'] & Ha & Hx)]; [by apply allocate_no_panic in Hx|].
  apply try_bind_panic in Hx as [(m & Hm & Hlt)%copy_panic|(i2 & _ & Hx)]; [exists b, i'; split; [done|]; by exists ptr, m|].
  by apply wasm_run_no_panic in Hx.
Qed.

Lemma collect_output_no_panic ptr i : engine_traps → collect_output ptr i ≠ Panic.
Proof.
  intros Ht. unfold collect_output. intros [Hx|(f & _ & Hx)]%try_bind_panic; [done|].
  apply try_bind_panic in Hx as [Hx|([region i'] & _ & Hx)]; [by apply wasm_run_no_panic in Hx|].
  by apply try_bind_panic in Hx as [Hx|(m & _ & Hx)].
Qed.

Lemma invoke_panic i env params :
  engine_traps → invoke i env params = Panic →
  ∃ b i1 i2, (try_to_vec env = Ok b ∨ try_to_vec params = Ok b) ∧ bad_allocation (length b) i1 i2.
Proof.
  intros Ht. unfold invoke. intros [Hx|(f & _ & Hx)]%try_bind_panic; [done|].
  apply try_bind_panic in Hx as [Hx|([p1 i1] & _ & Hx)].
  { apply deliver_environment_panic in Hx as (b & i' & Hb & Hbad); [|done]. exists b, i, i'. split; [by left|done]. }
  apply try_bind_panic in Hx as [Hx|([p2 i2] & _ & Hx)].
  { apply deliver_params_panic in Hx as (b & i' & Hb & Hbad); [|done]. exists b, i1, i'. split; [by right|done]. }
  apply try_bind_panic in Hx as [Hx|([p3 i3] & _ & Hx)]; [by apply wasm_run_no_panic in Hx|].
  by apply collect_output_no_panic in Hx.
Qed.

Lemma rogue_invoke_panics i env params f b i' :
  wasm_export "main" [I32; I32] I32 i = Ok f → try_to_vec env = Ok b → bad_allocation (length b) i i' → invoke i env params = Panic.
Proof.
  intros Hf Hb (ptr & m & Ha & Hm & Hlt). unfold invoke, deliver_environment, wasm_get. rewrite Hf, Hb. cbn [map_err try_bind]. rewrite Ha. cbn [try_bind].
  rewrite (proj2 (copy_panic ptr b i')); [done|]. by exists m.
Qed.
End panics.

(** ** Rogue contracts *)

Section rogue.
Context `{Crypto} `{BuiltinAddresses}.
Context `{Wasmer} `{!Borsh Environment} `{!Borsh bytes} `{!Borsh (list Output)} `{!Borsh ContractError}.
Implicit Types (i : WasmInstance) (u : ExecutionUnit) (m : Machine) (st : View).

Lemma panicking_call_panics fuel m st tx u :
  Unit_new tx (overlay_on st (bump_nonce st sd_default (payer tx))) m = Ok u → run_entrypoint u = Panic →
  transactions_execute (S fuel) m st [tx] = Panic.
Proof.
  intros Hu Hrun. unfold transactions_execute. cbn [verify_transactions_order order_loop negb execute_all].
  unfold execute_transaction, run_transaction. cbn [accstate block_acc_default]. rewrite Hu. cbn [try_bind unit_execute]. by rewrite Hrun.
Qed.

End rogue.

(** ** Contracts of the kit *)

Section kit.
Context `{GuestHeap} `{!GuestHeapLaws} `{Traps} `{!Borsh Environment} `{!Borsh bytes} `{!Borsh (list SdkOutput)} `{!Borsh SdkError}.
Context `{!Borsh (list Output)} `{!Borsh ContractError} `{!BorshLaws Environment} `{!BorshLaws bytes}.
Context `{WasmTypes} (tunables : Tunables) (memory_type : MemoryType) (location : MemoryLocation).
Context (memory_message : MemoryError → string) (message : bytes → string) (load : bytes → option (Program * Guest)).
#[local] Instance engine : Wasmer := sdk_wasmer tunables memory_type location memory_message message load.
Implicit Types (g : Guest) (i : SdkInstance).

(** The memory is as large as the allocator says. *)
Definition guest_wf g : Prop := length (guest_memory g) = heap_size (guest_heap g).

(** The allocator has room for blocks of these sizes, one after the other, that
    do not end at the very end of the memory. *)
Fixpoint roomy (sizes : list nat) (h : Heap) : Prop :=
  match sizes with
  | [] => True
  | n :: sizes => ∃ p h', heap_alloc (Z.of_nat n) h = Some (p, h') ∧ p + Z.of_nat n < Z.of_nat (heap_size h') ∧ roomy sizes h'
  end.

(** Outputs have the same bytes on both sides. *)
Definition outputs_agree : Prop :=
  ∀ (outs : list SdkOutput) outs' b, try_to_vec outs = Ok b → mapM output_of_sdk outs = Some outs' → try_from_slice b = Some outs'.

Lemma grow_length n m : (length m ≤ n)%nat → length (grow n m) = n.
Proof. intros Hn. unfold grow. rewrite length_app, length_replicate. lia. Qed.

(** Memory and allocator after a block was allocated. *)
Lemma sdk_alloc_room n sizes g :
  guest_wf g → roomy (n :: sizes) (guest_heap g) →
  ∃ p g', sdk_alloc (Z.of_nat n) g = Ok (p, g') ∧ guest_wf g' ∧ roomy sizes (guest_heap g') ∧
    0 ≤ p ∧ p + Z.of_nat n < 2 ^ 32 ∧ (Z.to_nat p + n < length (guest_memory g'))%nat ∧
    boxed_envs g' = boxed_envs g ∧ boxed_params g' = boxed_params g ∧ boxed_outputs g' = boxed_outputs g.
Proof.
  intros Hwf (p & h' & Ha & Hlt & Hroom). destruct (heap_alloc_fits _ _ _ _ (Zle_0_nat n) Ha) as (Hp & _ & Hgrow).
  pose proof (heap_size_max h') as Hmax. unfold sdk_alloc. rewrite Ha. eexists _, _. split; [reflexivity|].
  assert (length (grow (heap_size h') (guest_memory g)) = heap_size h') as Hl by (apply grow_length; by rewrite Hwf).
  split_and!; cbn [guest_memory guest_heap boxed_envs boxed_params boxed_outputs]; try done; [lia|]. rewrite Hl. lia.
Qed.

Definition same_boxes g g' : Prop :=
  boxed_envs g' = boxed_envs g ∧ boxed_params g' = boxed_params g ∧ boxed_outputs g' = boxed_outputs g.

Lemma wrap32_id z : 0 ≤ z < 2 ^ 32 → wrap32 z = z.
Proof. intros Hz. unfold wrap32. by apply Z.mod_small. Qed.

Lemma kit_get name args result i f :
  sdk_export name args result = Ok f → @wasm_get _ engine name args result i = Done (Ok f).
Proof. intros Hf. unfold wasm_get. cbn [wasm_export engine sdk_wasmer]. by rewrite Hf. Qed.

(** An input is copied into a block that the contract has allocated for it. *)
Lemma deliver_room b sizes i :
  guest_wf (inst_guest i) → roomy (length b :: sizes) (guest_heap (inst_guest i)) →
  ∃ p g1 g', allocate (Z.of_nat (length b)) i = Done (Ok (p, set_guest i g1)) ∧
    copy_to_contract_memory p b (set_guest i g1) = Done (Ok (set_guest i g')) ∧
    sdk_slice p (wrap32 (Z.of_nat (length b))) g' = b ∧
    guest_wf g' ∧ roomy sizes (guest_heap g') ∧ same_boxes (inst_guest i) g'.
Proof.
  intros Hwf Hroom. destruct (sdk_alloc_room _ _ _ Hwf Hroom) as (p & g1 & Ha & Hwf1 & Hr1 & Hp & Hmax & Hlt & Hb).
  pose proof (wrap32_id (Z.of_nat (length b)) ltac:(lia)) as Hw.
  exists p, g1, (MkGuest (take (Z.to_nat p) (guest_memory g1) ++ b ++ drop (Z.to_nat p + length b) (guest_memory g1))
    (guest_heap g1) (boxed_envs g1) (boxed_params g1) (boxed_outputs g1)). split_and!.
  - unfold allocate. rewrite (kit_get "allocate" [I32] I32 i FAllocate eq_refl). cbn [try_bind].
    rewrite Hw. unfold wasm_run. cbn [wasm_call engine sdk_wasmer sdk_call]. unfold sdk_allocate. by rewrite Ha.
  - unfold copy_to_contract_memory. cbn [wasm_memory engine sdk_wasmer map_err try_bind inst_guest set_guest].
    destruct (Nat.ltb_spec (length (guest_memory g1)) (Z.to_nat p + length b)); [lia|done].
  - unfold sdk_slice. cbn [guest_memory]. rewrite Hw, Nat2Z.id. apply splice_slice. lia.
  - unfold guest_wf. cbn [guest_memory guest_heap]. rewrite <- Hwf1. apply splice_length. lia.
  - done.
  - exact Hb.
Qed.

Lemma deliver_environment_room env b sizes i :
  try_to_vec env = Ok b → guest_wf (inst_guest i) → roomy (length b :: sizes) (guest_heap (inst_guest i)) →
  ∃ g', deliver_environment env i = Done (Ok (Z.of_nat (length (boxed_envs (inst_guest i))), set_guest i g')) ∧
    guest_wf g' ∧ roomy sizes (guest_heap g') ∧ boxed_envs g' = boxed_envs (inst_guest i) ++ [env] ∧
    boxed_params g' = boxed_params (inst_guest i) ∧ boxed_outputs g' = boxed_outputs (inst_guest i).
Proof.
  intros Hb Hwf Hroom. destruct (deliver_room _ _ _ Hwf Hroom) as (p & g1 & g' & Ha & Hc & Hs & Hwf' & Hr & He & Hp & Ho).
  unfold deliver_environment. rewrite Hb. cbn [map_err try_bind]. rewrite Ha. cbn [try_bind]. rewrite Hc. cbn [try_bind].
  rewrite (kit_get "environment" [I32; I32] I32 (set_guest i g') FEnvironment eq_refl). cbn [try_bind].
  unfold wasm_run. cbn [wasm_call engine sdk_wasmer sdk_call inst_guest set_guest]. unfold sdk_environment. rewrite Hs.
  rewrite (borsh_roundtrip env b Hb). cbn [ok_or]. rewrite He. eexists. by split_and!.
Qed.

Lemma deliver_params_room ps b sizes i :
  try_to_vec ps = Ok b → guest_wf (inst_guest i) → roomy (length b :: sizes) (guest_heap (inst_guest i)) →
  ∃ g', deliver_params ps i = Done (Ok (Z.of_nat (length (boxed_params (inst_guest i))), set_guest i g')) ∧
    guest_wf g' ∧ roomy sizes (guest_heap g') ∧ boxed_params g' = boxed_params (inst_guest i) ++ [ps] ∧
    boxed_envs g' = boxed_envs (inst_guest i) ∧ boxed_outputs g' = boxed_outputs (inst_guest i).
Proof.
  intros Hb Hwf Hroom. destruct (deliver_room _ _ _ Hwf Hroom) as (p & g1 & g' & Ha & Hc & Hs & Hwf' & Hr & He & Hp & Ho).
  unfold deliver_params. rewrite (kit_get "params" [I32; I32] I32 i FParams eq_refl). cbn [try_bind].
  rewrite Hb. cbn [map_err try_bind]. rewrite Ha. cbn [try_bind]. rewrite Hc. cbn [try_bind].
  unfold wasm_run. cbn [wasm_call engine sdk_wasmer sdk_call inst_guest set_guest]. unfold sdk_params. rewrite Hs.
  rewrite (borsh_roundtrip ps b Hb). cbn [ok_or]. rewrite Hp. eexists. by split_and!.
Qed.

(** What the kit leaves in the memory is found at its region. *)
Lemma sdk_leak_room b sizes g :
  guest_wf g → roomy (length b :: sizes) (guest_heap g) →
  ∃ region g', sdk_leak b g = Ok (region, g') ∧ region_bytes (guest_memory g') region = Some b.
Proof.
  intros Hwf Hroom. destruct (sdk_alloc_room _ _ _ Hwf Hroom) as (p & g1 & Ha & Hwf1 & Hr1 & Hp & Hmax & Hlt & Hb).
  unfold sdk_leak. rewrite Ha. eexists _, _. split; [reflexivity|]. cbn [guest_memory]. unfold region_bytes.
  destruct (region_parts p (Z.of_nat (length b))) as [-> ->]; [lia..|].
  rewrite splice_length by lia. destruct (Z.leb_spec (Z.of_nat (length (guest_memory g1))) (p + Z.of_nat (length b))); [lia|].
  rewrite Nat2Z.id. by rewrite splice_slice by lia.
Qed.

Lemma lookup_last {A} (l : list A) x : (l ++ [x]) !! Z.to_nat (Z.of_nat (length l)) = Some x.
Proof. by rewrite Nat2Z.id, lookup_app_r, Nat.sub_diag by lia. Qed.

End kit.
