(* ===== verification/RuntimeExample.v ===== *)
(** * A runtime to evaluate the model on

    A bump allocator, a contract of the kit that counts its parameters, and one
    whose allocator points behind its memory. *)
From S2P Require Import Prelude Primitives State Transaction Contract Currency CurrencyProps Builtins Block Machine Runtime Sdk VmExample Execution StoreExample RuntimeProps.
From Stdlib Require Import Strings.Byte.
Import CoinExample VmExample.

(** ** Codecs *)

#[export] Instance account_view_eq_dec : EqDecision AccountView.
Proof. solve_decision. Defined.
#[export] Program Instance account_view_countable : Countable AccountView :=
  inj_countable' (λ v, (view_signer v, view_writable v, view_executable v, view_owner v, view_data v : option bytes))
    (λ '(s, w, e, o, d), MkAccountView s w e o d) _.
Next Obligation. by intros []. Qed.

#[export] Instance environment_eq_dec : EqDecision Environment.
Proof. solve_decision. Defined.
#[export] Program Instance environment_countable : Countable Environment :=
  inj_countable' (λ e, (caller e, env_address e, env_accounts e)) (λ '(c, a, l), MkEnvironment c a l) _.
Next Obligation. by intros []. Qed.

Definition output_code (o : Output) : string * string * (Z * Pubkey * option bytes) * list AccountRef :=
  let none := array32_of_Z 0 in
  match o with
  | LogEntry k v => (k, v, (0, none, None), [])
  | CreateOwnedAccount a d => ("", "", (1, a, d), [])
  | WriteAccountData a d => ("", "", (2, a, d), [])
  | DeleteOwnedAccount a => ("", "", (3, a, None), [])
  | ContractInvoke c accs ps => ("", "", (4, c, Some ps), accs)
  | CreateExecutableAccount a b => ("", "", (5, a, Some b), [])
  end.
Definition output_of_code (c : string * string * (Z * Pubkey * option bytes) * list AccountRef) : option Output :=
  match c with
  | (k, v, (0, _, _), _) => Some (LogEntry k v)
  | (_, _, (1, a, d), _) => Some (CreateOwnedAccount a d)
  | (_, _, (2, a, d), _) => Some (WriteAccountData a d)
  | (_, _, (3, a, _), _) => Some (DeleteOwnedAccount a)
  | (_, _, (4, c, Some ps), accs) => Some (ContractInvoke c accs ps)
  | (_, _, (5, a, Some b), _) => Some (CreateExecutableAccount a b)
  | _ => None
  end.
#[export] Program Instance output_countable : Countable Output := inj_countable output_code output_of_code _.
Next Obligation. by intros []. Qed.

#[export] Instance environment_borsh : Borsh Environment := toy_borsh (λ _, true).
#[export] Instance bytes_borsh : Borsh bytes := toy_borsh (λ _, true).
#[export] Instance outputs_borsh : Borsh (list Output) := toy_borsh (λ _, true).
#[export] Instance contract_error_borsh : Borsh ContractError := toy_borsh (λ _, true).
#[export] Instance environment_borsh_laws : BorshLaws Environment := toy_borsh_laws _.
#[export] Instance bytes_borsh_laws : BorshLaws bytes := toy_borsh_laws _.

(** The kit writes what the machine reads. *)
#[export] Instance sdk_outputs_borsh : Borsh (list SdkOutput) := {|
  try_to_vec outs := match mapM output_of_sdk outs with Some outs' => try_to_vec outs' | None => Err "no such output" end;
  try_from_slice _ := None;
  borsh_deserialize _ := None
|}.
#[export] Instance sdk_error_borsh : Borsh SdkError := {|
  try_to_vec e := match e with SdkOther s => try_to_vec (Other s) | _ => Err "no such error" end;
  try_from_slice _ := None;
  borsh_deserialize _ := None
|}.

Lemma toy_outputs_agree : outputs_agree.
Proof.
  intros outs outs' b Hb Hm. cbn [try_to_vec sdk_outputs_borsh] in Hb. rewrite Hm in Hb.
  exact (@borsh_roundtrip _ _ (toy_borsh_laws (λ _, true)) outs' b Hb).
Qed.

(** ** The engine *)

#[export] Instance toy_wasm_types : WasmTypes := {|
  MemoryStyle := unit; static_style _ _ := tt; VMMemory := MemoryType; MemoryLocation := unit;
  TableType := unit; TableStyle := unit; VMTable := unit; TableLocation := unit
|}.
Definition toy_tunables : Tunables :=
  MkTunables _ (λ _, tt) (λ _, tt) (λ ty _, Ok ty) (λ ty _ _, Ok ty) (λ _ _, Ok tt) (λ _ _ _, Ok tt).
#[export] Instance toy_traps : Traps := {|
  trap_out_of_memory := "unreachable"; trap_panic := "unreachable"; trap_host := contract_error_to_string
|}.

(** At most four pages, of which one byte stays free. *)
Record Bump := MkBump { brk : nat; brk_ok : (Z.of_nat brk <? 262144) = true }.
Definition bump_alloc (n : Z) (h : Bump) : option (Z * Bump) :=
  match bool_dec (Z.of_nat (brk h + Z.to_nat n) <? 262144) true with
  | left Hok => Some (Z.of_nat (brk h), MkBump (brk h + Z.to_nat n) Hok)
  | right _ => None
  end.
#[export] Instance bump_heap : GuestHeap := {| Heap := Bump; heap_size h := S (brk h); heap_alloc := bump_alloc |}.
#[export] Instance bump_heap_laws : GuestHeapLaws.
Proof.
  constructor; cbn [Heap heap_size heap_alloc bump_heap].
  - intros n h p h' Hn. unfold bump_alloc. destruct (bool_dec _ _) as [Hok|]; [|done]. intros [= <- <-]. cbn [brk]. lia.
  - intros [b Hb]. cbn [brk]. apply Z.ltb_lt in Hb. lia.
Qed.

Module RuntimeExample.
(** A contract that reports the number of its parameter bytes. *)
Definition count_params : Program := λ env ps,
  match ps with
  | [] => Err (SdkOther "no parameters")
  | _ => Ok [SdkLogEntry "length" (pretty (N.of_nat (length ps)))]
  end.
Definition fresh_guest : Guest := MkGuest [x00] (MkBump 0 eq_refl) [] [] [].
Definition message (b : bytes) : string := "Not all bytes read".
Definition no_memory (e : MemoryError) : string := "memory".

Definition honest_engine : Wasmer := sdk_wasmer toy_tunables (MkMemoryType 1 None) tt no_memory message (λ _, Some (count_params, fresh_guest)).
Definition honest : SdkInstance := MkSdkInstance count_params (@abort _ honest_engine _) fresh_guest.
Definition toy_env : Environment := MkEnvironment None prog [].
End RuntimeExample.
Import RuntimeExample.

(** ** Witnesses *)

Section room.
Context `{GuestHeap}.

Fixpoint roomy_b (sizes : list nat) (h : Heap) : bool :=
  match sizes with
  | [] => true
  | n :: sizes =>
      match heap_alloc (Z.of_nat n) h with
      | Some (p, h') => (p + Z.of_nat n <? Z.of_nat (heap_size h')) && roomy_b sizes h'
      | None => false
      end
  end.

Lemma roomy_b_ok sizes h : roomy_b sizes h = true → roomy sizes h.
Proof.
  revert h. induction sizes as [|n sizes IH]; intros h; cbn; [done|].
  destruct (heap_alloc (Z.of_nat n) h) as [[p h']|]; [|done]. intros [Hlt%Z.ltb_lt Hr]%andb_true_iff. exists p, h'. auto.
Qed.
End room.

Definition serialized {A} `{Borsh A} (a : A) : bytes := match try_to_vec a with Ok b => b | Err _ => [] end.

Lemma toy_serialized {A} `{Countable A} (a : A) : @try_to_vec A (toy_borsh (λ _, true)) a = Ok (@serialized A (toy_borsh (λ _, true)) a).
Proof. reflexivity. Qed.


(** *** The rogue contract *)

(** Its only block of memory starts behind the end. *)
Definition liar_heap : GuestHeap := {| Heap := unit; heap_size _ := 1%nat; heap_alloc _ _ := Some (1, tt) |}.
Definition liar_guest : @Guest liar_heap := @MkGuest liar_heap [x00] tt [] [] [].
Definition rogue_engine : Wasmer :=
  @sdk_wasmer liar_heap _ _ _ _ _ _ toy_tunables (MkMemoryType 1 None) tt no_memory message (λ _, Some (count_params, liar_guest)).
Definition rogue_runtime : WasmRuntime := @wasmer_runtime _ rogue_engine _ _ _ _.
Definition rogue : @WasmInstance _ rogue_engine := @MkSdkInstance liar_heap count_params (@abort _ rogue_engine _) liar_guest.

Definition rogue_addr : Pubkey := array32_of_Z 201.
Definition rogue_state : View := λ a,
  if bool_decide (a = rogue_addr) then Some (MkAccount true 0 (Some WASM_VM_BUILTIN_ADDR) (Some [])) else None.
Definition rogue_call : Transaction := Transaction_new rogue_addr 1 alice [] [] [alice].
Definition rogue_block : Produced (list Transaction) :=
  Produced_new (toy_key 3) 1 (genesis_hash toy_genesis) [rogue_call] (genesis_hash toy_genesis) [].
Definition rogue_view : View := overlay_on rogue_state (bump_nonce rogue_state sd_default alice).
Definition rogue_unit : @ExecutionUnit rogue_runtime :=
  @MkUnit rogue_runtime toy_vm (External (rogue : @Machine.Runtime rogue_runtime)) (MkEnvironment None rogue_addr []) rogue_view rogue_addr [].

Lemma rogue_unit_ok : @Unit_new _ rogue_runtime _ rogue_call rogue_view toy_vm = Ok rogue_unit.
Proof.
  assert (builtin toy_vm rogue_addr = None) as Hb by (apply is_some_none; by vm_compute).
  assert (rogue_view rogue_addr = Some (MkAccount true 0 (Some WASM_VM_BUILTIN_ADDR) (Some []))) as Ha by (apply (bool_decide_unpack _); by vm_compute).
  assert (verify_signatures rogue_call = Ok tt) as Hv by by vm_compute.
  assert (tx_nonce rogue_call = match rogue_view (payer rogue_call) with Some a => nonce a | None => 0 end) as Hn by by vm_compute.
  unfold Unit_new. cbn [max_input_accounts vm_limits]. rewrite Hv, <- Hn, Z.eqb_refl.
  assert ((max_input_accounts (vm_limits toy_vm) <? length (accounts rogue_call))%nat = false) as -> by by vm_compute.
  cbn [reject_if negb map_err mbind result_bind]. unfold find_entrypoint. cbn [contract rogue_call Transaction_new]. rewrite Hb.
  unfold machine_contract. rewrite Ha. cbn [owner data executable]. rewrite bool_decide_true by done. reflexivity.
Qed.

