(* ===== verification/BlockStoreProps.v ===== *)
(** * Properties of the block store

    The trees hold blocks under their heights, the finalized ones without gaps
    and within the configured window; an abstract store of two maps says what
    consuming a block does. *)
From S2P Require Import Prelude Primitives State StateProps Transaction Contract Block Machine Execution Consumer Sled BlockStore VmExample StoreExample.

Section trees.
Context {T : Type} `{SledTreeLaws T}.
Implicit Types (t : T) (k v : bytes).

Lemma foldl_remove_lookup t (ks : list bytes) k :
  tree_lookup (foldl tree_remove t ks) k = if bool_decide (k ∈ ks) then None else tree_lookup t k.
Proof.
  revert t. induction ks as [|k0 ks IH]; intros t; [done|]. cbn [foldl]. rewrite IH, tree_lookup_remove.
  repeat case_bool_decide; set_solver.
Qed.

Lemma foldl_remove_fst t (l : list (bytes * bytes)) : foldl (λ t p, tree_remove t p.1) t l = foldl tree_remove t l.*1.
Proof. revert t. induction l as [|p l IH]; intros t; [done|]. apply IH. Qed.

Lemma elem_of_older_than h t k v :
  (k, v) ∈ older_than h t ↔
  tree_lookup t k = Some v ∧ bytes_leb (height_key 0) k = true ∧ bytes_leb (height_key h) k = false.
Proof. unfold older_than. rewrite list_elem_of_filter, tree_entries_lookup. cbn [fst]. tauto. Qed.

(** Pruning removes exactly the heights below the given one. *)
Lemma pruned_lookup h t x :
  is_u64 h → is_u64 x →
  tree_lookup (foldl tree_remove t (older_than h t).*1) (height_key x) =
    if x <? h then None else tree_lookup t (height_key x).
Proof.
  intros Hh Hx. rewrite foldl_remove_lookup. case_bool_decide as Hin.
  - apply list_elem_of_fmap in Hin as ([k v] & Heq & (_ & _ & Hlt)%elem_of_older_than). cbn [fst] in Heq.
    rewrite <-Heq, height_key_leb in Hlt by done. apply Z.leb_gt in Hlt. by rewrite (proj2 (Z.ltb_lt _ _)).
  - destruct (Z.ltb_spec x h) as [Hlt|]; [|done]. destruct (tree_lookup t (height_key x)) as [v|] eqn:E; [|done].
    destruct Hin. apply list_elem_of_fmap. exists (height_key x, v). split; [done|]. apply elem_of_older_than.
    rewrite !height_key_leb by (done || (unfold is_u64, u64_max in *; lia)). unfold is_u64 in *.
    split_and!; [done|apply Z.leb_le; lia|apply Z.leb_gt; lia].
Qed.

Lemma tree_last_max t k v x w :
  tree_last t = Some (k, v) → is_u64 x → tree_lookup t (height_key x) = Some w → bytes_leb (height_key x) k = true.
Proof.
  intros Hl Hx Hw%tree_entries_lookup. assert (Transitive (λ a b : bytes * bytes, bytes_leb a.1 b.1 = true)) as Ht.
  { intros a b c. apply bytes_leb_trans. }
  destruct (sorted_last_max (λ a b : bytes * bytes, bytes_leb a.1 b.1 = true) _ _ _ (tree_entries_sorted t) Hl Hw) as [[= <- _]|Hle].
  - rewrite height_key_leb by done. apply Z.leb_le. lia.
  - exact Hle.
Qed.

Lemma tree_last_lookup t k v : tree_last t = Some (k, v) → tree_lookup t k = Some v.
Proof. intros Hl%last_Some_elem_of. by apply tree_entries_lookup. Qed.

Lemma tree_last_none t : tree_last t = None → ∀ k, tree_lookup t k = None.
Proof.
  intros Hl%last_None k. destruct (tree_lookup t k) as [v|] eqn:E; [|done].
  apply tree_entries_lookup in E. rewrite Hl in E. by apply not_elem_of_nil in E.
Qed.
End trees.

Section store.
Context `{Crypto} `{WasmRuntime} `{!BlockData (list Transaction)} {T : Type} `{SledTreeLaws T}.
Context `{!Bincode (Produced (list Transaction))} `{!Bincode StoredOutputs} `{!Bincode ExecutedTransaction}.
Context `{!BincodeLaws (Produced (list Transaction))} `{!BincodeLaws StoredOutputs} `{!BincodeLaws ExecutedTransaction}.
Abbreviation BlockStore := (@BlockStore T).
Implicit Types (s : BlockStore) (b : Produced (list Transaction)) (e : Executed (list Transaction)) (t : T).

(** A tree whose records are blocks under their heights. *)
Definition block_tree t : Prop :=
  ∀ k v, tree_lookup t k = Some v → ∃ b, v = bincode_serialize b ∧ k = height_key (height b) ∧ 0 < height b ≤ u64_max.

Definition block_at t (x : Z) : option (Produced (list Transaction)) := tree_lookup t (height_key x) ≫= bincode_deserialize.

Lemma block_at_inv t x b : block_tree t → is_u64 x → block_at t x = Some b → height b = x ∧ tree_lookup t (height_key x) = Some (bincode_serialize b).
Proof.
  unfold block_at. intros Ht Hx Hb. destruct (tree_lookup t (height_key x)) as [v|] eqn:E; [|done]. cbn in Hb.
  destruct (Ht _ _ E) as (b' & -> & Hk & Hh). rewrite bincode_roundtrip in Hb. injection Hb as ->.
  apply height_key_inj in Hk; [done|done|unfold is_u64; lia].
Qed.

Lemma block_at_some t x : block_tree t → is_Some (block_at t x) ↔ is_Some (tree_lookup t (height_key x)).
Proof.
  unfold block_at. intros Ht. destruct (tree_lookup t (height_key x)) as [v|] eqn:E; cbn; [|by split; intros []].
  destruct (Ht _ _ E) as (b' & -> & _ & _). rewrite bincode_roundtrip. split; by eexists.
Qed.

Lemma block_tree_insert t b : 0 < height b ≤ u64_max → block_tree t → block_tree (insert_block t b).
Proof.
  intros Hb Ht k v. unfold insert_block. rewrite tree_lookup_insert. case_bool_decide; [|apply Ht].
  intros [= <-]. eauto.
Qed.

Lemma block_tree_remove t (ks : list bytes) : block_tree t → block_tree (foldl tree_remove t ks).
Proof. intros Ht k v. rewrite foldl_remove_lookup. case_bool_decide; [done|apply Ht]. Qed.

Lemma block_at_insert t b x :
  is_u64 (height b) → is_u64 x → block_at (insert_block t b) x = if height b =? x then Some b else block_at t x.
Proof.
  intros Hb Hx. unfold block_at, insert_block. rewrite tree_lookup_insert.
  destruct (Z.eqb_spec (height b) x) as [->|Hne].
  - rewrite bool_decide_true by done. apply bincode_roundtrip.
  - rewrite bool_decide_false; [done|]. by intros ?%height_key_inj.
Qed.

Lemma block_at_remove t h x : is_u64 h → is_u64 x → block_at (tree_remove t (height_key h)) x = if h =? x then None else block_at t x.
Proof.
  intros Hh Hx. unfold block_at. rewrite tree_lookup_remove.
  destruct (Z.eqb_spec h x) as [->|Hne]; [by rewrite bool_decide_true|].
  rewrite bool_decide_false; [done|]. by intros ?%height_key_inj.
Qed.

Lemma block_at_pruned t h x :
  is_u64 h → is_u64 x → block_at (foldl tree_remove t (older_than h t).*1) x = if x <? h then None else block_at t x.
Proof. intros Hh Hx. unfold block_at. rewrite pruned_lookup by done. by case_match. Qed.

(** *** Pruning *)

Lemma prune_drain_done d drain t hs txs :
  Forall (λ p : bytes * bytes, ∃ b, p.2 = bincode_serialize b) drain →
  ∃ hs' txs', prune_drain d drain (t, hs, txs) = ((foldl tree_remove t drain.*1, hs', txs'), Done tt) ∧
    ∀ k, tree_lookup hs' k = tree_lookup hs k ∨
      tree_lookup hs' k = None ∧ ∃ q b, q ∈ drain ∧ q.2 = bincode_serialize b ∧ k = mh_to_bytes (block_hash b).
Proof.
  revert t hs txs. induction drain as [|[k v] drain IH]; intros t hs txs; [intros _; eexists _, _; split; [done|auto]|].
  intros [[b Hb] Hall]%Forall_cons. cbn [snd] in Hb. subst v. cbn [prune_drain]. rewrite bincode_roundtrip.
  destruct (IH (tree_remove t k) (tree_remove hs (mh_to_bytes (block_hash b)))
    (if d then foldl (λ t tx, tree_remove t (mh_to_bytes (tx_hash tx))) txs (block_data b) else txs) Hall) as (hs' & txs' & -> & Hhs).
  exists hs', txs'. split; [done|]. intros k'. destruct (Hhs k') as [->|(Hn & q & b' & Hq & Hqb & Hk)].
  - rewrite tree_lookup_remove. case_bool_decide; [|by left]. right. split; [done|]. eexists _, b. split; [by left|by split].
  - right. split; [done|]. exists q, b'. split; [by right|by split].
Qed.

Lemma older_than_blocks h t : block_tree t → Forall (λ p : bytes * bytes, ∃ b, p.2 = bincode_serialize b) (older_than h t).
Proof.
  intros Ht. apply Forall_forall. intros [k v] (Hl & _)%elem_of_older_than. destruct (Ht _ _ Hl) as (b & -> & _). by exists b.
Qed.

Lemma prune_done h s :
  block_tree (confirmed_tree s) → block_tree (finalized_tree s) → 0 < h →
  ∃ s', prune_older_than h s = (s', Done tt) ∧ detailed s' = detailed s ∧ history_len s' = history_len s ∧
    confirmed_tree s' = foldl tree_remove (confirmed_tree s) (older_than h (confirmed_tree s)).*1 ∧
    finalized_tree s' = foldl tree_remove (finalized_tree s) (older_than h (finalized_tree s)).*1 ∧
    outputs s' = (if detailed s then foldl tree_remove (outputs s) (older_than h (outputs s)).*1 else outputs s) ∧
    ∀ k, tree_lookup (hashes s') k = tree_lookup (hashes s) k ∨
      tree_lookup (hashes s') k = None ∧ ∃ q b, q ∈ older_than h (confirmed_tree s) ++ older_than h (finalized_tree s) ∧
        q.2 = bincode_serialize b ∧ k = mh_to_bytes (block_hash b).
Proof.
  intros Hc Hf Hh. unfold prune_older_than. rewrite (proj2 (Z.ltb_lt _ _)) by done. unfold and_then, prune_confirmed, prune_finalized.
  cbn [detailed history_len confirmed_tree finalized_tree hashes outputs transactions].
  destruct (prune_drain_done (detailed s) _ (confirmed_tree s) (hashes s) (transactions s) (older_than_blocks h _ Hc)) as (hs1 & txs1 & -> & Hh1).
  cbn [detailed history_len confirmed_tree finalized_tree hashes outputs transactions].
  destruct (prune_drain_done (detailed s) _ (finalized_tree s) hs1 txs1 (older_than_blocks h _ Hf)) as (hs2 & txs2 & -> & Hh2).
  eexists. split; [reflexivity|]. cbn. split_and!; try done; [unfold prune_outputs; by rewrite foldl_remove_fst|].
  intros k. destruct (Hh2 k) as [->|(-> & q & b & Hq & ?)]; [destruct (Hh1 k) as [->|(-> & q & b & Hq & ?)]|]; [by left|right..];
    (split; [done|]; exists q, b; split; [apply elem_of_app; auto|done]).
Qed.
(** *** Invariant *)

Definition confirmed_at s (x : Z) := block_at (confirmed_tree s) x.
Definition finalized_at s (x : Z) := block_at (finalized_tree s) x.
Definition latest_height s : Z := match latest s Finalized_ with Some b => height b | None => 0 end.

(** The heights of the finalized blocks, from [lo] to [hi]. *)
Definition holds_range s (lo hi : Z) : Prop :=
  (∀ x, is_u64 x → is_Some (finalized_at s x) ↔ lo ≤ x ≤ hi) ∧
  1 ≤ lo ≤ hi + 1 ∧ hi ≤ u64_max ∧ (lo = hi + 1 → hi = 0) ∧ hi - lo ≤ history_len s.

Definition store_wf s : Prop :=
  block_tree (confirmed_tree s) ∧ block_tree (finalized_tree s) ∧ 0 ≤ history_len s ∧ ∃ lo hi, holds_range s lo hi.

Lemma latest_height_range s lo hi : block_tree (finalized_tree s) → holds_range s lo hi → latest_height s = hi.
Proof.
  intros Ht (Hr & Hlo & Hhi & Hempty & _). unfold latest_height, latest.
  destruct (tree_last (finalized_tree s)) as [[k v]|] eqn:E; cbn.
  - pose proof (tree_last_lookup _ _ _ E) as Hv. destruct (Ht _ _ Hv) as (b & -> & -> & Hb). rewrite bincode_roundtrip.
    assert (is_u64 (height b)) as Hu by (unfold is_u64; lia).
    assert (lo ≤ height b ≤ hi) as Hin.
    { apply Hr; [done|]. unfold finalized_at, block_at. rewrite Hv. cbn. rewrite bincode_roundtrip. by eexists. }
    assert (is_u64 hi) as Huh by (unfold is_u64; lia).
    destruct (proj2 (Hr hi Huh)) as [b' Hb']; [lia|]. apply block_at_inv in Hb' as [_ Hw]; [|done|done].
    pose proof (tree_last_max _ _ _ hi _ E Huh Hw) as Hle. rewrite height_key_leb in Hle by done. apply Z.leb_le in Hle. lia.
  - destruct (Z.eq_dec lo (hi + 1)) as [Heq|Hne]; [symmetry; by apply Hempty|]. exfalso.
    assert (is_u64 lo) as Hul by (unfold is_u64; lia). destruct (proj2 (Hr lo Hul)) as [b Hb]; [lia|].
    unfold finalized_at, block_at in Hb. by rewrite (tree_last_none _ E) in Hb.
Qed.

(** *** The abstract store *)

(** Two maps from heights to blocks: what consuming a block does to them. *)
Definition spec_consume b (c : Commitment) (cutoff : Z) (conf fin : Z → option (Produced (list Transaction))) :
    (Z → option (Produced (list Transaction))) * (Z → option (Produced (list Transaction))) :=
  (λ x, if x <? cutoff then None
        else if height b =? x then (match c with Confirmed => Some b | Finalized_ => None | Included => conf x end) else conf x,
   λ x, if x <? cutoff then None
        else if height b =? x then (match c with Finalized_ => Some b | _ => fin x end) else fin x).

Definition cutoff s b : Z := saturating_sub (height b) (history_len s).

(** Every transaction of the block has a result. *)
Definition accounted e : Prop :=
  ∀ tx, tx ∈ block_data (underlying e) →
    is_Some (im_get (tx_hash tx) (out_logs (output e))) ∨ is_Some (im_get (tx_hash tx) (out_errors (output e))).

Lemma transactions_batch_done e txs :
  (∀ tx, tx ∈ txs → is_Some (im_get (tx_hash tx) (out_logs (output e))) ∨ is_Some (im_get (tx_hash tx) (out_errors (output e)))) →
  ∃ batch, transactions_batch e txs = Done batch.
Proof.
  induction txs as [|tx txs IH]; intros Hall; [by eexists|]. cbn [transactions_batch].
  destruct IH as [batch ->]; [intros x Hx; apply Hall; by right|]. unfold executed_transaction.
  destruct (Hall tx) as [[l ->]|[er ->]]; [by left| |by eexists]. destruct (im_get (tx_hash tx) (out_errors (output e))); by eexists.
Qed.

Lemma store_raw_block_inv b c s s' :
  store_raw_block b c s = (s', Done tt) →
  detailed s' = detailed s ∧ history_len s' = history_len s ∧ hashes s' = hashes s ∧ outputs s' = outputs s ∧
  match c with
  | Included => s' = s
  | Confirmed => confirmed_tree s' = insert_block (confirmed_tree s) b ∧ finalized_tree s' = finalized_tree s
  | Finalized_ => height b = wrap64 (latest_height s + 1) ∧
      confirmed_tree s' = tree_remove (confirmed_tree s) (height_key (height b)) ∧ finalized_tree s' = insert_block (finalized_tree s) b
  end.
Proof.
  unfold store_raw_block. destruct c; [intros [= <-]; by split_and!..|].
  fold (latest_height s). destruct (Z.eqb_spec (height b) (wrap64 (latest_height s + 1))); cbn [negb]; [|done].
  intros [= <-]. by split_and!.
Qed.

Lemma store_outputs_inv e s s' :
  store_outputs e s = (s', Done tt) →
  detailed s' = detailed s ∧ history_len s' = history_len s ∧ hashes s' = hashes s ∧
  confirmed_tree s' = confirmed_tree s ∧ finalized_tree s' = finalized_tree s ∧
  outputs s' = match tree_lookup (outputs s) (height_key (height (underlying e))) with
               | Some _ => outputs s
               | None => tree_insert (outputs s) (height_key (height (underlying e))) (bincode_serialize (to_stored_output (output e)))
               end.
Proof.
  unfold store_outputs. destruct (detailed s) eqn:Hd; cbn [negb]; [|done].
  destruct (transactions_batch e _); [intros [= <-]; by split_and!|done..].
Qed.

(** A run of the consumer, step by step: [s1] has the raw block, [s2] the
    outputs as well. *)
Lemma store_consume_inv s e c s' :
  c ≠ Included → store_consume e c s = (s', Done tt) →
  ∃ s1 s2 s3, store_raw_block (underlying e) c s = (s1, Done tt) ∧
    (if detailed s then store_outputs e s1 = (s2, Done tt) else s2 = s1) ∧
    prune_older_than (saturating_sub (height (underlying e)) (history_len s)) s2 = (s3, Done tt) ∧ s' = store_hash (underlying e) s3.
Proof.
  intros Hc. unfold store_consume. rewrite bool_decide_false by done. intros Hs.
  apply and_then_done in Hs as (s1 & H1' & Hs). apply and_then_done in Hs as (s2 & H2' & Hs).
  apply and_then_done in Hs as (s3 & H3' & Hs). injection Hs as <-. exists s1, s2, s3.
  split_and!; try done. destruct (detailed s); [done|by injection H2'].
Qed.

Lemma store_hash_trees b s :
  confirmed_tree (store_hash b s) = confirmed_tree s ∧ finalized_tree (store_hash b s) = finalized_tree s ∧
  outputs (store_hash b s) = outputs s ∧ detailed (store_hash b s) = detailed s ∧ history_len (store_hash b s) = history_len s.
Proof. unfold store_hash. by case_match. Qed.
Lemma prune_spec h s :
  block_tree (confirmed_tree s) → block_tree (finalized_tree s) → is_u64 h →
  ∃ s', prune_older_than h s = (s', Done tt) ∧ detailed s' = detailed s ∧ history_len s' = history_len s ∧
    block_tree (confirmed_tree s') ∧ block_tree (finalized_tree s') ∧
    ∀ x, is_u64 x → confirmed_at s' x = (if x <? h then None else confirmed_at s x) ∧
                    finalized_at s' x = (if x <? h then None else finalized_at s x).
Proof.
  intros Hc Hf Hh. destruct (Z.eq_dec h 0) as [->|Hne].
  - exists s. split_and!; try done. intros x Hx. rewrite (proj2 (Z.ltb_ge _ _)) by (unfold is_u64 in Hx; lia). done.
  - destruct (prune_done h s Hc Hf) as (s' & Hp & Hd & Hl & Hc' & Hf' & _); [unfold is_u64 in Hh; lia|]. exists s'.
    split_and!; [done..| | |].
    + rewrite Hc'. by apply block_tree_remove.
    + rewrite Hf'. by apply block_tree_remove.
    + intros x Hx. unfold confirmed_at, finalized_at. by rewrite Hc', Hf', !block_at_pruned.
Qed.

Lemma saturating_sub_u64 (x y : Z) : is_u64 x → 0 ≤ y → is_u64 (saturating_sub x y) ∧ saturating_sub x y ≤ x.
Proof. unfold is_u64, saturating_sub. lia. Qed.

Lemma store_consume_facts s e c s' :
  store_wf s → c ≠ Included → 0 < height (underlying e) ≤ u64_max → store_consume e c s = (s', Done tt) →
  block_tree (confirmed_tree s') ∧ block_tree (finalized_tree s') ∧ history_len s' = history_len s ∧ detailed s' = detailed s ∧
  (c = Finalized_ → height (underlying e) = wrap64 (latest_height s + 1)) ∧
  ∀ x, is_u64 x →
    let r := spec_consume (underlying e) c (cutoff s (underlying e)) (confirmed_at s) (finalized_at s) in
    confirmed_at s' x = r.1 x ∧ finalized_at s' x = r.2 x.
Proof.
  intros (Hc & Hf & Hlen & _) Hci Hh Hs. apply store_consume_inv in Hs as (s1 & s2 & s3 & Hs1 & Hs2 & Hs3 & ->); [|done].
  assert (is_u64 (height (underlying e))) as Hu by (unfold is_u64; lia).
  apply store_raw_block_inv in Hs1 as (Hd1 & Hl1 & Hh1 & Ho1 & Hraw).
  assert (history_len s2 = history_len s1 ∧ detailed s2 = detailed s1 ∧ confirmed_tree s2 = confirmed_tree s1 ∧
    finalized_tree s2 = finalized_tree s1) as (Hl2 & Hd2 & Hc2 & Hf2).
  { destruct (detailed s) eqn:Hd0; [|by subst]. apply store_outputs_inv in Hs2 as (Hd & Hl & _ & Hcc & Hff & _).
    split_and!; congruence. }
  assert (block_tree (confirmed_tree s1) ∧ block_tree (finalized_tree s1) ∧
    ∀ x, is_u64 x → confirmed_at s1 x = (if height (underlying e) =? x then match c with Confirmed => Some (underlying e) | Finalized_ => None | Included => confirmed_at s x end else confirmed_at s x) ∧
      finalized_at s1 x = (if height (underlying e) =? x then match c with Finalized_ => Some (underlying e) | _ => finalized_at s x end else finalized_at s x)) as (Hbc & Hbf & Hx1).
  { unfold confirmed_at, finalized_at. destruct c; [done| |].
    - destruct Hraw as [-> ->]. split_and!; [by apply block_tree_insert|done|]. intros x Hx. rewrite block_at_insert by done.
      split; [done|by destruct (height (underlying e) =? x)].
    - destruct Hraw as (_ & -> & ->). split_and!; [by apply (block_tree_remove _ [_])|by apply block_tree_insert|].
      intros x Hx. by rewrite block_at_insert, block_at_remove. }
  rewrite <-Hc2 in Hbc. rewrite <-Hf2 in Hbf.
  destruct (saturating_sub_u64 (height (underlying e)) (history_len s) Hu Hlen) as [Hcu _].
  destruct (prune_spec _ s2 Hbc Hbf Hcu) as (s3' & Hp & Hd3 & Hl3 & Hc3 & Hf3 & Hx3). rewrite Hp in Hs3. injection Hs3 as <-.
  destruct (store_hash_trees (underlying e) s3') as (Ec & Ef & _ & Ed & El). rewrite Ec, Ef, Ed, El.
  split_and!; try done; [by rewrite Hl3, Hl2|by rewrite Hd3, Hd2|by intros ->; destruct Hraw|].
  intros x Hx. cbn [spec_consume fst snd]. unfold confirmed_at at 1, finalized_at at 1. rewrite Ec, Ef.
  destruct (Hx3 x Hx) as [E1 E2]. destruct (Hx1 x Hx) as [E3 E4]. unfold confirmed_at, finalized_at in *.
  rewrite E1, E2, Hc2, Hf2, E3, E4. done.
Qed.

(** A confirmed block that is not so far ahead that the window leaves out all
    finalized blocks. *)
Definition within_window s e (c : Commitment) : Prop :=
  c = Confirmed → latest_height s = 0 ∨ height (underlying e) - history_len s ≤ latest_height s.

(** Consuming keeps the finalized heights in one piece. *)
Lemma store_consume_wf s e c s' :
  store_wf s → 0 < height (underlying e) ≤ u64_max → within_window s e c → store_consume e c s = (s', Done tt) → store_wf s'.
Proof.
  intros Hwf Hh Hwindow Hs. destruct (decide (c = Included)) as [->|Hci].
  { unfold store_consume in Hs. rewrite bool_decide_true in Hs by done. by injection Hs as <-. }
  pose proof (store_consume_facts s e c s' Hwf Hci Hh Hs) as (Hc & Hf & Hl & _ & Hnext & Hx).
  destruct Hwf as (_ & Hf0 & Hlen & lo & hi & Hr). pose proof (latest_height_range s lo hi Hf0 Hr) as Hlat.
  destruct Hr as (Hr & Hlo & Hhi & Hempty & Hwin). split_and!; [done|done|by rewrite Hl|].
  assert (is_u64 (height (underlying e))) as Hu by (unfold is_u64; lia).
  destruct (saturating_sub_u64 (height (underlying e)) (history_len s) Hu Hlen) as [Hcu Hcl]. fold (cutoff s (underlying e)) in Hcu, Hcl.
  set (k := cutoff s (underlying e)) in *. assert (height (underlying e) - history_len s ≤ k) as Hk.
  { unfold k, cutoff, saturating_sub. lia. }
  destruct c; [done| |].
  - specialize (Hwindow eq_refl). rewrite Hlat in Hwindow.
    assert (∀ x, is_u64 x → is_Some (finalized_at s' x) ↔ k ≤ x ∧ lo ≤ x ≤ hi) as Hsome.
    { intros x Hxu. rewrite (proj2 (Hx x Hxu)). cbn [spec_consume snd]. pose proof (Hr x Hxu) as Hrx.
      destruct (Z.ltb_spec x k); [split; [by intros []|lia]|]. case_match; rewrite Hrx; lia. }
    destruct Hwindow as [->|Hle].
    + exists 1, 0. split; [|split_and!; lia]. intros x Hxu. rewrite (Hsome x Hxu). lia.
    + exists (Z.max lo k), hi. split; [|split_and!; unfold k, cutoff, saturating_sub in *; lia].
      intros x Hxu. rewrite (Hsome x Hxu). lia.
  - specialize (Hnext eq_refl). rewrite Hlat in Hnext.
    assert (height (underlying e) = hi + 1) as Hhe.
    { destruct (Z.eq_dec hi u64_max) as [->|]; [change (wrap64 (u64_max + 1)) with 0 in Hnext; lia|].
      rewrite Hnext. apply wrap64_id. unfold is_u64. lia. }
    exists (Z.max lo k), (hi + 1). split; [|split_and!; lia]. intros x Hxu. rewrite (proj2 (Hx x Hxu)). cbn [spec_consume snd].
    destruct (Z.ltb_spec x k); [split; [by intros []|lia]|]. rewrite Hhe.
    destruct (Z.eqb_spec (hi + 1) x); [split; [lia|by eexists]|]. rewrite (Hr x Hxu). lia.
Qed.

(** *** Finalized blocks *)

Lemma store_wf_latest s : store_wf s → 0 ≤ latest_height s ≤ u64_max.
Proof. intros (_ & Hf & _ & lo & hi & Hr). rewrite (latest_height_range s lo hi Hf Hr). destruct Hr as (_ & ? & ? & _). lia. Qed.

(** Once the block itself is stored the rest succeeds. *)
Lemma store_rest_succeeds s s1 e c :
  store_wf s → c ≠ Included → 0 < height (underlying e) ≤ u64_max → (detailed s = true → accounted e) →
  store_raw_block (underlying e) c s = (s1, Done tt) → ∃ s', store_consume e c s = (s', Done tt).
Proof.
  intros (Hc & Hf & Hlen & _) Hci Hh Hacc Hraw. unfold store_consume. rewrite bool_decide_false by done.
  rewrite (and_then_eq _ _ _ _ Hraw). apply store_raw_block_inv in Hraw as (Hd1 & Hl1 & _ & _ & Hraw).
  assert (∃ s2, (if detailed s then store_outputs e else skip) s1 = (s2, Done tt) ∧ confirmed_tree s2 = confirmed_tree s1 ∧
    finalized_tree s2 = finalized_tree s1) as (s2 & Hs2 & Hc2 & Hf2).
  { destruct (detailed s) eqn:Hd; [|by exists s1]. unfold store_outputs. rewrite Hd1. cbn [negb].
    destruct (transactions_batch_done e (block_data (underlying e)) (Hacc eq_refl)) as [batch ->]. eexists. by split_and!. }
  rewrite (and_then_eq _ _ _ _ Hs2).
  destruct (prune_spec (saturating_sub (height (underlying e)) (history_len s)) s2) as (s3 & Hs3 & _);
    [| | |rewrite (and_then_eq _ _ _ _ Hs3); by eexists].
  - rewrite Hc2. destruct c; [done| |].
    + destruct Hraw as [-> _]. by apply block_tree_insert.
    + destruct Hraw as (_ & -> & _). by apply (block_tree_remove _ [_]).
  - rewrite Hf2. destruct c; [done|by destruct Hraw as [_ ->]|]. destruct Hraw as (_ & _ & ->). by apply block_tree_insert.
  - apply saturating_sub_u64; [unfold is_u64; lia|done].
Qed.

(** A block is stored, or else the store panics and is as before. *)
Lemma store_consume_cases s e c :
  store_wf s → 0 < height (underlying e) ≤ u64_max → (detailed s = true → accounted e) →
  if negb (bool_decide (c = Finalized_)) || (height (underlying e) =? wrap64 (latest_height s + 1))
  then ∃ s', store_consume e c s = (s', Done tt) else store_consume e c s = (s, Panic).
Proof.
  intros Hwf Hh Hacc. destruct c.
  - cbn. by eexists.
  - cbn. by eapply store_rest_succeeds.
  - rewrite bool_decide_true by done. cbn [negb orb]. destruct (Z.eqb_spec (height (underlying e)) (wrap64 (latest_height s + 1))) as [Heq|Hne].
    + eapply store_rest_succeeds; [done..|]. unfold store_raw_block. fold (latest_height s). rewrite (proj2 (Z.eqb_eq _ _) Heq). reflexivity.
    + unfold store_consume. rewrite bool_decide_false by done. apply and_then_panic. unfold store_raw_block. fold (latest_height s).
      by rewrite (proj2 (Z.eqb_neq _ _) Hne).
Qed.

(** A store without finalized blocks takes only the first block for final. *)
Lemma store_expects_first s e :
  latest s Finalized_ = None → height (underlying e) ≠ 1 → store_consume e Finalized_ s = (s, Panic).
Proof.
  intros Hl Hne. unfold store_consume. rewrite bool_decide_false by done. apply and_then_panic. unfold store_raw_block. rewrite Hl.
  change (wrap64 (0 + 1)) with 1. by rewrite (proj2 (Z.eqb_neq _ _) Hne).
Qed.

(** The latest height is the last one that has a block. *)
Lemma latest_unique s (h : Z) :
  store_wf s → is_u64 h → (∀ x, is_u64 x → h < x → finalized_at s x = None) → h = 0 ∨ is_Some (finalized_at s h) → latest_height s = h.
Proof.
  intros (_ & Hf & _ & lo & hi & Hr) Hh Habove Hat. rewrite (latest_height_range s lo hi Hf Hr). destruct Hr as (Hr & Hlo & Hhi & Hempty & _).
  assert (h ≤ hi) by (destruct Hat as [->|Hs]; [lia|]; apply (Hr h Hh) in Hs; lia).
  destruct (Z.eq_dec h hi); [done|]. exfalso. assert (is_u64 hi) as Hu by (unfold is_u64 in *; lia).
  destruct (Z.eq_dec lo (hi + 1)) as [Hl|]; [unfold is_u64 in Hh; specialize (Hempty Hl); lia|].
  assert (is_Some (finalized_at s hi)) as [? Hs] by (apply Hr; [done|lia]). rewrite Habove in Hs; [done|done|lia].
Qed.

Lemma above_latest s (x : Z) : store_wf s → is_u64 x → latest_height s < x → finalized_at s x = None.
Proof.
  intros (_ & Hf & _ & lo & hi & Hr) Hx. rewrite (latest_height_range s lo hi Hf Hr). destruct Hr as (Hr & _). intros Hlt.
  destruct (finalized_at s x) eqn:E; [|done]. assert (lo ≤ x ≤ hi) by (apply Hr; [done|by eexists]). lia.
Qed.

Lemma latest_found s : store_wf s → latest s Finalized_ = finalized_at s (latest_height s).
Proof.
  intros (_ & Hf & _). unfold latest_height, latest, finalized_at, block_at. destruct (tree_last (finalized_tree s)) as [[k v]|] eqn:E; cbn [mbind option_bind snd].
  - pose proof (tree_last_lookup _ _ _ E) as Hv. destruct (Hf _ _ Hv) as (b & -> & -> & _). rewrite bincode_roundtrip. cbn [mbind option_bind]. rewrite Hv. cbn.
    by rewrite bincode_roundtrip.
  - by rewrite (tree_last_none _ E).
Qed.

Lemma latest_block_height s b : latest s Finalized_ = Some b → latest_height s = height b.
Proof. unfold latest_height. by intros ->. Qed.

Lemma latest_is_some s : store_wf s → latest_height s = 0 ∨ is_Some (finalized_at s (latest_height s)).
Proof.
  intros Hwf. rewrite <-(latest_found s Hwf). unfold latest_height. destruct (latest s Finalized_); [right; by eexists|by left].
Qed.

Lemma latest_after_finalized s e s' :
  store_wf s → 0 < height (underlying e) ≤ u64_max → height (underlying e) = latest_height s + 1 →
  store_consume e Finalized_ s = (s', Done tt) →
  latest_height s' = height (underlying e) ∧ latest s' Finalized_ = Some (underlying e).
Proof.
  intros Hwf Hh Hnext Hs'. assert (store_wf s') as Hwf' by by apply (store_consume_wf s e Finalized_).
  pose proof (store_consume_facts s e Finalized_ s' Hwf ltac:(done) Hh Hs') as (_ & _ & _ & _ & _ & Hx).
  assert (is_u64 (height (underlying e))) as Hu by (unfold is_u64; lia).
  assert (finalized_at s' (height (underlying e)) = Some (underlying e)) as Hat.
  { rewrite (proj2 (Hx _ Hu)). cbn [spec_consume snd]. rewrite Z.eqb_refl. destruct Hwf as (_ & _ & Hlen & _).
    destruct (saturating_sub_u64 (height (underlying e)) (history_len s) Hu Hlen) as [_ Hle]. unfold cutoff.
    by rewrite (proj2 (Z.ltb_ge _ _)) by done. }
  assert (latest_height s' = height (underlying e)) as Hl; [|split; [done|]; by rewrite latest_found, Hl].
  apply latest_unique; [done|done| |right; by eexists].
  intros x Hxu Hlt. rewrite (proj2 (Hx x Hxu)). cbn [spec_consume snd]. case_match; [done|].
  rewrite (proj2 (Z.eqb_neq _ _)) by lia. apply above_latest; [done|done|lia].
Qed.

(** A confirmed block in the window leaves the finalized ones alone. *)
Lemma latest_after_confirmed s e s' :
  store_wf s → 0 < height (underlying e) ≤ u64_max → within_window s e Confirmed →
  store_consume e Confirmed s = (s', Done tt) → latest s' Finalized_ = latest s Finalized_.
Proof.
  intros Hwf Hh Hw Hs'. assert (store_wf s') as Hwf' by by apply (store_consume_wf s e Confirmed).
  pose proof (store_consume_facts s e Confirmed s' Hwf ltac:(done) Hh Hs') as (_ & _ & _ & _ & _ & Hx).
  pose proof (store_wf_latest s Hwf) as Hlu. specialize (Hw eq_refl).
  assert (∀ x, is_u64 x → finalized_at s' x = if x <? cutoff s (underlying e) then None else finalized_at s x) as Hfin.
  { intros x Hxu. rewrite (proj2 (Hx x Hxu)). cbn [spec_consume snd]. by repeat case_match. }
  assert (finalized_at s' (latest_height s) = finalized_at s (latest_height s)) as Hat.
  { rewrite Hfin by done. destruct (Z.ltb_spec (latest_height s) (cutoff s (underlying e))) as [Hlt|]; [|done].
    destruct Hw as [Hz|Hle]; [|unfold cutoff, saturating_sub in Hlt; lia].
    destruct Hwf as (_ & Hf & _ & lo & hi & Hr). rewrite Hz. destruct Hr as (Hr & Hlo & _).
    destruct (finalized_at s 0) eqn:E; [|done]. assert (lo ≤ 0 ≤ hi) by (apply Hr; [unfold is_u64, u64_max; lia|by eexists]). lia. }
  assert (latest_height s' = latest_height s) as Hl; [|by rewrite !latest_found, Hl].
  apply latest_unique; [done|done| |rewrite Hat; by apply latest_is_some].
  intros x Hxu Hlt. rewrite Hfin by done. case_match; [done|]. by apply above_latest.
Qed.

(** *** Outputs and hashes *)

(** A store without details keeps no outputs, whatever it is given. *)
Definition lean (o : T) s : Prop := detailed s = false ∧ outputs s = o.

Lemma lean_prune o h s : lean o s → lean o (prune_older_than h s).1.
Proof.
  intros Hl. unfold prune_older_than. case_match; [|done]. apply and_then_keeps.
  - clear s Hl. intros s [Hd Ho]. unfold prune_confirmed.
    destruct (prune_drain _ _ _) as [[[??]?]?]. by split.
  - clear s Hl. intros s [Hd Ho]. unfold prune_finalized.
    destruct (prune_drain _ _ _) as [[[??]?]?]. by split.
  - destruct Hl as [Hd Ho]. split; cbn [detailed outputs]; [done|by rewrite Hd].
Qed.

Lemma lean_store_consume o e c s : lean o s → lean o (store_consume e c s).1.
Proof.
  intros Hl. unfold store_consume. case_bool_decide; [done|]. pose proof Hl as [-> _]. generalize (history_len s). intros hl. revert s Hl.
  repeat apply and_then_keeps.
  - intros s [Hd Ho]. unfold store_raw_block. destruct c; [by split..|]. by case_match; split.
  - done.
  - intros s. apply lean_prune.
  - intros s [Hd Ho]. destruct (store_hash_trees (underlying e) s) as (_ & _ & E1 & E2 & _). split; cbn [fst]; congruence.
Qed.

Lemma lean_store_drain o q s : lean o s → lean o (drain q s).
Proof.
  revert s. induction q as [|[e c] q IH]; intros s Hs; [done|]. cbn [drain]. by apply IH, lean_store_consume.
Qed.

Lemma get_by_height_outputs s h r : get_by_height s h = Done (Some r) → is_Some (tree_lookup (outputs s) (height_key h)).
Proof.
  unfold get_by_height. intros Hr. apply outcome_bind_done in Hr as ([[b c]|] & _ & Hr); [|done].
  by destruct (tree_lookup (outputs s) (height_key h)).
Qed.

(** What reading back an output gives. *)
Definition stored_output (o : BlockOutput) : BlockOutput := of_stored_output (to_stored_output o).

Lemma prune_keeps h s s' x :
  block_tree (confirmed_tree s) → block_tree (finalized_tree s) → is_u64 h → is_u64 x → h ≤ x →
  prune_older_than h s = (s', Done tt) →
  tree_lookup (outputs s') (height_key x) = tree_lookup (outputs s) (height_key x) ∧
  ∀ k, tree_lookup (hashes s') k = tree_lookup (hashes s) k ∨ tree_lookup (hashes s') k = None.
Proof.
  intros Hc Hf Hh Hx Hle. destruct (Z.eq_dec h 0) as [->|Hne]; [intros [= <-]; auto|].
  destruct (prune_done h s Hc Hf) as (s2 & -> & _ & _ & _ & _ & Ho & Hk); [unfold is_u64 in Hh; lia|].
  intros [= <-]. split; [|intros k; destruct (Hk k) as [|[? _]]; auto].
  rewrite Ho. destruct (detailed s); [|done]. rewrite pruned_lookup by done. by rewrite (proj2 (Z.ltb_ge _ _)).
Qed.

Lemma store_consume_hashes s e c s' :
  store_wf s → detailed s = true → c ≠ Included → 0 < height (underlying e) ≤ u64_max →
  (∀ k, tree_lookup (hashes s) (mh_to_bytes (block_hash (underlying e))) = Some k → k = height_key (height (underlying e))) →
  tree_lookup (outputs s) (height_key (height (underlying e))) = None →
  store_consume e c s = (s', Done tt) →
  tree_lookup (hashes s') (mh_to_bytes (block_hash (underlying e))) = Some (height_key (height (underlying e))) ∧
  tree_lookup (outputs s') (height_key (height (underlying e))) = Some (bincode_serialize (to_stored_output (output e))).
Proof.
  intros (Hc & Hf & Hlen & _) Hd Hci Hh Hnew Ho Hs. apply store_consume_inv in Hs as (s1 & s2 & s3 & Hs1 & Hs2 & Hs3 & ->); [|done].
  apply store_raw_block_inv in Hs1 as (Hd1 & Hl1 & Hh1 & Ho1 & Hraw). rewrite Hd in Hs2.
  apply store_outputs_inv in Hs2 as (Hd2 & Hl2 & Hh2 & Hc2 & Hf2 & Ho2). rewrite Ho1, Ho in Ho2.
  assert (is_u64 (height (underlying e))) as Hu by (unfold is_u64; lia).
  destruct (saturating_sub_u64 (height (underlying e)) (history_len s) Hu Hlen) as [Hcu Hle].
  assert (block_tree (confirmed_tree s2) ∧ block_tree (finalized_tree s2)) as [Hbc Hbf].
  { rewrite Hc2, Hf2. destruct c; [done| |].
    - destruct Hraw as [-> ->]. split; [by apply block_tree_insert|done].
    - destruct Hraw as (_ & -> & ->). split; [by apply (block_tree_remove _ [_])|by apply block_tree_insert]. }
  destruct (prune_keeps _ s2 s3 _ Hbc Hbf Hcu Hu Hle Hs3) as [Ho3 Hk].
  destruct (store_hash_trees (underlying e) s3) as (_ & _ & -> & _). rewrite Ho3, Ho2, tree_lookup_insert, bool_decide_true by done.
  split; [|done]. specialize (Hk (mh_to_bytes (block_hash (underlying e)))). rewrite Hh2, Hh1 in Hk. unfold store_hash.
  destruct (tree_lookup (hashes s3) _) as [k|] eqn:E.
  - destruct Hk as [Hk|Hk]; [|done]. rewrite E. f_equal. by apply Hnew.
  - cbn [hashes]. by rewrite tree_lookup_insert, bool_decide_true.
Qed.

(** ** Theorems *)


(** The consumer at work, without falling behind the confirmed blocks by more
    than the history: blocks come in any order, some make it panic. *)
Inductive store_step : BlockStore → BlockStore → Prop :=
  | StoreStep s e c : 0 < height (underlying e) ≤ u64_max → (detailed s = true → accounted e) → within_window s e c →
      store_step s (consume s e c).

Lemma empty_wf s :
  (∀ k, tree_lookup (confirmed_tree s) k = None) → (∀ k, tree_lookup (finalized_tree s) k = None) → 0 ≤ history_len s → store_wf s.
Proof.
  intros Hc Hf Hl. split_and!; [intros k v; by rewrite Hc|intros k v; by rewrite Hf|done|]. exists 1, 0.
  split_and!; try (unfold u64_max; lia). intros x Hx. unfold finalized_at, block_at. rewrite Hf. cbn. split; [by intros []|lia].
Qed.

Lemma store_step_wf s s' : store_wf s → store_step s s' → store_wf s'.
Proof.
  intros Hwf Hstep. destruct Hstep as [s e c Hh Hacc Hw]. pose proof (store_consume_cases s e c Hwf Hh Hacc) as Hcases. cbn [consume store_consumer].
  destruct (_ || _); [|by rewrite Hcases]. destruct Hcases as [s1 Hs1]. rewrite Hs1. by apply (store_consume_wf s e c).
Qed.

(** The finalized blocks that the store holds have no gaps: from an empty
    store on, whatever is sent to it, they are always exactly those of a range of heights that starts at
    one or later, ends at the latest finalized block and is no longer than the
    configured history and the latest block. *)
Theorem stored_blocks_have_no_gaps s0 s :
  (∀ k, tree_lookup (confirmed_tree s0) k = None) → (∀ k, tree_lookup (finalized_tree s0) k = None) → 0 ≤ history_len s0 →
  rtc store_step s0 s →
  store_wf s ∧ ∃ lo, 1 ≤ lo ∧ latest_height s - lo ≤ history_len s ∧
    ∀ x, is_u64 x → is_Some (finalized_at s x) ↔ lo ≤ x ≤ latest_height s.
Proof.
  intros Hc Hf Hl Hsteps. assert (store_wf s) as Hwf.
  { assert (store_wf s0) as Hwf0 by (by apply empty_wf).
    clear Hc Hf Hl. induction Hsteps as [|s1 s2 s3 Hstep _ IH]; [done|]. apply IH. by eapply store_step_wf. }
  split; [done|]. destruct Hwf as (_ & Hf' & _ & lo & hi & Hr). rewrite (latest_height_range s lo hi Hf' Hr).
  destruct Hr as (Hr & Hlo & _ & _ & Hwin). exists lo. split_and!; [lia|lia|done].
Qed.

(** The store takes a finalized block exactly when it is the successor of
    the latest one; any other makes it panic and changes nothing. *)
Theorem store_accepts_exactly_successor s e :
  store_wf s → 0 < height (underlying e) ≤ u64_max → (detailed s = true → accounted e) →
  if bool_decide (height (underlying e) = latest_height s + 1)
  then ∃ s', store_consume e Finalized_ s = (s', Done tt) ∧ latest_height s' = height (underlying e)
  else store_consume e Finalized_ s = (s, Panic).
Proof.
  intros Hwf Hh Hacc. pose proof (store_wf_latest s Hwf) as Hlu.
  pose proof (store_consume_cases s e Finalized_ Hwf Hh Hacc) as Hcases.
  rewrite bool_decide_true in Hcases by done. cbn [negb orb] in Hcases.
  assert (height (underlying e) = wrap64 (latest_height s + 1) ↔ height (underlying e) = latest_height s + 1) as Hwrap.
  { destruct (Z.eq_dec (latest_height s) u64_max) as [->|].
    - change (wrap64 (u64_max + 1)) with 0. lia.
    - rewrite wrap64_id by (unfold is_u64; lia). done. }
  case_bool_decide as Hnext.
  - rewrite (proj2 (Z.eqb_eq _ _) (proj2 Hwrap Hnext)) in Hcases. destruct Hcases as [s' Hs']. exists s'. split; [done|].
    by apply (latest_after_finalized s e).
  - rewrite (proj2 (Z.eqb_neq _ _) (λ Heq, Hnext (proj1 Hwrap Heq))) in Hcases. done.
Qed.

(** What is stored can be read back: after a store with details consumed a
    confirmed or finalized block, asking for its hash returns the block, its
    output without the executable flags of accounts, and its commitment. The
    hash may be new or known for this height, the outputs of the height new. *)
Theorem stored_block_found_by_hash s e c s' :
  store_wf s → detailed s = true → c ≠ Included → 0 < height (underlying e) ≤ u64_max →
  (∀ k, tree_lookup (hashes s) (mh_to_bytes (block_hash (underlying e))) = Some k → k = height_key (height (underlying e))) →
  tree_lookup (outputs s) (height_key (height (underlying e))) = None →
  store_consume e c s = (s', Done tt) →
  get_by_hash s' (block_hash (underlying e)) = Done (Some (Executed_recreate (underlying e) (stored_output (output e)), c)).
Proof.
  intros Hwf Hd Hc Hh Hnew Ho Hs. pose proof Hwf as (_ & _ & Hlen & _).
  pose proof (store_consume_facts s e c s' Hwf Hc Hh Hs) as (Hbc & Hbf & _ & _ & _ & Hx).
  assert (is_u64 (height (underlying e))) as Hu by (unfold is_u64; lia).
  destruct (store_consume_hashes s e c s' Hwf Hd Hc Hh Hnew Ho Hs) as [Hk Hout].
  unfold get_by_hash. rewrite Hk. assert (length (height_key (height (underlying e))) = 8%nat) as -> by apply length_be_bytes. cbn [Nat.eqb]. rewrite of_height_key by done.
  destruct (Hx _ Hu) as [Hx1 Hx2]. cbn [spec_consume fst snd] in Hx1, Hx2. rewrite Z.eqb_refl in Hx1, Hx2.
  destruct (saturating_sub_u64 (height (underlying e)) (history_len s) Hu Hlen) as [_ Hle].
  unfold cutoff in Hx1, Hx2. rewrite (proj2 (Z.ltb_ge _ _)) in Hx1, Hx2 by done.
  unfold get_by_height. rewrite Hout. destruct c; [done| |].
  - apply block_at_inv in Hx1 as [_ ->]; [|done|done]. rewrite bincode_roundtrip. cbn. by rewrite bincode_roundtrip.
  - assert (tree_lookup (confirmed_tree s') (height_key (height (underlying e))) = None) as ->.
    { destruct (tree_lookup (confirmed_tree s') _) eqn:E; [|done].
      destruct (proj2 (block_at_some _ _ Hbc) (ex_intro _ _ E)) as [b' Hb']. unfold confirmed_at in Hx1. congruence. }
    apply block_at_inv in Hx2 as [_ ->]; [|done|done]. rewrite bincode_roundtrip. cbn. by rewrite bincode_roundtrip.
Qed.

(** A store without details, which is what a validator without the RPC
    service runs, never returns a block: it keeps no outputs, and looking up a
    block by height or by hash wants both. Such validators cannot answer replay
    requests for blocks that have left the chain's volatile part. *)
Theorem lean_store_serves_no_blocks q s h hash r :
  detailed s = false → (∀ k, tree_lookup (outputs s) k = None) →
  get_by_height (drain q s) h ≠ Done (Some r) ∧ get_by_hash (drain q s) hash ≠ Done (Some r).
Proof.
  intros Hd Ho. destruct (lean_store_drain (outputs s) q s) as [_ Ho']; [done|].
  assert (∀ h, get_by_height (drain q s) h ≠ Done (Some r)) as Hno.
  { intros h' [o Hr]%get_by_height_outputs. by rewrite Ho', Ho in Hr. }
  split; [apply Hno|]. unfold get_by_hash. destruct (tree_lookup (hashes (drain q s)) (mh_to_bytes hash)) as [k|]; [|done].
  destruct (length k =? 8)%nat; [apply Hno|done].
Qed.
End store.

(** ** Examples *)

Import VmExample StoreExample.

Lemma empty_store_wf d h : 0 ≤ h → store_wf (empty_store d h).
Proof. intros Hh. apply empty_wf; [intros k; exact (lookup_empty k)..|done]. Qed.

(** A history that is shorter than the distance between finality and the
    head stops the store: with a history of one block, the confirmed blocks two
    and three make it forget the only finalized block. From then on it expects
    the first block, takes no finalized block any more, and after a restart the
    node starts from the genesis block with the state of a later one. With a
    history of two blocks this does not happen. *)
Theorem short_history_stops_store :
  let s := drain [(e1, Confirmed); (e1, Finalized_); (e2, Confirmed); (e3, Confirmed)] (empty_store false 1) in
  latest s Finalized_ = None ∧ store_consume e2 Finalized_ s = (s, Panic) ∧
  latest_height (drain [(e1, Confirmed); (e1, Finalized_); (e2, Confirmed); (e3, Confirmed); (e2, Finalized_)] (empty_store false 2)) = 2.
Proof.
  cbv zeta. assert (latest (drain [(e1, Confirmed); (e1, Finalized_); (e2, Confirmed); (e3, Confirmed)] (empty_store false 1)) Finalized_ = None) as Hl.
  { apply is_some_none. by vm_compute. }
  split; [exact Hl|]. split; [|by vm_compute]. apply store_expects_first; [exact Hl|]. by vm_compute.
Qed.

(** ** Witnesses *)

Definition stored1 : ToyStore := consume (empty_store true 5) e1_paid Confirmed.

Lemma stored1_ok : store_consume e1_paid Confirmed (empty_store true 5) = (stored1, Done tt).
Proof.
  unfold stored1. cbn [consume store_consumer].
  assert (is_done (store_consume e1_paid Confirmed (empty_store true 5)).2 = true) as Hd by by vm_compute.
  destruct (store_consume e1_paid Confirmed (empty_store true 5)) as [s r]. destruct r as [[]| |]; [reflexivity|discriminate..].
Qed.


Lemma e1_paid_accounted : accounted e1_paid.
Proof. intros tx [->|[]%not_elem_of_nil]%elem_of_cons. left. apply (bool_decide_unpack _). by vm_compute. Qed.

Lemma stored_blocks_have_no_gaps_witness :
  store_wf stored1 ∧ ∃ lo, 1 ≤ lo ∧ latest_height stored1 - lo ≤ history_len stored1 ∧
    ∀ x, is_u64 x → is_Some (finalized_at stored1 x) ↔ lo ≤ x ≤ latest_height stored1.
Proof.
  apply (stored_blocks_have_no_gaps (empty_store true 5) stored1).
  - intros k. exact (lookup_empty k).
  - intros k. exact (lookup_empty k).
  - discriminate.
  - apply rtc_once. apply (StoreStep (empty_store true 5) e1_paid Confirmed).
    + split; by vm_compute.
    + intros _. exact e1_paid_accounted.
    + intros _. left. by vm_compute.
Defined.

Lemma store_accepts_exactly_successor_witness :
  ∃ s', store_consume e1 Finalized_ (empty_store false 5) = (s', Done tt) ∧ latest_height s' = 1.
Proof.
  apply (store_accepts_exactly_successor (empty_store false 5) e1 (empty_store_wf false 5 ltac:(lia))).
  - split; by vm_compute.
  - discriminate.
Defined.

Lemma stored_block_found_by_hash_witness :
  get_by_hash stored1 (block_hash (underlying e1_paid)) =
    Done (Some (Executed_recreate (underlying e1_paid) (stored_output (output e1_paid)), Confirmed)).
Proof.
  apply (stored_block_found_by_hash (empty_store true 5) e1_paid Confirmed stored1 (empty_store_wf true 5 ltac:(lia))).
  - reflexivity.
  - discriminate.
  - split; by vm_compute.
  - intros k Hk. discriminate (eq_trans (eq_sym (lookup_empty _)) Hk).
  - exact (lookup_empty _).
  - exact stored1_ok.
Defined.

Lemma lean_store_serves_no_blocks_witness :
  get_by_height (drain [(e1, Confirmed)] (empty_store false 5)) 1 ≠ Done (Some (e1, Confirmed)) ∧
  get_by_hash (drain [(e1, Confirmed)] (empty_store false 5)) (block_hash s1) ≠ Done (Some (e1, Confirmed)).
Proof.
  apply (lean_store_serves_no_blocks [(e1, Confirmed)] (empty_store false 5)).
  - reflexivity.
  - intros k. exact (lookup_empty k).
Defined.
