(* ===== verification/Rpc.v ===== *)
(** * The RPC service (src/rpc.rs, src/primitives/stream.rs)

    What the HTTP handlers answer and what they pass on to the validator. A
    response is its status and its JSON body; the derived serializations of
    transactions, votes, errors and the genesis block are a class. The routes and
    the server are not modelled. *)
From S2P Require Import Prelude Primitives Text State Transaction Contract Block Machine Execution Consumer Sled BlockStore.
From Stdlib Require Import Strings.Ascii.

(** [derive(Serialize)] *)
Class ToJson (A : Type) := to_json : A → Json.

Definition OK : Z := 200.
Definition ACCEPTED : Z := 202.
Definition BAD_REQUEST : Z := 400.
Definition NOT_FOUND : Z := 404.
Definition INTERNAL_SERVER_ERROR : Z := 500.

Abbreviation Response := (Z * Json)%type.

Definition json_option {A} (f : A → Json) (o : option A) : Json := match o with Some a => f a | None => JNull end.
Definition json_result {A E} (f : A → Json) (g : E → Json) (r : Result E A) : Json :=
  match r with Ok a => JObject [("Ok", f a)] | Err e => JObject [("Err", g e)] end.

(** [collect::<IndexMap<_, _>>()]: a repeated key keeps its last value. *)
Definition collect_index {V} (l : list (string * V)) : list (string * V) := foldl (λ m p, im_insert p.1 p.2 m) [] l.

Definition commitment_json (c : Commitment) : Json :=
  JString match c with Included => "Included" | Confirmed => "Confirmed" | Finalized_ => "Finalized" end.

Definition logs_json (logs : list (string * string)) : Json := JObject ((λ p, (p.1, JString p.2)) <$> collect_index logs).

(** [str::to_lowercase], on the characters that matter to the comparison with
    words of ASCII letters. *)
Definition lower (c : ascii) : ascii :=
  let n := N_of_ascii c in if (65 <=? n)%N && (n <=? 90)%N then ascii_of_N (n + 32) else c.
Fixpoint to_lowercase (s : string) : string := match s with EmptyString => EmptyString | String c s => String (lower c) (to_lowercase s) end.

(** [extract_commitment] *)
Definition extract_commitment (params : gmap string string) : Commitment :=
  match params !! "commitment"%string with
  | None => Finalized_
  | Some value =>
      if String.eqb (to_lowercase value) "finalized" then Finalized_
      else if String.eqb (to_lowercase value) "confirmed" then Confirmed
      else Finalized_
  end.

(** [Display] of the errors that are reported. *)
Definition transaction_error_to_string (e : TransactionError) : string :=
  match e with
  | TooManyAccounts => "The transaction is referencing too many accounts"
  | ParamsTooBig => "The transaction's params blob is too big"
  end.
Definition signature_error_to_string (e : SignatureError) : string :=
  match e with InvalidSignature => "Signature verification failed" | MissingSigners => "Missing Signers" end.

(** [OptionNext::poll] (stream.rs): an absent stream is pending for ever. *)
Definition option_next {S A} (poll : S → option A * S) (stream : option S) : option A * option S :=
  match stream with
  | Some s => let '(r, s) := poll s in (r, Some s)
  | None => (None, None)
  end.

Section rpc.
Context `{Crypto} `{!TextForms} `{WasmRuntime} `{!BlockData (list Transaction)} {T : Type} `{SledTree T} {St : Type} `{StateStore St}.
Context `{!Bincode (Produced (list Transaction))} `{!Bincode StoredOutputs} `{!Bincode ExecutedTransaction}.
Context `{!ToJson Transaction} `{!ToJson (list Vote)} `{!ToJson ContractError} `{!ToJson Genesis}.
Abbreviation BlockType := (list Transaction).

(** The state that the handlers share, and the channel of transactions, while
    its other end is there. *)
Record ServiceSharedState := MkService {
  svc_state : St;
  svc_blocks : @BlockStore T;
  svc_genesis : Genesis;
  svc_sender : option (list Transaction)
}.

Definition mh_b58 (h : Multihash) : string := to_b58 (mh_to_bytes h).

(** [TransactionHash::from_str] *)
Definition transaction_hash_from_str (s : string) : Result Z Multihash :=
  l ← map_err (λ _, BAD_REQUEST) (bs58_decode s);
  ok_or (mh_from_bytes l) BAD_REQUEST.

(** ** Reading *)

Definition serve_transaction (hash : Multihash) (svc : ServiceSharedState) : Outcome Response :=
  r ← get_transaction (svc_blocks svc) hash;
  mret match r with
       | Some tx =>
           (OK, JObject [
             ("hash", JString (mh_b58 (tx_hash (et_transaction tx))));
             ("block", JNumber (et_block tx));
             ("commitment", json_option commitment_json (get_block_commitment (svc_blocks svc) (et_block tx)));
             ("transaction", to_json (et_transaction tx));
             ("output", json_result logs_json to_json (et_output tx)) ])
       | None => (NOT_FOUND, JObject [("transaction", JString (mh_b58 hash)); ("error", JString "not_found")])
       end.

(** The loop of [get_confirmed_account]: where a block is not found, the cursor
    stays where it is. *)
Fixpoint walk_confirmed (fuel : nat) (blocks : @BlockStore T) (account : Pubkey) (finalized_height cursor : Z) :
    Outcome (option Account) :=
  if cursor <=? finalized_height then Done None
  else match fuel with
       | O => OutOfFuel
       | S fuel =>
           r ← get_by_height blocks cursor;
           match r with
           | Some (block, _) =>
               match sd_get (out_state (output block)) account with
               | Some acc => Done (Some acc)
               | None => walk_confirmed fuel blocks account finalized_height (cursor - 1)
               end
           | None => walk_confirmed fuel blocks account finalized_height cursor
           end
       end.

Definition get_confirmed_account (fuel : nat) (account : Pubkey) (svc : ServiceSharedState) : Outcome (option Account) :=
  let latest_finalized := latest (svc_blocks svc) Finalized_ in
  let latest_confirmed := latest (svc_blocks svc) Confirmed in
  match latest_finalized with
  | Some finalized =>
      match latest_confirmed with
      | Some confirmed => walk_confirmed fuel (svc_blocks svc) account (height finalized) (height confirmed)
      | None => Done None
      end
  | None => Done None
  end.

Definition account_response (account : Pubkey) (acc : Account) (c : Commitment) : Response :=
  (OK, JObject [
    ("account", JObject [
      ("address", pubkey_serialize account);
      ("nonce", JNumber (nonce acc));
      ("owner", json_option pubkey_serialize (owner acc));
      ("data", json_option (λ d, JString (to_b58 d)) (data acc)) ]);
    ("commitment", commitment_json c) ]).

Definition serve_account (fuel : nat) (account : Pubkey) (params : gmap string string) (svc : ServiceSharedState) : Outcome Response :=
  let commitment := extract_commitment params in
  confirmed ← (if bool_decide (commitment = Confirmed) then get_confirmed_account fuel account svc else Done None);
  mret match confirmed with
       | Some acc => account_response account acc commitment
       | None =>
           match state_get (svc_state svc) account with
           | Some acc => account_response account acc Finalized_
           | None => (NOT_FOUND, JObject [("account", pubkey_serialize account); ("error", JString "not_found")])
           end
       end.

Definition latest_or_genesis (c : Commitment) (svc : ServiceSharedState) : Z * Multihash :=
  match latest (svc_blocks svc) c with
  | Some b => (height b, block_hash b)
  | None => (0, genesis_hash (svc_genesis svc))
  end.

Definition serve_info (version : string) (svc : ServiceSharedState) : Json :=
  let '(fheight, fhash) := latest_or_genesis Finalized_ svc in
  let '(cheight, chash) := latest_or_genesis Confirmed svc in
  JObject [
    ("system", JObject [("name", JString "Rensa"); ("version", JString version)]);
    ("finalized", JObject [("height", JNumber fheight); ("block", JString (mh_b58 fhash))]);
    ("confirmed", JObject [("height", JNumber cheight); ("block", JString (mh_b58 chash))]);
    ("genesis", to_json (svc_genesis svc)) ].

Definition serve_block (h : Z) (svc : ServiceSharedState) : Outcome Response :=
  r ← get_by_height (svc_blocks svc) h;
  mret match r with
       | Some (block, commitment) =>
           let b := underlying block in
           (OK, JObject [
             ("commitment", commitment_json commitment);
             ("block", JObject [
               ("parent", JString (mh_b58 (parent b)));
               ("state", JString (mh_b58 (state_hash b)));
               ("height", JNumber (height b));
               ("hash", JString (mh_b58 (block_hash b)));
               ("producer", pubkey_serialize (signature b).1);
               ("signature", JString (to_b58 (sig_to_bytes (signature b).2)));
               ("votes", to_json (votes b));
               ("transactions", JObject (collect_index ((λ tx, (mh_b58 (tx_hash tx), to_json tx)) <$> block_data b))) ]);
             ("outputs", JObject (collect_index ((λ p, (mh_b58 p.1, logs_json p.2)) <$> out_logs (output block))));
             ("errors", JObject (collect_index ((λ p, (mh_b58 p.1, to_json p.2)) <$> out_errors (output block)))) ])
       | None => (NOT_FOUND, JObject [("error", JString "not found")])
       end.

(** ** Sending *)

(** The nonce that the next transaction of a payer must have: one more than the
    last one expected in this request, or than the account's. *)
Definition expected_nonce (fuel : nat) (p : Pubkey) (svc : ServiceSharedState) (nonces : gmap Pubkey Z) : Outcome Z :=
  match nonces !! p with
  | Some known => Done (wrap64 (known + 1))
  | None =>
      confirmed ← get_confirmed_account fuel p svc;
      let acc := match confirmed with Some a => Some a | None => state_get (svc_state svc) p end in
      Done (wrap64 (match acc with Some a => nonce a | None => 0 end + 1))
  end.

Definition invalid_nonce (expected found : Z) : string :=
  ("invalid nonce. expected " ++ pretty (Z.to_N expected) ++ ", found " ++ pretty (Z.to_N found))%string.

Definition svc_send (tx : Transaction) (svc : ServiceSharedState) : option ServiceSharedState :=
  queue ← svc_sender svc; Some (MkService (svc_state svc) (svc_blocks svc) (svc_genesis svc) (Some (queue ++ [tx]))).

(** The loop over the transactions; without a receiver it ends the request. *)
Fixpoint send_each (fuel : nat) (txs : list Transaction) (outputs : list (string * string)) (nonces : gmap Pubkey Z)
    (svc : ServiceSharedState) : Outcome (option (list (string * string)) * ServiceSharedState) :=
  match txs with
  | [] => Done (Some outputs, svc)
  | transaction :: txs =>
      let answer s := outputs ++ [(mh_b58 (tx_hash transaction), s)] in
      match verify_limits transaction (limits (svc_genesis svc)) with
      | Err e => send_each fuel txs (answer (transaction_error_to_string e)) nonces svc
      | Ok _ =>
          match verify_signatures transaction with
          | Err e => send_each fuel txs (answer (signature_error_to_string e)) nonces svc
          | Ok _ =>
              expected ← expected_nonce fuel (payer transaction) svc nonces;
              let nonces := <[payer transaction := expected]> nonces in
              if negb (tx_nonce transaction =? expected)
              then send_each fuel txs (answer (invalid_nonce expected (tx_nonce transaction))) nonces svc
              else match svc_send transaction svc with
                   | Some svc => send_each fuel txs (answer "ok"%string) nonces svc
                   | None => Done (None, svc)
                   end
          end
      end
  end.

Definition serve_send_transactions (fuel : nat) (txs : list Transaction) (svc : ServiceSharedState) :
    Outcome (Response * ServiceSharedState) :=
  '(outputs, svc) ← send_each fuel txs [] ∅ svc;
  mret match outputs with
       | Some outputs => ((ACCEPTED, JArray ((λ p, JObject [(p.1, JString p.2)]) <$> outputs)), svc)
       | None => ((INTERNAL_SERVER_ERROR, JObject [("error", JString "channel closed")]), svc)
       end.

(** ** The stream of transactions *)

Definition api_poll_next (receiver : list Transaction) : option Transaction * list Transaction :=
  match receiver with tx :: rest => (Some tx, rest) | [] => (None, []) end.
End rpc.
