(* ===== verification/RpcProps.v ===== *)
(** * Properties of the RPC service: what it forwards, and which requests end *)
From S2P Require Import Prelude Primitives Text State Transaction Contract Block Machine VmExample Execution Consumer Sled BlockStore StoreExample Rpc.

(** ** Transactions *)

Section sending.
Context `{Crypto} `{!TextForms} `{WasmRuntime} `{!BlockData (list Transaction)} {T : Type} `{SledTree T} {St : Type} `{StateStore St}.
Context `{!Bincode (Produced (list Transaction))} `{!Bincode StoredOutputs} `{!Bincode ExecutedTransaction}.
Implicit Types (svc : @ServiceSharedState _ T St) (tx : Transaction) (txs sent : list Transaction) (nonces : gmap Pubkey Z).

(** The checks of a transaction before it is passed on. *)
Definition well_made svc tx : Prop := verify_limits tx (limits (svc_genesis svc)) = Ok tt ∧ verify_signatures tx = Ok tt.

(** The nonces of the transactions [sent], which go up from those expected
    before: [bound] is the last nonce expected of each payer. *)
Fixpoint nonces_rise (bound : Pubkey → Z) (sent : list Transaction) : Prop :=
  match sent with
  | [] => True
  | tx :: sent => bound (payer tx) < tx_nonce tx ∧ nonces_rise (λ p, if bool_decide (p = payer tx) then tx_nonce tx else bound p) sent
  end.

(** Each transaction has an answer, which is [ok] when it was passed on. *)
Inductive answered : list Transaction → list Transaction → list (string * string) → Prop :=
  | AnsweredNil : answered [] [] []
  | AnsweredSent tx txs sent outs : answered txs sent outs → answered (tx :: txs) (tx :: sent) ((mh_b58 (tx_hash tx), "ok"%string) :: outs)
  | AnsweredRefused tx txs sent outs s : s ≠ "ok"%string → answered txs sent outs → answered (tx :: txs) sent ((mh_b58 (tx_hash tx), s) :: outs).

Definition svc_queue svc : list Transaction := default [] (svc_sender svc).

Lemma svc_send_some tx svc svc' :
  svc_send tx svc = Some svc' → svc_sender svc' = Some (svc_queue svc ++ [tx]) ∧ is_Some (svc_sender svc) ∧
    svc_state svc' = svc_state svc ∧ svc_blocks svc' = svc_blocks svc ∧ svc_genesis svc' = svc_genesis svc.
Proof. unfold svc_send, svc_queue. destruct (svc_sender svc); [|done]. by intros [= <-]. Qed.

Lemma svc_send_open tx svc : is_Some (svc_sender svc) → ∃ svc', svc_send tx svc = Some svc'.
Proof. unfold svc_send. intros [q ->]. cbn. by eexists. Qed.

(** ** Confirmed accounts *)

(** The heights above the last finalized block that are confirmed. *)
Definition confirmed_range svc : Z * Z :=
  match latest (svc_blocks svc) Finalized_, latest (svc_blocks svc) Confirmed with
  | Some f, Some c => (height f, height c)
  | _, _ => (0, 0)
  end.

(** The account as the block at a height leaves it. *)
Definition written_at svc (h : Z) (account : Pubkey) : option Account :=
  match get_by_height (svc_blocks svc) h with
  | Done (Some (e, _)) => sd_get (out_state (output e)) account
  | _ => None
  end.

Definition found svc (h : Z) : Prop := ∃ r, get_by_height (svc_blocks svc) h = Done (Some r).
Definition heights_found svc : Prop := ∀ h, (confirmed_range svc).1 < h ≤ (confirmed_range svc).2 → found svc h.
Definition enough_fuel svc (fuel : nat) : Prop := (confirmed_range svc).2 - (confirmed_range svc).1 ≤ Z.of_nat fuel.

(** The latest write among the heights between [lo] and [hi]. *)
Definition newest svc (account : Pubkey) (lo hi : Z) (r : option Account) : Prop :=
  match r with
  | Some acc => ∃ h, lo < h ≤ hi ∧ written_at svc h account = Some acc ∧ ∀ x, h < x ≤ hi → written_at svc x account = None
  | None => ∀ x, lo < x ≤ hi → written_at svc x account = None
  end.

Lemma newest_step svc account lo hi r : newest svc account lo (hi - 1) r → written_at svc hi account = None → newest svc account lo hi r.
Proof.
  unfold newest. intros Hr Hw. assert (∀ x, x ≤ hi → x ≤ hi - 1 ∨ x = hi) as Hx by (intros; lia).
  destruct r as [acc|].
  - destruct Hr as (h & ? & ? & Hn). exists h. split_and!; [lia|lia|done|]. intros x ?.
    destruct (Hx x) as [?| ->]; [lia|apply Hn; lia|done].
  - intros x ?. destruct (Hx x) as [?| ->]; [lia|apply Hr; lia|done].
Qed.

Lemma walk_confirmed_newest svc account fuel lo cursor :
  (∀ h, lo < h ≤ cursor → found svc h) → cursor - lo ≤ Z.of_nat fuel →
  ∃ r, walk_confirmed fuel (svc_blocks svc) account lo cursor = Done r ∧ newest svc account lo cursor r.
Proof.
  revert cursor. induction fuel as [|fuel IH]; intros cursor Hf Hfuel; cbn [walk_confirmed];
    destruct (Z.leb_spec cursor lo) as [|Hc]; try lia; [exists None; split; [done|intros x ?; lia]..|].
  destruct (Hf cursor) as [[e c] He]; [lia|]. rewrite He. cbn [mbind outcome_bind].
  destruct (sd_get (out_state (output e)) account) as [acc|] eqn:Hw.
  - exists (Some acc). split; [done|]. exists cursor. unfold written_at at 1. rewrite He. split_and!; [lia|lia|done|]. intros; lia.
  - destruct (IH (cursor - 1)) as (r & -> & Hr); [intros; apply Hf; lia|lia|]. exists r. split; [done|].
    apply newest_step; [done|]. unfold written_at. by rewrite He.
Qed.

Lemma get_confirmed_account_newest svc account fuel :
  heights_found svc → enough_fuel svc fuel →
  ∃ r, get_confirmed_account fuel account svc = Done r ∧ newest svc account (confirmed_range svc).1 (confirmed_range svc).2 r.
Proof.
  unfold heights_found, enough_fuel, get_confirmed_account, confirmed_range.
  destruct (latest (svc_blocks svc) Finalized_), (latest (svc_blocks svc) Confirmed); cbn [fst snd]; intros Hf Hfuel;
    try (exists None; split; [done|intros x ?; lia]).
  by apply walk_confirmed_newest.
Qed.

Lemma walk_confirmed_stuck svc account fuel lo cursor gap :
  lo < gap ≤ cursor → get_by_height (svc_blocks svc) gap = Done None →
  (∀ h, gap < h ≤ cursor → found svc h ∧ written_at svc h account = None) →
  walk_confirmed fuel (svc_blocks svc) account lo cursor = OutOfFuel.
Proof.
  intros Hgap Hn. revert cursor Hgap. induction fuel as [|fuel IH]; intros cursor Hgap Hf; cbn [walk_confirmed];
    rewrite (proj2 (Z.leb_gt _ _)) by lia; [done|].
  destruct (Z.eq_dec cursor gap) as [->|]; [rewrite Hn; cbn [mbind outcome_bind]; by apply IH|].
  destruct (Hf cursor) as [[[e c] He] Hw]; [lia|]. unfold written_at in Hw. rewrite He in Hw |- *. cbn [mbind outcome_bind].
  rewrite Hw. apply IH; [lia|]. intros; apply Hf; lia.
Qed.

(** ** Batches *)

(** The nonce of an account as a request sees it. *)
Definition account_nonce (fuel : nat) svc (p : Pubkey) : Z :=
  match get_confirmed_account fuel p svc with
  | Done r => match (match r with Some a => Some a | None => state_get (svc_state svc) p end) with Some a => nonce a | None => 0 end
  | _ => 0
  end.

(** The last nonce expected of a payer. *)
Definition bound_of (fuel : nat) svc nonces (p : Pubkey) : Z := default (account_nonce fuel svc p) (nonces !! p).

(** What does not change while a request is served. *)
Definition same_reads svc svc' : Prop :=
  svc_state svc' = svc_state svc ∧ svc_blocks svc' = svc_blocks svc ∧ svc_genesis svc' = svc_genesis svc.

Lemma same_reads_account svc svc' fuel p : same_reads svc svc' → get_confirmed_account fuel p svc' = get_confirmed_account fuel p svc.
Proof. unfold get_confirmed_account. by intros (_ & -> & _). Qed.

Lemma same_reads_nonce svc svc' fuel p : same_reads svc svc' → account_nonce fuel svc' p = account_nonce fuel svc p.
Proof. intros Hs. unfold account_nonce. rewrite (same_reads_account svc svc') by done. destruct Hs as (-> & _). done. Qed.

Lemma expected_nonce_done svc svc' fuel p nonces :
  heights_found svc → enough_fuel svc fuel → same_reads svc svc' →
  expected_nonce fuel p svc' nonces = Done (wrap64 (bound_of fuel svc nonces p + 1)).
Proof.
  intros Hf Hfuel Hs. unfold expected_nonce, bound_of. destruct (nonces !! p) as [k|]; [done|]. cbn [default from_option id].
  rewrite (same_reads_account svc) by done. unfold account_nonce.
  destruct (get_confirmed_account_newest svc p fuel Hf Hfuel) as (r & -> & _). cbn [mbind outcome_bind]. by destruct Hs as (-> & _).
Qed.

Lemma nonces_rise_mono bound bound' sent : (∀ p, bound' p ≤ bound p) → nonces_rise bound sent → nonces_rise bound' sent.
Proof.
  revert bound bound'. induction sent as [|tx sent IH]; intros bound bound' Hb; [done|]. intros [Hlt Hr]. split.
  - specialize (Hb (payer tx)). lia.
  - revert Hr. apply IH. intros p. by case_bool_decide.
Qed.

(** Refusals are not answered with [ok]. *)
Lemma transaction_error_text e : transaction_error_to_string e ≠ "ok"%string.
Proof. by destruct e. Qed.
Lemma signature_error_text e : signature_error_to_string e ≠ "ok"%string.
Proof. by destruct e. Qed.
Lemma invalid_nonce_text x y : invalid_nonce x y ≠ "ok"%string.
Proof. by unfold invalid_nonce. Qed.

(** The expected nonces leave room for [n] more transactions. *)
Definition nonces_room (fuel : nat) svc nonces (n : nat) : Prop :=
  ∀ p, 0 ≤ bound_of fuel svc nonces p ∧ bound_of fuel svc nonces p + Z.of_nat n ≤ u64_max.

(** A loop over [txs] that answers all of them and passes some of them on. *)
Definition batch_served (fuel : nat) svc nonces txs svc0 outputs (r : Outcome (option (list (string * string)) * @ServiceSharedState _ T St)) : Prop :=
  ∃ sent outs svc',
    r = Done (Some (outputs ++ outs), svc') ∧ same_reads svc svc' ∧ svc_sender svc' = Some (svc_queue svc0 ++ sent) ∧
    answered txs sent outs ∧ Forall (well_made svc) sent ∧ nonces_rise (bound_of fuel svc nonces) sent.

Lemma bound_of_insert fuel svc nonces tx x p :
  bound_of fuel svc (<[payer tx := x]> nonces) p = if bool_decide (p = payer tx) then x else bound_of fuel svc nonces p.
Proof. unfold bound_of. case_bool_decide as E; [subst p; by rewrite lookup_insert_eq|by rewrite lookup_insert_ne]. Qed.

Lemma nonces_room_weaken fuel svc nonces n : nonces_room fuel svc nonces (S n) → nonces_room fuel svc nonces n.
Proof. intros Hr p. destruct (Hr p). split; lia. Qed.

Lemma nonces_room_insert fuel svc nonces tx n :
  nonces_room fuel svc nonces (S n) → nonces_room fuel svc (<[payer tx := bound_of fuel svc nonces (payer tx) + 1]> nonces) n.
Proof. intros Hr p. rewrite bound_of_insert. destruct (Hr p), (Hr (payer tx)). case_bool_decide; split; lia. Qed.

Lemma batch_refused fuel svc nonces nonces' tx txs svc0 outputs s r :
  s ≠ "ok"%string → (∀ p, bound_of fuel svc nonces p ≤ bound_of fuel svc nonces' p) →
  batch_served fuel svc nonces' txs svc0 (outputs ++ [(mh_b58 (tx_hash tx), s)]) r →
  batch_served fuel svc nonces (tx :: txs) svc0 outputs r.
Proof.
  intros Hok Hmono (sent & outs & svc' & -> & ? & ? & ? & ? & Hr). exists sent, ((mh_b58 (tx_hash tx), s) :: outs), svc'.
  rewrite <-app_assoc. split_and!; try done; [by constructor|by eapply nonces_rise_mono].
Qed.

Lemma batch_sent fuel svc nonces tx txs svc0 svc1 outputs r :
  well_made svc tx → tx_nonce tx = bound_of fuel svc nonces (payer tx) + 1 → svc_sender svc1 = Some (svc_queue svc0 ++ [tx]) →
  batch_served fuel svc (<[payer tx := tx_nonce tx]> nonces) txs svc1 (outputs ++ [(mh_b58 (tx_hash tx), "ok"%string)]) r →
  batch_served fuel svc nonces (tx :: txs) svc0 outputs r.
Proof.
  intros Hwell Heq Hq (sent & outs & svc' & -> & ? & Hq' & ? & ? & Hr).
  exists (tx :: sent), ((mh_b58 (tx_hash tx), "ok"%string) :: outs), svc'. rewrite <-!app_assoc. split_and!; try done; [|by constructor..|].
  - rewrite Hq'. unfold svc_queue at 1. rewrite Hq. cbn [default from_option id]. by rewrite <-app_assoc.
  - cbn [nonces_rise]. split; [lia|]. revert Hr. apply nonces_rise_mono. intros p. rewrite bound_of_insert. done.
Qed.

Lemma send_each_spec fuel svc txs nonces svc0 outputs :
  heights_found svc → enough_fuel svc fuel → same_reads svc svc0 → is_Some (svc_sender svc0) →
  nonces_room fuel svc nonces (length txs) →
  batch_served fuel svc nonces txs svc0 outputs (send_each fuel txs outputs nonces svc0).
Proof.
  intros Hf Hfuel. revert nonces svc0 outputs. induction txs as [|tx txs IH]; intros nonces svc0 outputs Hs Hopen Hroom.
  { exists [], [], svc0. rewrite !app_nil_r. split_and!; try done; [|constructor].
    unfold svc_queue. by destruct Hopen as [q ->]. }
  cbn [send_each length] in Hroom |- *. destruct Hs as (Hs1 & Hs2 & Hs3). rewrite Hs3.
  destruct (verify_limits tx (limits (svc_genesis svc))) as [[]|e] eqn:Hlim.
  2: { eapply batch_refused; [apply transaction_error_text|done|]. apply IH; [done|done|by apply nonces_room_weaken]. }
  destruct (verify_signatures tx) as [[]|e] eqn:Hsig.
  2: { eapply batch_refused; [apply signature_error_text|done|]. apply IH; [done|done|by apply nonces_room_weaken]. }
  rewrite (expected_nonce_done svc) by done. cbn [mbind outcome_bind].
  rewrite wrap64_id by (destruct (Hroom (payer tx)); unfold is_u64; lia).
  destruct (Z.eqb_spec (tx_nonce tx) (bound_of fuel svc nonces (payer tx) + 1)) as [Heq|Hne]; cbn [negb].
  - destruct (svc_send_open tx svc0 Hopen) as [svc1 Hsend]. rewrite Hsend.
    destruct (svc_send_some _ _ _ Hsend) as (Hq & _ & ? & ? & ?).
    eapply batch_sent; [by split|done|done|]. rewrite Heq.
    apply IH; [by split_and!; etrans|by rewrite Hq|by apply nonces_room_insert].
  - eapply batch_refused; [apply invalid_nonce_text| |apply IH; [done|done|by apply nonces_room_insert]].
    intros p. rewrite bound_of_insert. case_bool_decide; [subst p; lia|done].
Qed.

(** ** Theorems *)


(** A request for an account at the confirmed level is answered after at most as many steps
    as there are confirmed blocks above the last finalized one, with the account as the newest
    of them that writes it leaves it, and with the finalized account if none of them does. *)
Theorem confirmed_account_newest fuel account params svc :
  heights_found svc → enough_fuel svc fuel → extract_commitment params = Confirmed →
  ∃ r, serve_account fuel account params svc = Done r ∧
    ∃ acc, newest svc account (confirmed_range svc).1 (confirmed_range svc).2 acc ∧
    r = match acc with
        | Some acc => account_response account acc Confirmed
        | None => match state_get (svc_state svc) account with
                  | Some acc => account_response account acc Finalized_
                  | None => (NOT_FOUND, JObject [("account", pubkey_serialize account); ("error", JString "not_found")])
                  end
        end.
Proof.
  intros Hf Hfuel Hc. unfold serve_account. rewrite Hc, bool_decide_true by done.
  destruct (get_confirmed_account_newest svc account fuel Hf Hfuel) as (acc & -> & Hacc). cbn [mbind outcome_bind].
  eexists. split; [done|]. exists acc. by split.
Qed.

(** A confirmed height that the store cannot serve stops the walk over the confirmed blocks
    for good: the cursor is only moved where a block is found. If the blocks above the gap
    do not write the account, a request for it at the confirmed level never returns, whatever
    the fuel; nor does a request that sends a transaction, whose limits and signatures are in
    order, which that account pays for. *)
Theorem confirmed_gap_hangs_request account params tx txs gap svc :
  (confirmed_range svc).1 < gap ≤ (confirmed_range svc).2 → get_by_height (svc_blocks svc) gap = Done None →
  (∀ h, gap < h ≤ (confirmed_range svc).2 → found svc h ∧ written_at svc h account = None) →
  extract_commitment params = Confirmed → well_made svc tx → payer tx = account →
  ∀ fuel, serve_account fuel account params svc = OutOfFuel ∧ serve_send_transactions fuel (tx :: txs) svc = OutOfFuel.
Proof.
  intros Hgap Hn Hf Hc [Hlim Hsig] Hpayer fuel.
  assert (get_confirmed_account fuel account svc = OutOfFuel) as Hstuck.
  { unfold get_confirmed_account. unfold confirmed_range in *.
    destruct (latest (svc_blocks svc) Finalized_), (latest (svc_blocks svc) Confirmed); cbn [fst snd] in *; try lia.
    by apply (walk_confirmed_stuck _ _ _ _ _ gap). }
  split.
  - unfold serve_account. by rewrite Hc, bool_decide_true, Hstuck.
  - unfold serve_send_transactions. cbn [send_each]. rewrite Hlim, Hsig. unfold expected_nonce. rewrite lookup_empty, Hpayer.
    by rewrite Hstuck.
Qed.

(** A transaction with the wrong nonce raises the nonce that is expected of the next one of its
    payer: after it, the transaction with the right nonce is refused as well. *)
Lemma refused_transaction_spoils_batch fuel tx tx' svc outputs nonces e :
  well_made svc tx → well_made svc tx' → payer tx' = payer tx → expected_nonce fuel (payer tx) svc nonces = Done e → is_u64 (e + 1) →
  tx_nonce tx ≠ e → tx_nonce tx' = e →
  send_each fuel [tx; tx'] outputs nonces svc =
    Done (Some (outputs ++ [(mh_b58 (tx_hash tx), invalid_nonce e (tx_nonce tx)); (mh_b58 (tx_hash tx'), invalid_nonce (e + 1) e)]), svc).
Proof.
  intros [Hl Hs] [Hl' Hs'] Hp He Hu Hne Heq. cbn [send_each]. rewrite Hl, Hs, He. cbn [mbind outcome_bind].
  rewrite (proj2 (Z.eqb_neq _ _)) by done. cbn [negb]. rewrite Hl', Hs', Hp. unfold expected_nonce. rewrite lookup_insert_eq.
  cbn [mbind outcome_bind]. rewrite wrap64_id by done. rewrite Heq, (proj2 (Z.eqb_neq _ _)) by lia. cbn [negb]. by rewrite <-app_assoc.
Qed.
End sending.
