(* ===== verification/StoreService.v ===== *)
(** * What a store with details serves

    The composition of the block store with the RPC service: the outputs are there
    for every block that is there, so that the walk over the confirmed blocks finds
    every height that was confirmed. *)
From S2P Require Import Prelude Primitives Text State Transaction Contract Block Machine Execution Consumer Sled BlockStore VmExample StoreExample BlockStoreProps Rpc RpcProps.

Section store.
Context `{Crypto} `{WasmRuntime} `{!BlockData (list Transaction)} {T : Type} `{SledTreeLaws T}.
Context `{!Bincode (Produced (list Transaction))} `{!Bincode StoredOutputs} `{!Bincode ExecutedTransaction}.
Context `{!BincodeLaws (Produced (list Transaction))} `{!BincodeLaws StoredOutputs} `{!BincodeLaws ExecutedTransaction}.
Implicit Types (s : @BlockStore T) (b : Produced (list Transaction)) (e : Executed (list Transaction)).

(** The records of outputs are encoded outputs. *)
Definition outputs_ok s : Prop := ∀ k v, tree_lookup (outputs s) k = Some v → ∃ o : StoredOutputs, v = bincode_serialize o.

Definition output_at s (x : Z) : Prop := is_Some (tree_lookup (outputs s) (height_key x)).

(** Every block that is stored has its outputs. *)
Definition outputs_kept s : Prop :=
  outputs_ok s ∧ ∀ x, is_u64 x → is_Some (confirmed_at s x) ∨ is_Some (finalized_at s x) → output_at s x.

Lemma prune_outputs_lookup h s s' x :
  block_tree (confirmed_tree s) → block_tree (finalized_tree s) → detailed s = true → is_u64 h → is_u64 x →
  prune_older_than h s = (s', Done tt) →
  tree_lookup (outputs s') (height_key x) = if x <? h then None else tree_lookup (outputs s) (height_key x).
Proof.
  intros Hc Hf Hd Hh Hx Hp. destruct (Z.eq_dec h 0) as [->|Hne].
  - unfold prune_older_than in Hp. cbn in Hp. injection Hp as <-. rewrite (proj2 (Z.ltb_ge _ _)) by (unfold is_u64 in Hx; lia). done.
  - destruct (prune_done h s Hc Hf) as (s1 & Hp1 & _ & _ & _ & _ & Ho & _); [unfold is_u64 in Hh; lia|]. rewrite Hp in Hp1. injection Hp1 as <-.
    rewrite Ho, Hd. by apply pruned_lookup.
Qed.

Lemma raw_block_trees s s1 b c :
  c ≠ Included → 0 < height b ≤ u64_max → block_tree (confirmed_tree s) → block_tree (finalized_tree s) →
  store_raw_block b c s = (s1, Done tt) → block_tree (confirmed_tree s1) ∧ block_tree (finalized_tree s1).
Proof.
  intros Hc Hh Hbc Hbf (_ & _ & _ & _ & Hraw)%store_raw_block_inv. destruct c; [done| |].
  - destruct Hraw as [-> ->]. split; [by apply block_tree_insert|done].
  - destruct Hraw as (_ & -> & ->). split; [by apply (block_tree_remove _ [_])|by apply block_tree_insert].
Qed.

Lemma prune_outputs_ok h s s' :
  block_tree (confirmed_tree s) → block_tree (finalized_tree s) → is_u64 h → prune_older_than h s = (s', Done tt) → outputs_ok s → outputs_ok s'.
Proof.
  intros Hc Hf Hh Hp Hok. destruct (Z.eq_dec h 0) as [->|Hne].
  - unfold prune_older_than in Hp. cbn in Hp. by injection Hp as <-.
  - destruct (prune_done h s Hc Hf) as (s1 & Hp1 & _ & _ & _ & _ & Ho & _); [unfold is_u64 in Hh; lia|]. rewrite Hp in Hp1. injection Hp1 as <-.
    intros k v. rewrite Ho. destruct (detailed s); [|apply Hok]. rewrite foldl_remove_lookup. case_bool_decide; [done|apply Hok].
Qed.

(** Consuming a block keeps the outputs that are not older than the window and
    adds those of its height. *)
Lemma store_consume_outputs s e c s' :
  store_wf s → detailed s = true → c ≠ Included → 0 < height (underlying e) ≤ u64_max → store_consume e c s = (s', Done tt) → outputs_ok s →
  outputs_ok s' ∧ ∀ x, is_u64 x → cutoff s (underlying e) ≤ x → height (underlying e) = x ∨ output_at s x → output_at s' x.
Proof.
  intros (Hbc & Hbf & Hlen & _) Hd Hc Hh Hs Hok. apply store_consume_inv in Hs as (s1 & s2 & s3 & Hs1 & Hs2 & Hs3 & ->); [|done].
  destruct (raw_block_trees s s1 _ c Hc Hh Hbc Hbf Hs1) as [Hbc1 Hbf1]. apply store_raw_block_inv in Hs1 as (Hd1 & _ & _ & Ho1 & _).
  rewrite Hd in Hs2. apply store_outputs_inv in Hs2 as (Hd2 & _ & _ & Hc2 & Hf2 & Ho2). rewrite <-Hc2 in Hbc1. rewrite <-Hf2 in Hbf1.
  assert (is_u64 (saturating_sub (height (underlying e)) (history_len s))) as Hcu by (apply saturating_sub_u64; [unfold is_u64; lia|done]).
  rewrite Ho1 in Ho2. unfold outputs_ok, output_at. destruct (store_hash_trees (underlying e) s3) as (_ & _ & -> & _). split.
  - apply (prune_outputs_ok _ s2 s3 Hbc1 Hbf1 Hcu Hs3). intros k v. rewrite Ho2.
    destruct (tree_lookup (outputs s) (height_key _)); [apply Hok|]. rewrite tree_lookup_insert. case_bool_decide; [|apply Hok].
    intros [= <-]. by eexists.
  - intros x Hx Hcut Hout. rewrite (prune_outputs_lookup (saturating_sub (height (underlying e)) (history_len s)) s2 s3 x Hbc1 Hbf1); [|by rewrite Hd2, Hd1|exact Hcu|exact Hx|exact Hs3].
    unfold cutoff in Hcut. rewrite (proj2 (Z.ltb_ge _ _)) by done. rewrite Ho2.
    destruct (tree_lookup (outputs s) (height_key (height (underlying e)))) as [v|] eqn:E.
    + destruct Hout as [<-|Hout]; [rewrite E; by eexists|exact Hout].
    + rewrite tree_lookup_insert. case_bool_decide as Hk; [by eexists|]. destruct Hout as [<-|Hout]; [done|exact Hout].
Qed.

Lemma store_step_kept s s' : store_wf s → detailed s = true → outputs_kept s → store_step s s' → outputs_kept s' ∧ detailed s' = true.
Proof.
  intros Hwf Hd [Hok Hkept] Hstep. destruct Hstep as [s e c Hh Hacc Hw]. pose proof (store_consume_cases s e c Hwf Hh Hacc) as Hcases. cbn [consume store_consumer].
  destruct (decide (c = Included)) as [->|Hc]; [done|].
  destruct (_ || _); [|by rewrite Hcases]. destruct Hcases as [s1 Hs1]. rewrite Hs1. cbn [fst].
  destruct (store_consume_facts s e c s1 Hwf Hc Hh Hs1) as (_ & _ & _ & Hd1 & _ & Hx).
  destruct (store_consume_outputs s e c s1 Hwf Hd Hc Hh Hs1 Hok) as [Hok1 Hout]. split; [|by rewrite Hd1]. split; [done|].
  intros x Hxu Hat. destruct (Hx x Hxu) as [E1 E2]. rewrite E1, E2 in Hat. cbn [spec_consume fst snd] in Hat.
  destruct (Z.ltb_spec x (cutoff s (underlying e))) as [|Hcut]; [by destruct Hat as [[]|[]]|]. apply Hout; [done|done|].
  destruct (Z.eqb_spec (height (underlying e)) x) as [|Hne]; [by left|]. right. by apply Hkept.
Qed.

(** What is stored with its outputs is found by its height. *)
Lemma get_by_height_found s x :
  store_wf s → outputs_kept s → is_u64 x → is_Some (confirmed_at s x) ∨ is_Some (finalized_at s x) →
  ∃ e c, get_by_height s x = Done (Some (e, c)) ∧
    match c with Confirmed => confirmed_at s x | Finalized_ => finalized_at s x | Included => None end = Some (underlying e).
Proof.
  intros (Hbc & Hbf & _) [Hok Hkept] Hx Hat. destruct (Hkept x Hx Hat) as [v Hv]. destruct (Hok _ _ Hv) as [o ->]. unfold get_by_height. rewrite Hv.
  destruct (confirmed_at s x) as [b|] eqn:Ec.
  - pose proof (block_at_inv _ _ _ Hbc Hx Ec) as [_ ->]. rewrite bincode_roundtrip. cbn. rewrite bincode_roundtrip. cbn.
    eexists _, Confirmed. by split.
  - assert (tree_lookup (confirmed_tree s) (height_key x) = None) as ->.
    { destruct (tree_lookup (confirmed_tree s) _) eqn:E; [|done]. destruct (proj2 (block_at_some _ x Hbc) (ex_intro _ _ E)) as [b' Hb'].
      unfold confirmed_at in Ec. congruence. }
    destruct Hat as [[]|[b Hb]]; [done|]. pose proof (block_at_inv _ _ _ Hbf Hx Hb) as [_ ->]. rewrite bincode_roundtrip. cbn. rewrite bincode_roundtrip. cbn.
    eexists _, Finalized_. by split.
Qed.

(** C11: A store with details serves every block that it holds: from an empty one on, and
    whatever is sent to it as long as the confirmed blocks do not run ahead of the finalized ones by
    more than the history, each height at which there is a confirmed or a finalized block is
    found, with that block and its commitment. So none of the confirmed heights that
    follow each other without a gap stops the RPC service. *)
Theorem detailed_store_serves_blocks s0 s :
  (∀ k, tree_lookup (confirmed_tree s0) k = None) → (∀ k, tree_lookup (finalized_tree s0) k = None) → (∀ k, tree_lookup (outputs s0) k = None) →
  0 ≤ history_len s0 → detailed s0 = true → rtc store_step s0 s →
  (∀ x, is_u64 x → is_Some (confirmed_at s x) ∨ is_Some (finalized_at s x) →
     ∃ e c, get_by_height s x = Done (Some (e, c)) ∧
       match c with Confirmed => confirmed_at s x | Finalized_ => finalized_at s x | Included => None end = Some (underlying e)) ∧
  ∀ {St} (svc : @ServiceSharedState _ T St), svc_blocks svc = s → 0 ≤ (confirmed_range svc).1 → (confirmed_range svc).2 ≤ u64_max →
    (∀ h, (confirmed_range svc).1 < h ≤ (confirmed_range svc).2 → is_Some (confirmed_at s h)) → heights_found svc.
Proof.
  intros Hc Hf Ho Hl Hd Hsteps. assert (store_wf s ∧ outputs_kept s) as [Hwf Hkept].
  { assert (store_wf s0) as Hwf by (by apply empty_wf).
    assert (outputs_kept s0) as Hkept. { split; [intros k v; by rewrite Ho|]. intros x _. unfold confirmed_at, finalized_at, block_at. rewrite Hc, Hf. by intros [[]|[]]. }
    clear Hc Hf Ho Hl. induction Hsteps as [|s1 s2 s3 Hstep _ IH]; [done|].
    destruct (store_step_kept s1 s2 Hwf Hd Hkept Hstep) as [Hk2 Hd2]. apply IH; [done|by eapply store_step_wf|done]. }
  split; [intros x Hx Hat; by apply get_by_height_found|].
  intros St svc <- Hlo Hhi Hall h Hh. destruct (get_by_height_found (svc_blocks svc) h Hwf Hkept) as (e & c & He & _); [unfold is_u64; lia|left; by apply Hall|].
  by exists (e, c).
Qed.
End store.
