(* ===== verification/Dbsync.v ===== *)
(** * Synchronisation with a database (src/dbsync/mod.rs)

    The statements that describe a block, as the texts that are sent, and the
    transaction in which they are executed. The database is a class. *)
From S2P Require Import Prelude Primitives Text State Transaction Contract Block Machine Execution Consumer Rpc.

(** [sqlx]: a connection, and statements on it. A transaction works on a copy
    which the commit publishes, and which is dropped when it is not reached. *)
Class SqlDatabase (D : Type) := {
  SqlError : Type;
  db_acquire : D → Result SqlError unit;
  db_begin : D → Result SqlError D;
  db_execute : string → D → Result SqlError D;
  db_commit : D → Result SqlError D
}.

Section text.
Open Scope string_scope.

(** [format!("{}")] of an unsigned number. *)
Definition show (z : Z) : string := pretty (Z.to_N z).
Definition show_pos (i : nat) : string := show (Z.of_nat i).
Definition quoted (s : string) : string := "'" ++ s ++ "'".
Definition flag (b : bool) : string := if b then "1" else "0".
Definition or_null {A} (f : A → string) (o : option A) : string := match o with Some a => quoted (f a) | None => "NULL" end.

(** [Debug] of [Commitment] *)
Definition commitment_debug (c : Commitment) : string :=
  match c with Included => "Included" | Confirmed => "Confirmed" | Finalized_ => "Finalized" end.

Context `{Crypto} `{!BlockData (list Transaction)}.
Implicit Types (e : Executed (list Transaction)) (tx : Transaction) (pos : nat).

(** ** Statements *)

(** A new row, or the new commitment of a block that is there. *)
Definition block_header_stmt (now : string) e (c : Commitment) : Outcome string :=
  let block := underlying e in
  match c with
  | Included => Panic
  | Confirmed =>
      Done ("INSERT INTO block VALUES (" ++ show (height block) ++ ", " ++ quoted (mh_b58 (block_hash block)) ++ ", " ++
        quoted (mh_b58 (parent block)) ++ ", " ++ quoted (pubkey_display (signature block).1) ++ ", " ++
        quoted (to_b58 (sig_to_bytes (signature block).2)) ++ ", " ++ quoted (mh_b58 (state_hash block)) ++ ", " ++
        quoted (commitment_debug c) ++ ", " ++ quoted now ++ ")")
  | Finalized_ => Done ("UPDATE block SET commitment = " ++ quoted (commitment_debug c) ++ " WHERE height = " ++ show (height block))
  end.

Definition transaction_stmt e tx pos : string :=
  "INSERT INTO transaction VALUES (" ++ quoted (mh_b58 (tx_hash tx)) ++ ", " ++ show (height (underlying e)) ++ ", " ++
    quoted (pubkey_display (contract tx)) ++ ", " ++ show (tx_nonce tx) ++ ", " ++ quoted (to_b58 (params tx)) ++ ", " ++
    quoted (pubkey_display (payer tx)) ++ ", " ++ show_pos pos ++ ")".

Definition transaction_account_stmt tx (acc : AccountRef) pos : string :=
  "INSERT INTO transaction_accounts VALUES (" ++ quoted (mh_b58 (tx_hash tx)) ++ ", " ++ quoted (pubkey_display (address acc)) ++ ", " ++
    flag (ref_signer acc) ++ ", " ++ flag (ref_writable acc) ++ ", " ++ show_pos pos ++ ")".

Definition transaction_signature_stmt tx (sig : Signature) pos : string :=
  "INSERT INTO transaction_signatures VALUES (" ++ quoted (mh_b58 (tx_hash tx)) ++ ", " ++ quoted (to_b58 (sig_to_bytes sig)) ++ ", " ++
    show_pos pos ++ ")".

Definition transaction_output_stmt tx (log : string * string) pos : string :=
  "INSERT INTO transaction_logs VALUES (" ++ quoted (mh_b58 (tx_hash tx)) ++ ", " ++ quoted log.1 ++ ", " ++ quoted log.2 ++ ", " ++
    show_pos pos ++ ")".

Definition transaction_error_stmt tx (error : string) : string :=
  "INSERT INTO transaction_errors VALUES (" ++ quoted (mh_b58 (tx_hash tx)) ++ ", " ++ quoted error ++ ")".

Definition state_diff_stmt e (account : Pubkey) (acc : option Account) pos : string :=
  match acc with
  | Some acc =>
      "INSERT INTO state_diff VALUES (" ++ show (height (underlying e)) ++ ", " ++ quoted (pubkey_display account) ++ ", " ++
        or_null to_b58 (data acc) ++ ", " ++ show (nonce acc) ++ ", " ++ or_null pubkey_display (owner acc) ++ ", " ++
        flag (executable acc) ++ ", 0, " ++ show_pos pos ++ ")"
  | None =>
      "INSERT INTO state_diff VALUES (" ++ show (height (underlying e)) ++ ", " ++ quoted (pubkey_display account) ++
        ", NULL, NULL, NULL, 0, 1, " ++ show_pos pos ++ ")"
  end.

Definition vote_stmt e (vote : Vote) pos : string :=
  "INSERT INTO vote VALUES (" ++ show (height (underlying e)) ++ ", " ++ quoted (mh_b58 (target vote)) ++ ", " ++
    quoted (mh_b58 (justification vote)) ++ ", " ++ quoted (pubkey_display (validator vote)) ++ ", " ++
    quoted (to_b58 (sig_to_bytes (vote_signature vote))) ++ ", " ++ show_pos pos ++ ")".
End text.

(** ** Execution *)

Section sync.
Context `{Crypto} `{!BlockData (list Transaction)} {D : Type} `{SqlDatabase D}.
Implicit Types (e : Executed (list Transaction)) (tx : Transaction) (db : D).

(** [for (i, x) in l.iter().enumerate() { .. ? }] *)
Fixpoint for_each {A} (f : nat → A → D → Result SqlError D) (i : nat) (l : list A) (db : D) : Result SqlError D :=
  match l with
  | [] => Ok db
  | x :: l => db ← f i x db; for_each f (S i) l db
  end.

(** The logs of a transaction, or its error. *)
Definition sync_output e tx db : Result SqlError D :=
  match im_get (tx_hash tx) (out_logs (output e)) with
  | Some outputs => for_each (λ i output, db_execute (transaction_output_stmt tx output i)) 0 outputs db
  | None =>
      match im_get (tx_hash tx) (out_errors (output e)) with
      | Some error => db_execute (transaction_error_stmt tx (contract_error_to_string error)) db
      | None => Ok db
      end
  end.

Definition sync_transaction e (i : nat) tx db : Result SqlError D :=
  db ← db_execute (transaction_stmt e tx i) db;
  db ← for_each (λ i acc, db_execute (transaction_account_stmt tx acc i)) 0 (accounts tx) db;
  db ← for_each (λ i sig, db_execute (transaction_signature_stmt tx sig i)) 0 (signatures tx) db;
  sync_output e tx db.

(** The details of a block, which are only inserted when it is confirmed. *)
Definition sync_details e db : Result SqlError D :=
  db ← for_each (sync_transaction e) 0 (block_data (underlying e)) db;
  db ← for_each (λ i vote, db_execute (vote_stmt e vote i)) 0 (votes (underlying e)) db;
  for_each (λ i p, db_execute (state_diff_stmt e p.1 p.2 i)) 0 (sd_iter (out_state (output e))) db.

(** The database after a block was synchronised. *)
Definition sync_block (now : string) e (c : Commitment) db : Outcome (Result SqlError D) :=
  if bool_decide (c = Included) then Done (Ok db)
  else match db_acquire db with
       | Err error => Done (Err error)
       | Ok _ =>
           match db_begin db with
           | Err error => Done (Err error)
           | Ok dbtransaction =>
               stmt ← block_header_stmt now e c;
               Done (dbtransaction ← db_execute stmt dbtransaction;
                     dbtransaction ← (if bool_decide (c = Confirmed) then sync_details e dbtransaction else Ok dbtransaction);
                     db_commit dbtransaction)
           end
       end.

(** An error is reported; the transaction is dropped with it. *)
Definition dbsync_consume (now : string) db e (c : Commitment) : D :=
  match sync_block now e c db with Done (Ok db) => db | _ => db end.

Definition dbsync_consumer (now : string) : BlockConsumer D := {| consume := dbsync_consume now |}.

(** [DatabaseSync::new] creates the tables. *)
Definition DatabaseSync_new (schema : string) (pool : D) : Result SqlError D :=
  _ ← db_acquire pool; db_execute schema pool.
End sync.
