(* ===== verification/DbsyncProps.v ===== *)
(** * Properties of the synchronisation with a database

    The statements are read back by a reader of the literals of SQL: texts in
    quotes, in which a quote is doubled, and bare words. *)
From S2P Require Import Prelude Primitives Text State Transaction Contract Block Machine Execution Consumer Rpc Dbsync.
From Stdlib Require Import Strings.Ascii.

(** ** Reading statements *)

Inductive SqlValue := Quoted (s : string) | Bare (w : string).

(** The table and the values of an inserted row. *)
Abbreviation Row := (string * list SqlValue)%type.

Section reader.
Open Scope string_scope.

(** The rest of a text literal, after its first quote. *)
Fixpoint read_text (s : string) : option (string * string) :=
  match s with
  | "" => None
  | String "'" (String "'" s) => r ← read_text s; Some (String "'" r.1, r.2)
  | String "'" s => Some ("", s)
  | String c s => r ← read_text s; Some (String c r.1, r.2)
  end.

Definition ends_word (c : ascii) : bool := Ascii.eqb c "," || Ascii.eqb c ")" || Ascii.eqb c "'".
Fixpoint read_word (s : string) : string * string :=
  match s with
  | "" => ("", "")
  | String c s' => if ends_word c then ("", s) else let r := read_word s' in (String c r.1, r.2)
  end.

Definition read_value (s : string) : option (SqlValue * string) :=
  match s with
  | String "'" s => r ← read_text s; Some (Quoted r.1, r.2)
  | _ => let r := read_word s in Some (Bare r.1, r.2)
  end.

(** At most [n] values, up to the closing parenthesis, and what follows it. *)
Fixpoint read_row (n : nat) (s : string) : option (list SqlValue * string) :=
  match n with
  | O => None
  | S n =>
      p ← read_value s;
      match p.2 with
      | String ")" s => Some ([p.1], s)
      | String "," (String " " s) => r ← read_row n s; Some (p.1 :: r.1, r.2)
      | _ => None
      end
  end.

Fixpoint strip_prefix (p s : string) : option string :=
  match p, s with
  | "", _ => Some s
  | String c p, String d s => if Ascii.eqb c d then strip_prefix p s else None
  | _, _ => None
  end.

(** An insertion into a table of [n] columns at most, and the text after it. *)
Definition read_insert (n : nat) (table s : string) : option (list SqlValue * string) :=
  s ← strip_prefix ("INSERT INTO " ++ table ++ " VALUES (") s; read_row n s.

(** *** Writing *)

Definition value_text (v : SqlValue) : string := match v with Quoted s => quoted s | Bare w => w end.
Fixpoint row_text (vs : list SqlValue) : string :=
  match vs with [] => "" | [v] => value_text v ++ ")" | v :: vs => value_text v ++ ", " ++ row_text vs end.
Definition insertion (r : Row) : string := "INSERT INTO " ++ r.1 ++ " VALUES (" ++ row_text r.2.

Fixpoint all_chars (f : ascii → bool) (s : string) : bool := match s with "" => true | String c s => f c && all_chars f s end.
Definition quote_free : string → bool := all_chars (λ c, negb (Ascii.eqb c "'")).
Definition is_word : string → bool := all_chars (λ c, negb (ends_word c)).
Definition clean (v : SqlValue) : bool := match v with Quoted s => quote_free s | Bare w => is_word w end.

Definition starts_with_quote (s : string) : bool := match s with String "'" _ => true | _ => false end.
Definition starts_with_end (s : string) : bool := match s with String c _ => ends_word c | "" => true end.

Lemma append_cons c s t : String c s ++ t = String c (s ++ t).
Proof. done. Qed.
Lemma append_nil s : "" ++ s = s.
Proof. done. Qed.
Lemma append_assoc r s t : (r ++ s) ++ t = r ++ (s ++ t).
Proof. induction r as [|c r IH]; [done|]. by rewrite !append_cons, IH. Qed.

Lemma read_text_quoted s rest : quote_free s = true → starts_with_quote rest = false → read_text (s ++ String "'" rest) = Some (s, rest).
Proof.
  intros Hs Hr. induction s as [|c s IH].
  - rewrite append_nil. destruct rest as [|c rest]; [done|]. destruct c as [[] [] [] [] [] [] [] []]; done.
  - apply andb_prop in Hs as [Hc Hs]. specialize (IH Hs). rewrite append_cons.
    destruct c as [[] [] [] [] [] [] [] []]; first [discriminate Hc|cbn; by rewrite IH].
Qed.

Lemma read_word_bare w rest : is_word w = true → starts_with_end rest = true → read_word (w ++ rest) = (w, rest).
Proof.
  intros Hw Hr. induction w as [|c w IH].
  - rewrite append_nil. destruct rest as [|c rest]; [done|]. cbn in Hr |- *. by rewrite Hr.
  - apply andb_prop in Hw as [Hc Hw]. rewrite append_cons. cbn. rewrite (proj1 (negb_true_iff _) Hc). by rewrite (IH Hw).
Qed.

Lemma read_value_word s : starts_with_quote s = false → read_value s = Some (Bare (read_word s).1, (read_word s).2).
Proof. destruct s as [|c s]; [done|]. by destruct c as [[] [] [] [] [] [] [] []]. Qed.

Lemma word_starts w rest : is_word w = true → starts_with_quote rest = false → starts_with_quote (w ++ rest) = false.
Proof.
  destruct w as [|c w]; [done|]. intros [Hc _]%andb_prop _. rewrite append_cons. by destruct c as [[] [] [] [] [] [] [] []].
Qed.

Lemma read_value_text v rest :
  clean v = true → starts_with_quote rest = false → starts_with_end rest = true → read_value (value_text v ++ rest) = Some (v, rest).
Proof.
  intros Hv Hq He. destruct v as [s|w]; cbn [value_text clean] in *.
  - unfold quoted. rewrite !append_assoc, !append_cons, !append_nil. cbn [read_value]. by rewrite read_text_quoted.
  - rewrite read_value_word by (by apply word_starts). by rewrite read_word_bare.
Qed.

Lemma read_row_text n vs rest :
  vs ≠ [] → (length vs ≤ n)%nat → forallb clean vs = true → read_row n (row_text vs ++ rest) = Some (vs, rest).
Proof.
  revert n. induction vs as [|v vs IH]; intros n Hne Hn Hc; [done|]. destruct n as [|n]; [cbn in Hn; lia|].
  apply andb_prop in Hc as [Hv Hc]. destruct vs as [|v' vs].
  - cbn [row_text read_row]. rewrite append_assoc. by rewrite (read_value_text v).
  - change (row_text (v :: v' :: vs)) with (value_text v ++ ", " ++ row_text (v' :: vs)). cbn [read_row]. rewrite !append_assoc.
    rewrite (read_value_text v) by done. rewrite !append_cons, append_nil. cbn [mbind option_bind fst snd].
    rewrite IH; [done|done|cbn in *; lia|done].
Qed.

Lemma strip_prefix_app p s : strip_prefix p (p ++ s) = Some s.
Proof. induction p as [|c p IH]; [by destruct s|]. rewrite append_cons. cbn. by rewrite Ascii.eqb_refl. Qed.

(** What is written is read, when no text ends early. *)
Lemma read_insertion (r : Row) rest n :
  r.2 ≠ [] → (length r.2 ≤ n)%nat → forallb clean r.2 = true → read_insert n r.1 (insertion r ++ rest) = Some (r.2, rest).
Proof.
  intros Hne Hn Hc. unfold read_insert, insertion.
  assert (("INSERT INTO " ++ r.1 ++ " VALUES (" ++ row_text r.2) ++ rest = ("INSERT INTO " ++ r.1 ++ " VALUES (") ++ row_text r.2 ++ rest) as ->
    by (by rewrite !append_assoc).
  rewrite strip_prefix_app. by apply read_row_text.
Qed.
End reader.

(** ** The rows of a block *)

Section rows.
Context `{Crypto} `{!BlockData (list Transaction)}.
Implicit Types (e : Executed (list Transaction)) (tx : Transaction).

Definition number (z : Z) : SqlValue := Bare (show z).
Definition position (i : nat) : SqlValue := Bare (show_pos i).
Definition hash_value (h : Multihash) : SqlValue := Quoted (mh_b58 h).
Definition key_value (k : Pubkey) : SqlValue := Quoted (pubkey_display k).
Definition optional {A} (f : A → string) (o : option A) : SqlValue := match o with Some a => Quoted (f a) | None => Bare "NULL" end.

Definition block_row (now : string) e : Row :=
  let b := underlying e in
  ("block"%string, [number (height b); hash_value (block_hash b); hash_value (parent b); key_value (signature b).1;
    Quoted (to_b58 (sig_to_bytes (signature b).2)); hash_value (state_hash b); Quoted "Confirmed"; Quoted now]).
Definition transaction_row e (i : nat) tx : Row :=
  ("transaction"%string, [hash_value (tx_hash tx); number (height (underlying e)); key_value (contract tx); number (tx_nonce tx);
    Quoted (to_b58 (params tx)); key_value (payer tx); position i]).
Definition account_row tx (i : nat) (acc : AccountRef) : Row :=
  ("transaction_accounts"%string, [hash_value (tx_hash tx); key_value (address acc); Bare (flag (ref_signer acc)); Bare (flag (ref_writable acc)); position i]).
Definition signature_row tx (i : nat) (sig : Signature) : Row :=
  ("transaction_signatures"%string, [hash_value (tx_hash tx); Quoted (to_b58 (sig_to_bytes sig)); position i]).
Definition log_row tx (i : nat) (log : string * string) : Row :=
  ("transaction_logs"%string, [hash_value (tx_hash tx); Quoted log.1; Quoted log.2; position i]).
Definition error_row tx (error : string) : Row := ("transaction_errors"%string, [hash_value (tx_hash tx); Quoted error]).
Definition vote_row e (i : nat) (v : Vote) : Row :=
  ("vote"%string, [number (height (underlying e)); hash_value (target v); hash_value (justification v); key_value (validator v);
    Quoted (to_b58 (sig_to_bytes (vote_signature v))); position i]).
Definition diff_row e (i : nat) (p : Pubkey * option Account) : Row :=
  ("state_diff"%string, [number (height (underlying e)); key_value p.1] ++
    match p.2 with
    | Some acc => [optional to_b58 (data acc); number (nonce acc); optional pubkey_display (owner acc); Bare (flag (executable acc)); Bare "0"]
    | None => [Bare "NULL"; Bare "NULL"; Bare "NULL"; Bare "0"; Bare "1"]
    end ++ [position i]).

(** The logs of a transaction, or else its error. *)
Definition output_rows e tx : list Row :=
  match im_get (tx_hash tx) (out_logs (output e)) with
  | Some logs => imap (log_row tx) logs
  | None => match im_get (tx_hash tx) (out_errors (output e)) with Some error => [error_row tx (contract_error_to_string error)] | None => [] end
  end.
Definition transaction_rows e (i : nat) tx : list Row :=
  transaction_row e i tx :: imap (account_row tx) (accounts tx) ++ imap (signature_row tx) (signatures tx) ++ output_rows e tx.

(** The rows that the block stands for, in the order of their insertion. *)
Definition block_rows (now : string) e : list Row :=
  block_row now e :: concat (imap (transaction_rows e) (block_data (underlying e))) ++
    imap (vote_row e) (votes (underlying e)) ++ imap (diff_row e) (sd_iter (out_state (output e))).

(** The texts that are not made by the node itself. *)
Definition quote_free_outputs (now : string) e : Prop :=
  quote_free now = true ∧
  (∀ tx logs, tx ∈ block_data (underlying e) → im_get (tx_hash tx) (out_logs (output e)) = Some logs →
    Forall (λ l, quote_free l.1 = true ∧ quote_free l.2 = true) logs) ∧
  (∀ tx error, tx ∈ block_data (underlying e) → im_get (tx_hash tx) (out_errors (output e)) = Some error →
    quote_free (contract_error_to_string error) = true).

(** *** The statements write these rows *)

Lemma block_statement now e : block_header_stmt now e Confirmed = Done (insertion (block_row now e)).
Proof. done. Qed.
Lemma transaction_statement e i tx : transaction_stmt e tx i = insertion (transaction_row e i tx).
Proof. done. Qed.
Lemma account_statement tx i acc : transaction_account_stmt tx acc i = insertion (account_row tx i acc).
Proof. done. Qed.
Lemma signature_statement tx i sig : transaction_signature_stmt tx sig i = insertion (signature_row tx i sig).
Proof. done. Qed.
Lemma log_statement tx i log : transaction_output_stmt tx log i = insertion (log_row tx i log).
Proof. done. Qed.
Lemma error_statement tx error : transaction_error_stmt tx error = insertion (error_row tx error).
Proof. done. Qed.
Lemma vote_statement e i v : vote_stmt e v i = insertion (vote_row e i v).
Proof. done. Qed.
Lemma diff_statement e i p : state_diff_stmt e p.1 p.2 i = insertion (diff_row e i p).
Proof. destruct p as [a [[x n [o|] [d|]]|]]; done. Qed.
End rows.

(** ** Clean values *)

Lemma pretty_go_word x s : is_word s = true → is_word (pretty_N_go x s) = true.
Proof.
  revert s. induction (N.lt_wf_0 x) as [x _ IH]; intros s Hs. destruct (decide (x = 0)%N) as [->|].
  - by rewrite pretty_N_go_0.
  - rewrite pretty_N_go_step by lia. apply IH; [apply N.div_lt; lia|]. cbn [is_word all_chars]. apply andb_true_intro. split; [|done].
    unfold pretty_N_char. by repeat case_match.
Qed.

Lemma show_word z : is_word (show z) = true.
Proof. unfold show, pretty, pretty_N. case_decide; [done|]. by apply pretty_go_word. Qed.

Lemma clean_number z : clean (number z) = true.
Proof. apply show_word. Qed.
Lemma clean_position i : clean (position i) = true.
Proof. apply show_word. Qed.

(** The alphabet of base58 has letters and digits. *)
Class Base58Alphabet `{Crypto} : Prop := bs58_quote_free : ∀ l, quote_free (bs58_encode l) = true.

Section clean.
Context `{Base58Alphabet} `{!BlockData (list Transaction)}.
Implicit Types (e : Executed (list Transaction)) (tx : Transaction).

Lemma clean_hash h : clean (hash_value h) = true.
Proof. apply bs58_quote_free. Qed.
Lemma clean_key k : clean (key_value k) = true.
Proof. apply bs58_quote_free. Qed.
Lemma clean_b58 l : clean (Quoted (to_b58 l)) = true.
Proof. apply bs58_quote_free. Qed.
Lemma clean_flag b : clean (Bare (flag b)) = true.
Proof. by destruct b. Qed.
Lemma clean_data o : clean (optional to_b58 o) = true.
Proof. destruct o; [apply bs58_quote_free|done]. Qed.
Lemma clean_owner o : clean (optional pubkey_display o) = true.
Proof. destruct o; [apply bs58_quote_free|done]. Qed.

Ltac clean_row :=
  cbn [forallb fst snd app block_row transaction_row account_row signature_row log_row error_row vote_row diff_row]; rewrite ?clean_number,
    ?clean_position, ?clean_hash, ?clean_key, ?clean_b58, ?clean_flag, ?clean_data, ?clean_owner.

(** A row that is read as it is written: it has at most eight clean values. *)
Definition legible (r : Row) : Prop := r.2 ≠ [] ∧ (length r.2 ≤ 8)%nat ∧ forallb clean r.2 = true.

Lemma legible_read r : legible r → read_insert 8 r.1 (insertion r) = Some (r.2, ""%string).
Proof.
  intros (Hne & Hlen & Hc). rewrite <-(read_insertion r ""%string 8 Hne Hlen Hc). f_equal.
  generalize (insertion r). intros s. induction s as [|c s IH]; [done|]. by rewrite append_cons, <-IH.
Qed.

Lemma legible_imap {A} (f : nat → A → Row) l : (∀ i x, x ∈ l → legible (f i x)) → Forall legible (imap f l).
Proof.
  intros Hf. apply Forall_forall. intros r (i & x & -> & Hx)%elem_of_lookup_imap. by eapply Hf, list_elem_of_lookup_2.
Qed.

Lemma output_rows_legible now e tx : quote_free_outputs now e → tx ∈ block_data (underlying e) → Forall legible (output_rows e tx).
Proof.
  intros (_ & Hlogs & Herr) Htx. unfold output_rows. destruct (im_get (tx_hash tx) (out_logs (output e))) as [logs|] eqn:Hl.
  - specialize (Hlogs tx logs Htx Hl). apply legible_imap. intros i x Hx. rewrite Forall_forall in Hlogs. destruct (Hlogs x Hx) as [H1 H2].
    split_and!; [done|cbn; lia|]. clean_row. cbn [clean]. by rewrite H1, H2.
  - destruct (im_get (tx_hash tx) (out_errors (output e))) as [error|] eqn:He; [|done].
    constructor; [|done]. split_and!; [done|cbn; lia|]. clean_row. cbn [clean]. by rewrite (Herr tx error Htx He).
Qed.

Lemma diff_row_legible e i p : legible (diff_row e i p).
Proof. destruct p as [a [acc|]]; (split_and!; [done|cbn; lia|]); by clean_row. Qed.

Lemma block_rows_legible now e : quote_free_outputs now e → Forall legible (block_rows now e).
Proof.
  intros Hq. unfold block_rows. constructor.
  { split_and!; [done|cbn; lia|]. clean_row. cbn [clean]. by rewrite (proj1 Hq). }
  apply Forall_app. split; [|apply Forall_app; split].
  - apply Forall_concat, Forall_forall. intros rows (i & tx & -> & Htx)%elem_of_lookup_imap. apply list_elem_of_lookup_2 in Htx.
    unfold transaction_rows. constructor; [split_and!; [done|cbn; lia|by clean_row]|]. apply Forall_app. split; [|apply Forall_app; split].
    + apply legible_imap. intros; split_and!; [done|cbn; lia|by clean_row].
    + apply legible_imap. intros; split_and!; [done|cbn; lia|by clean_row].
    + by apply (output_rows_legible now).
  - apply legible_imap. intros; split_and!; [done|cbn; lia|by clean_row].
  - apply legible_imap. intros. apply diff_row_legible.
Qed.
End clean.

(** ** Execution *)

Section sync.
Context `{Crypto} `{!BlockData (list Transaction)} {D : Type} `{SqlDatabase D}.
Implicit Types (e : Executed (list Transaction)) (tx : Transaction) (db : D) (rows : list Row).

(** The insertion of rows, one after the other, up to the first failure. *)
Fixpoint insert_all rows db : Result SqlError D :=
  match rows with [] => Ok db | r :: rows => db ← db_execute (insertion r) db; insert_all rows db end.

Lemma insert_all_app rows rows' db : insert_all (rows ++ rows') db = insert_all rows db ≫= insert_all rows'.
Proof. revert db. induction rows as [|r rows IH]; intros db; [done|]. cbn. destruct (db_execute _ _) as [db'|]; [apply IH|done]. Qed.

Lemma insert_all_one r db : insert_all [r] db = db_execute (insertion r) db.
Proof. cbn. by destruct (db_execute _ _). Qed.

(** A loop inserts the rows of its rounds. *)
Lemma for_each_rows {A} (f : nat → A → D → Result SqlError D) (g : nat → A → list Row) n l db :
  (∀ i x db, f i x db = insert_all (g i x) db) → for_each f n l db = insert_all (concat (imap (λ i, g (n + i)%nat) l)) db.
Proof.
  intros Hf. revert n db. induction l as [|x l IH]; intros n db; [done|]. cbn [for_each]. rewrite imap_cons, concat_cons, insert_all_app, Hf, Nat.add_0_r.
  destruct (insert_all (g n x) db) as [db'|]; [|done]. cbn [mbind result_bind]. rewrite IH. do 2 f_equal. apply imap_ext. intros. cbn. by rewrite Nat.add_succ_r.
Qed.

Lemma concat_singles {A} (g : nat → A → Row) l : concat (imap (λ i x, [g i x]) l) = imap g l.
Proof. revert g. induction l as [|x l IH]; intros g; [done|]. rewrite !imap_cons, concat_cons. cbn [app]. f_equal. apply (IH (g ∘ S)). Qed.

Lemma for_each_row {A} (f : nat → A → D → Result SqlError D) (g : nat → A → Row) l db :
  (∀ i x db, f i x db = db_execute (insertion (g i x)) db) → for_each f 0 l db = insert_all (imap g l) db.
Proof.
  intros Hf. rewrite (for_each_rows f (λ i x, [g i x])) by (intros; by rewrite insert_all_one). cbn [Nat.add]. by rewrite concat_singles.
Qed.

Lemma sync_output_rows e tx db : sync_output e tx db = insert_all (output_rows e tx) db.
Proof.
  unfold sync_output, output_rows. destruct (im_get (tx_hash tx) (out_logs (output e))) as [logs|].
  - by apply for_each_row.
  - destruct (im_get (tx_hash tx) (out_errors (output e))); [|done]. by rewrite insert_all_one.
Qed.

Lemma sync_transaction_rows e i tx db : sync_transaction e i tx db = insert_all (transaction_rows e i tx) db.
Proof.
  unfold sync_transaction, transaction_rows. cbn [insert_all]. rewrite transaction_statement.
  destruct (db_execute _ db) as [db1|]; [|done]. cbn [mbind result_bind]. rewrite !insert_all_app, (for_each_row _ (account_row tx)) by done.
  destruct (insert_all _ db1) as [db2|]; [|done]. cbn [mbind result_bind]. rewrite insert_all_app, (for_each_row _ (signature_row tx)) by done.
  destruct (insert_all _ db2) as [db3|]; [|done]. apply sync_output_rows.
Qed.

Lemma sync_details_rows now e db :
  sync_details e db = insert_all (tail (block_rows now e)) db.
Proof.
  unfold sync_details, block_rows. cbn [tail]. rewrite (for_each_rows _ (transaction_rows e)) by (intros; apply sync_transaction_rows). cbn [Nat.add].
  rewrite !insert_all_app. destruct (insert_all _ db) as [db1|]; [|done]. cbn [mbind result_bind]. rewrite insert_all_app, (for_each_row _ (vote_row e)) by done.
  destruct (insert_all _ db1) as [db2|]; [|done]. cbn [mbind result_bind]. apply for_each_row. intros. by rewrite diff_statement.
Qed.
End sync.

(** ** Theorems *)

Section theorems.
Context `{Crypto} `{!BlockData (list Transaction)} {D : Type} `{SqlDatabase D}.
Implicit Types (e : Executed (list Transaction)) (tx : Transaction) (db : D).

(** The rows of a confirmed block inside one transaction. *)
Definition synchronised (now : string) e db : D :=
  match (_ ← db_acquire db; db' ← db_begin db; db' ← insert_all (block_rows now e) db'; db_commit db') with Ok db' => db' | Err _ => db end.

Lemma consume_confirmed now e db : dbsync_consume now db e Confirmed = synchronised now e db.
Proof.
  unfold dbsync_consume, sync_block, synchronised. rewrite bool_decide_false by done. destruct (db_acquire db); [|done].
  destruct (db_begin db) as [db1|]; [|done]. rewrite block_statement. cbn [mbind outcome_bind result_bind]. rewrite bool_decide_true by done.
  change (insert_all (block_rows now e) db1) with (db' ← db_execute (insertion (block_row now e)) db1; insert_all (tail (block_rows now e)) db').
  destruct (db_execute _ db1) as [db2|]; [|done]. cbn [mbind result_bind]. by rewrite (sync_details_rows now).
Qed.


(** A value of a log that ends its text, and its statement, early. *)
Definition hostile (statement : string) : string := ("', 0); " ++ statement ++ " -- ")%string.

Lemma hostile_log_statement tx i k statement :
  insertion (log_row tx i (k, hostile statement)) =
    (insertion (log_row tx 0 (k, "")) ++ "; " ++ statement ++ " -- ', " ++ show_pos i ++ ")")%string.
Proof.
  unfold insertion, log_row, hostile, hash_value, position. cbn [fst snd row_text value_text]. unfold quoted.
  rewrite ?append_assoc, ?append_cons, ?append_nil, ?append_assoc. done.
Qed.

(** Nothing keeps the text of a log from being taken for statements. A contract that
    logs a value of a certain form makes the node send, as it synchronises the confirmed block,
    a text in which the insertion of the log, with an empty value, is complete, and which
    goes on with any statement that the contract chose. *)
Theorem contract_log_becomes_statement now e db tx logs i k statement :
  tx ∈ block_data (underlying e) → im_get (tx_hash tx) (out_logs (output e)) = Some logs →
  logs !! i = Some (k, hostile statement) → quote_free k = true → quote_free (mh_b58 (tx_hash tx)) = true →
  dbsync_consume now db e Confirmed = synchronised now e db ∧
  ∃ r, r ∈ block_rows now e ∧
    read_insert 8 "transaction_logs" (insertion r) =
      Some ([hash_value (tx_hash tx); Quoted k; Quoted ""; position 0], ("; " ++ statement ++ " -- ', " ++ show_pos i ++ ")")%string).
Proof.
  intros Htx Hlogs Hi Hk Hh. split; [apply consume_confirmed|]. exists (log_row tx i (k, hostile statement)). split.
  - apply list_elem_of_lookup in Htx as [j Hj]. unfold block_rows. right. apply elem_of_app. left. apply list_elem_of_In, List.in_concat.
    exists (transaction_rows e j tx). split; [apply list_elem_of_In, elem_of_lookup_imap; by eauto|]. apply list_elem_of_In.
    unfold transaction_rows. right. apply elem_of_app. right. apply elem_of_app. right. unfold output_rows. rewrite Hlogs.
    apply elem_of_lookup_imap. by eauto.
  - rewrite hostile_log_statement. apply (read_insertion (log_row tx 0 (k, ""%string))); [done|cbn; lia|].
    cbn [forallb log_row fst snd]. rewrite clean_position. unfold hash_value. cbn [clean]. by rewrite Hh, Hk.
Qed.

(** A finalized block changes one row, and an included one nothing. *)
Lemma consume_other now e db :
  dbsync_consume now db e Included = db ∧
  dbsync_consume now db e Finalized_ =
    match (_ ← db_acquire db; db' ← db_begin db;
           db' ← db_execute ("UPDATE block SET commitment = 'Finalized' WHERE height = " ++ show (height (underlying e)))%string db'; db_commit db')
    with Ok db' => db' | Err _ => db end.
Proof.
  split; [done|]. unfold dbsync_consume, sync_block. rewrite bool_decide_false by done. destruct (db_acquire db); [|done]. by destruct (db_begin db).
Qed.
End theorems.
