(* ===== verification/DbsyncExample.v ===== *)
(** * Blocks to evaluate the synchronisation on

    A database that keeps the texts it was sent, a block with a transaction, a
    log, a vote and a new account under a base58 of hexadecimal digits, and a
    coin whose name goes on with a statement, created by the currency contract. *)
From S2P Require Import Prelude Primitives Text State Transaction Contract Currency Block Machine VmExample Execution Consumer StoreExample CurrencyProps Rpc Dbsync DbsyncProps.
From Stdlib Require Import Strings.Byte.
Import CoinExample VmExample StoreExample.

Lemma im_get_one {K V} `{EqDecision K} (k k0 : K) (v w : V) : im_get k [(k0, v)] = Some w → w = v.
Proof. cbn. repeat case_match; naive_solver. Qed.

#[export] Instance toy_database : SqlDatabase (list string) := {|
  SqlError := unit;
  db_acquire _ := Ok tt;
  db_begin := Ok;
  db_execute s db := if (length db <? 100)%nat then Ok (db ++ [s]) else Err tt;
  db_commit := Ok
|}.

(** ** Clean texts *)

Definition hex_digit (n : N) : Ascii.ascii := Ascii.ascii_of_N (if (n <? 10)%N then 48 + n else 87 + n).
Fixpoint hex (l : bytes) : string :=
  match l with [] => "" | b :: l => String (hex_digit (Byte.to_N b / 16)) (String (hex_digit (Byte.to_N b mod 16)) (hex l)) end.

Definition hex_crypto : Crypto := {|
  Multihash := bytes; multihash_leb := bytes_leb; mh_to_bytes := id; mh_sha3 d := [x16; x20] ++ b32 d;
  Sha3_256 l := array32_of_Z (toy_digest l); Signature := bytes; sig_to_bytes := id; Keypair := Pubkey; keypair_public := id;
  ed25519_sign kp msg := b32 kp ++ msg; ed25519_verify pk msg sig := bool_decide (sig = b32 pk ++ msg);
  on_curve k := Z.odd (of_be_bytes (b32 k)); bs58_encode := hex; derive_bound := 2
|}.

#[export] Instance hex_alphabet : @Base58Alphabet hex_crypto.
Proof.
  intros l. cbn [bs58_encode hex_crypto]. induction l as [|b l IH]; [done|]. cbn [hex quote_free all_chars] in *. rewrite IH.
  by destruct b.
Qed.

Section clean_block.
#[local] Existing Instance hex_crypto | 0.

Definition hex_txs : BlockData (list (@Transaction hex_crypto)) := {| data_default := []; data_bincode txs := concat (params <$> txs) |}.
#[local] Existing Instance hex_txs | 0.

Definition hex_tx : @Transaction hex_crypto := Transaction_new prog 1 alice [MkAccountRef bob true false] [x01] [alice].
Definition hex_output : @BlockOutput hex_crypto :=
  MkBlockOutput (sd_set sd_default bob (MkAccount false 0 (Some prog) None)).2 [(tx_hash hex_tx, [("amount", "4")])] [].
Definition hex_vote : @Vote hex_crypto := Vote_new bob [x01] [x02].
Definition hex_block : Executed (list Transaction) :=
  MkExecuted (Produced_new (alice : @Keypair hex_crypto) 1 [x01] [hex_tx] (block_output_hash hex_output) [hex_vote]) hex_output.

Lemma hex_block_clean : quote_free_outputs "2023-01-01" hex_block.
Proof.
  split; [done|]. split.
  - intros tx logs _ Hl. apply im_get_one in Hl as ->. by constructor.
  - intros tx error _. done.
Qed.

End clean_block.

(** ** A coin with a hostile name *)

Module DbsyncExample.
Definition bad_name : string := hostile "DROP TABLE vote".
Definition create_tx : Transaction :=
  Transaction_new prog 1 alice [MkAccountRef mint_addr true false]
    (params_of (Create (array32_of_Z 7) alice 2 (Some bad_name) None)) [].
Definition created : BlockOutput :=
  match transactions_execute 1 toy_vm (λ _, None) [create_tx] with Done (Ok o) => o | _ => no_output end.
Definition create_block : Executed (list Transaction) :=
  MkExecuted (Produced_new (toy_key 3) 1 (genesis_hash toy_genesis) [create_tx] (block_output_hash created) []) created.
Definition create_logs : list (string * string) := default [] (im_get (tx_hash create_tx) (out_logs created)).

(** The block is valid: the validators execute it to this output. *)
Lemma create_block_executes : is_ok (done_or (Executed_new 1 (λ _, None) (underlying create_block) toy_vm) (Err InvalidTransactionsOrder)) = true.
Proof. by vm_compute. Qed.
Lemma create_logs_found : im_get (tx_hash create_tx) (out_logs (output create_block)) = Some create_logs.
Proof. apply is_some_default. by vm_compute. Qed.
Lemma create_logs_name : create_logs !! 2%nat = Some ("name"%string, bad_name).
Proof. apply (bool_decide_unpack _). by vm_compute. Qed.
Lemma create_hash_clean : quote_free (mh_b58 (tx_hash create_tx)) = true.
Proof. by vm_compute. Qed.
End DbsyncExample.
Import DbsyncExample.

Lemma contract_log_becomes_statement_witness :
  ∃ r, r ∈ block_rows "2023-01-01" create_block ∧
    read_insert 8 "transaction_logs" (insertion r) =
      Some ([hash_value (tx_hash create_tx); Quoted "name"; Quoted ""; position 0], "; DROP TABLE vote -- ', 2)"%string).
Proof.
  destruct (contract_log_becomes_statement "2023-01-01" create_block ([] : list string) create_tx create_logs 2 "name" "DROP TABLE vote") as [_ Hr].
  - by left.
  - exact create_logs_found.
  - exact create_logs_name.
  - reflexivity.
  - exact create_hash_clean.
  - exact Hr.
Defined.
