(* ===== verification/Cli.v ===== *)
(** * The command line (src/cli.rs)

    The options of a node and what is derived from them. Files and directories
    are a class; reading the options from the arguments is left to the package. *)
From S2P Require Import Prelude Primitives State Transaction Contract Block Machine Execution Consumer Dbsync.
From Stdlib Require Import Strings.Ascii.

(** [std::fs], [serde_json] on the genesis file and [shellexpand]: their errors
    are I/O errors, as a text. *)
Class HostSystem := {
  read_to_string : string → Result string string;
  genesis_from_json : string → Result string Genesis;
  expand_path : string → Result string string;
  create_dir_all : string → Result string unit
}.

(** [std::net] and the protocols of a multiaddress. *)
Inductive IpAddr := V4 (octets : list Z) | V6 (segments : list Z).
Abbreviation SocketAddr := (IpAddr * Z)%type.
Inductive Protocol := Ip4 (octets : list Z) | Ip6 (segments : list Z) | Tcp (port : Z).
Class MultiaddrOps (M : Type) := { multiaddr_empty : M; multiaddr_push : Protocol → M → M }.

(** [PathBuf::push]: an absolute path replaces the one it is added to. *)
Definition path_push (dir component : string) : string :=
  match component with
  | String "/" _ => component
  | _ => match String.get (String.length dir - 1) dir with
         | None | Some "/"%char => (dir ++ component)%string
         | _ => (dir ++ "/" ++ component)%string
         end
  end.

Section options.
Context `{Crypto} {Key : Type}.

Record CliOpts := MkCliOpts {
  opt_keypair : Key;
  opt_verbose : Z;
  opt_peer : list SocketAddr;
  opt_addr : list IpAddr;
  opt_port : Z;
  opt_genesis : string;
  opt_rpc : option Z;
  opt_data_dir : string;
  opt_blocks_history : option Z;
  opt_dbsync : option string
}.

Definition protocol_of (a : IpAddr) : Protocol := match a with V4 o => Ip4 o | V6 s => Ip6 s end.

Definition listen_multiaddrs `{MultiaddrOps M} (o : CliOpts) : list M :=
  (λ a, multiaddr_push (Tcp (opt_port o)) (multiaddr_push (protocol_of a) multiaddr_empty)) <$> opt_addr o.

Definition peers `{MultiaddrOps M} (o : CliOpts) : list M :=
  (λ a, multiaddr_push (Tcp a.2) (multiaddr_push (protocol_of a.1) multiaddr_empty)) <$> opt_peer o.

Definition rpc_endpoints (o : CliOpts) : option (list SocketAddr) :=
  (λ port, (λ a, (a, port)) <$> opt_addr o) <$> opt_rpc o.

Definition sort_validators (g : Genesis) : Genesis :=
  MkGenesis (chain_id g) (genesis_time g) (slot_interval g) (epoch_blocks g) (limits g) (builtins g)
    (stable_sort validator_leb (validators g)) (system_coin g) (genesis_state g).

Context `{HostSystem}.

(** [CliOpts::genesis] *)
Definition read_genesis (o : CliOpts) : Result string Genesis :=
  json ← read_to_string (opt_genesis o);
  g ← genesis_from_json json;
  Ok (sort_validators g).

Definition data_dir (o : CliOpts) : Result string string :=
  g ← read_genesis o;
  dir ← expand_path (opt_data_dir o);
  let dir := path_push dir (chain_id g) in
  _ ← create_dir_all dir;
  Ok dir.

(** One hour of blocks, unless the option says otherwise. The interval is in
    milliseconds; it is not checked to be different from zero. *)
Definition blocks_history (o : CliOpts) : Outcome Z :=
  match opt_blocks_history o with
  | Some n => Done n
  | None =>
      match read_genesis o with
      | Ok g =>
          let slot := wrap64 (slot_interval g) in
          if slot =? 0 then Panic else Done (60 * 60 * 1000 / slot)
      | Err _ => Panic
      end
  end.

(** The connection to the database, when one is asked for. *)
Definition cli_dbsync `{SqlDatabase D} (connect : string → Result SqlError D) (schema : string) (o : CliOpts) : Result SqlError (option D) :=
  match opt_dbsync o with
  | Some connection_string =>
      pool ← connect connection_string;
      db ← DatabaseSync_new schema pool;
      Ok (Some db)
  | None => Ok None
  end.
End options.

(** ** Properties *)

Lemma pubkey_leb_total a b : pubkey_leb a b = true ∨ pubkey_leb b a = true.
Proof. apply bytes_leb_total. Qed.

Lemma validator_leb_total a b : validator_leb a b = true ∨ validator_leb b a = true.
Proof.
  unfold validator_leb. repeat case_bool_decide; try congruence; [|apply pubkey_leb_total]. rewrite !Z.leb_le. lia.
Qed.

Lemma pubkey_leb_antisym a b : pubkey_leb a b = true → pubkey_leb b a = true → a = b.
Proof. intros Hab Hba. apply array32_eq. by apply bytes_leb_antisym. Qed.

Lemma validator_leb_antisym a b : validator_leb a b = true → validator_leb b a = true → a = b.
Proof.
  unfold validator_leb. destruct (decide (pubkey a = pubkey b)) as [Hk|Hk].
  - rewrite !bool_decide_true by done. rewrite !Z.leb_le. intros. destruct a, b. cbn in *. f_equal; [done|lia].
  - rewrite !bool_decide_false by congruence. intros. by destruct Hk; apply pubkey_leb_antisym.
Qed.

Lemma validator_leb_trans a b c : validator_leb a b = true → validator_leb b c = true → validator_leb a c = true.
Proof.
  unfold validator_leb. repeat case_bool_decide; try congruence; rewrite ?Z.leb_le; intros Hab Hbc.
  - lia.
  - exfalso. assert (pubkey b = pubkey a) by (apply pubkey_leb_antisym; congruence). congruence.
  - by eapply bytes_leb_trans.
Qed.

(** [Ord for Validator] is an order. *)
Definition validator_le (a b : Validator) : Prop := validator_leb a b = true.
#[export] Instance validator_le_trans : Transitive validator_le.
Proof. intros a b c. apply validator_leb_trans. Qed.
#[export] Instance validator_le_antisymm : AntiSymm (=) validator_le.
Proof. intros a b. apply validator_leb_antisym. Qed.

Lemma sort_validators_canonical l l' : l ≡ₚ l' → stable_sort validator_leb l = stable_sort validator_leb l'.
Proof.
  intros Hp. apply (Sorted_unique validator_le); [apply stable_sort_sorted, validator_leb_total..|]. by rewrite !stable_sort_perm.
Qed.

Section configuration.
Context `{Crypto} {Key : Type} `{HostSystem}.
Implicit Types (o : @CliOpts Key) (g : Genesis).

(** The same chain, up to the order in which the validators are listed. *)
Definition same_chain g g' : Prop :=
  validators g ≡ₚ validators g' ∧
  MkGenesis (chain_id g) (genesis_time g) (slot_interval g) (epoch_blocks g) (limits g) (builtins g) [] (system_coin g) (genesis_state g) =
  MkGenesis (chain_id g') (genesis_time g') (slot_interval g') (epoch_blocks g') (limits g') (builtins g') [] (system_coin g') (genesis_state g').

Lemma sort_validators_same g g' : same_chain g g' → sort_validators g = sort_validators g'.
Proof. intros [Hp Heq]. unfold sort_validators. injection Heq as -> -> -> -> -> -> -> ->. by rewrite (sort_validators_canonical _ _ Hp). Qed.

(** Two nodes whose genesis files list the same validators in different orders are on
    the same chain: they read the same genesis block, of the same hash, and its validators
    are the listed ones in the order of their keys. *)
Theorem genesis_order_irrelevant o o' j j' g g' :
  read_to_string (opt_genesis o) = Ok j → read_to_string (opt_genesis o') = Ok j' →
  genesis_from_json j = Ok g → genesis_from_json j' = Ok g' → same_chain g g' →
  ∃ b, read_genesis o = Ok b ∧ read_genesis o' = Ok b ∧ validators b ≡ₚ validators g ∧ Sorted validator_le (validators b).
Proof.
  intros Hj Hj' Hg Hg' Hs. exists (sort_validators g). unfold read_genesis. rewrite Hj, Hj'. cbn [mbind result_bind]. rewrite Hg, Hg'.
  cbn [mbind result_bind]. split_and!; [done|by rewrite (sort_validators_same g g')|apply stable_sort_perm|apply stable_sort_sorted, validator_leb_total].
Qed.

(** The default history is the number of blocks of one hour; with slots of no
    length the node panics as it starts, and with slots of more than an hour
    nothing is kept. *)
Lemma default_history o g :
  opt_blocks_history o = None → read_genesis o = Ok g → is_u64 (slot_interval g) →
  if bool_decide (slot_interval g = 0) then blocks_history o = Panic
  else ∃ n, blocks_history o = Done n ∧ n * slot_interval g ≤ 3600000 < (n + 1) * slot_interval g.
Proof.
  intros Ho Hg Hu. unfold blocks_history. rewrite Ho, Hg, wrap64_id by done. cbv zeta. change (60 * 60 * 1000) with 3600000. unfold is_u64 in Hu.
  case_bool_decide as Hz; [by rewrite Hz|]. rewrite (proj2 (Z.eqb_neq _ _)) by done. eexists. split; [done|].
  pose proof (Z.div_mod 3600000 (slot_interval g) Hz). pose proof (Z.mod_pos_bound 3600000 (slot_interval g)). lia.
Qed.

(** A chain whose name is an absolute path keeps its data there. *)
Lemma absolute_chain_id o g dir rest :
  read_genesis o = Ok g → expand_path (opt_data_dir o) = Ok dir → chain_id g = String "/" rest → create_dir_all (chain_id g) = Ok tt →
  data_dir o = Ok (chain_id g).
Proof. intros Hg Hd Hc Hcreate. unfold data_dir. rewrite Hg. cbn [mbind result_bind]. rewrite Hd. cbn [mbind result_bind]. rewrite Hc in Hcreate |- *. cbn. by rewrite Hcreate. Qed.
End configuration.

(** ** Witness *)

Section example.
Definition listed (vs : list Validator) : Genesis := MkGenesis "toy" 0 1000 4 (limits small_genesis) [] vs (array32_of_Z 1) ∅.
Definition v3 : Validator := MkValidator (array32_of_Z 3) 10.
Definition v5 : Validator := MkValidator (array32_of_Z 5) 1.

(** Two files with the same validators, in both orders. *)
#[local] Instance toy_host : HostSystem := {|
  read_to_string f := Ok f;
  genesis_from_json j := if String.eqb j "a" then Ok (listed [v3; v5]) else if String.eqb j "b" then Ok (listed [v5; v3]) else Err "no such file"%string;
  expand_path d := Ok d;
  create_dir_all _ := Ok tt
|}.
Definition opts (f : string) : @CliOpts unit := MkCliOpts tt 0 [] [V4 [0; 0; 0; 0]] 44668 f None "~/.rensa/" None None.

Lemma genesis_order_irrelevant_witness :
  ∃ b, read_genesis (opts "a") = Ok b ∧ read_genesis (opts "b") = Ok b ∧ validators b ≡ₚ [v3; v5] ∧ Sorted validator_le (validators b).
Proof.
  apply (genesis_order_irrelevant (opts "a") (opts "b") "a" "b" (listed [v3; v5]) (listed [v5; v3])).
  - reflexivity.
  - reflexivity.
  - reflexivity.
  - reflexivity.
  - split; [apply Permutation_swap|reflexivity].
Defined.
End example.
