(* ===== verification/Schedule.v ===== *)
(** * The leader schedule and replay requests (src/consensus/schedule.rs, src/network/responder.rs)

    The random generators are parameters, by the documented behaviour of the
    rand crate. Times are milliseconds, the clock is an argument. *)
From S2P Require Import Prelude Primitives State Transaction Block.

(** Sampling an index with probabilities proportional to weights. *)
Class WeightedRng := {
  Rng : Type;
  from_seed : array32 → Rng;
  WeightedIndex : Type;
  WeightedError : Type;
  WeightedIndex_new : list Z → Result WeightedError WeightedIndex;
  sample : WeightedIndex → Rng → nat * Rng
}.

(** The index is one of the weights given, and not that of a zero weight. *)
Class WeightedRngLaws `{WeightedRng} : Prop := {
  sample_positive : ∀ ws d r, WeightedIndex_new ws = Ok d → ∃ w, ws !! (sample d r).1 = Some w ∧ 0 < w
}.

Section schedule.
Context `{WeightedRng}.

(** ** The schedule *)

Record ValidatorSchedule := MkSchedule { rng : Rng; dist : WeightedIndex; sched_genesis : Genesis }.

(** [ValidatorSchedule::validators] *)
Definition sched_validators (g : Genesis) : list Validator :=
  filter (λ v, minimum_stake (limits g) ≤ stake v) (validators g).

Definition Schedule_new (seed : array32) (g : Genesis) : Result WeightedError ValidatorSchedule :=
  d ← WeightedIndex_new (stake <$> sched_validators g);
  mret (MkSchedule (from_seed seed) d g).

(** [Iterator::next] *)
Definition sched_next (s : ValidatorSchedule) : option Validator * ValidatorSchedule :=
  let '(i, r) := sample (dist s) (rng s) in
  (sched_validators (sched_genesis s) !! i, MkSchedule r (dist s) (sched_genesis s)).

(** ** The stream of slots *)

(** The counter of [Enumerate], the last slot that was yielded and the slot
    that the background task has announced. *)
Record ScheduleStream := MkStream {
  pos : Z;
  notif : Z;
  turn : Z;
  schedule : ValidatorSchedule
}.

Definition Stream_new (s : ValidatorSchedule) : ScheduleStream := MkStream 0 0 0 s.

(** [tx.send(pos)] of the background task *)
Definition announce (slot : Z) (s : ScheduleStream) : ScheduleStream := MkStream (pos s) slot (turn s) (schedule s).

(** The loop over the schedule: catches up with the announced slot. *)
Fixpoint catch_up (fuel : nat) (s : ScheduleStream) : Outcome (option (Z * Validator) * ScheduleStream) :=
  match fuel with
  | O => OutOfFuel
  | S fuel =>
      let '(v, sch) := sched_next (schedule s) in
      match v with
      | None => Done (None, MkStream (pos s) (notif s) (turn s) sch)
      | Some v =>
          let generator_turn := turn s in
          let s := MkStream (pos s) (notif s) (turn s + 1) sch in
          if generator_turn <? notif s then catch_up fuel s
          else if generator_turn =? notif s then
            Done (Some (generator_turn, v), MkStream generator_turn (notif s) (turn s) sch)
          else Panic
      end
  end.

(** [poll_next] *)
Definition stream_poll (fuel : nat) (s : ScheduleStream) : Outcome (option (Z * Validator) * ScheduleStream) :=
  if pos s <? notif s then catch_up fuel s else Done (None, s).
End schedule.

(** ** The background task *)

(** How long it sleeps before it reads the clock a second time. *)
Definition initial_sleep (now genesis : Z) : Z :=
  if now <? genesis then let wait_for := now - genesis in wrap64 wait_for else 0.

(** When it announces its first slot, and which: the one in which it read the
    clock, at the end of that slot. A slot of no time makes it divide by zero. *)
Definition first_announcement (now genesis slot : Z) : Outcome (Z * Z) :=
  if slot =? 0 then Panic
  else
    let elapsed := wrap64 (now - genesis) in
    let slots := elapsed / slot in
    let next := (slots + 1) * slot in
    let rem := next - elapsed in
    Done (now + rem, slots).

(** The loop that follows, after its [i]-th turn. *)
Definition announcement (first : Z * Z) (slot : Z) (i : nat) : Z * Z := (first.1 + Z.of_nat i * slot, first.2 + Z.of_nat i).

(** ** Replay requests *)

(** [(n as f64).log2().round() as u32]: the nearest integer of the binary
    logarithm, which is never half-way between two integers, and zero for zero. *)
Definition round_log2 (n : Z) : Z := (Z.log2 (n * n) + 1) / 2.

Section responder.
Context {R : Type} `{EqDecision R}.

Record SwarmResponder := MkResponder {
  low : Z;
  high : Z;
  requests : list (R * Z)
}.

Definition Responder_new (slot : Z) (network_size : Z) : SwarmResponder := MkResponder slot (slot * round_log2 network_size) [].

(** [request]: [Uniform::new] panics unless [low < high]; the delay that it
    then draws is an argument. *)
Definition request (now delay : Z) (req : R) (s : SwarmResponder) : Outcome SwarmResponder :=
  match im_get req (requests s) with
  | Some _ => Done s
  | None =>
      if low s <? high s
      then Done (MkResponder (low s) (high s) (requests s ++ [(req, now + delay)]))
      else Panic
  end.

Definition cancel (req : R) (s : SwarmResponder) : SwarmResponder := MkResponder (low s) (high s) (im_remove req (requests s)).

(** [poll_next] *)
Definition responder_poll (now : Z) (s : SwarmResponder) : option R * SwarmResponder :=
  match find_map (λ p, if p.2 <=? now then Some p.1 else None) (requests s) with
  | Some req => (Some req, cancel req s)
  | None => (None, s)
  end.
End responder.
Arguments SwarmResponder : clear implicits.
