(* ===== verification/ScheduleProps.v ===== *)
(** * Properties of the leader schedule and of replay requests *)
From S2P Require Import Prelude Primitives State Transaction Block Schedule.

(** ** The leader of a slot *)

Section leaders.
Context `{WeightedRngLaws}.
Implicit Types (s : ScheduleStream) (sch : ValidatorSchedule).

(** The schedule after [n] steps, and the leader of a slot. *)
Definition sched_after (n : nat) sch : ValidatorSchedule := Nat.iter n (λ x, (sched_next x).2) sch.
Definition leader sch (slot : Z) : option Validator := (sched_next (sched_after (Z.to_nat slot) sch)).1.

Definition sched_ok sch : Prop := WeightedIndex_new (stake <$> sched_validators (sched_genesis sch)) = Ok (dist sch).

Lemma Schedule_new_ok seed g sch : Schedule_new seed g = Ok sch → sched_ok sch ∧ sched_genesis sch = g.
Proof.
  unfold Schedule_new. intros (d & Hd & [= <-])%bind_ok. done.
Qed.

Lemma sched_next_ok sch : sched_ok sch → sched_ok (sched_next sch).2 ∧ sched_genesis (sched_next sch).2 = sched_genesis sch.
Proof. unfold sched_next. destruct (sample _ _). done. Qed.

Lemma sched_after_ok n sch : sched_ok sch → sched_ok (sched_after n sch) ∧ sched_genesis (sched_after n sch) = sched_genesis sch.
Proof.
  intros Hs. induction n as [|n [IH IHg]]; [done|].
  destruct (sched_next_ok _ IH) as [Ho Hg]. change (sched_after (S n) sch) with (sched_next (sched_after n sch)).2. by rewrite Hg.
Qed.

(** Every step of the schedule names a validator with enough stake, and some. *)
Lemma sched_next_some sch :
  sched_ok sch → ∃ v, (sched_next sch).1 = Some v ∧ v ∈ validators (sched_genesis sch) ∧
    minimum_stake (limits (sched_genesis sch)) ≤ stake v ∧ 0 < stake v.
Proof.
  intros Hs. unfold sched_next. destruct (sample_positive _ _ (rng sch) Hs) as (w & Hw & Hpos).
  destruct (sample (dist sch) (rng sch)) as [i r]. cbn [fst] in *. rewrite list_lookup_fmap in Hw.
  destruct (sched_validators (sched_genesis sch) !! i) as [v|] eqn:E; [|done]. injection Hw as <-.
  apply list_elem_of_lookup_2, list_elem_of_filter in E as [Hmin Hin]. by exists v.
Qed.

Lemma leader_some sch slot : sched_ok sch → ∃ v, leader sch slot = Some v ∧ v ∈ validators (sched_genesis sch) ∧
  minimum_stake (limits (sched_genesis sch)) ≤ stake v ∧ 0 < stake v.
Proof.
  intros Hs. destruct (sched_after_ok (Z.to_nat slot) sch Hs) as [Ho <-]. by apply sched_next_some.
Qed.

(** ** The stream *)

(** Slots are announced in increasing order; the stream is polled at any time. *)
Inductive stream_step : ScheduleStream → ScheduleStream → Prop :=
  | StepAnnounce slot s : notif s ≤ slot → stream_step s (announce slot s)
  | StepSlot fuel s o s' : stream_poll fuel s = Done (o, s') → stream_step s s'.

Definition stream_wf sch s : Prop :=
  sched_ok sch ∧ 0 ≤ turn s ∧ schedule s = sched_after (Z.to_nat (turn s)) sch ∧ 0 ≤ pos s ≤ notif s ∧
  (turn s = pos s + 1 ∨ turn s = 0 ∧ pos s = 0).

Lemma catch_up_leader fuel sch s :
  sched_ok sch → 0 ≤ turn s ≤ notif s → schedule s = sched_after (Z.to_nat (turn s)) sch →
  ∃ v, leader sch (notif s) = Some v ∧
    catch_up fuel s = if notif s - turn s <? Z.of_nat fuel
      then Done (Some (notif s, v), MkStream (notif s) (notif s) (notif s + 1) (sched_after (Z.to_nat (notif s + 1)) sch))
      else OutOfFuel.
Proof.
  intros Hok. revert s. induction fuel as [|fuel IH]; intros s Ht Hs.
  { destruct (leader_some sch (notif s) Hok) as (v & Hv & _). exists v. split; [done|]. by rewrite (proj2 (Z.ltb_ge _ _)) by lia. }
  cbn [catch_up]. destruct (sched_after_ok (Z.to_nat (turn s)) sch Hok) as [Hok' _]. destruct (sched_next_some _ Hok') as (v & Hv & _).
  assert ((sched_next (schedule s)).2 = sched_after (Z.to_nat (turn s + 1)) sch) as Hnext.
  { rewrite Hs, Z2Nat.inj_add, Nat.add_1_r by lia. reflexivity. }
  rewrite <-Hs in Hv. destruct (sched_next (schedule s)) as [o sch'] eqn:E. cbn [fst snd] in Hv, Hnext. subst o sch'. cbn [notif turn pos].
  destruct (Z.ltb_spec (turn s) (notif s)) as [Hlt|Hge].
  - destruct (IH (MkStream (pos s) (notif s) (turn s + 1) (sched_after (Z.to_nat (turn s + 1)) sch))) as (v' & Hl & Hc);
      cbn [turn notif schedule] in *; [lia|done|]. exists v'. split; [done|]. rewrite Hc.
    destruct (Z.ltb_spec (notif s - (turn s + 1)) (Z.of_nat fuel)), (Z.ltb_spec (notif s - turn s) (Z.of_nat (S fuel))); done || lia.
  - assert (turn s = notif s) as Heq by lia. rewrite Heq, Z.eqb_refl. exists v. split.
    + unfold leader. by rewrite <-Heq, <-Hs, E.
    + destruct (Z.ltb_spec (notif s - notif s) (Z.of_nat (S fuel))); [by rewrite <-Heq|lia].
Qed.

Lemma stream_poll_cases fuel sch s :
  stream_wf sch s →
  if pos s <? notif s then
    ∃ v, leader sch (notif s) = Some v ∧
      stream_poll fuel s = if notif s - turn s <? Z.of_nat fuel
        then Done (Some (notif s, v), MkStream (notif s) (notif s) (notif s + 1) (sched_after (Z.to_nat (notif s + 1)) sch))
        else OutOfFuel
  else stream_poll fuel s = Done (None, s).
Proof.
  intros (Hok & Ht & Hs & Hp & Hturn). unfold stream_poll. destruct (Z.ltb_spec (pos s) (notif s)); [|done].
  apply catch_up_leader; [done|lia|done].
Qed.

Lemma stream_wf_new sch : sched_ok sch → stream_wf sch (Stream_new sch).
Proof. intros Hok. split_and!; cbn; try done; lia. Qed.

Lemma stream_wf_step sch s s' : stream_wf sch s → stream_step s s' → stream_wf sch s'.
Proof.
  intros Hwf Hstep. destruct Hstep as [slot s Hslot|fuel s o s' Hpoll].
  - destruct Hwf as (Hok & Ht & Hs & Hp & Hturn). split_and!; cbn; try done; lia.
  - pose proof (stream_poll_cases fuel sch s Hwf) as Hc. destruct Hwf as (Hok & Ht & Hs & Hp & Hturn).
    destruct (Z.ltb_spec (pos s) (notif s)) as [Hlt|]; [|rewrite Hc in Hpoll; injection Hpoll as _ <-; split_and!; done || lia].
    destruct Hc as (v & _ & Hc). rewrite Hc in Hpoll. case_match; [|done]. injection Hpoll as _ <-.
    split_and!; cbn; try done; lia.
Qed.

Lemma stream_wf_reach sch s : sched_ok sch → rtc stream_step (Stream_new sch) s → stream_wf sch s.
Proof.
  intros Hok Hsteps. apply stream_wf_new in Hok. revert Hok. induction Hsteps as [|s1 s2 s3 Hstep _ IH]; [done|].
  intros Hwf. by apply IH, (stream_wf_step sch s1).
Qed.

(** ** Theorems *)

(** C34: all validators agree on the leader of every slot: whenever the stream
    of a validator yields, however often it was polled and whichever slots it
    missed, it yields the announced slot with the leader that the seed and the
    genesis alone determine, a validator with the required stake. The loop that
    catches up ends, and neither it nor a poll that has nothing new panics. *)
Theorem slot_leader_determined seed g sch s fuel :
  Schedule_new seed g = Ok sch → rtc stream_step (Stream_new sch) s → notif s < Z.of_nat fuel →
  if pos s <? notif s then
    ∃ v s', stream_poll fuel s = Done (Some (notif s, v), s') ∧ leader sch (notif s) = Some v ∧
      v ∈ validators g ∧ minimum_stake (limits g) ≤ stake v ∧ 0 < stake v ∧ pos s' = notif s
  else stream_poll fuel s = Done (None, s).
Proof.
  intros [Hok Hg]%Schedule_new_ok Hsteps Hfuel. pose proof (stream_wf_reach sch s Hok Hsteps) as Hwf.
  pose proof (stream_poll_cases fuel sch s Hwf) as Hc. destruct Hwf as (_ & Ht & _).
  destruct (pos s <? notif s); [|done]. destruct Hc as (v & Hl & Hc). rewrite (proj2 (Z.ltb_lt _ _)) in Hc by lia.
  destruct (leader_some sch (notif s) Hok) as (v' & Hl' & Hin & Hmin & Hpos). rewrite Hg in *. simplify_eq.
  eexists _, _. split; [exact Hc|]. by split_and!.
Qed.
End leaders.

(** Validators with synchronized clocks announce each slot at the same
    moment, whenever they were started: the announcement of a slot is made when
    the slot has passed, and the announcements of a task count up without gaps,
    one slot apart. *)
Theorem announcements_synchronized now genesis slot :
  0 < slot → genesis ≤ now < genesis + u64_max →
  ∃ first, first_announcement now genesis slot = Done first ∧ now < first.1 ≤ now + slot ∧
    ∀ i, let a := announcement first slot i in
      a.1 = genesis + (a.2 + 1) * slot ∧ a.2 = first.2 + Z.of_nat i.
Proof.
  intros Hs Hn. unfold first_announcement. rewrite (proj2 (Z.eqb_neq _ _)) by lia. eexists. split; [reflexivity|].
  rewrite wrap64_id by (unfold is_u64; lia). pose proof (Z.div_mod (now - genesis) slot ltac:(lia)).
  pose proof (Z.mod_pos_bound (now - genesis) slot Hs). cbn [fst snd announcement].
  split; [nia|]. intros i. split; [nia|done].
Qed.

(** A validator that is started before the genesis sleeps for the wrong time:
    the negative difference becomes a number of milliseconds close to 2^64. *)
Theorem early_start_sleeps_forever now genesis :
  now < genesis → genesis - now ≤ 2 ^ 63 → 2 ^ 63 ≤ initial_sleep now genesis.
Proof.
  intros Hlt Hle. unfold initial_sleep. rewrite (proj2 (Z.ltb_lt _ _)) by done. unfold wrap64, u64_modulus.
  rewrite <-(Z.mod_add _ 1) by lia. rewrite Z.mod_small; lia.
Qed.

(** ** Replay requests *)

Lemma round_log2_small n : 0 ≤ n → round_log2 n ≤ 1 ↔ n ≤ 2.
Proof.
  intros Hn. unfold round_log2. destruct (Z_le_gt_dec n 2) as [Hle|Hgt].
  - assert (n = 0 ∨ n = 1 ∨ n = 2) as [->|[->| ->]] by lia; cbv; intuition congruence.
  - assert (3 ≤ Z.log2 (n * n)) as Hlog by (apply Z.log2_le_pow2; [nia|change (2 ^ 3) with 8; nia]).
    assert (2 ≤ (Z.log2 (n * n) + 1) / 2) by (apply Z.div_le_lower_bound; lia). lia.
Qed.

Section responder.
Context {R : Type} `{EqDecision R}.
Implicit Types (s : SwarmResponder R) (r : R).

(** The responder at work; delays are drawn between the bounds. *)
Inductive responder_step : SwarmResponder R → SwarmResponder R → Prop :=
  | StepRequest now delay r s s' : low s ≤ delay < high s → request now delay r s = Done s' → responder_step s s'
  | StepCancel r s : responder_step s (cancel r s)
  | StepPoll now s : responder_step s (responder_poll now s).2.

Lemma responder_bounds s s' : responder_step s s' → low s' = low s ∧ high s' = high s.
Proof.
  intros Hstep. destruct Hstep as [now delay r s s' _ Hr|r s|now s]; [|done|].
  - unfold request in Hr. destruct (im_get r (requests s)); [by injection Hr as <-|]. destruct (low s <? high s); [|done]. by injection Hr as <-.
  - unfold responder_poll. by case_match.
Qed.

Lemma responder_run_bounds s s' : rtc responder_step s s' → low s' = low s ∧ high s' = high s.
Proof. induction 1 as [|s1 s2 s3 Hstep _ [-> ->]]; [done|by apply responder_bounds]. Qed.

(** In a network of one or two validators a replay request stops the node:
    the longest delay is then not above the shortest, and drawing a delay between
    them panics, whenever the request is not pending already. In larger networks
    no request panics. *)
Theorem small_network_request_panics slot n s now delay r :
  0 < slot → 0 ≤ n → rtc responder_step (Responder_new slot n) s → im_get r (requests s) = None →
  if n <=? 2 then request now delay r s = Panic
  else ∃ s', request now delay r s = Done s' ∧ im_get r (requests s') = Some (now + delay).
Proof.
  intros Hs Hn Hsteps Hr. destruct (responder_run_bounds _ _ Hsteps) as [Hl Hh]. cbn in Hl, Hh.
  pose proof (round_log2_small n Hn) as Hlog. unfold request. rewrite Hr, Hl, Hh.
  destruct (Z.leb_spec n 2) as [Hle|Hgt].
  - apply Hlog in Hle. by rewrite (proj2 (Z.ltb_ge _ _)) by nia.
  - assert (2 ≤ round_log2 n) by lia. rewrite (proj2 (Z.ltb_lt _ _)) by nia. eexists. split; [done|]. cbn.
    clear Hsteps Hl Hh. induction (requests s) as [|[k v] l IH]; cbn in *; [by rewrite bool_decide_true|].
    case_bool_decide; [done|]. by apply IH.
Qed.
End responder.

(** ** Examples and witnesses *)

(** A generator that counts, over the indices of the positive weights. *)
Definition positive_indices (ws : list Z) : list nat := filter (λ i, 0 < default 0 (ws !! i)) (seq 0 (length ws)).

#[export] Instance toy_weighted : WeightedRng := {|
  Rng := Z;
  from_seed s := Z_of_byte (default Byte.x00 (last (b32 s)));
  WeightedIndex := list Z;
  WeightedError := unit;
  WeightedIndex_new ws := if positive_indices ws then Err tt else Ok ws;
  sample ws r := (default 0%nat (positive_indices ws !! (Z.to_nat r `mod` length (positive_indices ws))%nat), r + 1)
|}.

#[export] Instance toy_weighted_laws : WeightedRngLaws.
Proof.
  constructor. intros ws d r. cbn. destruct (positive_indices ws) as [|i l] eqn:E; [done|]. intros [= <-]. rewrite E.
  destruct (lookup_lt_is_Some_2 (i :: l) (Z.to_nat r `mod` length (i :: l))%nat) as [j Hj]; [apply Nat.mod_upper_bound; done|].
  rewrite Hj. apply list_elem_of_lookup_2 in Hj. rewrite <-E in Hj.
  apply list_elem_of_filter in Hj as [Hpos _]. cbn [default from_option]. destruct (ws !! j) as [w|] eqn:Hw; [|discriminate Hpos]. exists w. split; [exact Hw|exact Hpos].
Qed.

Module ScheduleExample.
Definition seed : array32 := array32_of_Z 5.
Definition limits : Limits := MkLimits 100 1 10 10000 1000 20 100 10000 100000 1000.
Definition genesis : Genesis :=
  MkGenesis "toy" 0 1000 4 limits []
    [MkValidator (array32_of_Z 3) 10; MkValidator (array32_of_Z 4) 9; MkValidator (array32_of_Z 5) 30] seed ∅.
Definition sched : ValidatorSchedule := match Schedule_new seed genesis with Ok s => s | Err _ => MkSchedule 0 [] genesis end.

Lemma sched_new : Schedule_new seed genesis = Ok sched.
Proof.
  unfold sched. assert (is_ok (Schedule_new seed genesis) = true) as Hok by by vm_compute.
  destruct (Schedule_new seed genesis); [reflexivity|discriminate].
Qed.

Definition started : ScheduleStream := announce 3 (Stream_new sched).
End ScheduleExample.
Import ScheduleExample.

Lemma slot_leader_determined_witness :
  ∃ v s', stream_poll 4 started = Done (Some (3, v), s') ∧ leader sched 3 = Some v ∧ 0 < stake v.
Proof.
  destruct (slot_leader_determined seed genesis sched started 4) as (v & s' & Hp & Hl & _ & _ & Hs & _).
  - exact sched_new.
  - apply rtc_once. apply (StepAnnounce 3 (Stream_new sched)). discriminate.
  - reflexivity.
  - exists v, s'. split; [exact Hp|]. split; [exact Hl|exact Hs].
Defined.

Lemma announcements_synchronized_witness :
  ∃ first, first_announcement 12345 345 1000 = Done first ∧ 12345 < first.1.
Proof.
  destruct (announcements_synchronized 12345 345 1000) as (f & Hf & [Hlt _] & _); [lia|unfold u64_max; lia|].
  exists f. split; [exact Hf|exact Hlt].
Defined.

Lemma small_network_request_panics_witness : request 0 7 true (Responder_new 5 2) = Panic.
Proof. apply (small_network_request_panics 5 2); [lia|lia|constructor|reflexivity]. Defined.
