(* ===== verification/Episub.v ===== *)
(** * Data of the gossip protocol (src/network/episub/{rpc.proto,config.rs,error.rs,view.rs,behaviour.rs})

    Peers, the messages of the protocol, its configuration and what the
    components hand to the network library. The identities and addresses of
    libp2p are parameters. *)
From S2P Require Import Prelude Primitives.
From Stdlib Require Import Floats.SpecFloat.

(** The parts of an address that the code looks at, with addresses of hosts as
    numbers. *)
Inductive Protocol := Ip4 (addr : Z) | Ip6 (addr : Z) | OtherProtocol.

Class Libp2p := {
  PeerId : Type;
  #[global] PeerId_eq_dec :: EqDecision PeerId;
  #[global] PeerId_countable :: Countable PeerId;
  PeerId_to_bytes : PeerId → bytes;
  PeerId_from_bytes : bytes → option PeerId;
  (** the digest of the multihash that the identity is *)
  PeerId_digest : PeerId → bytes;
  Multiaddr : Type;
  #[global] Multiaddr_eq_dec :: EqDecision Multiaddr;
  #[global] Multiaddr_countable :: Countable Multiaddr;
  Multiaddr_to_vec : Multiaddr → bytes;
  Multiaddr_try_from : bytes → option Multiaddr;
  (** the parts of an address, in order *)
  Multiaddr_iter : Multiaddr → list Protocol
}.

Class Libp2pLaws `{Libp2p} : Prop := {
  PeerId_roundtrip : ∀ p, PeerId_from_bytes (PeerId_to_bytes p) = Some p;
  Multiaddr_roundtrip : ∀ a, Multiaddr_try_from (Multiaddr_to_vec a) = Some a
}.

(** The random choices of the rand crate, by its documentation. *)
Class Rand := {
  ThreadRng : Type;
  choose : ∀ {A}, ThreadRng → list A → option A * ThreadRng;
  choose_multiple : ∀ {A}, ThreadRng → nat → list A → list A * ThreadRng;
  (** uniform between zero and one, a single-precision number *)
  sample_f32 : ThreadRng → spec_float * ThreadRng;
  gen_u64 : ThreadRng → Z * ThreadRng
}.

Class RandLaws `{Rand} : Prop := {
  choose_none : ∀ A r (l : list A), (choose r l).1 = None → l = [];
  choose_some : ∀ A r (l : list A) x, (choose r l).1 = Some x → x ∈ l;
  choose_multiple_sub : ∀ A r n (l : list A), (choose_multiple r n l).1 ⊆+ l;
  choose_multiple_length : ∀ A r n (l : list A), length (choose_multiple r n l).1 = (n `min` length l)%nat
}.

(** The compression of payloads (zstd). *)
Class Zstd := {
  encode_all : bytes → Z → option bytes;
  decode_all : bytes → option bytes
}.
Class ZstdLaws `{Zstd} : Prop := {
  zstd_roundtrip : ∀ l level c, encode_all l level = Some c → decode_all c = Some l
}.

(** Peers by identity, with their addresses (below). *)
Abbreviation PeerSet := (gmap PeerId (gset Multiaddr)).

Section data.
Context `{Libp2p}.

(** ** Wire format *)

Record PbPeer := MkPbPeer { pb_peer_id : bytes; pb_addresses : list bytes }.

Inductive Action :=
  | Join (ttl : Z) (peer : PbPeer)
  | ForwardJoin (ttl : Z) (peer : PbPeer)
  | Neighbor (peer : PbPeer) (priority : Z)
  | Shuffle (ttl : Z) (origin : PbPeer) (nodes : list PbPeer)
  | ShuffleReply (nodes : list PbPeer)
  | Disconnect (alive : bool)
  | Message (id hop : Z) (payload : bytes)
  | Ihave (ihaves : list (Z * Z))
  | Prune
  | Graft (ids : list Z).

Record Rpc := MkRpc { rpc_topic : string; rpc_action : option Action }.

Definition priority_low : Z := 0.
Definition priority_high : Z := 1.

(** ** Peers *)

Record AddressablePeer := MkPeer { peer_id : PeerId; addresses : gset Multiaddr }.

(** [TryFrom] and [From] between the two forms: addresses that do not parse
    are left out. *)
Definition peer_of_pb (v : PbPeer) : option AddressablePeer :=
  id ← PeerId_from_bytes (pb_peer_id v);
  mret (MkPeer id (list_to_set (omap Multiaddr_try_from (pb_addresses v)))).
Definition pb_of_peer (p : AddressablePeer) : PbPeer :=
  MkPbPeer (PeerId_to_bytes (peer_id p)) (Multiaddr_to_vec <$> elements (addresses p)).

(** [is_local_address] (behaviour.rs): some part is the address 127.0.0.1 or ::1
    of this host, or the unspecified address. *)
Definition is_local_address (addr : Multiaddr) : bool :=
  existsb (λ p, match p with
                | Ip4 a => (a =? 127 * 2 ^ 24 + 1) || (a =? 0)
                | Ip6 a => (a =? 1) || (a =? 0)
                | OtherProtocol => false
                end) (Multiaddr_iter addr).

(** Peers are equal, and hashed, by their identities: a [HashSet] of them maps
    identities to addresses, and inserting a peer that is present changes
    nothing. *)
Definition ps_insert (p : AddressablePeer) (s : PeerSet) : PeerSet :=
  match s !! peer_id p with Some _ => s | None => <[peer_id p := addresses p]> s end.
Definition ps_peers (s : PeerSet) : list AddressablePeer := (λ p, MkPeer p.1 p.2) <$> map_to_list s.
Definition ps_collect (l : list AddressablePeer) : PeerSet := foldl (λ s p, ps_insert p s) ∅ l.

(** ** What the components hand out *)

Inductive EpisubEvent :=
  | EvMessage (topic : string) (id : Z) (payload : bytes)
  | EvSubscribed (topic : string)
  | EvPeerAdded (p : PeerId)
  | EvPeerRemoved (p : PeerId)
  | EvUnsubscribed (topic : string).

Inductive NetAction :=
  | NotifyHandler (p : PeerId) (event : Rpc)
  | GenerateEvent (e : EpisubEvent)
  | Dial (p : AddressablePeer) (temporary : bool)
  | CloseConnection (p : PeerId) (connection : Z).

(** ** Configuration *)

(** Durations are milliseconds. *)
Record Config := MkConfig {
  network_size : Z;
  active_view_factor : Z;
  passive_view_factor : Z;
  max_transmit_size : Z;
  shuffle_interval : Z;
  shuffle_probability : spec_float;
  lazy_push_window : Z;
  history_window : Z;
  tick_frequency : Z;
  optimize_sender_tree : bool;
  hop_optimization_factor : Z;
  enable_compression : bool;
  compression_level : Z;
  (** the predicate is code of the owner of the configuration, and may panic *)
  authorizer : string → PeerId → Outcome bool
}.

(** [(n as f64).log2() + c], rounded to the nearest integer; the logarithm of
    zero is minus infinity, which becomes zero. *)
Definition max_active_view_size (c : Config) : Z :=
  if network_size c =? 0 then 0
  else (Z.log2 (network_size c * network_size c) + 1) / 2 + active_view_factor c.

Definition min_active_view_size (c : Config) : Z := Z.max (max_active_view_size c / 2) 1.
Definition max_passive_view_size (c : Config) : Z := max_active_view_size c * passive_view_factor c.

(** [log2() as usize], the integer part, zero for zero *)
Definition active_walk_length (c : Config) : Z := Z.min (Z.max (Z.log2 (network_size c)) 2) 6.
Definition shuffle_max_size (c : Config) : Z := max_active_view_size c * 2.

Definition f32_one : spec_float := binary_normalize 24 128 1 0 false.

Definition Config_default : Config :=
  MkConfig 1000 1 6 1024000 60000 f32_one 2000 30000 200 true 4 true 0 (λ _ _, Done true).
End data.
Arguments PbPeer : clear implicits.
Arguments Action : clear implicits.
Arguments Rpc : clear implicits.
