(* ===== verification/Cache.v ===== *)
(** * The cache of messages (src/network/episub/cache.rs)

    Items with the time at which they were inserted, found by their identifiers
    and listed by time. *)
From S2P Require Import Prelude Primitives Episub.

Section cache.
Context {A : Type} (key : A → Z) (hops : A → Z).

Record Timed := MkTimed { timed_item : A; timed_at : Z }.

Record ExpiringCache := MkCache {
  cache_data : gmap Z Timed;
  by_time : list Timed
}.

Definition Cache_new : ExpiringCache := MkCache ∅ [].

(** [insert]: whether the item is new. An item with fewer hops replaces the one
    that is stored, but not in the list by time. *)
Definition cache_insert (now : Z) (item : A) (c : ExpiringCache) : bool * ExpiringCache :=
  let t := MkTimed item now in
  match cache_data c !! key item with
  | Some o =>
      (false, if hops item <? hops (timed_item o) then MkCache (<[key item := t]> (cache_data c)) (by_time c) else c)
  | None => (true, MkCache (<[key item := t]> (cache_data c)) (by_time c ++ [t]))
  end.

Definition cache_get (k : Z) (c : ExpiringCache) : option A := timed_item <$> cache_data c !! k.

(** [binary_search_by] on the times, at the first of several equal ones. *)
Fixpoint time_index (t : Z) (l : list Timed) : nat :=
  match l with
  | [] => 0
  | x :: l => if timed_at x <? t then S (time_index t l) else 0
  end.

(** [iter_range]: panics when the range is turned around. *)
Definition iter_range (from to : Z) (c : ExpiringCache) : Outcome (list A) :=
  let start := time_index from (by_time c) in
  let stop := time_index to (by_time c) in
  if (start <=? stop)%nat then Done (timed_item <$> take (stop - start) (drop start (by_time c))) else Panic.

Fixpoint drop_older (since : Z) (data : gmap Z Timed) (l : list Timed) : gmap Z Timed * list Timed :=
  match l with
  | [] => (data, [])
  | x :: l => if since <? timed_at x then (data, x :: l) else drop_older since (delete (key (timed_item x)) data) l
  end.

Definition remove_older_than (since : Z) (c : ExpiringCache) : ExpiringCache :=
  let '(data, l) := drop_older since (cache_data c) (by_time c) in MkCache data l.

(** ** Invariant *)

(** Each identifier is listed once, the list is in the order of time, and the
    items found are those listed, or later ones with fewer hops. *)
Definition cache_wf (c : ExpiringCache) : Prop :=
  NoDup ((key ∘ timed_item) <$> by_time c) ∧
  StronglySorted (λ a b, timed_at a ≤ timed_at b) (by_time c) ∧
  (∀ k, is_Some (cache_data c !! k) ↔ k ∈ (key ∘ timed_item) <$> by_time c) ∧
  (∀ k t, cache_data c !! k = Some t → key (timed_item t) = k) ∧
  (∀ x, x ∈ by_time c → ∃ t, cache_data c !! key (timed_item x) = Some t ∧ timed_at x ≤ timed_at t ∧ hops (timed_item t) ≤ hops (timed_item x)).

Definition cache_before (now : Z) (c : ExpiringCache) : Prop := Forall (λ x, timed_at x ≤ now) (by_time c).

Lemma Cache_new_wf : cache_wf Cache_new.
Proof.
  split_and!; cbn; try constructor.
  - by intros [].
  - by intros ?%not_elem_of_nil.
  - done.
  - by intros x ?%not_elem_of_nil.
Qed.

Lemma cache_insert_wf now item c : cache_wf c → cache_before now c → cache_wf (cache_insert now item c).2.
Proof.
  intros (Hnd & Hs & Hdom & Hkey & Hx) Hb. unfold cache_insert. destruct (cache_data c !! key item) as [o|] eqn:E; cbn [snd].
  - destruct (Z.ltb_spec (hops item) (hops (timed_item o))) as [Hlt|]; [|by split_and!].
    split_and!; cbn [cache_data by_time]; try done.
    + intros k. destruct (decide (key item = k)) as [<-|Hne]; [|by rewrite lookup_insert_ne].
      rewrite lookup_insert_eq. rewrite <-Hdom, E. split; by eexists.
    + intros k t. destruct (decide (key item = k)) as [<-|Hne]; [|rewrite lookup_insert_ne by done; by apply Hkey].
      rewrite lookup_insert_eq. by intros [= <-].
    + intros x Hin. destruct (Hx x Hin) as (t & Ht & Hle & Hh).
      destruct (decide (key item = key (timed_item x))) as [Heq|Hne]; [|rewrite lookup_insert_ne by done; eauto].
      rewrite Heq, lookup_insert_eq. eexists. split; [done|]. cbn. rewrite <-Heq, E in Ht. injection Ht as <-.
      unfold cache_before in Hb. rewrite Forall_forall in Hb. specialize (Hb x Hin). lia.
  - assert (key item ∉ (key ∘ timed_item) <$> by_time c) as Hnew by (rewrite <-Hdom, E; by intros []).
    split_and!; cbn [cache_data by_time].
    + rewrite fmap_app. apply NoDup_app. split_and!; [done| |apply NoDup_singleton].
      intros k Hk ->%list_elem_of_singleton. done.
    + clear Hnd Hdom Hx Hkey Hnew E. unfold cache_before in Hb. induction Hs as [|x l Hs IH Hall]; [by repeat constructor|].
      apply Forall_cons in Hb as [Hxn Hb]. cbn. constructor; [by apply IH|]. apply Forall_app. split; [done|]. by repeat constructor.
    + intros k. rewrite fmap_app, elem_of_app. cbn [fmap list_fmap compose timed_item]. rewrite list_elem_of_singleton.
      destruct (decide (key item = k)) as [<-|Hne]; [rewrite lookup_insert_eq; split; [by right|by eexists]|].
      rewrite lookup_insert_ne, Hdom by done. split; [by left|by intros [|?]].
    + intros k t. destruct (decide (key item = k)) as [<-|Hne]; [|rewrite lookup_insert_ne by done; by apply Hkey].
      rewrite lookup_insert_eq. by intros [= <-].
    + intros x [Hin| ->%list_elem_of_singleton]%elem_of_app.
      * destruct (Hx x Hin) as (t & Ht & Hle & Hh). exists t. rewrite lookup_insert_ne; [done|]. intros Heq. congruence.
      * cbn. rewrite lookup_insert_eq. eexists. split; [done|]. cbn. lia.
Qed.

Lemma drop_older_spec since data l :
  NoDup ((key ∘ timed_item) <$> l) → StronglySorted (λ a b, timed_at a ≤ timed_at b) l →
  (drop_older since data l).2 = filter (λ x, since < timed_at x) l ∧
  ∀ k, (drop_older since data l).1 !! k =
    if bool_decide (k ∈ (key ∘ timed_item) <$> filter (λ x, timed_at x ≤ since) l) then None else data !! k.
Proof.
  revert data. induction l as [|x l IH]; intros data Hnd Hs; [split; [done|]; intros k; by rewrite bool_decide_false by apply not_elem_of_nil|].
  cbn [drop_older]. apply NoDup_cons in Hnd as [Hx Hnd]. apply StronglySorted_inv in Hs as [Hs Hall].
  destruct (Z.ltb_spec since (timed_at x)) as [Hlt|Hge].
  - assert (∀ y, y ∈ x :: l → since < timed_at y) as Hlater.
    { rewrite Forall_forall in Hall. intros y [->|Hy]%elem_of_cons; [done|]. specialize (Hall y Hy). lia. }
    split; [symmetry; by apply filter_all_true|]. intros k. rewrite bool_decide_false; [done|].
    intros (y & _ & [Hle Hy]%list_elem_of_filter)%list_elem_of_fmap. specialize (Hlater y Hy). lia.
  - destruct (IH (delete (key (timed_item x)) data) Hnd Hs) as [E1 E2]. rewrite E1. split.
    + rewrite filter_cons, decide_False by lia. done.
    + intros k. rewrite E2, filter_cons, decide_True by done. rewrite fmap_cons. cbn [compose].
      destruct (decide (k = key (timed_item x))) as [->|Hne].
      * rewrite lookup_delete_eq, (bool_decide_true (_ ∈ _ :: _)) by by left. by case_bool_decide.
      * rewrite lookup_delete_ne by done. repeat case_bool_decide; try done; set_solver.
Qed.
End cache.

Section cache_lemmas.
Context {A : Type} (key : A → Z) (hops : A → Z).
Abbreviation ExpiringCache := (@ExpiringCache A).
Abbreviation cache_wf := (@cache_wf A key hops).
Implicit Types c : ExpiringCache.

(** The time at which an identifier was inserted first. *)
Definition inserted_at k c : option Z := timed_at <$> find (λ x : Timed, bool_decide (key (timed_item x) = k)) (by_time c).

Lemma find_unique (l : list (@Timed A)) x :
  NoDup ((key ∘ timed_item) <$> l) → x ∈ l → find (λ y, bool_decide (key (timed_item y) = key (timed_item x))) l = Some x.
Proof.
  induction l as [|y l IH]; [by intros _ ?%not_elem_of_nil|]. rewrite fmap_cons. intros [Hy Hnd]%NoDup_cons Hx. cbn [find].
  case_bool_decide as Heq.
  - apply elem_of_cons in Hx as [->|Hx]; [done|]. destruct Hy. cbn. rewrite Heq. by apply (list_elem_of_fmap_2 (key ∘ timed_item)).
  - apply elem_of_cons in Hx as [->|Hx]; [done|]. by apply IH.
Qed.

Lemma find_none (l : list (@Timed A)) k : k ∉ (key ∘ timed_item) <$> l → find (λ y, bool_decide (key (timed_item y) = k)) l = None.
Proof.
  induction l as [|y l IH]; [done|]. rewrite fmap_cons, not_elem_of_cons. intros [Hy Hl]. cbn [find].
  rewrite bool_decide_false by (intros Heq; by apply Hy). by apply IH.
Qed.

(** Removal forgets exactly the identifiers that were inserted by then. *)
Lemma remove_older_get since c k :
  cache_wf c →
  cache_get k (remove_older_than key since c) =
    match inserted_at k c with Some t => if t <=? since then None else cache_get k c | None => None end.
Proof.
  intros (Hnd & Hs & Hdom & Hkey & Hx). unfold remove_older_than, cache_get, inserted_at.
  destruct (drop_older_spec key since (cache_data c) (by_time c) Hnd Hs) as [_ Hl].
  destruct (drop_older key since (cache_data c) (by_time c)) as [data l]. cbn [cache_data fst snd] in *. rewrite Hl.
  destruct (decide (k ∈ (key ∘ timed_item) <$> by_time c)) as [Hin|Hin].
  - apply list_elem_of_fmap in Hin as (x & -> & Hin). cbn [compose]. rewrite find_unique by done. cbn [fmap option_fmap option_map].
    destruct (Z.leb_spec (timed_at x) since) as [Hle|Hgt].
    + rewrite bool_decide_true; [done|]. apply (list_elem_of_fmap_2 (key ∘ timed_item)). by apply list_elem_of_filter.
    + rewrite bool_decide_false; [done|]. intros (y & Hk & [Hle Hy]%list_elem_of_filter)%list_elem_of_fmap.
      pose proof (find_unique _ x Hnd Hin) as F1. pose proof (find_unique _ y Hnd Hy) as F2. cbn in Hk. rewrite Hk in F1.
      assert (x = y) as -> by congruence. lia.
  - rewrite find_none by done. cbn. case_bool_decide; [done|]. destruct (cache_data c !! k) eqn:E; [|done].
    destruct Hin. apply Hdom. by eexists.
Qed.

Lemma remove_older_wf since c : cache_wf c → cache_wf (remove_older_than key since c).
Proof.
  intros (Hnd & Hs & Hdom & Hkey & Hx). unfold remove_older_than.
  destruct (drop_older_spec key since (cache_data c) (by_time c) Hnd Hs) as [Hl Hd].
  destruct (drop_older key since (cache_data c) (by_time c)) as [data l]. cbn [fst snd] in *. subst l.
  assert (∀ x y, x ∈ by_time c → y ∈ by_time c → key (timed_item x) = key (timed_item y) → x = y) as Huniq.
  { intros x y Hxi Hyi Heq. pose proof (find_unique _ x Hnd Hxi) as F1. pose proof (find_unique _ y Hnd Hyi) as F2.
    rewrite Heq in F1. congruence. }
  assert (∀ x, x ∈ by_time c → since < timed_at x → data !! key (timed_item x) = cache_data c !! key (timed_item x)) as Hkeep.
  { intros x Hxi Hlt. rewrite Hd, bool_decide_false; [done|]. intros (y & Hk & [Hle Hy]%list_elem_of_filter)%list_elem_of_fmap.
    rewrite (Huniq x y) in Hlt by done. lia. }
  split_and!; cbn [cache_data by_time].
  - eapply sublist_NoDup; [exact Hnd|]. apply fmap_sublist, sublist_filter.
  - clear -Hs. induction Hs as [|x l Hs IH Hall]; [constructor|]. rewrite filter_cons. case_decide; [|done]. constructor; [done|].
    rewrite Forall_forall in *. intros y [_ Hy]%list_elem_of_filter. by apply Hall.
  - intros k. rewrite Hd. split.
    + intros Hsome. case_bool_decide as Hk; [by destruct Hsome|]. apply Hdom in Hsome.
      apply list_elem_of_fmap in Hsome as (x & -> & Hin). apply (list_elem_of_fmap_2 (key ∘ timed_item)), list_elem_of_filter.
      split; [|done]. destruct (Z_lt_le_dec since (timed_at x)); [done|]. destruct Hk. apply (list_elem_of_fmap_2 (key ∘ timed_item)).
      by apply list_elem_of_filter.
    + intros (x & -> & [Hlt Hin]%list_elem_of_filter)%list_elem_of_fmap. cbn. rewrite <-Hd, Hkeep by done. apply Hdom.
      by apply (list_elem_of_fmap_2 (key ∘ timed_item)).
  - intros k t. rewrite Hd. case_bool_decide; [done|]. apply Hkey.
  - intros x [Hlt Hin]%list_elem_of_filter. rewrite Hkeep by done. by apply Hx.
Qed.

Lemma cache_insert_get now item c k :
  cache_get k (cache_insert key hops now item c).2 =
    if bool_decide (key item = k)
    then Some (match cache_get k c with Some o => if hops item <? hops o then item else o | None => item end)
    else cache_get k c.
Proof.
  unfold cache_insert, cache_get. destruct (cache_data c !! key item) as [o|] eqn:E; cbn [snd].
  - case_bool_decide as Hk.
    + subst k. rewrite E. cbn. case_match; cbn [cache_data]; [by rewrite lookup_insert_eq|by rewrite E].
    + case_match; cbn [cache_data]; [by rewrite lookup_insert_ne|done].
  - cbn [cache_data]. case_bool_decide as Hk; [subst k; by rewrite lookup_insert_eq, E|by rewrite lookup_insert_ne].
Qed.

Lemma cache_insert_new now item c : (cache_insert key hops now item c).1 = negb (is_some (cache_get (key item) c)).
Proof. unfold cache_insert, cache_get. by destruct (cache_data c !! key item). Qed.
End cache_lemmas.
