(* ===== verification/PlumTree.v ===== *)
(** * The broadcast tree (src/network/episub/tree.rs)

    Messages are pushed to the eager peers and announced to the lazy ones; what
    a node wants to send waits in its queue until the node is polled. The order
    in which a hash set or map is iterated decides only the order of the queue:
    here it is the order of [elements] and [map_to_list]. *)
From S2P Require Import Prelude Primitives Episub Cache.

Section tree.
Context `{Libp2p} `{Zstd}.

(** [MessageRecord] and [MessageInfo] (cache.rs): both are compared by their
    hops and found by their identifiers. *)
Record MessageRecord := MkRecord { mr_id : Z; mr_hop : Z; mr_sender : PeerId; mr_payload : bytes }.
Record MessageInfo := MkInfo { mi_id : Z; mi_hop : Z; mi_sender : PeerId }.

Abbreviation Received := (@ExpiringCache MessageRecord).
Abbreviation Observed := (@ExpiringCache MessageInfo).

Record PlumTree := MkTree {
  pt_topic : string;
  pt_local : PeerId;
  lazy : gset PeerId;
  eager : gset PeerId;
  pt_last_tick : Z;
  pt_config : Config;
  observed : Observed;
  received : Received;
  pt_out : list NetAction
}.

Definition Tree_new (now : Z) (topic : string) (config : Config) (local : PeerId) : PlumTree :=
  MkTree topic local ∅ ∅ now config Cache_new Cache_new [].

(** ** Updates of one field *)

Definition set_links (lz eg : gset PeerId) (t : PlumTree) : PlumTree :=
  MkTree (pt_topic t) (pt_local t) lz eg (pt_last_tick t) (pt_config t) (observed t) (received t) (pt_out t).
Definition set_caches (o : Observed) (r : Received) (t : PlumTree) : PlumTree :=
  MkTree (pt_topic t) (pt_local t) (lazy t) (eager t) (pt_last_tick t) (pt_config t) o r (pt_out t).
Definition set_out (out : list NetAction) (t : PlumTree) : PlumTree :=
  MkTree (pt_topic t) (pt_local t) (lazy t) (eager t) (pt_last_tick t) (pt_config t) (observed t) (received t) out.
Definition push_out (l : list NetAction) (t : PlumTree) : PlumTree := set_out (pt_out t ++ l) t.
Definition set_tick (now : Z) (t : PlumTree) : PlumTree :=
  MkTree (pt_topic t) (pt_local t) (lazy t) (eager t) now (pt_config t) (observed t) (received t) (pt_out t).

(** A message to a peer on the topic. *)
Definition notify (t : PlumTree) (p : PeerId) (a : Action) : NetAction := NotifyHandler p (MkRpc (pt_topic t) (Some a)).

(** [From<MessageRecord> for rpc::Message] *)
Definition message_of (r : MessageRecord) : Action := Message (mr_id r) (mr_hop r) (mr_payload r).

(** ** Neighbours *)

Definition inject_neighbor_up (p : PeerId) (t : PlumTree) : PlumTree := set_links (lazy t) (eager t ∪ {[p]}) t.
Definition inject_neighbor_down (p : PeerId) (t : PlumTree) : PlumTree := set_links (lazy t ∖ {[p]}) (eager t ∖ {[p]}) t.

(** ** Messages *)

Definition tree_publish (now : Z) (id : Z) (payload : bytes) (t : PlumTree) : PlumTree :=
  match cache_get id (received t), cache_get id (observed t) with
  | None, None =>
      let message := MkRecord id 1 (pt_local t) payload in
      let t := push_out ((λ enode, notify t enode (message_of message)) <$> elements (eager t)) t in
      set_caches (observed t) (cache_insert mr_id mr_hop now (MkRecord id 0 (pt_local t) payload) (received t)).2 t
  | _, _ => t
  end.

Definition inject_prune (p : PeerId) (t : PlumTree) : PlumTree := set_links (lazy t ∪ {[p]}) (eager t ∖ {[p]}) t.

(** [inject_message]: a payload that does not decompress makes it panic. *)
Definition inject_message (now : Z) (p : PeerId) (id hop : Z) (payload : bytes) (t : PlumTree) : Outcome PlumTree :=
  let '(new, r) := cache_insert mr_id mr_hop now (MkRecord id hop p payload) (received t) in
  let t := set_caches (observed t) r t in
  if new then
    match (if enable_compression (pt_config t) then decode_all payload else Some payload) with
    | None => Panic
    | Some out =>
        let t := push_out [GenerateEvent (EvMessage (pt_topic t) id out)] t in
        Done (push_out ((λ peer, notify t peer (Message id (wrap32 (hop + 1)) payload))
                          <$> filter (λ peer, peer ≠ p) (elements (eager t))) t)
    end
  else if optimize_sender_tree (pt_config t) then
    if bool_decide (p ∈ eager t)
    then let t := inject_prune p t in Done (push_out [notify t p Prune] t)
    else Done t
  else Done t.

Definition inject_ihave (now : Z) (p : PeerId) (id hop : Z) (t : PlumTree) : PlumTree :=
  set_caches (cache_insert mi_id mi_hop now (MkInfo id hop p) (observed t)).2 (received t) t.

Definition inject_graft (p : PeerId) (ids : list Z) (t : PlumTree) : PlumTree :=
  let t := set_links (lazy t ∖ {[p]}) (eager t ∪ {[p]}) t in
  push_out ((λ msg, notify t p (message_of msg)) <$> omap (λ id, cache_get id (received t)) ids) t.

(** The calls of other nodes that concern the tree (the arms of
    [TopicMesh::inject_rpc_call], topic.rs). *)
Definition tree_rpc (now : Z) (p : PeerId) (a : Action) (t : PlumTree) : Outcome PlumTree :=
  match a with
  | Message id hop payload => inject_message now p id hop payload t
  | Ihave ihaves => Done (foldl (λ t ih, inject_ihave now p ih.1 ih.2 t) t ihaves)
  | Prune => Done (inject_prune p t)
  | Graft ids => Done (inject_graft p ids t)
  | _ => Done t
  end.

(** ** Maintenance *)

Definition publish_ihaves (now : Z) (t : PlumTree) : Outcome PlumTree :=
  recent ← iter_range (now - lazy_push_window (pt_config t)) now (received t);
  let ihaves := (λ m, (mr_id m, mr_hop m)) <$> recent in
  Done match ihaves with
       | [] => t
       | _ => push_out ((λ p, notify t p (Ihave ihaves)) <$> elements (lazy t)) t
       end.

Definition prune_history (now : Z) (t : PlumTree) : PlumTree :=
  let cutoff := now - history_window (pt_config t) in
  set_caches (remove_older_than mi_id cutoff (observed t)) (remove_older_than mr_id cutoff (received t)) t.

(** What one announcement that a lazy peer made asks for. *)
Definition graft_for (t : PlumTree) (grafts : gmap PeerId (list Z)) (o : MessageInfo) : gmap PeerId (list Z) :=
  match cache_get (mi_id o) (received t) with
  | Some r =>
      if (hop_optimization_factor (pt_config t) <=? saturating_sub (mr_hop r) (mi_hop o)) && negb (mi_hop o =? 0)
      then match grafts !! mi_sender o with Some _ => grafts | None => <[mi_sender o := []]> grafts end
      else grafts
  | None => <[mi_sender o := default [] (grafts !! mi_sender o) ++ [mi_id o]]> grafts
  end.

(** [repair_tree]: announcements are looked at once each. *)
Definition repair_tree (now : Z) (t : PlumTree) : Outcome PlumTree :=
  expected ← iter_range (now - lazy_push_window (pt_config t)) (now - 2 * tick_frequency (pt_config t)) (observed t);
  let grafts := foldl (graft_for t) ∅ expected in
  Done (prune_history now (push_out ((λ g, notify t g.1 (Graft g.2)) <$> map_to_list grafts) t)).

(** [poll] *)
Definition tree_poll (now : Z) (t : PlumTree) : Outcome (option NetAction * PlumTree) :=
  t ← (if tick_frequency (pt_config t) <? now - pt_last_tick t
       then t ← publish_ihaves now t; t ← repair_tree now t; mret (set_tick now t)
       else mret t);
  mret match pt_out t with
       | ev :: evs => (Some ev, set_out evs t)
       | [] => (None, t)
       end.
End tree.
