(* ===== verification/NetExample.v ===== *)
(** * Peers, compression and randomness to evaluate the gossip protocol with *)
From S2P Require Import Prelude Primitives Episub.
From Stdlib Require Import Strings.Byte Floats.SpecFloat.

#[export] Instance toy_libp2p : Libp2p := {|
  PeerId := Z;
  PeerId_to_bytes p := pos_bytes (encode p);
  PeerId_from_bytes l := decode (bytes_pos l);
  PeerId_digest p := [x08; x01; x12; x20] ++ be_bytes (if p <? 0 then 28 else 32) p;
  Multiaddr := Z;
  Multiaddr_to_vec a := pos_bytes (encode a);
  Multiaddr_try_from l := decode (bytes_pos l);
  Multiaddr_iter a := if a =? 0 then [Ip4 (127 * 2 ^ 24 + 1)] else [Ip4 (10 * 2 ^ 24 + a)]
|}.

#[export] Instance toy_libp2p_laws : Libp2pLaws.
Proof. split; intros x; cbn; by rewrite bytes_pos_bytes, decode_encode. Qed.

(** Compressed payloads start with a zero. *)
#[export] Instance toy_zstd : Zstd := {|
  encode_all l _ := Some (x00 :: l);
  decode_all l := match l with x00 :: l => Some l | _ => None end
|}.

#[export] Instance toy_zstd_laws : ZstdLaws.
Proof. constructor. by intros l level c [= <-]. Qed.

(** A generator that counts. *)
#[export] Instance toy_rand : Rand := {|
  ThreadRng := nat;
  choose A r l := (l !! (r `mod` length l)%nat, S r);
  choose_multiple A r n l := (take n l, r);
  sample_f32 r := (S754_zero false, S r);
  gen_u64 r := (Z.of_nat r, S r)
|}.

#[export] Instance toy_rand_laws : RandLaws.
Proof.
  split.
  - intros A r [|x l]; [done|]. cbn. intros Hn%lookup_ge_None.
    pose proof (Nat.mod_upper_bound r (S (length l)) ltac:(lia)). cbn in *. lia.
  - intros A r l x. cbn. apply list_elem_of_lookup_2.
  - intros A r n l. cbn. apply sublist_submseteq, sublist_take.
  - intros A r n l. cbn. apply length_take.
Qed.

Module NetExample.
Definition peer (z : Z) : @PeerId toy_libp2p := z.
Definition toy_config : Config := Config_default.
Definition payload : bytes := [x00; x05; x07].
End NetExample.
