(* ===== verification/PlumTreeProps.v ===== *)
(** * Properties of one node's broadcast tree: caches, repair, maintenance *)
From S2P Require Import Prelude Primitives Episub Cache PlumTree NetExample.

Section tree.
Context `{Libp2p} `{Zstd}.
Implicit Types (t : PlumTree) (p : PeerId).

(** Both caches are well formed and hold nothing from the future. *)
Definition tree_wf (now : Z) t : Prop :=
  cache_wf mr_id mr_hop (received t) ∧ cache_before now (received t) ∧
  cache_wf mi_id mi_hop (observed t) ∧ cache_before now (observed t).

(** ** What a node is asked to do *)

Inductive tree_event :=
  | EvPublish (id : Z) (payload : bytes)
  | EvRpc (p : PeerId) (a : Action)
  | EvUp (p : PeerId)
  | EvDown (p : PeerId)
  | EvPoll.

Definition tree_handle (now : Z) (e : tree_event) t : Outcome PlumTree :=
  match e with
  | EvPublish id payload => Done (tree_publish now id payload t)
  | EvRpc p a => tree_rpc now p a t
  | EvUp p => Done (inject_neighbor_up p t)
  | EvDown p => Done (inject_neighbor_down p t)
  | EvPoll => r ← tree_poll now t; Done r.2
  end.

Lemma cache_before_mono {A} now now' (c : @ExpiringCache A) : now ≤ now' → cache_before now c → cache_before now' c.
Proof. unfold cache_before. intros Hle Hb. eapply Forall_impl; [exact Hb|]. cbn. lia. Qed.

Lemma cache_insert_before {A} (key hops : A → Z) now item c : cache_before now c → cache_before now (cache_insert key hops now item c).2.
Proof.
  intros Hb. unfold cache_insert. destruct (cache_data c !! key item); cbn [snd]; [by case_match|].
  apply Forall_app. split; [exact Hb|]. constructor; [cbn; lia|constructor].
Qed.

Lemma remove_older_before {A} (key : A → Z) now since (c : @ExpiringCache A) : cache_before now c → cache_before now (remove_older_than key since c).
Proof.
  unfold cache_before, remove_older_than. generalize (cache_data c). induction (by_time c) as [|x l IH]; intros d Hb; cbn [drop_older]; [done|].
  destruct (since <? timed_at x); [done|]. apply IH. by apply Forall_cons in Hb as [_ Hb].
Qed.

Lemma tree_wf_time now now' t : now ≤ now' → tree_wf now t → tree_wf now' t.
Proof. intros Hle (H1 & H2 & H3 & H4). split_and!; try done; by eapply cache_before_mono. Qed.

Lemma tree_wf_same now t t' : received t' = received t → observed t' = observed t → tree_wf now t → tree_wf now t'.
Proof. intros Hr Ho. unfold tree_wf. by rewrite Hr, Ho. Qed.

Lemma tree_wf_receive now r t :
  tree_wf now t → tree_wf now (set_caches (observed t) (cache_insert mr_id mr_hop now r (received t)).2 t).
Proof. intros (H1 & H2 & H3 & H4). split_and!; cbn; try done; [by apply cache_insert_wf|by apply cache_insert_before]. Qed.

Lemma inject_message_wf now p id hop payload t t' :
  tree_wf now t → inject_message now p id hop payload t = Done t' → tree_wf now t'.
Proof.
  intros Hwf%(tree_wf_receive now (MkRecord id hop p payload)). unfold inject_message.
  destruct (cache_insert mr_id mr_hop now _ (received t)) as [new r]. cbn [snd] in Hwf. intros Hi.
  destruct new.
  - destruct (if enable_compression _ then _ else _); [|done]. injection Hi as <-. by apply (tree_wf_same now _ _ eq_refl eq_refl Hwf).
  - destruct (optimize_sender_tree _); [case_bool_decide|]; injection Hi as <-; by apply (tree_wf_same now _ _ eq_refl eq_refl Hwf).
Qed.

Lemma repair_wf now t t' : tree_wf now t → repair_tree now t = Done t' → tree_wf now t'.
Proof.
  intros (H1 & H2 & H3 & H4) (l & _ & Hr)%outcome_bind_done. injection Hr as <-.
  split_and!; cbn; try (by apply remove_older_wf); by apply remove_older_before.
Qed.

Lemma ihaves_wf now t t' : tree_wf now t → publish_ihaves now t = Done t' → tree_wf now t'.
Proof. intros Hwf (l & _ & Hr)%outcome_bind_done. injection Hr as <-. case_match; [done|]. by apply (tree_wf_same now t). Qed.

Lemma tree_poll_wf now t o t' : tree_wf now t → tree_poll now t = Done (o, t') → tree_wf now t'.
Proof.
  intros Hwf (t1 & Ht1 & Hp)%outcome_bind_done. assert (tree_wf now t1) as Hwf1.
  { destruct (_ <? _); [|by injection Ht1 as <-]. apply outcome_bind_done in Ht1 as (t2 & Ht2 & Ht1).
    apply outcome_bind_done in Ht1 as (t3 & Ht3 & Ht1). injection Ht1 as <-.
    apply (tree_wf_same now t3); [done..|]. eapply repair_wf; [|exact Ht3]. by eapply ihaves_wf. }
  injection Hp as Hp. destruct (pt_out t1); injection Hp as _ <-; [done|]. by apply (tree_wf_same now t1).
Qed.

Lemma tree_handle_wf now now' e t t' : now ≤ now' → tree_wf now t → tree_handle now' e t = Done t' → tree_wf now' t'.
Proof.
  intros Hle Hwf%(tree_wf_time now now'); [|done]. destruct e as [id payload|p a|p|p|]; cbn [tree_handle].
  - intros [= <-]. unfold tree_publish. repeat case_match; try done.
    apply (tree_wf_receive now' (MkRecord id 0 (pt_local t) payload)) in Hwf. by apply (tree_wf_same now' _ _ eq_refl eq_refl Hwf).
  - destruct a; cbn [tree_rpc]; try (intros [= <-]; by apply (tree_wf_same now' t)).
    + by apply inject_message_wf.
    + intros [= <-]. revert t Hwf. induction ihaves as [|ih l IH]; intros t Hwf; [done|]. apply IH.
      destruct Hwf as (H1 & H2 & H3 & H4). split_and!; cbn; try done; [by apply cache_insert_wf|by apply cache_insert_before].
  - intros [= <-]. by apply (tree_wf_same now' t).
  - intros [= <-]. by apply (tree_wf_same now' t).
  - intros ([o t1] & Hp & Ht)%outcome_bind_done. injection Ht as <-. by eapply tree_poll_wf.
Qed.

(** ** Each message once *)

Definition hands_out (id : Z) (ev : NetAction) : bool := match ev with GenerateEvent (EvMessage _ i _) => i =? id | _ => false end.

(** The node at work, the clock not running backwards. *)
Inductive tree_run (upto : Z) : Z → PlumTree → PlumTree → Prop :=
  | RunNil now t : tree_run upto now t t
  | RunStep now now' e t t1 t2 :
      now ≤ now' → now' < upto → tree_handle now' e t = Done t1 → tree_run upto now' t1 t2 → tree_run upto now t t2.

Lemma inserted_at_insert {A} (key hops : A → Z) now item c k (t0 : Z) :
  inserted_at key k c = Some t0 → inserted_at key k (cache_insert key hops now item c).2 = Some t0.
Proof.
  unfold inserted_at, cache_insert. destruct (cache_data c !! key item); cbn [snd]; [by case_match|]. cbn [by_time].
  induction (by_time c) as [|x l IH]; [done|]. cbn [find app]. by case_bool_decide.
Qed.

Lemma inserted_at_remove {A} (key hops : A → Z) since c k (t0 : Z) :
  cache_wf key hops c → inserted_at key k c = Some t0 → since < t0 → inserted_at key k (remove_older_than key since c) = Some t0.
Proof.
  intros (Hnd & Hs & _) Hi Hlt. unfold remove_older_than.
  destruct (drop_older_spec key since (cache_data c) (by_time c) Hnd Hs) as [Hl _].
  destruct (drop_older key since (cache_data c) (by_time c)) as [data l]. cbn [snd] in Hl. subst l. unfold inserted_at in *. cbn [by_time].
  clear Hnd Hs. induction (by_time c) as [|x l IH]; [done|]. cbn [find] in Hi. rewrite filter_cons. case_bool_decide as Hk.
  - cbn in Hi. injection Hi as <-. rewrite decide_True by done. cbn [find]. by rewrite bool_decide_true.
  - case_decide; [cbn [find]; rewrite bool_decide_false by done|]; by apply IH.
Qed.

Lemma inserted_at_get {A} (key hops : A → Z) c k (t0 : Z) :
  cache_wf key hops c → inserted_at key k c = Some t0 → is_Some (cache_get k c).
Proof.
  intros (_ & _ & Hdom & _). unfold inserted_at, cache_get. intros Hi.
  assert (is_Some (cache_data c !! k)) as [x ->]; [|by eexists]. apply Hdom. destruct (find _ (by_time c)) as [x|] eqn:E; [|done].
  apply find_some in E as [Hin Hk%bool_decide_eq_true]. rewrite <-Hk. apply (list_elem_of_fmap_2 (key ∘ timed_item)). by apply list_elem_of_In.
Qed.

(** A message is remembered for the whole history. *)
Lemma tree_handle_remembers now e t t' id (t0 : Z) :
  tree_wf now t → inserted_at mr_id id (received t) = Some t0 → now < t0 + history_window (pt_config t) →
  tree_handle now e t = Done t' →
  inserted_at mr_id id (received t') = Some t0 ∧ pt_config t' = pt_config t.
Proof.
  intros Hwf Hi Hlt. destruct e as [i payload|p a|p|p|]; cbn [tree_handle].
  - intros [= <-]. unfold tree_publish. repeat case_match; try done. split; [|done]. by apply inserted_at_insert.
  - destruct a as [| | | | | |i hop payload|ihaves| |]; cbn [tree_rpc]; try (by intros [= <-]).
    + pose proof (inserted_at_insert mr_id mr_hop now (MkRecord i hop p payload) _ id t0 Hi) as Hi'. unfold inject_message.
      destruct (cache_insert mr_id mr_hop now _ (received t)) as [[] r]; cbn [snd set_caches pt_config eager] in *.
      * destruct (if enable_compression _ then _ else _); [|done]. by intros [= <-].
      * destruct (optimize_sender_tree _); [case_bool_decide|]; by intros [= <-].
    + intros [= <-]. clear Hwf Hlt. revert t Hi. induction ihaves as [|ih l IH]; intros t Hi; [done|]. by apply (IH (inject_ihave now p ih.1 ih.2 t)).
  - by intros [= <-].
  - by intros [= <-].
  - intros ([o t1] & Hp & Ht)%outcome_bind_done. injection Ht as <-. apply outcome_bind_done in Hp as (t2 & Ht2 & Hp).
    assert (inserted_at mr_id id (received t2) = Some t0 ∧ pt_config t2 = pt_config t) as [Hi2 Hc2].
    { destruct (_ <? _); [|by injection Ht2 as <-]. apply outcome_bind_done in Ht2 as (t3 & Ht3 & Ht2).
      apply outcome_bind_done in Ht2 as (t4 & Ht4 & Ht2). injection Ht2 as <-.
      pose proof (ihaves_wf now t t3 Hwf Ht3) as Hwf3. apply outcome_bind_done in Ht3 as (l3 & _ & Ht3). injection Ht3 as <-.
      apply outcome_bind_done in Ht4 as (l4 & _ & Ht4). injection Ht4 as <-. cbn [received prune_history set_caches push_out set_out set_tick pt_config].
      destruct ((λ m : MessageRecord, (mr_id m, mr_hop m)) <$> l3); cbn [received pt_config push_out set_out] in *;
        (split; [|done]; apply (inserted_at_remove mr_id mr_hop); [by destruct Hwf|done|lia]). }
    injection Hp as Hp. destruct (pt_out t2); injection Hp as _ <-; done.
Qed.

Lemma tree_run_remembers upto now t t' id (t0 : Z) :
  tree_run upto now t t' → tree_wf now t → inserted_at mr_id id (received t) = Some t0 → upto ≤ t0 + history_window (pt_config t) →
  inserted_at mr_id id (received t') = Some t0 ∧ ∃ now', tree_wf now' t'.
Proof.
  induction 1 as [now t|now now' e t t1 t2 Hle Hlt He _ IH]; intros Hwf Hi Hup; [by eauto|].
  destruct (tree_handle_remembers now' e t t1 id t0) as [Hi1 Hc1]; [by apply (tree_wf_time now)|done|lia|done|].
  apply IH; [by apply (tree_handle_wf now now' e t)|done|by rewrite Hc1].
Qed.

(** A node hands a message out at most once within its history: after it
    handed out a message, and whatever else it is asked to do, copies of the
    message that arrive within the history window generate no event. *)
Theorem message_once_per_history (t0 : Z) t t1 t2 p hop p' hop' now id payload payload' t3 :
  tree_wf t0 t → cache_get id (received t) = None →
  inject_message t0 p id hop payload t = Done t1 →
  tree_run (t0 + history_window (pt_config t)) t0 t1 t2 →
  inject_message now p' id hop' payload' t2 = Done t3 →
  filter (λ ev, hands_out id ev = true) (pt_out t3) = filter (λ ev, hands_out id ev = true) (pt_out t2).
Proof.
  intros Hwf Hnew Hi Hrun Hi3. assert (inserted_at mr_id id (received t1) = Some t0 ∧ pt_config t1 = pt_config t) as [H1 Hc].
  { destruct Hwf as (Hw & _). unfold inject_message, cache_insert in Hi. unfold cache_get in Hnew.
    assert (cache_data (received t) !! id = None) as Hn by (destruct (cache_data (received t) !! id); done).
    cbn [mr_id] in Hi. rewrite Hn in Hi. destruct (if enable_compression _ then _ else _); [|done]. injection Hi as <-.
    cbn [received push_out set_out set_caches pt_config]. split; [|done]. unfold inserted_at. cbn [by_time].
    assert (id ∉ (mr_id ∘ timed_item) <$> by_time (received t)) as Hout.
    { destruct Hw as (_ & _ & Hdom & _). rewrite <-Hdom, Hn. by intros []. }
    revert Hout. generalize (by_time (received t)). intros bt. induction bt as [|x bt IH]; cbn [app find].
    - by rewrite bool_decide_true.
    - rewrite fmap_cons, not_elem_of_cons. intros [Hx Hl]. rewrite bool_decide_false by (intros Heq; by apply Hx). by apply IH. }
  destruct (tree_run_remembers _ t0 t1 t2 id t0 Hrun) as (H2 & now' & Hwf2); [by eapply inject_message_wf|done|by rewrite Hc|].
  destruct Hwf2 as (Hw2 & _). destruct (inserted_at_get mr_id mr_hop _ id t0 Hw2 H2) as [r Hr].
  pose proof (cache_insert_new mr_id mr_hop now (MkRecord id hop' p' payload') (received t2)) as Hn. cbn [mr_id] in Hn. rewrite Hr in Hn.
  unfold inject_message in Hi3. destruct (cache_insert mr_id mr_hop now _ (received t2)) as [b r']. cbn in Hn. subst b.
  destruct (optimize_sender_tree _); [case_bool_decide|]; injection Hi3 as <-; [|done..].
  cbn [pt_out push_out set_out]. rewrite filter_app. by rewrite app_nil_r.
Qed.

(** ** Repair *)

Lemma graft_for_keeps t grafts o q ids :
  grafts !! q = Some ids → ∃ ids', graft_for t grafts o !! q = Some ids' ∧ ∀ id, id ∈ ids → id ∈ ids'.
Proof.
  intros Hq. unfold graft_for. destruct (cache_get (mi_id o) (received t)) as [r|].
  - case_match; [|eauto]. destruct (grafts !! mi_sender o) eqn:E; [eauto|]. exists ids. rewrite lookup_insert_ne by congruence. eauto.
  - destruct (decide (mi_sender o = q)) as [<-|Hne].
    + rewrite lookup_insert_eq, Hq. cbn. eexists. split; [done|]. intros id Hid. apply elem_of_app. by left.
    + rewrite lookup_insert_ne by done. eauto.
Qed.

Lemma grafts_ask t (l : list MessageInfo) grafts o :
  o ∈ l → cache_get (mi_id o) (received t) = None →
  ∃ ids, foldl (graft_for t) grafts l !! mi_sender o = Some ids ∧ mi_id o ∈ ids.
Proof.
  intros Hin Hr. revert grafts. assert (∀ (l : list MessageInfo) grafts ids q, grafts !! q = Some ids → mi_id o ∈ ids →
    ∃ ids', foldl (graft_for t) grafts l !! q = Some ids' ∧ mi_id o ∈ ids') as Hkeep.
  { clear. induction l as [|x l IH]; intros grafts ids q Hq Hid; [eauto|]. cbn [foldl].
    destruct (graft_for_keeps t grafts x q ids Hq) as (ids' & Hq' & Hs). eapply IH; [exact Hq'|by apply Hs]. }
  induction l as [|x l IH]; [by apply not_elem_of_nil in Hin|]. intros grafts. cbn [foldl].
  apply elem_of_cons in Hin as [<-|Hin]; [|by apply IH].
  apply (Hkeep l _ (default [] (grafts !! mi_sender o) ++ [mi_id o])).
  - unfold graft_for. by rewrite Hr, lookup_insert_eq.
  - apply elem_of_app. right. by left.
Qed.

(** C31: a message that eager peers did not deliver is recovered from the peer
    that announced it: the repair of the tree asks the announcing peer for it in
    a graft, that peer, when it still has the message, links back and sends it,
    and the node then hands it out. *)
Theorem repair_recovers_message now ta ta' (a b : PeerId) o l tb r later out :
  iter_range (now - lazy_push_window (pt_config ta)) (now - 2 * tick_frequency (pt_config ta)) (observed ta) = Done l →
  o ∈ l → mi_sender o = b → cache_get (mi_id o) (received ta) = None → repair_tree now ta = Done ta' →
  cache_wf mr_id mr_hop (received ta) →
  cache_get (mi_id o) (received tb) = Some r → mr_id r = mi_id o →
  (if enable_compression (pt_config ta) then decode_all (mr_payload r) else Some (mr_payload r)) = Some out →
  ∃ ids tb' tc,
    notify ta b (Graft ids) ∈ pt_out ta' ∧
    tree_rpc later a (Graft ids) tb = Done tb' ∧ a ∈ eager tb' ∧ notify tb a (message_of r) ∈ pt_out tb' ∧
    tree_rpc later b (message_of r) ta' = Done tc ∧ is_Some (cache_get (mi_id o) (received tc)) ∧
    GenerateEvent (EvMessage (pt_topic ta) (mi_id o) out) ∈ pt_out tc.
Proof.
  intros Hl Ho Hb Hnone Hrep Hwf Hr Hid Hout. unfold repair_tree in Hrep. rewrite Hl in Hrep. cbn [mbind outcome_bind] in Hrep.
  injection Hrep as Hrep. destruct (grafts_ask ta l ∅ o Ho Hnone) as (ids & Hg & Hin).
  set (t1 := push_out _ ta) in Hrep. assert (notify ta b (Graft ids) ∈ pt_out ta') as Hgraft.
  { rewrite <-Hrep. cbn. apply elem_of_app. right. apply list_elem_of_fmap. exists (b, ids). split; [done|].
    apply elem_of_map_to_list. by rewrite <-Hb. }
  assert (cache_get (mi_id o) (received ta') = None) as Hnone'.
  { rewrite <-Hrep. cbn. rewrite (remove_older_get mr_id mr_hop) by done. by repeat case_match. }
  assert (pt_config ta' = pt_config ta ∧ pt_topic ta' = pt_topic ta) as [Hc Ht] by (by rewrite <-Hrep).
  assert (∃ tc, inject_message later b (mi_id o) (mr_hop r) (mr_payload r) ta' = Done tc ∧ is_Some (cache_get (mi_id o) (received tc)) ∧
    GenerateEvent (EvMessage (pt_topic ta) (mi_id o) out) ∈ pt_out tc) as (tc & Hi & Hget & Hev).
  { unfold inject_message. pose proof (cache_insert_new mr_id mr_hop later (MkRecord (mi_id o) (mr_hop r) b (mr_payload r)) (received ta')) as Hn.
    pose proof (cache_insert_get mr_id mr_hop later (MkRecord (mi_id o) (mr_hop r) b (mr_payload r)) (received ta') (mi_id o)) as Hget.
    cbn [mr_id] in Hn, Hget. rewrite Hnone' in Hn, Hget. rewrite bool_decide_true in Hget by done.
    destruct (cache_insert mr_id mr_hop later _ (received ta')) as [new rc]. cbn [fst snd is_some negb] in *. subst new.
    cbn [set_caches pt_config]. rewrite Hc, Hout. eexists. split; [reflexivity|]. cbn. split; [by rewrite Hget|].
    rewrite Ht. rewrite <-app_assoc. apply elem_of_app. right. by left. }
  exists ids, (inject_graft a ids tb), tc. split; [done|]. split; [done|]. split; [cbn [eager inject_graft push_out set_out set_links]; set_solver|].
  split; [|unfold message_of; cbn [tree_rpc]; by rewrite Hid].
  apply elem_of_app. right. apply (list_elem_of_fmap_2 (λ msg, notify tb a (message_of msg))). apply list_elem_of_omap. by exists (mi_id o).
Qed.
End tree.

(** ** Witnesses *)

Import NetExample.

Module TreeExample.
Definition fresh : PlumTree := set_links {[peer 2]} {[peer 3]} (Tree_new 0 "blocks" toy_config (peer 1)).
(** After a message from the third node; and with an announcement of another. *)
Definition after : PlumTree := done_or (inject_message 0 (peer 3) 77 1 payload fresh) fresh.
Definition told : PlumTree := inject_ihave 1000 (peer 2) 88 1 fresh.
Definition teller : PlumTree := done_or (inject_message 900 (peer 4) 88 1 payload fresh) fresh.
Definition repaired : PlumTree := done_or (repair_tree 2000 told) told.
End TreeExample.
Import TreeExample.

Lemma fresh_wf : tree_wf 0 fresh.
Proof. split_and!; try apply Cache_new_wf; constructor. Qed.

Lemma after_ok : inject_message 0 (peer 3) 77 1 payload fresh = Done after.
Proof. unfold after. apply is_done_eq. by vm_compute. Qed.

Definition after2 : PlumTree := done_or (inject_message 5 (peer 4) 77 2 payload after) after.

Lemma message_once_per_history_witness :
  filter (λ ev, hands_out 77 ev = true) (pt_out after2) = filter (λ ev, hands_out 77 ev = true) (pt_out after).
Proof.
  apply (message_once_per_history 0 fresh after after (peer 3) 1 (peer 4) 2 5 77 payload payload after2 fresh_wf).
  - reflexivity.
  - exact after_ok.
  - apply RunNil.
  - unfold after2. apply is_done_eq. by vm_compute.
Defined.

Lemma repair_recovers_message_witness :
  ∃ ids tb' tc,
    notify told (peer 2) (Graft ids) ∈ pt_out repaired ∧ tree_rpc 2100 (peer 1) (Graft ids) teller = Done tb' ∧
    GenerateEvent (EvMessage "blocks" 88 (tail payload)) ∈ pt_out tc.
Proof.
  destruct (repair_recovers_message 2000 told repaired (peer 1) (peer 2) (MkInfo 88 1 (peer 2)) [MkInfo 88 1 (peer 2)] teller (MkRecord 88 1 (peer 4) payload) 2100 (tail payload))
    as (ids & tb' & tc & Hg & Hb & _ & _ & _ & _ & Hev).
  - reflexivity.
  - by left.
  - reflexivity.
  - reflexivity.
  - unfold repaired. apply is_done_eq. by vm_compute.
  - apply fresh_wf.
  - reflexivity.
  - reflexivity.
  - reflexivity.
  - exists ids, tb', tc. split; [exact Hg|]. split; [exact Hb|exact Hev].
Defined.
