(* ===== verification/Broadcast.v ===== *)
(** * A broadcast among nodes (src/network/episub/tree.rs)

    Nodes of one topic, each with its tree, and the messages on their way
    between them, which arrive in any order. Maintenance does not run and the
    views do not change while a message spreads. *)
From S2P Require Import Prelude Primitives Episub Cache PlumTree NetExample.

Section broadcast.
Context `{Libp2p} `{Zstd}.

Record World := MkWorld {
  nodes : gmap PeerId PlumTree;
  wire : list (PeerId * PeerId * Action);
  log : list (PeerId * EpisubEvent)
}.

Definition set_node (a : PeerId) (t : PlumTree) (w : World) : World := MkWorld (<[a := t]> (nodes w)) (wire w) (log w).

(** Where an action that a node hands out goes. *)
Definition emit (a : PeerId) (ev : NetAction) (w : World) : World :=
  match ev with
  | NotifyHandler b (MkRpc _ (Some act)) => MkWorld (nodes w) (wire w ++ [(a, b, act)]) (log w)
  | GenerateEvent e => MkWorld (nodes w) (wire w) (log w ++ [(a, e)])
  | _ => w
  end.

(** A node is polled, between two ticks, or a message arrives. *)
Inductive net_step : World → World → Prop :=
  | NetPoll now a t ev t' w :
      nodes w !! a = Some t → now - pt_last_tick t ≤ tick_frequency (pt_config t) →
      tree_poll now t = Done (Some ev, t') → net_step w (emit a ev (set_node a t' w))
  | NetDeliver now a b act l k t t' w :
      wire w = l ++ (a, b, act) :: k → nodes w !! b = Some t → tree_rpc now a act t = Done t' →
      net_step w (MkWorld (<[b := t']> (nodes w)) (l ++ k) (log w)).

(** ** The broadcast of one message *)

Variables (m : Z) (pl : bytes) (start : gmap PeerId PlumTree) (p : PeerId).

Definition holds (t : PlumTree) : bool := is_some (cache_get m (received t)).
Definition has w a : Prop := ∃ t, nodes w !! a = Some t ∧ holds t = true.

(** The payload as the nodes hand it out. *)
Definition decoded (t : PlumTree) : option bytes := if enable_compression (pt_config t) then decode_all pl else Some pl.

(** Nothing is under way, nobody knows the message, everybody can decode it. *)
Definition quiet : Prop :=
  ∀ a t, start !! a = Some t → pt_out t = [] ∧ holds t = false ∧ is_Some (decoded t).

Definition link a b : Prop := is_Some (start !! b) ∧ ∃ t, start !! a = Some t ∧ b ∈ eager t.

Definition published (now : Z) (t : PlumTree) : World := MkWorld (<[p := tree_publish now m pl t]> start) [] [].

(** ** Invariant *)

Definition in_queue w a b act : Prop := ∃ t topic, nodes w !! a = Some t ∧ NotifyHandler b (MkRpc topic (Some act)) ∈ pt_out t.
Definition in_flight w a b act : Prop := (a, b, act) ∈ wire w ∨ in_queue w a b act.

(** What a node has handed out, and what it is going to. *)
Definition generated (ev : NetAction) : option EpisubEvent := match ev with GenerateEvent e => Some e | _ => None end.
Definition events_of w a : list EpisubEvent :=
  (filter (λ x, x.1 = a) (log w)).*2 ++ omap generated (match nodes w !! a with Some t => pt_out t | None => [] end).

Definition good_action w a b act : Prop :=
  has w a ∧ match act with Message id _ payload => id = m ∧ payload = pl | Prune => has w b | _ => False end.

Record inv w : Prop := {
  inv_nodes : ∀ a, match start !! a with
                   | Some t0 => ∃ t, nodes w !! a = Some t ∧ pt_config t = pt_config t0 ∧ pt_topic t = pt_topic t0 ∧
                                 (holds t = false → eager t = eager t0 ∧ pt_out t = [])
                   | None => nodes w !! a = None
                   end;
  inv_queue : ∀ a t ev, nodes w !! a = Some t → ev ∈ pt_out t →
                match ev with
                | NotifyHandler b (MkRpc _ (Some act)) => good_action w a b act
                | GenerateEvent _ => True
                | _ => False
                end;
  inv_wire : ∀ a b act, (a, b, act) ∈ wire w → good_action w a b act;
  inv_spread : ∀ a t0, has w a → start !! a = Some t0 →
                ∃ src, has w src ∧ ∀ b, b ∈ eager t0 → b ≠ src → has w b ∨ ∃ h, in_flight w a b (Message m h pl);
  inv_events : ∀ a t0 out, start !! a = Some t0 → decoded t0 = Some out →
                events_of w a = if bool_decide (a = p) then [] else
                  match nodes w !! a with Some t => if holds t then [EvMessage (pt_topic t0) m out] else [] | None => [] end;
  inv_source : has w p
}.

(** ** What the handlers do with the message *)

Lemma is_some_insert {A} (key hops : A → Z) now (item : A) c :
  is_some (cache_get m (cache_insert key hops now item c).2) = bool_decide (key item = m) || is_some (cache_get m c).
Proof. rewrite cache_insert_get. by case_bool_decide. Qed.

Lemma inject_new now a h t out :
  holds t = false → decoded t = Some out →
  ∃ t', inject_message now a m h pl t = Done t' ∧ holds t' = true ∧ pt_config t' = pt_config t ∧ pt_topic t' = pt_topic t ∧
    eager t' = eager t ∧
    pt_out t' = pt_out t ++ GenerateEvent (EvMessage (pt_topic t) m out) ::
      ((λ c, notify t c (Message m (wrap32 (h + 1)) pl)) <$> filter (λ c, c ≠ a) (elements (eager t))).
Proof.
  unfold holds, decoded, inject_message. intros Hh Hd.
  pose proof (cache_insert_new mr_id mr_hop now (MkRecord m h a pl) (received t)) as Hnew. cbn [mr_id] in Hnew. rewrite Hh in Hnew.
  pose proof (is_some_insert mr_id mr_hop now (MkRecord m h a pl) (received t)) as Hin. cbn [mr_id] in Hin.
  rewrite bool_decide_true in Hin by done. destruct (cache_insert mr_id mr_hop now _ (received t)) as [new r]. cbn [fst snd] in *. subst new.
  cbn [set_caches pt_config]. rewrite Hd. eexists. split; [reflexivity|]. cbn. split_and!; try done. by rewrite <-app_assoc.
Qed.

Lemma inject_known now a h t :
  holds t = true →
  ∃ t', inject_message now a m h pl t = Done t' ∧ holds t' = true ∧ pt_config t' = pt_config t ∧ pt_topic t' = pt_topic t ∧
    ∃ new, pt_out t' = pt_out t ++ new ∧ (new = [] ∨ new = [notify t a Prune]).
Proof.
  unfold holds, inject_message. intros Hh.
  pose proof (cache_insert_new mr_id mr_hop now (MkRecord m h a pl) (received t)) as Hnew. cbn [mr_id] in Hnew. rewrite Hh in Hnew.
  pose proof (is_some_insert mr_id mr_hop now (MkRecord m h a pl) (received t)) as Hin. cbn [mr_id] in Hin.
  rewrite bool_decide_true in Hin by done. destruct (cache_insert mr_id mr_hop now _ (received t)) as [new r]. cbn [fst snd negb] in *. subst new.
  cbn [set_caches pt_config eager]. destruct (optimize_sender_tree (pt_config t)); [case_bool_decide|].
  - eexists. split; [reflexivity|]. cbn. split_and!; try done. eexists. split; [reflexivity|by right].
  - eexists. split; [reflexivity|]. cbn. split_and!; try done. exists []. rewrite app_nil_r. auto.
  - eexists. split; [reflexivity|]. cbn. split_and!; try done. exists []. rewrite app_nil_r. auto.
Qed.

(** ** Preservation *)

Lemma has_mono w w' a :
  (∀ t, nodes w !! a = Some t → holds t = true → ∃ t', nodes w' !! a = Some t' ∧ holds t' = true) → has w a → has w' a.
Proof. intros Hm (t & Ht & Hh). by apply (Hm t). Qed.

Lemma good_mono w w' a b act : (∀ x, has w x → has w' x) → good_action w a b act → good_action w' a b act.
Proof. intros Hm [Ha Hact]. split; [by apply Hm|]. destruct act; auto. Qed.

(** A node is polled. *)
Lemma inv_poll w a t ev evs :
  inv w → nodes w !! a = Some t → pt_out t = ev :: evs → inv (emit a ev (set_node a (set_out evs t) w)).
Proof.
  intros Hw Ht Hout. set (w' := emit a ev (set_node a (set_out evs t) w)).
  assert (nodes w' = <[a := set_out evs t]> (nodes w)) as Hn by (unfold w', emit; by repeat case_match).
  assert (∀ x, has w x ↔ has w' x) as Hhas.
  { intros x. unfold has. rewrite Hn. destruct (decide (a = x)) as [<-|Hne]; [|by rewrite lookup_insert_ne].
    rewrite lookup_insert_eq, Ht. split; intros (t1 & [= <-] & Hh); by eexists. }
  pose proof (inv_queue w Hw a t ev Ht) as Hev. rewrite Hout in Hev. specialize (Hev ltac:(by left)).
  split.
  - intros x. pose proof (inv_nodes w Hw x) as Hx. rewrite Hn. destruct (start !! x) as [t0|] eqn:E.
    + destruct Hx as (t1 & Ht1 & Hc & Htop & Hq). destruct (decide (a = x)) as [<-|Hne]; [|rewrite lookup_insert_ne by done; eauto 10].
      rewrite lookup_insert_eq. rewrite Ht in Ht1. injection Ht1 as <-. eexists. split; [done|]. split_and!; try done.
      intros Hh. destruct (Hq Hh) as [_ Hnil]. congruence.
    + rewrite lookup_insert_ne; [done|]. intros ->. congruence.
  - intros x t1 e Hx Hin. rewrite Hn in Hx.
    assert (∃ t2, nodes w !! x = Some t2 ∧ e ∈ pt_out t2) as (t2 & Ht2 & Hin2).
    { destruct (decide (a = x)) as [<-|Hne]; [|rewrite lookup_insert_ne in Hx by done; eauto].
      rewrite lookup_insert_eq in Hx. injection Hx as <-. exists t. split; [done|]. rewrite Hout. by right. }
    pose proof (inv_queue w Hw x t2 e Ht2 Hin2) as Hq. destruct e as [c [top [act|]]| | |]; try done. eapply good_mono; [|exact Hq]. apply Hhas.
  - intros x y act Hin. assert ((x, y, act) ∈ wire w ∨ ∃ top, ev = NotifyHandler y (MkRpc top (Some act)) ∧ x = a) as [Hold|(top & -> & ->)].
    { unfold w', emit in Hin. destruct ev as [c [top [act'|]]| | |]; cbn in Hin; auto.
      apply elem_of_app in Hin as [|[= -> -> ->]%list_elem_of_singleton]; [by left|right]. by eexists. }
    + eapply good_mono; [apply Hhas|by apply (inv_wire w Hw)].
    + eapply good_mono; [apply Hhas|exact Hev].
  - intros x t0 Hx Hx0. apply Hhas in Hx. destruct (inv_spread w Hw x t0 Hx Hx0) as (src & Hsrc & Hall).
    exists src. split; [by apply Hhas|]. intros b Hb Hne. destruct (Hall b Hb Hne) as [|(h & Hf)]; [left; by apply Hhas|right]. exists h.
    destruct Hf as [Hwire|(t1 & top & Ht1 & Hin)].
    + left. unfold w', emit. repeat case_match; try done. cbn. apply elem_of_app. by left.
    + destruct (decide (a = x)) as [<-|Hne'].
      * rewrite Ht in Ht1. injection Ht1 as <-. rewrite Hout in Hin. apply elem_of_cons in Hin as [<-|Hin].
        -- left. unfold w'. cbn. apply elem_of_app. right. by apply list_elem_of_singleton.
        -- right. exists (set_out evs t), top. rewrite Hn, lookup_insert_eq. done.
      * right. exists t1, top. rewrite Hn, lookup_insert_ne by done. done.
  - intros x t0 out Hx0 Hout0. pose proof (inv_events w Hw x t0 out Hx0 Hout0) as He.
    assert (events_of w' x = events_of w x) as ->.
    { unfold events_of. rewrite Hn. destruct (decide (a = x)) as [<-|Hne].
      - rewrite lookup_insert_eq, Ht, Hout. unfold w', emit. destruct ev as [c [top [act|]]|e| |]; cbn; try done.
        by rewrite filter_app, fmap_app, filter_cons, decide_True, filter_nil, <-app_assoc by done.
      - rewrite lookup_insert_ne by done. f_equal. unfold w', emit. destruct ev as [c [top [act|]]|e| |]; cbn; try done.
        by rewrite filter_app, fmap_app, filter_cons, decide_False, filter_nil, app_nil_r by done. }
    rewrite He, Hn. destruct (decide (a = x)) as [<-|Hne]; [by rewrite lookup_insert_eq, Ht|by rewrite lookup_insert_ne].
  - apply Hhas, (inv_source w Hw).
Qed.

#[local] Instance has_dec w a : Decision (has w a).
Proof.
  destruct (nodes w !! a) as [t|] eqn:E; [destruct (holds t) eqn:Hh|].
  - left. by exists t.
  - right. intros (t1 & Ht1 & Hh1). congruence.
  - right. intros (t1 & Ht1 & _). congruence.
Defined.

(** A node that has the message afterwards is replaced, and a message is taken
    off the wire. *)
Lemma inv_replace w b t t' new a act l k :
  inv w → nodes w !! b = Some t → wire w = l ++ (a, b, act) :: k →
  pt_config t' = pt_config t → pt_topic t' = pt_topic t → holds t' = true → pt_out t' = pt_out t ++ new →
  (∀ ev, ev ∈ new → match ev with
     | NotifyHandler c (MkRpc _ (Some (Message id _ payload))) => id = m ∧ payload = pl
     | NotifyHandler c (MkRpc _ (Some Prune)) => has w c
     | GenerateEvent _ => True
     | _ => False end) →
  (if holds t then omap generated new = []
   else b ≠ p ∧ (∀ out, decoded t = Some out → omap generated new = [EvMessage (pt_topic t) m out]) ∧
     ∀ c, c ∈ eager t → c ≠ a → ∃ h top, NotifyHandler c (MkRpc top (Some (Message m h pl))) ∈ new) →
  inv (MkWorld (<[b := t']> (nodes w)) (l ++ k) (log w)).
Proof.
  intros Hw Ht Hwire Hc Htop Hh Hout Hnew Hspread. set (w' := MkWorld _ _ _).
  assert (∀ x, has w' x ↔ has w x ∨ x = b) as Hhas.
  { intros x. unfold has. cbn [nodes w']. destruct (decide (b = x)) as [<-|Hne].
    - rewrite lookup_insert_eq. split; [by right|intros _; by eexists].
    - rewrite lookup_insert_ne by done. split; [by left|by intros [|?]]. }
  assert (∀ x, has w x → has w' x) as Hm by (intros; apply Hhas; by left).
  assert (has w a) as Ha.
  { apply (inv_wire w Hw a b act). rewrite Hwire. apply elem_of_app. right. by left. }
  split.
  - intros x. pose proof (inv_nodes w Hw x) as Hx. cbn [nodes w']. destruct (start !! x) as [t0|] eqn:E.
    + destruct Hx as (t1 & Ht1 & Hc1 & Htop1 & Hq). destruct (decide (b = x)) as [<-|Hne]; [|rewrite lookup_insert_ne by done; eauto 10].
      rewrite lookup_insert_eq. rewrite Ht in Ht1. injection Ht1 as <-. eexists. split; [done|]. split_and!; [congruence..|]. by rewrite Hh.
    + rewrite lookup_insert_ne; [done|]. intros ->. congruence.
  - intros x t1 e Hx Hin. cbn [nodes w'] in Hx. destruct (decide (b = x)) as [<-|Hne].
    + rewrite lookup_insert_eq in Hx. injection Hx as <-. rewrite Hout in Hin. apply elem_of_app in Hin as [Hin|Hin].
      * pose proof (inv_queue w Hw b t e Ht Hin) as Hq. destruct e as [c [top [act'|]]| | |]; try done. by apply (good_mono w).
      * specialize (Hnew e Hin). destruct e as [c [top [act'|]]| | |]; try done. split; [apply Hhas; by right|].
        destruct act'; try done. by apply Hm.
    + rewrite lookup_insert_ne in Hx by done. pose proof (inv_queue w Hw x t1 e Hx Hin) as Hq.
      destruct e as [c [top [act'|]]| | |]; try done. by apply (good_mono w).
  - intros x y act' Hin. cbn [wire w'] in Hin. apply (good_mono w); [done|]. apply (inv_wire w Hw). rewrite Hwire.
    apply elem_of_app in Hin as [|]; apply elem_of_app; [by left|by right; right].
  - intros x t0 Hx Hx0. apply Hhas in Hx. destruct (decide (has w x)) as [Hxw|Hxw].
    + destruct (inv_spread w Hw x t0 Hxw Hx0) as (src & Hsrc & Hall). exists src. split; [by apply Hm|].
      intros c Hcin Hne. destruct (Hall c Hcin Hne) as [|(h & Hf)]; [left; by apply Hm|].
      destruct Hf as [Hin|(t1 & top & Ht1 & Hin)].
      * rewrite Hwire in Hin. apply elem_of_app in Hin as [Hin|[[= -> -> <-]|Hin]%elem_of_cons].
        -- right. exists h. left. apply elem_of_app. by left.
        -- left. apply Hhas. by right.
        -- right. exists h. left. apply elem_of_app. by right.
      * right. exists h. right. destruct (decide (b = x)) as [<-|Hne'].
        -- exists t', top. cbn [nodes w']. rewrite lookup_insert_eq. split; [done|]. rewrite Ht in Ht1. injection Ht1 as <-.
           rewrite Hout. apply elem_of_app. by left.
        -- exists t1, top. cbn [nodes w']. by rewrite lookup_insert_ne.
    + destruct Hx as [| ->]; [done|]. exists a. split; [by apply Hm|]. intros c Hcin Hne.
      pose proof (inv_nodes w Hw b) as Hb. rewrite Hx0 in Hb. destruct Hb as (t1 & Ht1 & _ & _ & Hq). rewrite Ht in Ht1. injection Ht1 as <-.
      destruct (holds t) eqn:Hht; [destruct Hxw; by exists t|]. destruct (Hq eq_refl) as [Heager _].
      destruct Hspread as (_ & _ & Hs). destruct (Hs c) as (h & top & Hin); [by rewrite Heager|done|]. right. exists h. right.
      exists t', top. cbn [nodes w']. rewrite lookup_insert_eq. split; [done|]. rewrite Hout. apply elem_of_app. by right.
  - intros x t0 out Hx0 Hout0. pose proof (inv_events w Hw x t0 out Hx0 Hout0) as He. unfold events_of in *. cbn [nodes log w'].
    destruct (decide (b = x)) as [<-|Hne]; [|by rewrite lookup_insert_ne]. rewrite lookup_insert_eq. rewrite Ht in He.
    rewrite Hout, omap_app, app_assoc, He, Hh. destruct (holds t) eqn:Hht; [rewrite Hspread, app_nil_r; done|].
    destruct Hspread as (Hbp & Hg & _). rewrite bool_decide_false by done. cbn [app].
    pose proof (inv_nodes w Hw b) as Hb. rewrite Hx0 in Hb. destruct Hb as (t1 & Ht1 & Hc1 & Htop1 & _). rewrite Ht in Ht1. injection Ht1 as <-.
    rewrite (Hg out); [by rewrite Htop1|]. unfold decoded in *. by rewrite Hc1.
  - apply Hm, (inv_source w Hw).
Qed.

Lemma generated_notify t a (l : list PeerId) : omap generated ((λ c, notify t c a) <$> l) = [].
Proof. induction l as [|c l IH]; [done|exact IH]. Qed.

Lemma inv_decoded w b t : quiet → inv w → nodes w !! b = Some t → is_Some (decoded t).
Proof.
  intros Hq Hw Ht. pose proof (inv_nodes w Hw b) as Hb. destruct (start !! b) as [t0|] eqn:E; [|congruence].
  destruct Hb as (t1 & Ht1 & Hc & _). rewrite Ht in Ht1. injection Ht1 as <-. unfold decoded. rewrite Hc. apply (Hq b t0 E).
Qed.

(** A message arrives: the node handles it without a panic. *)
Lemma inv_deliver w a b act l k t now :
  quiet → inv w → wire w = l ++ (a, b, act) :: k → nodes w !! b = Some t →
  ∃ t', tree_rpc now a act t = Done t' ∧ inv (MkWorld (<[b := t']> (nodes w)) (l ++ k) (log w)) ∧
    (if holds t then ∃ new, pt_out t' = pt_out t ++ new ∧
        match act with Message _ _ _ => new = [] ∨ new = [notify t a Prune] | _ => new = [] end else True) ∧ holds t' = true.
Proof.
  intros Hq Hw Hwire Ht. assert (good_action w a b act) as [Ha Hact].
  { apply (inv_wire w Hw). rewrite Hwire. apply elem_of_app. right. by left. }
  destruct act; try done; cbn [tree_rpc].
  - destruct Hact as [-> ->]. destruct (holds t) eqn:Hh.
    + destruct (inject_known now a hop t Hh) as (t' & Hi & Hh' & Hc & Htop & new & Hout & Hnew). exists t'.
      split; [done|]. split; [|split; [by exists new|done]]. eapply (inv_replace w b t t' new); try done.
      * intros ev Hin. destruct Hnew as [->| ->]; [by apply not_elem_of_nil in Hin|]. by apply list_elem_of_singleton in Hin as ->.
      * rewrite Hh. by destruct Hnew as [->| ->].
    + destruct (inv_decoded w b t Hq Hw Ht) as [out Hd].
      destruct (inject_new now a hop t out Hh Hd) as (t' & Hi & Hh' & Hc & Htop & He & Hout). exists t'.
      split; [done|]. split; [|done]. eapply (inv_replace w b t t' _ a _ l k Hw Ht Hwire Hc Htop Hh' Hout).
      * intros ev [->|(c & -> & _)%list_elem_of_fmap]%elem_of_cons; [done|]. by split.
      * rewrite Hh. split_and!.
        -- intros ->. destruct (inv_source w Hw) as (t1 & Ht1 & Hh1). congruence.
        -- intros out' Hd'. rewrite Hd in Hd'. injection Hd' as <-. change (EvMessage (pt_topic t) m out :: omap generated ((λ c, notify t c (Message m (wrap32 (hop + 1)) pl)) <$>
             filter (λ c, c ≠ a) (elements (eager t))) = [EvMessage (pt_topic t) m out]). by rewrite generated_notify.
        -- intros c Hcin Hne. exists (wrap32 (hop + 1)), (pt_topic t). right.
           apply (list_elem_of_fmap_2 (λ c, notify t c (Message m (wrap32 (hop + 1)) pl))), list_elem_of_filter. split; [done|by apply elem_of_elements].
  - assert (holds t = true) as Hh by (destruct Hact as (t1 & Ht1 & Hh1); congruence). eexists. split; [reflexivity|].
    split; [|by rewrite Hh; split; [exists []; by rewrite app_nil_r|]].
    eapply (inv_replace w b t _ [] a); try done.
    + cbn. by rewrite app_nil_r.
    + by intros ev ?%not_elem_of_nil.
    + by rewrite Hh.
Qed.

Lemma inv_published now t :
  quiet → start !! p = Some t → cache_get m (observed t) = None → inv (published now t).
Proof.
  intros Hq Ht Hobs. destruct (Hq p t Ht) as (Hout & Hh & _).
  assert (cache_get m (received t) = None) as Hr by (by apply is_some_none).
  set (t' := tree_publish now m pl t). assert (holds t' = true) as Hh'.
  { unfold t', tree_publish, holds. rewrite Hr, Hobs. cbn [received set_caches]. rewrite is_some_insert. by rewrite bool_decide_true. }
  assert (pt_out t' = (λ c, notify t c (Message m 1 pl)) <$> elements (eager t)) as Hout'.
  { unfold t', tree_publish. rewrite Hr, Hobs. cbn. by rewrite Hout. }
  assert (pt_config t' = pt_config t ∧ pt_topic t' = pt_topic t) as [Hc Htop] by (unfold t', tree_publish; by rewrite Hr, Hobs).
  assert (∀ a, has (published now t) a → a = p) as Honly.
  { intros a (t1 & Ht1 & Hh1). unfold published in Ht1. cbn in Ht1. destruct (decide (p = a)) as [|Hne]; [done|].
    rewrite lookup_insert_ne in Ht1 by done. destruct (Hq a t1 Ht1) as (_ & Hf & _). congruence. }
  assert (has (published now t) p) as Hp.
  { exists t'. split; [apply lookup_insert_eq|done]. }
  split.
  - intros a. unfold published. cbn [nodes]. destruct (decide (p = a)) as [<-|Hne].
    + rewrite Ht, lookup_insert_eq. exists t'. split_and!; [done..|]. by rewrite Hh'.
    + rewrite lookup_insert_ne by done. destruct (start !! a) as [t0|] eqn:E; [|done]. exists t0. split_and!; [done..|].
      intros _. split; [done|]. by apply (Hq a t0 E).
  - intros a t1 ev Ht1 Hin. unfold published in Ht1. cbn [nodes] in Ht1. destruct (decide (p = a)) as [<-|Hne].
    + rewrite lookup_insert_eq in Ht1. injection Ht1 as <-. fold t' in Hin. rewrite Hout' in Hin. apply list_elem_of_fmap in Hin as (c & -> & _). by split_and!.
    + rewrite lookup_insert_ne in Ht1 by done. destruct (Hq a t1 Ht1) as (Hnil & _). rewrite Hnil in Hin. by apply not_elem_of_nil in Hin.
  - by intros a b act ?%not_elem_of_nil.
  - intros a t0 Ha%Honly Ha0. subst a. rewrite Ht in Ha0. injection Ha0 as <-. exists p. split; [done|].
    intros b Hb _. right. exists 1. right. exists t', (pt_topic t). split; [apply lookup_insert_eq|]. rewrite Hout'.
    apply (list_elem_of_fmap_2 (λ c, notify t c (Message m 1 pl))). by apply elem_of_elements.
  - intros a t0 out Ha0 Hd. unfold events_of, published. cbn [log nodes filter list_filter fmap list_fmap app].
    destruct (decide (p = a)) as [<-|Hne].
    + fold t'. rewrite lookup_insert_eq, bool_decide_true, Hout' by done. apply generated_notify.
    + rewrite lookup_insert_ne, Ha0, bool_decide_false by done. destruct (Hq a t0 Ha0) as (-> & -> & _). done.
  - done.
Qed.

(** ** Termination *)

Definition sum_nodes (f : PlumTree → nat) (ns : gmap PeerId PlumTree) : nat := sum_list (f <$> (map_to_list ns).*2).

Lemma sum_list_perm (l k : list nat) : l ≡ₚ k → sum_list l = sum_list k.
Proof. induction 1; simpl; lia. Qed.

Lemma sum_list_split (l k : list nat) : sum_list (l ++ k) = (sum_list l + sum_list k)%nat.
Proof. induction l as [|x l IH]; [done|]. cbn [app]. simpl. lia. Qed.

Lemma sum_nodes_update f ns b t t' :
  ns !! b = Some t → (sum_nodes f (<[b := t']> ns) + f t = sum_nodes f ns + f t')%nat.
Proof.
  intros Hb. unfold sum_nodes.
  assert (∀ x, sum_list (f <$> (map_to_list (<[b := x]> ns)).*2) = (f x + sum_list (f <$> (map_to_list (delete b ns)).*2))%nat) as Hx.
  { intros x. rewrite <-insert_delete_eq.
    rewrite (sum_list_perm _ (f <$> ((b, x) :: map_to_list (delete b ns)).*2)); [done|].
    by rewrite map_to_list_insert by apply lookup_delete_eq. }
  rewrite Hx. rewrite <-(insert_id ns b t Hb) at 2. rewrite Hx. lia.
Qed.

Definition weight_action (act : Action) : nat := match act with Message _ _ _ => 3 | _ => 1 end.
Definition weight_event (ev : NetAction) : nat :=
  match ev with NotifyHandler _ (MkRpc _ (Some act)) => S (weight_action act) | _ => 1 end.
Definition node_weight (t : PlumTree) : nat := sum_list (weight_event <$> pt_out t).
Definition weight w : nat := (sum_nodes node_weight (nodes w) + sum_list ((λ x, weight_action x.2) <$> wire w))%nat.
Definition lacking w : nat := sum_nodes (λ t, if holds t then 0 else 1)%nat (nodes w).

Lemma tree_poll_between now t ev t' :
  now - pt_last_tick t ≤ tick_frequency (pt_config t) → tree_poll now t = Done (Some ev, t') →
  ∃ evs, pt_out t = ev :: evs ∧ t' = set_out evs t.
Proof.
  intros Hn. unfold tree_poll. rewrite (proj2 (Z.ltb_ge _ _)) by done. cbn.
  destruct (pt_out t) as [|ev' evs]; [done|]. intros [= -> <-]. by exists evs.
Qed.

Lemma net_step_decreases w w' :
  quiet → inv w → net_step w w' →
  inv w' ∧ (lacking w' < lacking w ∨ lacking w' = lacking w ∧ weight w' < weight w)%nat.
Proof.
  intros Hq Hw Hstep. destruct Hstep as [now a t ev t' w Ht Hn Hp|now a b act l k t t' w Hwire Ht Hr].
  - destruct (tree_poll_between now t ev t' Hn Hp) as (evs & Hout & ->). split; [by apply (inv_poll w a t)|]. right.
    pose proof (sum_nodes_update node_weight (nodes w) a t (set_out evs t) Ht) as Hs1.
    pose proof (sum_nodes_update (λ t, if holds t then 0 else 1)%nat (nodes w) a t (set_out evs t) Ht) as Hs2.
    assert (node_weight t = weight_event ev + node_weight (set_out evs t))%nat as Hnw by (unfold node_weight; by rewrite Hout).
    assert (holds (set_out evs t) = holds t) as Hh by done. cbn beta in Hs2. rewrite Hh in Hs2. unfold lacking, weight.
    destruct ev as [c [top [act|]]|e| |]; cbn [emit nodes wire set_node]; cbn [weight_event] in Hnw;
      try (split; lia).
    rewrite fmap_app, sum_list_split. simpl. split; lia.
  - destruct (inv_deliver w a b act l k t now Hq Hw Hwire Ht) as (t1 & Hr1 & Hinv & Hnew & Hh1). rewrite Hr in Hr1. injection Hr1 as <-.
    split; [done|]. pose proof (sum_nodes_update node_weight (nodes w) b t t' Ht) as Hs1.
    pose proof (sum_nodes_update (λ t, if holds t then 0 else 1)%nat (nodes w) b t t' Ht) as Hs2. cbn beta in Hs2. rewrite Hh1 in Hs2.
    unfold lacking. cbn [nodes]. destruct (holds t); [right|left; lia]. split; [lia|].
    destruct Hnew as (new & Hout & Hnew). assert (node_weight t' = node_weight t + sum_list (weight_event <$> new))%nat as Hnw.
    { unfold node_weight. by rewrite Hout, fmap_app, sum_list_split. }
    assert (sum_list (weight_event <$> new) < weight_action act)%nat as Hlt.
    { destruct act; cbn in *; try (subst; simpl; lia). destruct Hnew as [->| ->]; simpl; lia. }
    assert (sum_list ((λ x, weight_action x.2) <$> wire w) = weight_action act + sum_list ((λ x, weight_action x.2) <$> (l ++ k)))%nat as Hww.
    { rewrite Hwire, !fmap_app, !sum_list_split. unfold fmap. simpl. lia. }
    unfold weight. cbn [nodes wire]. lia.
Qed.

Lemma inv_terminates w : quiet → inv w → Acc (flip net_step) w.
Proof.
  intros Hq. remember (lacking w) as n eqn:Hn. revert w Hn. induction (lt_wf n) as [n _ IHn]. intros w Hn.
  remember (weight w) as k eqn:Hk. revert w Hn Hk. induction (lt_wf k) as [k _ IHk]. intros w Hn Hk Hw.
  constructor. intros w' Hstep. destruct (net_step_decreases w w' Hq Hw Hstep) as [Hw' [Hlt|[Heq Hlt]]].
  - by apply (IHn (lacking w')); [lia|..].
  - by apply (IHk (weight w')); [lia|congruence|..].
Qed.

Lemma inv_reach w w' : quiet → inv w → rtc net_step w w' → inv w'.
Proof. intros Hq Hw Hsteps. induction Hsteps as [|w1 w2 w3 Hstep _ IH]; [done|]. by apply IH, (net_step_decreases w1). Qed.

(** Without a step left nothing is under way between nodes. *)
Lemma stuck_queues w a t : (∀ w', ¬ net_step w w') → nodes w !! a = Some t → pt_out t = [].
Proof.
  intros Hstuck Ht. destruct (pt_out t) as [|ev evs] eqn:Hout; [done|]. exfalso.
  apply (Hstuck (emit a ev (set_node a (set_out evs t) w))). apply (NetPoll (pt_last_tick t + tick_frequency (pt_config t)) a t); [done|lia|].
  unfold tree_poll. rewrite (proj2 (Z.ltb_ge _ _)) by lia. cbn. by rewrite Hout.
Qed.

Lemma stuck_wire w a b act t : quiet → inv w → (∀ w', ¬ net_step w w') → nodes w !! b = Some t → (a, b, act) ∉ wire w.
Proof.
  intros Hq Hw Hstuck Ht Hin. apply list_elem_of_split in Hin as (l & k & Hwire).
  destruct (inv_deliver w a b act l k t 0 Hq Hw Hwire Ht) as (t' & Hr & _). eapply Hstuck. by eapply NetDeliver.
Qed.

Lemma stuck_link w a b : quiet → inv w → (∀ w', ¬ net_step w w') → has w a → link a b → has w b.
Proof.
  intros Hq Hw Hstuck Ha [[tb Hb] (t0 & Ht0 & Heb)]. destruct (inv_spread w Hw a t0 Ha Ht0) as (src & Hsrc & Hall).
  destruct (decide (b = src)) as [->|Hne]; [done|]. destruct (Hall b Heb Hne) as [|(h & [Hin|(t & top & Ht & Hin)])]; [done|exfalso..].
  - pose proof (inv_nodes w Hw b) as Hnb. rewrite Hb in Hnb. destruct Hnb as (t & Ht & _). by apply (stuck_wire w a b _ t Hq Hw Hstuck Ht Hin).
  - rewrite (stuck_queues w a t Hstuck Ht) in Hin. by apply not_elem_of_nil in Hin.
Qed.
End broadcast.

(** ** Theorem *)

(** C30: a published message reaches every node that is connected to the
    publisher by eager links, and each of them hands it out exactly once. In
    whatever order messages are delivered and nodes are polled, the broadcast
    comes to an end, and when it has ended every connected node holds the message
    and, unless it is the publisher, has generated one event, with the payload
    that was published; duplicates only prune links. *)
Theorem broadcast_reaches_connected `{Libp2p} `{Zstd} m pl start p now tp w :
  quiet m pl start → start !! p = Some tp → cache_get m (observed tp) = None →
  rtc net_step (published m pl start p now tp) w →
  Acc (flip net_step) w ∧
  ((∀ w', ¬ net_step w w') →
   ∀ b, rtc (link start) p b → has m w b ∧
     ∀ tb, start !! b = Some tb → b ≠ p → ∃ out, decoded pl tb = Some out ∧
       (filter (λ x, x.1 = b) (log w)).*2 = [EvMessage (pt_topic tb) m out]).
Proof.
  intros Hq Ht Hobs Hsteps. pose proof (inv_published m pl start p now tp Hq Ht Hobs) as Hinit.
  pose proof (inv_reach m pl start p _ w Hq Hinit Hsteps) as Hw. split; [by eapply inv_terminates|]. intros Hstuck b Hlink.
  assert (has m w b) as Hb.
  { assert (∀ a, rtc (link start) a b → has m w a → has m w b) as Hall.
    { intros a Hab. induction Hab as [|a b c Hab _ IH]; [done|]. intros Ha. by eapply IH, stuck_link. }
    apply (Hall p); [done|]. by apply (inv_source m pl start p). }
  split; [done|]. intros tb Htb Hne. destruct (Hq b tb Htb) as (_ & _ & [out Hout]). exists out. split; [done|].
  pose proof (inv_events m pl start p w Hw b tb out Htb Hout) as He. rewrite bool_decide_false in He by done.
  destruct Hb as (t & Hbt & Hh). unfold events_of in He. rewrite Hbt, Hh, (stuck_queues w b t Hstuck Hbt) in He.
  by rewrite app_nil_r in He.
Qed.

(** ** An example *)

Section run.
Context `{Libp2p} `{Zstd}.

(** A schedule: the first node with something to hand out is polled, or else
    the oldest message is delivered. *)
Definition next_step (w : World) : option World :=
  match find (λ a, match nodes w !! a with Some t => match pt_out t with [] => false | _ => true end | None => false end)
             (map_to_list (nodes w)).*1 with
  | Some a =>
      t ← nodes w !! a;
      match tree_poll (pt_last_tick t + tick_frequency (pt_config t)) t with
      | Done (Some ev, t') => Some (emit a ev (set_node a t' w))
      | _ => None
      end
  | None =>
      match wire w with
      | (a, b, act) :: k =>
          t ← nodes w !! b;
          match tree_rpc 0 a act t with Done t' => Some (MkWorld (<[b := t']> (nodes w)) k (log w)) | _ => None end
      | [] => None
      end
  end.

Fixpoint run (fuel : nat) (w : World) : World :=
  match fuel with
  | O => w
  | S fuel => match next_step w with Some w' => run fuel w' | None => w end
  end.

Lemma next_step_net w w' : next_step w = Some w' → net_step w w'.
Proof.
  unfold next_step. destruct (find _ _) as [a|].
  - intros (t & Ht & Hp)%bind_Some. destruct (tree_poll _ t) as [[[ev|] t']| |] eqn:E; [|done..]. injection Hp as <-.
    eapply NetPoll; [exact Ht| |exact E]. lia.
  - destruct (wire w) as [|[[a b] act] k] eqn:Hw; [done|]. intros (t & Ht & Hp)%bind_Some.
    destruct (tree_rpc 0 a act t) as [t'| |] eqn:E; [|done..]. injection Hp as <-. by apply (NetDeliver 0 a b act [] k t t').
Qed.

Lemma run_steps fuel w : rtc net_step w (run fuel w).
Proof.
  revert w. induction fuel as [|fuel IH]; intros w; [constructor|]. cbn [run]. destruct (next_step w) as [w'|] eqn:E; [|constructor].
  eapply rtc_l; [by apply next_step_net|apply IH].
Qed.

Lemma silent_stuck w :
  wire w = [] → forallb (λ t, match pt_out t with [] => true | _ => false end) (map_to_list (nodes w)).*2 = true → ∀ w', ¬ net_step w w'.
Proof.
  intros Hw Hall w' Hstep. destruct Hstep as [now a t ev t' w Ht Hn Hp|now a b act l k t t' w Hwire].
  - destruct (tree_poll_between now t ev t' Hn Hp) as (evs & Hout & _). rewrite forallb_forall in Hall. specialize (Hall t).
    rewrite Hout in Hall. discriminate Hall. apply list_elem_of_In, list_elem_of_fmap. exists (a, t). split; [done|]. by apply elem_of_map_to_list.
  - rewrite Hw in Hwire. by destruct l.
Qed.
End run.

Import NetExample.

Module BroadcastExample.
(** Three nodes that are all linked, and a fourth behind the third. *)
Definition node (peers : list Z) : PlumTree := set_links ∅ (list_to_set peers) (Tree_new 0 "blocks" toy_config 0).
Definition start : gmap (@PeerId toy_libp2p) PlumTree :=
  <[1 := node [2; 3]]> (<[2 := node [1; 3]]> (<[3 := node [1; 2; 4]]> (<[4 := node [3]]> ∅))).
Definition final : World := run 60 (published 77 payload start 1 10 (node [2; 3])).
End BroadcastExample.
Import BroadcastExample.

Lemma start_quiet : quiet 77 payload start.
Proof.
  intros a t Ht. unfold start in Ht.
  repeat (apply lookup_insert_Some in Ht as [[_ <-]|[_ Ht]]; [split; [reflexivity|split; [reflexivity|by eexists]]|]).
  by rewrite lookup_empty in Ht.
Qed.

Lemma broadcast_reaches_connected_witness :
  has 77 final 4 ∧ (filter (λ x, x.1 = 4) (log final)).*2 = [EvMessage "blocks" 77 (tail payload)].
Proof.
  destruct (broadcast_reaches_connected 77 payload start 1 10 (node [2; 3]) final start_quiet) as [_ Hend].
  - apply lookup_insert_eq.
  - reflexivity.
  - apply run_steps.
  - destruct (Hend (silent_stuck final ltac:(by vm_compute) ltac:(by vm_compute)) 4) as [Hhas Hev].
    + eapply rtc_l; [|eapply rtc_once].
      * instantiate (1 := 3). split; [by eexists|]. exists (node [2; 3]). split; [reflexivity|]. by apply (bool_decide_unpack _); vm_compute.
      * split; [by eexists|]. exists (node [1; 2; 4]). split; [reflexivity|]. by apply (bool_decide_unpack _); vm_compute.
    + split; [exact Hhas|]. destruct (Hev (node [3])) as (out & Hout & He); [reflexivity|discriminate|].
      refine (eq_trans He _). change (Some (tail payload) = Some out) in Hout. injection Hout as <-. reflexivity.
Defined.
