(* ===== verification/HyParView.v ===== *)
(** * Partial views of the network (src/network/episub/view.rs)

    The active view holds the peers that messages are exchanged with, the
    passive view spare ones. The generator of the thread is part of the state;
    logging is left out. *)
From S2P Require Import Prelude Primitives Episub.
From Stdlib Require Import Floats.SpecFloat.

Section view.
Context `{Libp2p} `{Rand}.

Record HyParView := MkView {
  hv_config : Config;
  hv_topic : string;
  hv_local : AddressablePeer;
  active : PeerSet;
  passive : PeerSet;
  hv_last_tick : Z;
  hv_last_shuffle : Z;
  hv_out : list NetAction;
  hv_rng : ThreadRng
}.

Definition View_new (now : Z) (rng : ThreadRng) (topic : string) (config : Config) (local : AddressablePeer) : HyParView :=
  MkView config topic local ∅ ∅ now now [] rng.

(** ** Updates of one field *)

Definition set_active (a : PeerSet) (v : HyParView) : HyParView :=
  MkView (hv_config v) (hv_topic v) (hv_local v) a (passive v) (hv_last_tick v) (hv_last_shuffle v) (hv_out v) (hv_rng v).
Definition set_passive (p : PeerSet) (v : HyParView) : HyParView :=
  MkView (hv_config v) (hv_topic v) (hv_local v) (active v) p (hv_last_tick v) (hv_last_shuffle v) (hv_out v) (hv_rng v).
Definition set_times (tick shuffle : Z) (v : HyParView) : HyParView :=
  MkView (hv_config v) (hv_topic v) (hv_local v) (active v) (passive v) tick shuffle (hv_out v) (hv_rng v).
Definition set_hv_out (out : list NetAction) (v : HyParView) : HyParView :=
  MkView (hv_config v) (hv_topic v) (hv_local v) (active v) (passive v) (hv_last_tick v) (hv_last_shuffle v) out (hv_rng v).
Definition set_rng (r : ThreadRng) (v : HyParView) : HyParView :=
  MkView (hv_config v) (hv_topic v) (hv_local v) (active v) (passive v) (hv_last_tick v) (hv_last_shuffle v) (hv_out v) r.
Definition queue (l : list NetAction) (v : HyParView) : HyParView := set_hv_out (hv_out v ++ l) v.

Definition to_peer (v : HyParView) (p : PeerId) (a : Action) : NetAction := NotifyHandler p (MkRpc (hv_topic v) (Some a)).

(** ** Queries *)

Definition is_active (p : PeerId) (v : HyParView) : bool := is_some (active v !! p).
Definition overconnected (v : HyParView) : bool := max_active_view_size (hv_config v) <=? Z.of_nat (size (active v)).
Definition starved (v : HyParView) : bool := Z.of_nat (size (active v)) <? min_active_view_size (hv_config v).

(** A random peer of a set. *)
Definition choose_peer (s : PeerSet) (v : HyParView) : option AddressablePeer * HyParView :=
  let '(p, r) := choose (hv_rng v) (ps_peers s) in (p, set_rng r v).

(** ** The two views *)

Definition add_node_to_active_view (node : AddressablePeer) (initiator : bool) (v : HyParView) : HyParView :=
  if bool_decide (peer_id node = peer_id (hv_local v)) then v
  else
    match active v !! peer_id node with
    | Some _ => v
    | None =>
        let v := set_active (ps_insert node (active v)) v in
        let v :=
          if initiator then
            let priority := if bool_decide (active v = ∅) then priority_high else priority_low in
            queue [Dial node false; to_peer v (peer_id node) (Neighbor (pb_of_peer (hv_local v)) priority)] v
          else v in
        queue [GenerateEvent (EvPeerAdded (peer_id node))] v
    end.

Definition add_node_to_passive_view (node : AddressablePeer) (v : HyParView) : HyParView :=
  if bool_decide (peer_id node = peer_id (hv_local v)) then v
  else
    let v := set_passive (ps_insert node (passive v)) v in
    if max_passive_view_size (hv_config v) <? Z.of_nat (size (passive v)) then
      match choose_peer (passive v) v with
      | (Some random, v) => set_passive (delete (peer_id random) (passive v)) v
      | (None, v) => v
      end
    else v.

(** The peer to make room with is chosen from the passive view. *)
Definition free_up_active_slot (v : HyParView) : HyParView :=
  if overconnected v then
    match choose_peer (passive v) v with
    | (Some random, v) =>
        let v := set_active (delete (peer_id random) (active v)) v in
        let v := queue [to_peer v (peer_id random) (Disconnect true); GenerateEvent (EvPeerRemoved (peer_id random))] v in
        add_node_to_passive_view random v
    | (None, v) => v
    end
  else v.

(** ** Messages of the protocol *)

Definition initiate_join (peer : AddressablePeer) (v : HyParView) : HyParView :=
  queue [to_peer v (peer_id peer) (Join (active_walk_length (hv_config v)) (pb_of_peer (hv_local v)))] v.

(** The active peers but two, to forward something to. *)
Definition others (a b : PeerId) (v : HyParView) : list PeerId := filter (λ n, n ≠ a ∧ n ≠ b) (map_to_list (active v)).*1.

Definition inject_join (sender : PeerId) (peer : AddressablePeer) (ttl : Z) (v : HyParView) : HyParView :=
  if is_active (peer_id peer) v then v
  else
    let v := if negb (overconnected v) then add_node_to_active_view peer true v else add_node_to_passive_view peer v in
    queue ((λ n, to_peer v n (ForwardJoin ttl (pb_of_peer peer))) <$> others (peer_id peer) sender v) v.

Definition inject_forward_join (peer : AddressablePeer) (ttl : Z) (local_node sender : PeerId) (v : HyParView) : HyParView :=
  if bool_decide (peer_id peer = local_node) then v
  else
    let v := if (ttl =? 0) && negb (is_active (peer_id peer) v) then free_up_active_slot v else v in
    let v := if negb (overconnected v) then add_node_to_active_view peer true v else add_node_to_passive_view peer v in
    if negb (ttl =? 0)
    then queue ((λ n, to_peer v n (ForwardJoin (ttl - 1) (pb_of_peer peer))) <$> others sender (peer_id peer) v) v
    else v.

(** [retain] of the peers that are not [p] *)
Definition without (p : PeerId) (s : PeerSet) : PeerSet := filter (λ x, x.1 ≠ p) s.

Definition inject_disconnect (p : PeerId) (alive : bool) (v : HyParView) : HyParView :=
  let v :=
    if alive
    then foldl (λ v x, add_node_to_passive_view x v) v (filter (λ x, peer_id x = p) (ps_peers (active v)))
    else set_passive (without p (passive v)) v in
  if is_active p v
  then set_active (without p (active v)) (queue [GenerateEvent (EvPeerRemoved p)] v)
  else v.

Definition inject_neighbor (peer : AddressablePeer) (priority : Z) (v : HyParView) : HyParView :=
  if is_active (peer_id peer) v then v
  else if negb (overconnected v) then add_node_to_active_view peer false v
  else if priority =? priority_high
  then add_node_to_active_view peer false (free_up_active_slot v)
  else inject_disconnect (peer_id peer) true v.

Definition send_shuffle (p : PeerId) (v : HyParView) : HyParView :=
  let '(nodes, r) := choose_multiple (hv_rng v) (Z.to_nat (shuffle_max_size (hv_config v))) (ps_peers (active v) ++ ps_peers (passive v)) in
  let v := set_rng r v in
  queue [to_peer v p (Shuffle (active_walk_length (hv_config v)) (pb_of_peer (hv_local v)) (pb_of_peer <$> nodes))] v.

Definition send_shuffle_reply (origin : AddressablePeer) (nodes : list AddressablePeer) (v : HyParView) : HyParView :=
  let v := if is_active (peer_id origin) v then v else queue [Dial origin true] v in
  queue [to_peer v (peer_id origin) (ShuffleReply (pb_of_peer <$> nodes))] v.

Definition inject_shuffle (from : PeerId) (ttl : Z) (nodes : list AddressablePeer) (origin : AddressablePeer) (v : HyParView) : HyParView :=
  let deduped := ps_collect nodes in
  let '(reply, r) :=
    choose_multiple (hv_rng v) (Z.to_nat (shuffle_max_size (hv_config v)))
      (ps_peers (filter (λ x, deduped !! x.1 = None) (active v ∪ passive v))) in
  let v := send_shuffle_reply origin reply (set_rng r v) in
  let news := filter (λ x, active v !! x.1 = None ∧ passive v !! x.1 = None ∧ x.1 ≠ peer_id (hv_local v)) deduped in
  let v := foldl (λ v x, add_node_to_passive_view x v) v (ps_peers news) in
  if negb (ttl =? 0) then
    match choose_peer (filter (λ x, x.1 ≠ from ∧ x.1 ≠ peer_id origin) (active v)) v with
    | (Some random, v) => queue [to_peer v (peer_id random) (Shuffle (ttl - 1) (pb_of_peer origin) (pb_of_peer <$> nodes))] v
    | (None, v) => add_node_to_active_view origin true v
    end
  else v.

(** [inject_shuffle_reply]: the iterator of [drain] removes everything when it
    is dropped, so that the loop ends after one turn. *)
Definition inject_shuffle_reply (nodes : list PbPeer) (v : HyParView) : HyParView :=
  let nodes := ps_collect (omap peer_of_pb nodes) in
  let v := set_passive (passive v ∪ nodes) v in
  if max_passive_view_size (hv_config v) <? Z.of_nat (size (passive v)) then set_passive ∅ v else v.

(** ** Maintenance *)

Definition maybe_move_random_passive_to_active (v : HyParView) : HyParView :=
  if starved v then
    match choose_peer (passive v) v with
    | (Some random, v) => add_node_to_active_view random true (set_passive (delete (peer_id random) (passive v)) v)
    | (None, v) => v
    end
  else v.

Definition periodic_shuffle (v : HyParView) : HyParView :=
  let '(s, r) := sample_f32 (hv_rng v) in
  let v := set_rng r v in
  if SFleb (SFsub 24 128 f32_one s) (shuffle_probability (hv_config v)) then
    match choose_peer (active v) v with
    | (Some random, v) => send_shuffle (peer_id random) v
    | (None, v) => v
    end
  else v.

(** [poll] *)
Definition view_poll (now : Z) (v : HyParView) : option NetAction * HyParView :=
  let v := if shuffle_interval (hv_config v) <? now - hv_last_shuffle v
           then set_times (hv_last_tick v) now (periodic_shuffle v) else v in
  let v := if tick_frequency (hv_config v) <? now - hv_last_tick v
           then set_times now (hv_last_shuffle v) (maybe_move_random_passive_to_active v) else v in
  match hv_out v with
  | ev :: evs => (Some ev, set_hv_out evs v)
  | [] => (None, v)
  end.
End view.
