(* ===== verification/HyParViewProps.v ===== *)
(** * Properties of the partial views

    The node is never its own neighbour, the views stay within their sizes
    unless peers insist, and every change of the active view is announced. *)
From S2P Require Import Prelude Primitives Episub HyParView NetExample.
From Stdlib Require Import Floats.SpecFloat.

Section view.
Context `{Libp2p} `{RandLaws}.
Implicit Types (v : HyParView) (p : PeerId) (x : AddressablePeer).

(** ** Events of a view *)

Inductive view_event :=
  | VInitiate (peer : AddressablePeer)
  | VJoin (sender : PeerId) (peer : AddressablePeer) (ttl : Z)
  | VForwardJoin (sender : PeerId) (peer : AddressablePeer) (ttl : Z)
  | VNeighbor (peer : AddressablePeer) (priority : Z)
  | VDisconnect (p : PeerId) (alive : bool)
  | VShuffle (from : PeerId) (ttl : Z) (nodes : list AddressablePeer) (origin : AddressablePeer)
  | VShuffleReply (nodes : list PbPeer).

Definition view_handle (e : view_event) v : HyParView :=
  match e with
  | VInitiate peer => initiate_join peer v
  | VJoin sender peer ttl => inject_join sender peer ttl v
  | VForwardJoin sender peer ttl => inject_forward_join peer ttl (peer_id (hv_local v)) sender v
  | VNeighbor peer priority => inject_neighbor peer priority v
  | VDisconnect p alive => inject_disconnect p alive v
  | VShuffle from ttl nodes origin => inject_shuffle from ttl nodes origin v
  | VShuffleReply nodes => inject_shuffle_reply nodes v
  end.

(** ** What every operation keeps *)

(** The effect of an announcement on the set of active peers. *)
Definition view_delta (s : gset PeerId) (ev : NetAction) : gset PeerId :=
  match ev with
  | GenerateEvent (EvPeerAdded p) => s ∪ {[p]}
  | GenerateEvent (EvPeerRemoved p) => s ∖ {[p]}
  | _ => s
  end.

Definition passive_ok v : Prop := Z.of_nat (size (passive v)) ≤ Z.max (max_passive_view_size (hv_config v)) 0.
Definition not_self v : Prop := active v !! peer_id (hv_local v) = None.

(** One view follows from another: what is announced is what changed. *)
Record follows v v' : Prop := {
  fo_config : hv_config v' = hv_config v;
  fo_local : hv_local v' = hv_local v;
  fo_topic : hv_topic v' = hv_topic v;
  fo_events : ∃ new, hv_out v' = hv_out v ++ new ∧ foldl view_delta (dom (active v)) new = dom (active v');
  fo_self : not_self v → not_self v';
  fo_passive : passive_ok v → passive_ok v'
}.

#[export] Instance follows_preorder : PreOrder follows.
Proof.
  split.
  - intros v. split; try done. exists []. by rewrite app_nil_r.
  - intros v1 v2 v3 [C1 L1 T1 (n1 & O1 & E1) S1 P1] [C2 L2 T2 (n2 & O2 & E2) S2 P2].
    split; [congruence..| |auto|auto]. exists (n1 ++ n2). by rewrite foldl_app, O2, O1, app_assoc, E1.
Qed.

Lemma foldl_quiet new s : Forall (λ ev, ∀ s, view_delta s ev = s) new → foldl view_delta s new = s.
Proof. intros Hn. revert s. induction Hn as [|ev new Hev _ IH]; intros s; [done|]. cbn [foldl]. rewrite Hev. apply IH. Qed.

(** Changes that neither touch the views nor announce anything. *)
Lemma follows_quiet v v' new :
  hv_config v' = hv_config v → hv_local v' = hv_local v → hv_topic v' = hv_topic v → active v' = active v → passive v' = passive v →
  hv_out v' = hv_out v ++ new → Forall (λ ev, ∀ s, view_delta s ev = s) new → follows v v'.
Proof.
  intros Hc Hl Ht Ha Hp Ho Hn. split; try done.
  - exists new. split; [done|]. rewrite Ha. by apply foldl_quiet.
  - unfold not_self. by rewrite Ha, Hl.
  - unfold passive_ok. by rewrite Hp, Hc.
Qed.

Lemma follows_queue v new : Forall (λ ev, ∀ s, view_delta s ev = s) new → follows v (queue new v).
Proof. intros Hn. by apply (follows_quiet v _ new). Qed.

Lemma follows_rng v r : follows v (set_rng r v).
Proof. apply (follows_quiet v _ []); try done. cbn. by rewrite app_nil_r. Qed.

Lemma choose_peer_follows s v : follows v (choose_peer s v).2.
Proof. unfold choose_peer. destruct (choose _ _). apply follows_rng. Qed.

Lemma choose_peer_views s v : active (choose_peer s v).2 = active v ∧ passive (choose_peer s v).2 = passive v ∧ hv_config (choose_peer s v).2 = hv_config v.
Proof. unfold choose_peer. by destruct (choose _ _). Qed.

Lemma elem_of_ps_peers s x : x ∈ ps_peers s ↔ s !! peer_id x = Some (addresses x).
Proof.
  unfold ps_peers. rewrite list_elem_of_fmap. split.
  - intros ([q a] & -> & Hin). by apply elem_of_map_to_list in Hin.
  - intros Hs. exists (peer_id x, addresses x). split; [by destruct x|]. by apply elem_of_map_to_list.
Qed.

Lemma choose_peer_some s v x : (choose_peer s v).1 = Some x → s !! peer_id x = Some (addresses x).
Proof.
  unfold choose_peer. intros Hx. apply elem_of_ps_peers. apply (choose_some AddressablePeer (hv_rng v)).
  destruct (choose (hv_rng v) (ps_peers s)). exact Hx.
Qed.

Lemma choose_peer_none s v : (choose_peer s v).1 = None → s = ∅.
Proof.
  unfold choose_peer. intros Hn. assert (ps_peers s = []) as He.
  { apply (choose_none AddressablePeer (hv_rng v)). by destruct (choose (hv_rng v) (ps_peers s)). }
  apply map_empty. intros i. destruct (s !! i) as [a|] eqn:E; [|done].
  assert (MkPeer i a ∈ ps_peers s) as Hin by (by apply elem_of_ps_peers). rewrite He in Hin. by apply not_elem_of_nil in Hin.
Qed.

Lemma ps_insert_size x s : (size (ps_insert x s) ≤ S (size s))%nat.
Proof. unfold ps_insert. destruct (s !! peer_id x) eqn:E; [lia|]. rewrite map_size_insert_None by done. lia. Qed.

Lemma ps_insert_lookup x s p : ps_insert x s !! p = match s !! p with Some a => Some a | None => if bool_decide (p = peer_id x) then Some (addresses x) else None end.
Proof.
  unfold ps_insert. destruct (s !! peer_id x) eqn:E.
  - destruct (s !! p) eqn:Ep; [done|]. rewrite bool_decide_false; [done|]. intros ->. congruence.
  - case_bool_decide as Hp; [subst; by rewrite lookup_insert_eq, E|]. rewrite lookup_insert_ne by done. by destruct (s !! p).
Qed.

Lemma dom_ps_insert x s : dom (ps_insert x s) = dom s ∪ {[peer_id x]}.
Proof.
  unfold ps_insert. destruct (s !! peer_id x) eqn:E; [|rewrite dom_insert_L; set_solver].
  apply elem_of_dom_2 in E. set_solver.
Qed.

Lemma map_size_delete_le p (s : PeerSet) : (size (delete p s) ≤ size s)%nat.
Proof. destruct (s !! p) eqn:E; [rewrite map_size_delete_Some by (by eexists)|rewrite map_size_delete_None by done]; lia. Qed.

(** ** The operations *)

Lemma add_passive_active x v : active (add_node_to_passive_view x v) = active v.
Proof.
  unfold add_node_to_passive_view. case_bool_decide; [done|]. case_match; [|done].
  match goal with |- context [choose_peer ?s ?w] => pose proof (choose_peer_views s w) as (Ha & _); destruct (choose_peer s w) as [[r|] w'] end; exact Ha.
Qed.

Lemma add_passive_follows x v : follows v (add_node_to_passive_view x v).
Proof.
  split; try (unfold add_node_to_passive_view, choose_peer; case_bool_decide; [done|]; case_match; [|done];
    destruct (choose _ _) as [[r|] w]; done).
  - exists []. rewrite add_passive_active, app_nil_r. split; [|done].
    unfold add_node_to_passive_view, choose_peer; case_bool_decide; [done|]; case_match; [|done]; by destruct (choose _ _) as [[r|] w].
  - unfold passive_ok, add_node_to_passive_view. intros Hok. case_bool_decide; [done|]. cbn [hv_config set_passive passive].
    pose proof (ps_insert_size x (passive v)) as Hs. destruct (Z.ltb_spec (max_passive_view_size (hv_config v)) (Z.of_nat (size (ps_insert x (passive v))))) as [Hlt|Hge]; [|cbn; lia].
    match goal with |- context [choose_peer ?s ?w] =>
      pose proof (choose_peer_views s w) as (_ & Hp & Hc); pose proof (choose_peer_some s w) as Hsome; pose proof (choose_peer_none s w) as Hnone;
      destruct (choose_peer s w) as [[r|] w'] end; cbn [fst snd hv_config passive set_passive] in *.
    + specialize (Hsome r eq_refl). rewrite Hc, Hp. rewrite map_size_delete_Some by (by eexists). lia.
    + rewrite Hc, Hp. rewrite (Hnone eq_refl), map_size_empty in Hlt |- *. lia.
Qed.

Lemma add_active_follows x initiator v : follows v (add_node_to_active_view x initiator v).
Proof.
  unfold add_node_to_active_view. case_bool_decide as Hself; [done|]. destruct (active v !! peer_id x) eqn:E; [done|].
  set (v1 := set_active (ps_insert x (active v)) v).
  assert (∀ v2 new, hv_config v2 = hv_config v → hv_local v2 = hv_local v → hv_topic v2 = hv_topic v → active v2 = active v1 → passive v2 = passive v →
    hv_out v2 = hv_out v ++ new → Forall (λ ev, ∀ s, view_delta s ev = s) new → follows v (queue [GenerateEvent (EvPeerAdded (peer_id x))] v2)) as Hgen.
  { intros v2 new Hc Hl Ht Ha Hp Ho Hn. split; try done.
    - exists (new ++ [GenerateEvent (EvPeerAdded (peer_id x))]). cbn [queue hv_out set_hv_out active]. split; [by rewrite Ho, app_assoc|].
      rewrite foldl_app, (foldl_quiet new) by done.
      cbn [foldl view_delta]. rewrite Ha. cbn [v1 active set_active]. by rewrite dom_ps_insert.
    - unfold not_self. cbn [active queue set_hv_out hv_local]. intros Hn'. rewrite Ha, Hl. cbn [v1 active set_active].
      rewrite ps_insert_lookup, Hn'. by rewrite bool_decide_false by congruence.
    - unfold passive_ok. cbn [passive queue set_hv_out hv_config]. by rewrite Hp, Hc. }
  destruct initiator; [eapply (Hgen _ [_; _]); try done; by repeat constructor|]. apply (Hgen v1 []); try done. cbn. by rewrite app_nil_r.
Qed.

Lemma fold_passive_follows (l : list AddressablePeer) v : follows v (foldl (λ v x, add_node_to_passive_view x v) v l).
Proof. revert v. induction l as [|x l IH]; intros v; [done|]. cbn [foldl]. etrans; [apply add_passive_follows|apply IH]. Qed.

Lemma fold_passive_active (l : list AddressablePeer) v : active (foldl (λ v x, add_node_to_passive_view x v) v l) = active v.
Proof. revert v. induction l as [|x l IH]; intros v; [done|]. cbn [foldl]. by rewrite IH, add_passive_active. Qed.

(** Dropping an active peer and announcing it. *)
Lemma remove_active_follows p v a new :
  a = delete p (active v) → Forall (λ ev, ∀ s, view_delta s ev = s) new →
  follows v (set_active a (queue (new ++ [GenerateEvent (EvPeerRemoved p)]) v)).
Proof.
  intros -> Hn. split; try done.
  - exists (new ++ [GenerateEvent (EvPeerRemoved p)]). split; [done|]. rewrite foldl_app, (foldl_quiet new) by done.
    cbn [foldl view_delta active set_active]. by rewrite dom_delete_L.
  - unfold not_self. cbn [active set_active hv_local queue set_hv_out]. intros Hs. rewrite lookup_delete_None. by right.
Qed.

Lemma free_up_follows v : follows v (free_up_active_slot v).
Proof.
  unfold free_up_active_slot. case_match; [|done]. pose proof (choose_peer_follows (passive v) v) as Hf.
  destruct (choose_peer (passive v) v) as [[x|] v1]; [|exact Hf]. etrans; [exact Hf|]. etrans; [|apply add_passive_follows].
  apply (remove_active_follows (peer_id x) v1 _ [to_peer v1 (peer_id x) (Disconnect true)]); [done|by repeat constructor].
Qed.

Lemma forwards_quiet v (l : list PeerId) a : Forall (λ ev, ∀ s, view_delta s ev = s) ((λ n, to_peer v n a) <$> l).
Proof. apply Forall_fmap, Forall_forall. done. Qed.

Lemma without_delete p (s : PeerSet) : without p s = delete p s.
Proof.
  apply map_eq. intros i. unfold without. rewrite map_lookup_filter. destruct (decide (i = p)) as [->|Hne].
  - rewrite lookup_delete_eq. destruct (s !! p); [|done]. cbn. case_guard; [done|done].
  - rewrite lookup_delete_ne by done. destruct (s !! i); [|done]. cbn. by rewrite option_guard_True.
Qed.

Lemma disconnect_follows p alive v : follows v (inject_disconnect p alive v).
Proof.
  unfold inject_disconnect. assert (follows v (if alive then foldl (λ v x, add_node_to_passive_view x v) v (filter (λ x, peer_id x = p) (ps_peers (active v)))
    else set_passive (without p (passive v)) v)) as Hf.
  { destruct alive; [apply fold_passive_follows|]. split; try done.
    - exists []. by rewrite app_nil_r.
    - unfold passive_ok. cbn [passive set_passive hv_config]. rewrite without_delete. intros Hok.
      pose proof (map_size_delete_le p (passive v)). lia. }
  etrans; [exact Hf|]. generalize (if alive then foldl (λ v x, add_node_to_passive_view x v) v (filter (λ x, peer_id x = p) (ps_peers (active v)))
    else set_passive (without p (passive v)) v). intros w. destruct (is_active p w); [|done].
  apply (remove_active_follows p w _ []); [|constructor]. cbn [queue set_hv_out active]. apply without_delete.
Qed.

Lemma view_handle_follows e v : follows v (view_handle e v).
Proof.
  destruct e as [peer|sender peer ttl|sender peer ttl|peer priority|p alive|from ttl nodes origin|nodes]; cbn [view_handle].
  - unfold initiate_join. apply follows_queue. by repeat constructor.
  - unfold inject_join. case_match; [done|]. etrans; [|apply follows_queue, forwards_quiet].
    case_match; [apply add_active_follows|apply add_passive_follows].
  - unfold inject_forward_join. case_bool_decide; [done|].
    assert (∀ v, follows v (if negb (overconnected v) then add_node_to_active_view peer true v else add_node_to_passive_view peer v)) as Hadd.
    { intros w. case_match; [apply add_active_follows|apply add_passive_follows]. }
    set (v1 := if (ttl =? 0) && negb (is_active (peer_id peer) v) then free_up_active_slot v else v).
    assert (follows v v1) as Hv1 by (unfold v1; case_match; [apply free_up_follows|done]).
    case_match; [etrans; [|apply follows_queue, forwards_quiet]|]; (etrans; [exact Hv1|apply Hadd]).
  - unfold inject_neighbor. repeat case_match; [done|apply add_active_follows| |apply disconnect_follows].
    etrans; [apply free_up_follows|apply add_active_follows].
  - apply disconnect_follows.
  - unfold inject_shuffle. destruct (choose_multiple _ _ _) as [reply r].
    set (v1 := send_shuffle_reply origin reply (set_rng r v)). assert (follows v v1) as Hv1.
    { etrans; [apply (follows_rng v r)|]. unfold v1, send_shuffle_reply. etrans; [|apply follows_queue; by repeat constructor].
      case_match; [done|]. apply follows_queue. by repeat constructor. }
    etrans; [exact Hv1|]. etrans; [apply fold_passive_follows|]. case_match; [|done].
    match goal with |- context [choose_peer ?s ?w] => pose proof (choose_peer_follows s w) as Hc; destruct (choose_peer s w) as [[x|] w'] end.
    + etrans; [exact Hc|]. apply follows_queue. by repeat constructor.
    + etrans; [exact Hc|]. apply add_active_follows.
  - unfold inject_shuffle_reply. set (s := passive v ∪ _). destruct (Z.ltb_spec (max_passive_view_size (hv_config v)) (Z.of_nat (size s))) as [Hlt|Hge];
      cbn [hv_config set_passive passive]; [rewrite (proj2 (Z.ltb_lt _ _)) by done|rewrite (proj2 (Z.ltb_ge _ _)) by done];
      (split; try done; [exists []; by rewrite app_nil_r|]); unfold passive_ok; cbn; [rewrite map_size_empty|]; lia.
Qed.

(** The maintenance that a poll starts with. *)
Definition view_maintain (now : Z) v : HyParView :=
  let v := if shuffle_interval (hv_config v) <? now - hv_last_shuffle v
           then set_times (hv_last_tick v) now (periodic_shuffle v) else v in
  if tick_frequency (hv_config v) <? now - hv_last_tick v
  then set_times now (hv_last_shuffle v) (maybe_move_random_passive_to_active v) else v.

Lemma follows_times tick shuffle v : follows v (set_times tick shuffle v).
Proof. apply (follows_quiet v _ []); try done. cbn. by rewrite app_nil_r. Qed.

Lemma maintain_follows now v : follows v (view_maintain now v).
Proof.
  unfold view_maintain. set (v1 := if _ <? now - hv_last_shuffle v then _ else v). assert (follows v v1) as Hv1.
  { unfold v1. case_match; [|done]. etrans; [|apply follows_times]. unfold periodic_shuffle. destruct (sample_f32 (hv_rng v)) as [s r].
    etrans; [apply (follows_rng v r)|]. case_match; [|done].
    match goal with |- context [choose_peer ?s ?w] => pose proof (choose_peer_follows s w) as Hc; destruct (choose_peer s w) as [[x|] w'] end; [|exact Hc].
    etrans; [exact Hc|]. unfold send_shuffle. cbn [snd]. destruct (choose_multiple _ _ _) as [l r']. etrans; [apply (follows_rng w' r')|].
    apply follows_queue. by repeat constructor. }
  etrans; [exact Hv1|]. case_match; [|done]. etrans; [|apply follows_times]. unfold maybe_move_random_passive_to_active. case_match; [|done].
  pose proof (choose_peer_follows (passive v1) v1) as Hc. destruct (choose_peer (passive v1) v1) as [[x|] w']; [|exact Hc]. etrans; [exact Hc|].
  etrans; [|apply add_active_follows]. split; try done.
  - exists []. by rewrite app_nil_r.
  - unfold passive_ok. cbn [passive set_passive hv_config]. intros Hok. pose proof (map_size_delete_le (peer_id x) (passive w')). cbn [snd] in Hok. lia.
Qed.

Lemma view_poll_spec now v :
  view_poll now v = match hv_out (view_maintain now v) with
                    | ev :: evs => (Some ev, set_hv_out evs (view_maintain now v))
                    | [] => (None, view_maintain now v)
                    end.
Proof. done. Qed.

(** ** The size of the active view *)

Definition ordinary (e : view_event) : Prop := match e with VNeighbor _ priority => priority ≠ priority_high | _ => True end.
Definition active_bound v : Z := Z.max (max_active_view_size (hv_config v)) 2.
Definition active_size v : Z := Z.of_nat (size (active v)).

Lemma add_active_grows x initiator v : active_size (add_node_to_active_view x initiator v) ≤ active_size v + 1.
Proof.
  unfold active_size, add_node_to_active_view. case_bool_decide; [lia|]. destruct (active v !! peer_id x) eqn:E; [lia|].
  pose proof (ps_insert_size x (active v)). destruct initiator; cbn; lia.
Qed.

Lemma overconnected_size v : overconnected v = false → active_size v + 1 ≤ max_active_view_size (hv_config v).
Proof. unfold overconnected, active_size. intros Ho%Z.leb_gt. lia. Qed.

Lemma free_up_shrinks v : active_size (free_up_active_slot v) ≤ active_size v.
Proof.
  unfold free_up_active_slot, active_size. case_match; [|lia]. pose proof (choose_peer_views (passive v) v) as (Ha & _).
  destruct (choose_peer (passive v) v) as [[x|] w]; cbn [snd] in Ha; [|by rewrite Ha].
  rewrite add_passive_active. cbn. rewrite Ha. pose proof (map_size_delete_le (peer_id x) (active v)). lia.
Qed.

Lemma disconnect_shrinks p alive v : active_size (inject_disconnect p alive v) ≤ active_size v.
Proof.
  unfold inject_disconnect, active_size. assert (active (if alive then foldl (λ v x, add_node_to_passive_view x v) v (filter (λ x, peer_id x = p) (ps_peers (active v)))
    else set_passive (without p (passive v)) v) = active v) as Ha by (destruct alive; [apply fold_passive_active|done]).
  revert Ha. generalize (if alive then foldl (λ v x, add_node_to_passive_view x v) v (filter (λ x, peer_id x = p) (ps_peers (active v)))
    else set_passive (without p (passive v)) v). intros w Ha. destruct (is_active p w); [|by rewrite Ha].
  cbn [active set_active queue set_hv_out]. rewrite without_delete, Ha. pose proof (map_size_delete_le p (active v)). lia.
Qed.

(** Without anyone else to forward a shuffle to the view has room. *)
Lemma no_others_small (a b : PeerId) v :
  filter (λ y, y.1 ≠ a ∧ y.1 ≠ b) (active v) = ∅ → active v !! b = None → (size (active v) ≤ 1)%nat.
Proof.
  intros Hf Hb. rewrite <-(size_dom (D := gset PeerId)). transitivity (size ({[a]} : gset PeerId)); [|by rewrite size_singleton].
  apply subseteq_size. intros q [z Hq]%elem_of_dom. apply elem_of_singleton. destruct (decide (q = a)) as [|Hne]; [done|].
  exfalso. assert (filter (λ y, y.1 ≠ a ∧ y.1 ≠ b) (active v) !! q = Some z) as Hs; [|by rewrite Hf in Hs].
  apply map_lookup_filter_Some. split; [done|]. split; [done|]. cbn. intros ->. congruence.
Qed.

Lemma view_handle_bounded e v : ordinary e → active_size v ≤ active_bound v → active_size (view_handle e v) ≤ active_bound v.
Proof.
  intros He Hb. unfold active_bound in *. destruct e as [peer|sender peer ttl|sender peer ttl|peer priority|p alive|from ttl nodes origin|nodes]; cbn [view_handle].
  - exact Hb.
  - unfold inject_join. case_match; [done|]. unfold active_size. cbn [queue set_hv_out active].
    destruct (overconnected v) eqn:Ho; cbn [negb]; [rewrite add_passive_active; exact Hb|].
    pose proof (add_active_grows peer true v). apply overconnected_size in Ho. unfold active_size in *. lia.
  - unfold inject_forward_join. case_bool_decide; [done|].
    set (v1 := if (ttl =? 0) && negb (is_active (peer_id peer) v) then free_up_active_slot v else v).
    assert (active_size v1 ≤ active_size v ∧ hv_config v1 = hv_config v) as [Hv1 Hc1].
    { unfold v1. case_match; [split; [apply free_up_shrinks|apply (free_up_follows v)]|done]. }
    set (v2 := if negb (overconnected v1) then _ else _). assert (active_size v2 ≤ Z.max (max_active_view_size (hv_config v)) 2) as Hv2.
    { unfold v2. destruct (overconnected v1) eqn:Ho; cbn [negb]; [unfold active_size in *; rewrite add_passive_active; lia|].
      pose proof (add_active_grows peer true v1). apply overconnected_size in Ho. rewrite Hc1 in Ho. lia. }
    case_match; exact Hv2.
  - unfold inject_neighbor. cbn [ordinary] in He. case_match; [done|]. destruct (overconnected v) eqn:Ho; cbn [negb].
    + rewrite (proj2 (Z.eqb_neq _ _)) by done. pose proof (disconnect_shrinks (peer_id peer) true v). lia.
    + pose proof (add_active_grows peer false v). apply overconnected_size in Ho. lia.
  - pose proof (disconnect_shrinks p alive v). lia.
  - unfold inject_shuffle. destruct (choose_multiple _ _ _) as [reply r].
    set (v1 := foldl _ _ _). assert (active v1 = active v) as Ha1.
    { unfold v1. rewrite fold_passive_active. unfold send_shuffle_reply. by case_match. }
    case_match; [|unfold active_size in *; by rewrite Ha1].
    match goal with |- context [choose_peer ?s ?w] => pose proof (choose_peer_none s w) as Hn; pose proof (choose_peer_views s w) as (Ha & _);
      destruct (choose_peer s w) as [[x|] w'] end; cbn [fst snd] in *; [unfold active_size in *; cbn; rewrite Ha, Ha1; lia|].
    specialize (Hn eq_refl). unfold active_size in *. destruct (active w' !! peer_id origin) eqn:E.
    + unfold add_node_to_active_view. rewrite E. case_bool_decide; rewrite Ha, Ha1; lia.
    + pose proof (add_active_grows origin true w') as Hg. unfold active_size in Hg. rewrite Ha in E.
      pose proof (no_others_small _ _ v1 Hn E) as Hs. rewrite Ha in Hg. lia.
  - unfold inject_shuffle_reply, active_size in *. by case_match.
Qed.

Lemma maintain_bounded now v : active_size v ≤ active_bound v → active_size (view_maintain now v) ≤ active_bound v.
Proof.
  intros Hb. unfold view_maintain. set (v1 := if _ <? now - hv_last_shuffle v then _ else v).
  assert (active v1 = active v ∧ hv_config v1 = hv_config v) as [Ha1 Hc1].
  { unfold v1. case_match; [|done]. unfold periodic_shuffle. destruct (sample_f32 (hv_rng v)) as [s r]. case_match; [|done].
    match goal with |- context [choose_peer ?s ?w] => pose proof (choose_peer_views s w) as (Ha & _ & Hc); destruct (choose_peer s w) as [[x|] w'] end;
      cbn [snd] in *; [|done]. unfold send_shuffle. by destruct (choose_multiple _ _ _). }
  unfold active_size, active_bound in *. case_match; [|by rewrite Ha1]. unfold maybe_move_random_passive_to_active.
  destruct (starved v1) eqn:Hs; [|cbn; by rewrite Ha1]. pose proof (choose_peer_views (passive v1) v1) as (Ha & _ & Hc).
  destruct (choose_peer (passive v1) v1) as [[x|] w']; cbn [snd] in *; [|cbn; rewrite Ha, Ha1; lia].
  pose proof (add_active_grows x true (set_passive (delete (peer_id x) (passive w')) w')) as Hg. unfold active_size in Hg. cbn [active set_passive set_times] in Hg |- *.
  rewrite Ha, Ha1 in Hg. unfold starved, min_active_view_size in Hs. apply Z.ltb_lt in Hs. rewrite Ha1, Hc1 in Hs.
  pose proof (Z.div_mod (max_active_view_size (hv_config v)) 2 ltac:(lia)). pose proof (Z.mod_pos_bound (max_active_view_size (hv_config v)) 2 ltac:(lia)). lia.
Qed.

(** ** The view at work *)

Inductive view_step (P : view_event → Prop) : HyParView → HyParView → Prop :=
  | ViewHandle e v : P e → view_step P v (view_handle e v)
  | ViewPoll now v : view_step P v (view_poll now v).2.

Lemma view_poll_views now v :
  active (view_poll now v).2 = active (view_maintain now v) ∧ passive (view_poll now v).2 = passive (view_maintain now v) ∧
  hv_config (view_poll now v).2 = hv_config v ∧ hv_local (view_poll now v).2 = hv_local v.
Proof. pose proof (maintain_follows now v) as [Hc Hl _ _ _ _]. rewrite view_poll_spec. by case_match. Qed.

(** C32: the views of a node stay what they are meant to be, whatever peers send
    and however random choices fall: the node is never its own active peer, the
    passive view does not outgrow its size, and as long as no peer asks with high
    priority the active view does not outgrow the larger of its size and two. *)
Theorem views_bounded (P : view_event → Prop) now rng topic config local v :
  rtc (view_step P) (View_new now rng topic config local) v →
  active v !! peer_id local = None ∧
  Z.of_nat (size (passive v)) ≤ Z.max (max_passive_view_size config) 0 ∧
  ((∀ e, P e → ordinary e) → Z.of_nat (size (active v)) ≤ Z.max (max_active_view_size config) 2).
Proof.
  intros Hsteps. assert (hv_local v = local ∧ hv_config v = config ∧ not_self v ∧ passive_ok v ∧
    ((∀ e, P e → ordinary e) → active_size v ≤ active_bound v)) as (Hl & Hc & Hs & Hp & Ha).
  { assert (hv_local (View_new now rng topic config local) = local ∧ hv_config (View_new now rng topic config local) = config ∧
      not_self (View_new now rng topic config local) ∧ passive_ok (View_new now rng topic config local) ∧
      ((∀ e, P e → ordinary e) → active_size (View_new now rng topic config local) ≤ active_bound (View_new now rng topic config local))) as Hinit.
    { split_and!; try done; unfold passive_ok, active_size, active_bound; cbn [passive active View_new hv_config];
        [|intros _]; rewrite map_size_empty; lia. }
    revert Hinit. induction Hsteps as [|v1 v2 v3 Hstep _ IH]; [done|]. intros (Hl & Hc & Hs & Hp & Ha). apply IH.
    destruct Hstep as [e v He|t v].
    - pose proof (view_handle_follows e v) as [Fc Fl _ _ Fs Fp]. split_and!; [congruence..|auto|auto|].
      intros Hord. unfold active_bound. rewrite Fc. apply view_handle_bounded; auto.
    - destruct (view_poll_views t v) as (Va & Vp & Vc & Vl). pose proof (maintain_follows t v) as [Fc Fl _ _ Fs Fp].
      split_and!; [congruence..| | |].
      + unfold not_self in *. rewrite Va, Vl, <-Fl. by apply Fs.
      + unfold passive_ok in *. rewrite Vp, Vc, <-Fc. by apply Fp.
      + intros Hord. unfold active_size, active_bound in *. rewrite Va, Vc. by apply maintain_bounded, Ha. }
  unfold not_self, passive_ok, active_size, active_bound in *. rewrite Hl in Hs. rewrite Hc in Hp, Ha. split_and!; done.
Qed.

(** High-priority requests overflow the active view: room is made with a
    peer of the passive view instead of an active one, so while the passive view
    is empty every request with high priority adds an active peer, and no number
    of peers is too large. *)
Theorem high_priority_overflows v (l : list AddressablePeer) :
  passive v = ∅ → NoDup (peer_id <$> l) → (∀ x, x ∈ l → active v !! peer_id x = None ∧ peer_id x ≠ peer_id (hv_local v)) →
  Z.of_nat (size (active (foldl (λ v x, view_handle (VNeighbor x priority_high) v) v l))) = Z.of_nat (size (active v)) + Z.of_nat (length l).
Proof.
  revert v. induction l as [|x l IH]; intros v Hp Hnd Hl; [cbn; lia|]. rewrite fmap_cons in Hnd. apply NoDup_cons in Hnd as [Hx Hnd].
  cbn [foldl]. destruct (Hl x) as [Hn Hs]; [by left|].
  assert (∃ w, view_handle (VNeighbor x priority_high) v = add_node_to_active_view x false w ∧ active w = active v ∧ passive w = passive v ∧ hv_local w = hv_local v)
    as (w & -> & Ha & Hpw & Hlw).
  { cbn [view_handle]. unfold inject_neighbor, is_active. rewrite Hn. cbn [is_some]. destruct (overconnected v) eqn:Ho; cbn [negb]; [|by exists v].
    rewrite Z.eqb_refl. eexists. split; [reflexivity|]. unfold free_up_active_slot. rewrite Ho, Hp.
    pose proof (choose_peer_some ∅ v) as Hsome. unfold choose_peer in *. destruct (choose _ _) as [[y|] r]; [|by rewrite <-Hp].
    specialize (Hsome y eq_refl). by rewrite lookup_empty in Hsome. }
  assert (active (add_node_to_active_view x false w) = <[peer_id x := addresses x]> (active v) ∧
    passive (add_node_to_active_view x false w) = ∅ ∧ hv_local (add_node_to_active_view x false w) = hv_local v) as (Ha' & Hp' & Hl').
  { unfold add_node_to_active_view. rewrite bool_decide_false by congruence. rewrite Ha, Hn. cbn. unfold ps_insert. rewrite Hn. split_and!; congruence. }
  rewrite IH; [|done|done|].
  - rewrite Ha', map_size_insert_None by done. cbn [length]. lia.
  - intros y Hy. rewrite Ha', Hl'. destruct (Hl y) as [Hyn Hys]; [by right|]. split; [|done].
    rewrite lookup_insert_ne; [done|]. intros Heq. apply Hx. rewrite Heq. by apply list_elem_of_fmap_2.
Qed.

(** A shuffle reply that would overflow the passive view empties it. *)
Lemma shuffle_reply_empties nodes v :
  max_passive_view_size (hv_config v) < Z.of_nat (size (passive v ∪ ps_collect (omap peer_of_pb nodes))) →
  passive (inject_shuffle_reply nodes v) = ∅.
Proof. intros Hlt. unfold inject_shuffle_reply. cbn [hv_config set_passive passive]. by rewrite (proj2 (Z.ltb_lt _ _)). Qed.

(** A node never asks with high priority itself: the view to which the peer was
    just added is not empty. *)
Lemma never_high_priority x initiator v p b pr topic :
  NotifyHandler p (MkRpc topic (Some (Neighbor b pr))) ∈ hv_out (add_node_to_active_view x initiator v) →
  NotifyHandler p (MkRpc topic (Some (Neighbor b pr))) ∈ hv_out v ∨ pr = priority_low.
Proof.
  unfold add_node_to_active_view. case_bool_decide; [by left|]. destruct (active v !! peer_id x) eqn:E; [by left|].
  destruct initiator; cbn [queue hv_out set_hv_out active set_active].
  - rewrite bool_decide_false by (unfold ps_insert; rewrite E; apply insert_non_empty). rewrite !elem_of_app, !elem_of_cons, elem_of_nil.
    intros [[|[|[[= _ _ _ ->]|[]]]]|[|[]]]; [by left|done|by right|done].
  - rewrite elem_of_app, elem_of_cons, elem_of_nil. intros [|[|[]]]; [by left|done].
Qed.
End view.

(** ** Witnesses *)

Import NetExample.

Module ViewExample.
Definition me : AddressablePeer := MkPeer (peer 1) ∅.
Definition stranger (z : Z) : AddressablePeer := MkPeer (peer z) ∅.
Definition empty_view : HyParView := View_new 0 (0%nat : @ThreadRng toy_rand) "blocks" toy_config me.
Definition joined : HyParView := view_handle (VJoin (peer 2) (stranger 2) 1) empty_view.
End ViewExample.
Import ViewExample.

Lemma views_bounded_witness :
  active joined !! peer 1 = None ∧ Z.of_nat (size (active joined)) ≤ Z.max (max_active_view_size toy_config) 2.
Proof.
  destruct (views_bounded ordinary 0 (0%nat : @ThreadRng toy_rand) "blocks" toy_config me joined) as (Hs & _ & Ha).
  - apply rtc_once. apply (ViewHandle ordinary (VJoin (peer 2) (stranger 2) 1) empty_view). exact I.
  - split; [exact Hs|]. apply Ha. intros e He. exact He.
Defined.

Lemma high_priority_overflows_witness :
  Z.of_nat (size (active (foldl (λ v x, view_handle (VNeighbor x priority_high) v) joined (stranger <$> [3; 4; 5; 6; 7; 8; 9; 10; 11; 12; 13; 14; 15; 16]))))
    = 1 + 14.
Proof.
  refine (eq_trans (high_priority_overflows joined (stranger <$> [3; 4; 5; 6; 7; 8; 9; 10; 11; 12; 13; 14; 15; 16]) _ _ _) _).
  - reflexivity.
  - apply (bool_decide_unpack _). by vm_compute.
  - intros x (z & -> & Hz)%list_elem_of_fmap. repeat (apply elem_of_cons in Hz as [->|Hz]; [split; [reflexivity|discriminate]|]).
    by apply not_elem_of_nil in Hz.
  - by vm_compute.
Defined.
