(* ===== verification/Topic.v ===== *)
(** * The mesh of a topic (src/network/episub/topic.rs)

    The views of a topic and its tree, which learns of the active peers through
    the events of the views. *)
From S2P Require Import Prelude Primitives Episub Cache PlumTree HyParView.

Inductive RpcError `{Libp2p} := InvalidPeerId | ImpersonatedPeer (a b : PeerId).

Section topic.
Context `{Libp2p} `{Zstd} `{Rand}.

Record TopicMesh := MkMesh {
  tm_tree : PlumTree;
  tm_nodes : HyParView;
  tm_local : AddressablePeer;
  tm_out : list NetAction
}.

Definition Mesh_new (now : Z) (rng : ThreadRng) (topic : string) (config : Config) (local : AddressablePeer) : TopicMesh :=
  MkMesh (Tree_new now topic config (peer_id local)) (View_new now rng topic config local) local [].

Definition set_tree (t : PlumTree) (m : TopicMesh) : TopicMesh := MkMesh t (tm_nodes m) (tm_local m) (tm_out m).
Definition set_nodes (v : HyParView) (m : TopicMesh) : TopicMesh := MkMesh (tm_tree m) v (tm_local m) (tm_out m).

Definition disconnected (p : PeerId) (alive : bool) (m : TopicMesh) : TopicMesh := set_nodes (inject_disconnect p alive (tm_nodes m)) m.
Definition mesh_initiate_join (peer : AddressablePeer) (m : TopicMesh) : TopicMesh := set_nodes (initiate_join peer (tm_nodes m)) m.
Definition mesh_publish (now id : Z) (payload : bytes) (m : TopicMesh) : TopicMesh := set_tree (tree_publish now id payload (tm_tree m)) m.

(** A call about the views, with peers that were parsed. *)
Definition with_peer (p : PbPeer) (f : AddressablePeer → HyParView) (m : TopicMesh) : Outcome (Result RpcError TopicMesh) :=
  match peer_of_pb p with
  | Some peer => Done (Ok (set_nodes (f peer) m))
  | None => Done (Err InvalidPeerId)
  end.

(** [inject_rpc_call]: an event without an action makes it panic. *)
Definition inject_rpc_call (now : Z) (p : PeerId) (event : Rpc) (m : TopicMesh) : Outcome (Result RpcError TopicMesh) :=
  match rpc_action event with
  | None => Panic
  | Some (Join ttl peer) => with_peer peer (λ peer, inject_join p peer ttl (tm_nodes m)) m
  | Some (ForwardJoin ttl peer) => with_peer peer (λ peer, inject_forward_join peer ttl (peer_id (tm_local m)) p (tm_nodes m)) m
  | Some (Neighbor peer priority) =>
      match peer_of_pb peer with
      | Some peer =>
          if bool_decide (peer_id peer = p)
          then Done (Ok (set_nodes (inject_neighbor peer priority (tm_nodes m)) m))
          else Done (Err (ImpersonatedPeer p (peer_id peer)))
      | None => Done (Err InvalidPeerId)
      end
  | Some (Disconnect alive) => Done (Ok (set_nodes (inject_disconnect p alive (tm_nodes m)) m))
  | Some (Shuffle ttl origin nodes) => with_peer origin (λ origin, inject_shuffle p ttl (omap peer_of_pb nodes) origin (tm_nodes m)) m
  | Some (ShuffleReply nodes) => Done (Ok (set_nodes (inject_shuffle_reply nodes (tm_nodes m)) m))
  | Some a => t ← tree_rpc now p a (tm_tree m); mret (Ok (set_tree t m))
  end.

(** [poll]: events of the views are shown to the tree before they bubble up. *)
Definition mesh_poll (now : Z) (m : TopicMesh) : Outcome (option NetAction * TopicMesh) :=
  match tm_out m with
  | ev :: evs => Done (Some ev, MkMesh (tm_tree m) (tm_nodes m) (tm_local m) evs)
  | [] =>
      let '(ev, v) := view_poll now (tm_nodes m) in
      let m := set_nodes v m in
      match ev with
      | Some ev =>
          let t := match ev with
                   | GenerateEvent (EvPeerAdded p) => inject_neighbor_up p (tm_tree m)
                   | GenerateEvent (EvPeerRemoved p) => inject_neighbor_down p (tm_tree m)
                   | _ => tm_tree m
                   end in
          Done (Some ev, set_tree t m)
      | None => r ← tree_poll now (tm_tree m); mret (r.1, set_tree r.2 m)
      end
  end.
End topic.
