(* ===== verification/TopicProps.v ===== *)
(** * Properties of the mesh of a topic: the tree follows the views *)
From S2P Require Import Prelude Primitives Episub Cache PlumTree HyParView HyParViewProps Topic NetExample.

Section mesh.
Context `{Libp2p} `{Zstd} `{RandLaws}.
Implicit Types (m : TopicMesh) (p : PeerId) (t : PlumTree) (v : HyParView).

(** The peers that the tree knows. *)
Definition links t : gset PeerId := lazy t ∪ eager t.

(** What is still to be told to the tree makes its links the active view. *)
Definition mesh_wf m : Prop :=
  tm_out m = [] ∧ hv_local (tm_nodes m) = tm_local m ∧ foldl view_delta (links (tm_tree m)) (hv_out (tm_nodes m)) = dom (active (tm_nodes m)).

(** ** The mesh at work *)

(** A call that changes a link comes from a linked peer. *)
Definition tame p (event : Rpc) m : Prop :=
  match rpc_action event with
  | Some Prune | Some (Graft _) => p ∈ links (tm_tree m)
  | _ => True
  end.

Inductive mesh_step : TopicMesh → TopicMesh → Prop :=
  | MeshRpc now p event m m' : tame p event m → inject_rpc_call now p event m = Done (Ok m') → mesh_step m m'
  | MeshDisconnected p alive m : mesh_step m (disconnected p alive m)
  | MeshJoin peer m : mesh_step m (mesh_initiate_join peer m)
  | MeshPublish now id payload m : mesh_step m (mesh_publish now id payload m)
  | MeshPoll now o m m' : mesh_poll now m = Done (o, m') → mesh_step m m'.

Lemma mesh_wf_nodes m v : follows (tm_nodes m) v → mesh_wf m → mesh_wf (set_nodes v m).
Proof.
  intros [_ Hl _ (new & Ho & He) _ _] (Hout & Hloc & Hw). split_and!; [done|cbn; congruence|]. cbn [tm_tree tm_nodes set_nodes].
  by rewrite Ho, foldl_app, Hw.
Qed.

Lemma mesh_wf_tree m t : links t = links (tm_tree m) → mesh_wf m → mesh_wf (set_tree t m).
Proof. intros Hl (Hout & Hloc & Hw). split_and!; [done..|]. cbn [tm_tree tm_nodes set_tree]. by rewrite Hl. Qed.

Lemma publish_links now id payload t : links (tree_publish now id payload t) = links t.
Proof. unfold tree_publish. by repeat case_match. Qed.

Lemma message_links now p id hop payload t t' : inject_message now p id hop payload t = Done t' → links t' = links t.
Proof.
  unfold inject_message. destruct (cache_insert mr_id mr_hop now _ (received t)) as [[] r].
  - destruct (if enable_compression _ then _ else _); [|done]. by intros [= <-].
  - destruct (optimize_sender_tree _); [case_bool_decide as Hp|]; intros [= <-]; [|done..].
    cbn [eager set_caches] in Hp. unfold links. cbn. apply set_eq. intros q. destruct (decide (q = p)); set_solver.
Qed.

Lemma tree_rpc_links now p a t t' :
  match a with Prune | Graft _ => p ∈ links t | _ => True end → tree_rpc now p a t = Done t' → links t' = links t.
Proof.
  unfold links. intros Ht. destruct a; cbn [tree_rpc]; try (by intros [= <-]).
  - by intros ?%message_links.
  - intros [= <-]. clear Ht. revert t. induction ihaves as [|ih l IH]; intros t; [done|]. apply (IH (inject_ihave now p ih.1 ih.2 t)).
  - intros [= <-]. cbn. apply set_eq. intros q. destruct (decide (q = p)); set_solver.
  - intros [= <-]. cbn. apply set_eq. intros q. destruct (decide (q = p)); set_solver.
Qed.

Lemma tree_poll_links now o t t' : tree_poll now t = Done (o, t') → links t' = links t.
Proof.
  intros (t1 & Ht1 & Hp)%outcome_bind_done. assert (links t1 = links t) as <-.
  { destruct (_ <? _); [|by injection Ht1 as <-]. apply outcome_bind_done in Ht1 as (t2 & Ht2 & Ht1).
    apply outcome_bind_done in Ht1 as (t3 & Ht3 & Ht1). injection Ht1 as <-.
    apply outcome_bind_done in Ht2 as (l2 & _ & Ht2). injection Ht2 as <-.
    apply outcome_bind_done in Ht3 as (l3 & _ & Ht3). injection Ht3 as <-. by destruct l2. }
  injection Hp as Hp. by destruct (pt_out t1); injection Hp as _ <-.
Qed.

Lemma rpc_wf now p event m m' : tame p event m → inject_rpc_call now p event m = Done (Ok m') → mesh_wf m → mesh_wf m'.
Proof.
  unfold tame, inject_rpc_call, with_peer. intros Ht Hr Hw.
  assert (∀ e, mesh_wf (set_nodes (view_handle e (tm_nodes m)) m)) as Hv by (intros e; apply mesh_wf_nodes; [apply view_handle_follows|done]).
  assert (∀ a, match a with Prune | Graft _ => p ∈ links (tm_tree m) | _ => True end →
    (t ← tree_rpc now p a (tm_tree m); mret (Ok (E := RpcError) (set_tree t m))) = Done (Ok m') → mesh_wf m') as Htree.
  { intros a Ha (t & Htr & Hm)%outcome_bind_done. injection Hm as <-. apply mesh_wf_tree; [by eapply tree_rpc_links|done]. }
  destruct (rpc_action event) as [a|]; [|done]. destruct a as [ttl pb|ttl pb|pb pr|ttl pb nodes|nodes|alive|id hop payload|ihaves| |ids];
    try (eapply Htree; [|exact Hr]; done).
  - destruct (peer_of_pb pb) as [x|]; [|done]. injection Hr as <-. apply (Hv (VJoin p x ttl)).
  - destruct (peer_of_pb pb) as [x|]; [|done]. injection Hr as <-. destruct Hw as (_ & <- & _). apply (Hv (VForwardJoin p x ttl)).
  - destruct (peer_of_pb pb) as [x|]; [|done]. case_bool_decide; [|done]. injection Hr as <-. apply (Hv (VNeighbor x pr)).
  - destruct (peer_of_pb pb) as [x|]; [|done]. injection Hr as <-. apply (Hv (VShuffle p ttl (omap peer_of_pb nodes) x)).
  - injection Hr as <-. apply (Hv (VShuffleReply nodes)).
  - injection Hr as <-. apply (Hv (VDisconnect p alive)).
Qed.

(** An event of the views does to the links what it announces. *)
Lemma links_follow_event ev t :
  links (match ev with
         | GenerateEvent (EvPeerAdded p) => inject_neighbor_up p t
         | GenerateEvent (EvPeerRemoved p) => inject_neighbor_down p t
         | _ => t
         end) = view_delta (links t) ev.
Proof. unfold links. destruct ev as [| [] | |]; cbn; try done; set_solver. Qed.

Lemma mesh_poll_wf now o m m' : mesh_poll now m = Done (o, m') → mesh_wf m → mesh_wf m'.
Proof.
  unfold mesh_poll. intros Hp Hw. pose proof Hw as (Hout & Hloc & Hl). rewrite Hout in Hp. rewrite view_poll_spec in Hp.
  apply (mesh_wf_nodes m (view_maintain now (tm_nodes m)) (maintain_follows now _)) in Hw as (_ & Hloc' & Hl').
  cbn [tm_nodes set_nodes tm_tree tm_local] in Hloc', Hl'. destruct (hv_out (view_maintain now (tm_nodes m))) as [|ev evs] eqn:E.
  - apply outcome_bind_done in Hp as ([o' t'] & Ht & Hp). injection Hp as _ <-. split_and!; [done..|]. cbn [tm_tree tm_nodes set_tree set_nodes snd].
    cbn in Ht. rewrite (tree_poll_links now o' (tm_tree m) t' Ht), E. exact Hl'.
  - injection Hp as _ <-. split_and!; [done..|]. cbn [tm_tree tm_nodes set_tree set_nodes hv_out set_hv_out active].
    rewrite links_follow_event. exact Hl'.
Qed.

Lemma mesh_step_wf m m' : mesh_step m m' → mesh_wf m → mesh_wf m'.
Proof.
  intros Hstep Hw. destruct Hstep as [now p event m m' Ht Hr|p alive m|peer m|now id payload m|now o m m' Hp].
  - by eapply rpc_wf.
  - apply mesh_wf_nodes; [apply disconnect_follows|done].
  - apply mesh_wf_nodes; [apply (view_handle_follows (VInitiate peer))|done].
  - apply mesh_wf_tree; [apply publish_links|done].
  - by eapply mesh_poll_wf.
Qed.

(** C33: the broadcast tree follows the views: whatever messages come, the peers
    to which the tree sends, eagerly or lazily, become those of the active view
    once the queued announcements of the views are handled; with nothing queued
    they are the active peers. Grafts and prunes must come from linked peers. *)
Theorem tree_links_active_view now rng topic config local m :
  rtc mesh_step (Mesh_new now rng topic config local) m →
  foldl view_delta (links (tm_tree m)) (hv_out (tm_nodes m)) = dom (active (tm_nodes m)) ∧
  (hv_out (tm_nodes m) = [] → lazy (tm_tree m) ∪ eager (tm_tree m) = dom (active (tm_nodes m))).
Proof.
  intros Hsteps. assert (mesh_wf m) as (_ & _ & Hl).
  { assert (mesh_wf (Mesh_new now rng topic config local)) as Hinit.
    { by split_and!. }
    revert Hinit. induction Hsteps as [|m1 m2 m3 Hstep _ IH]; [done|]. intros Hw. by apply IH, (mesh_step_wf m1). }
  split; [done|]. intros Hn. rewrite Hn in Hl. exact Hl.
Qed.
End mesh.

(** ** Witness *)

Import NetExample ViewExample.

Module MeshExample.
Definition mesh0 : TopicMesh := Mesh_new 0 (0%nat : @ThreadRng toy_rand) "blocks" toy_config me.
Definition step_of (o : Outcome (option NetAction * TopicMesh)) (m : TopicMesh) : TopicMesh := match o with Done (_, m) => m | _ => m end.
Definition mesh1 : TopicMesh :=
  match inject_rpc_call 0 (peer 2) (MkRpc "blocks" (Some (Join 3 (pb_of_peer (stranger 2))))) mesh0 with Done (Ok m) => m | _ => mesh0 end.
Definition poll (m : TopicMesh) : TopicMesh := step_of (mesh_poll 0 m) m.
Definition mesh4 : TopicMesh := poll (poll (poll mesh1)).
End MeshExample.
Import MeshExample.

Lemma mesh_poll_step m : is_done (mesh_poll 0 m) = true → mesh_step m (poll m).
Proof. unfold poll. destruct (mesh_poll 0 m) as [[o m']| |] eqn:E; [|done..]. intros _. by eapply MeshPoll. Qed.

Lemma tree_links_active_view_witness :
  lazy (tm_tree mesh4) ∪ eager (tm_tree mesh4) = dom (active (tm_nodes mesh4)) ∧ active (tm_nodes mesh4) !! peer 2 = Some ∅.
Proof.
  split; [|reflexivity].
  apply (tree_links_active_view 0 (0%nat : @ThreadRng toy_rand) "blocks" toy_config me mesh4).
  - eapply rtc_l; [|eapply rtc_l; [|eapply rtc_l; [|eapply rtc_once]]].
    + apply (MeshRpc 0 (peer 2) (MkRpc "blocks" (Some (Join 3 (pb_of_peer (stranger 2))))) mesh0 mesh1); [exact I|reflexivity].
    + apply mesh_poll_step. by vm_compute.
    + apply mesh_poll_step. by vm_compute.
    + apply mesh_poll_step. by vm_compute.
  - reflexivity.
Defined.
