(* ===== verification/Behaviour.v ===== *)
(** * The gossip behaviour of a node (src/network/episub/behaviour.rs)

    The meshes of the subscribed topics, banned peers and connections. Hash maps
    are visited in the order of [map_to_list]; the generator of each new mesh and
    the random identifiers of messages are arguments. *)
From S2P Require Import Prelude Primitives Episub Cache PlumTree HyParView Topic.

Inductive PublishError := TopicNotSubscribed | PublishIo.

Inductive ConnectedPoint `{Libp2p} := Dialer (address : Multiaddr) | Listener (send_back_addr : Multiaddr).

Section behaviour.
Context `{Libp2p} `{Zstd} `{Rand}.

Record Episub := MkEpisub {
  ep_config : Config;
  local_node : option AddressablePeer;
  topics : gmap string TopicMesh;
  peer_addresses : gmap PeerId Multiaddr;
  banned_peers : gset PeerId;
  pending_topics : gset string;
  ep_out : list NetAction;
  early_peers : gset PeerId
}.

Definition Episub_new (config : Config) : Episub := MkEpisub config None ∅ ∅ ∅ ∅ [] ∅.

(** ** Updates of one field *)

Definition set_local (l : option AddressablePeer) (e : Episub) : Episub :=
  MkEpisub (ep_config e) l (topics e) (peer_addresses e) (banned_peers e) (pending_topics e) (ep_out e) (early_peers e).
Definition set_topics (t : gmap string TopicMesh) (e : Episub) : Episub :=
  MkEpisub (ep_config e) (local_node e) t (peer_addresses e) (banned_peers e) (pending_topics e) (ep_out e) (early_peers e).
Definition set_addresses (a : gmap PeerId Multiaddr) (e : Episub) : Episub :=
  MkEpisub (ep_config e) (local_node e) (topics e) a (banned_peers e) (pending_topics e) (ep_out e) (early_peers e).
Definition set_banned (b : gset PeerId) (e : Episub) : Episub :=
  MkEpisub (ep_config e) (local_node e) (topics e) (peer_addresses e) b (pending_topics e) (ep_out e) (early_peers e).
Definition set_pending (p : gset string) (e : Episub) : Episub :=
  MkEpisub (ep_config e) (local_node e) (topics e) (peer_addresses e) (banned_peers e) p (ep_out e) (early_peers e).
Definition set_ep_out (o : list NetAction) (e : Episub) : Episub :=
  MkEpisub (ep_config e) (local_node e) (topics e) (peer_addresses e) (banned_peers e) (pending_topics e) o (early_peers e).
Definition set_early (x : gset PeerId) (e : Episub) : Episub :=
  MkEpisub (ep_config e) (local_node e) (topics e) (peer_addresses e) (banned_peers e) (pending_topics e) (ep_out e) x.
Definition ep_push (l : list NetAction) (e : Episub) : Episub := set_ep_out (ep_out e ++ l) e.

(** ** Topics *)

Definition subscribe (now : Z) (rng : ThreadRng) (topic : string) (e : Episub) : bool * Episub :=
  match topics e !! topic with
  | Some _ => (false, e)
  | None =>
      (true,
       match local_node e with
       | Some node =>
           ep_push [GenerateEvent (EvSubscribed topic)] (set_topics (<[topic := Mesh_new now rng topic (ep_config e) node]> (topics e)) e)
       | None => set_pending (pending_topics e ∪ {[topic]}) e
       end)
  end.

Definition unsubscribe (topic : string) (e : Episub) : bool * Episub :=
  match topics e !! topic with
  | None => (false, e)
  | Some mesh =>
      let e := set_pending (pending_topics e ∖ {[topic]}) e in
      let e := set_topics (delete topic (topics e)) e in
      let e := ep_push ((λ p, NotifyHandler p (MkRpc topic (Some (Disconnect false)))) <$> (map_to_list (active (tm_nodes mesh))).*1) e in
      (true, ep_push [GenerateEvent (EvUnsubscribed topic)] e)
  end.

Definition publish (now id : Z) (topic : string) (message : bytes) (e : Episub) : Result PublishError Z * Episub :=
  match topics e !! topic with
  | None => (Err TopicNotSubscribed, e)
  | Some mesh =>
      match (if enable_compression (ep_config e) then encode_all message (compression_level (ep_config e)) else Some message) with
      | None => (Err PublishIo, e)
      | Some message => (Ok id, set_topics (<[topic := mesh_publish now id message mesh]> (topics e)) e)
      end
  end.

(** ** Connections *)

Definition force_disconnect (p : PeerId) (connection : Z) (e : Episub) : Episub := ep_push [CloseConnection p connection] e.

Definition ban_peer (p : PeerId) (connection : Z) (e : Episub) : Episub :=
  let e := set_addresses (delete p (peer_addresses e)) e in
  let e := set_banned (banned_peers e ∪ {[p]}) e in
  force_disconnect p connection e.

(** Whether a topic still wants peers, and would have this one. *)
Definition wants (config : Config) (p : PeerId) (t : string) (m : TopicMesh) : Outcome bool :=
  if starved (tm_nodes m) && negb (is_active p (tm_nodes m)) then authorizer config t p else Done false.

(** The topics are visited one after the other; the first that wants the peer
    unwraps its address. *)
Fixpoint request_join_each (p : PeerId) (l : list (string * TopicMesh)) (e : Episub) : Outcome Episub :=
  match l with
  | [] => Done e
  | (t, m) :: l =>
      w ← wants (ep_config e) p t m;
      e ← (if w : bool then
             match peer_addresses e !! p with
             | Some a => Done (set_topics (<[t := mesh_initiate_join (MkPeer p {[a]}) m]> (topics e)) e)
             | None => Panic
             end
           else Done e);
      request_join_each p l e
  end.

Definition request_join_for_starving_topics (p : PeerId) (e : Episub) : Outcome Episub :=
  request_join_each p (map_to_list (topics e)) e.

Definition inject_connection_established (p : PeerId) (connection : Z) (endpoint : ConnectedPoint) (e : Episub) : Outcome Episub :=
  if bool_decide (p ∈ banned_peers e) then Done (force_disconnect p connection e)
  else
    let e := set_addresses (<[p := match endpoint with Dialer a => a | Listener a => a end]> (peer_addresses e)) e in
    match endpoint with
    | Dialer _ =>
        match local_node e with
        | Some _ => request_join_for_starving_topics p e
        | None => Done (set_early (early_peers e ∪ {[p]}) e)
        end
    | Listener _ => Done e
    end.

Definition inject_new_listen_addr (addr : Multiaddr) (e : Episub) : Episub :=
  if negb (is_local_address addr)
  then set_local ((λ n, MkPeer (peer_id n) (addresses n ∪ {[addr]})) <$> local_node e) e else e.

Definition inject_expired_listen_addr (addr : Multiaddr) (e : Episub) : Episub :=
  set_local ((λ n, MkPeer (peer_id n) (addresses n ∖ {[addr]})) <$> local_node e) e.

(** A failed dial, unless only the condition of the dial did not hold. *)
Definition inject_dial_failure (p : option PeerId) (condition_false : bool) (e : Episub) : Episub :=
  if condition_false then e
  else match p with Some p => set_topics (disconnected p false <$> topics e) e | None => e end.

Definition inject_connection_closed (p : PeerId) (e : Episub) : Episub := set_topics (disconnected p true <$> topics e) e.

(** ** Messages *)

Definition inject_event (now : Z) (p : PeerId) (connection : Z) (event : Rpc) (e : Episub) : Outcome Episub :=
  if bool_decide (p ∈ banned_peers e) then Done (force_disconnect p connection e)
  else
    allowed ← authorizer (ep_config e) (rpc_topic event) p;
    if negb allowed then Done (force_disconnect p connection e)
    else
      match rpc_action event with
      | None => Done (ban_peer p connection e)
      | Some _ =>
          match topics e !! rpc_topic event with
          | Some mesh =>
              r ← inject_rpc_call now p event mesh;
              mret match r with
                   | Ok mesh => set_topics (<[rpc_topic event := mesh]> (topics e)) e
                   | Err _ => ban_peer p connection e
                   end
          | None =>
              let e := ep_push [NotifyHandler p (MkRpc (rpc_topic event) (Some (Disconnect false)))] e in
              Done (force_disconnect p connection e)
          end
      end.

(** ** Polling *)

Fixpoint request_joins (ps : list PeerId) (e : Episub) : Outcome Episub :=
  match ps with
  | [] => Done e
  | p :: ps => e ← request_join_for_starving_topics p e; request_joins ps e
  end.

(** [update_local_node_info]: [addrs] are the external and listened addresses. *)
Definition update_local_node_info (now : Z) (rng : string → ThreadRng) (id : PeerId) (addrs : list Multiaddr) (e : Episub) : Outcome Episub :=
  match local_node e with
  | Some _ => Done e
  | None =>
      match filter (λ a, is_local_address a = false) addrs with
      | [] => Done e
      | a :: l =>
          let node := MkPeer id (list_to_set (a :: l)) in
          let e := set_local (Some node) e in
          let add ts t := match ts !! t with Some _ => ts | None => <[t := Mesh_new now (rng t) t (ep_config e) node]> ts end in
          let e := set_topics (foldl add (topics e) (elements (pending_topics e))) e in
          let e := set_pending ∅ e in
          let early := elements (early_peers e) in
          request_joins early (set_early ∅ e)
      end
  end.

(** The first mesh that has something to say. *)
Fixpoint poll_meshes (now : Z) (l : list (string * TopicMesh)) (e : Episub) : Outcome (option NetAction * Episub) :=
  match l with
  | [] => Done (None, e)
  | (t, m) :: l =>
      r ← mesh_poll now m;
      let e := set_topics (<[t := r.2]> (topics e)) e in
      match r.1 with
      | Some ev => Done (Some ev, e)
      | None => poll_meshes now l e
      end
  end.

Definition episub_poll (now : Z) (rng : string → ThreadRng) (id : PeerId) (addrs : list Multiaddr) (e : Episub) : Outcome (option NetAction * Episub) :=
  e ← update_local_node_info now rng id addrs e;
  match ep_out e with
  | ev :: evs => Done (Some ev, set_ep_out evs e)
  | [] => poll_meshes now (map_to_list (topics e)) e
  end.
End behaviour.
