(* ===== verification/BehaviourProps.v ===== *)
(** * Properties of the gossip behaviour: who is heard, who is banned, who can
    stop the node *)
From S2P Require Import Prelude Primitives Episub Cache PlumTree HyParView HyParViewProps Topic Behaviour NetExample.
From Stdlib Require Import Strings.Byte.

Ltac episub_cbn :=
  cbn [ep_config local_node pending_topics early_peers topics peer_addresses banned_peers ep_out ep_push set_ep_out set_banned
       set_addresses set_early set_pending set_topics set_local Episub_new].

Section behaviour.
Context `{Libp2p} `{Zstd} `{Rand}.
Implicit Types (e : Episub) (p : PeerId) (event : Rpc).

(** A node listens to a peer on a topic. *)
Definition heard p event e : Prop := p ∉ banned_peers e ∧ authorizer (ep_config e) (rpc_topic event) p = Done true.

(** A message of a peer is handled only when the peer is not banned, is
    authorized for the topic, the topic is subscribed and the message is well
    formed; then it changes the mesh of that topic alone. In every other case
    the meshes stay as they are and the connection is closed, and a message that
    violates the protocol gets its sender banned and its address forgotten. *)
Theorem inject_event_guarded now p conn event e e' :
  inject_event now p conn event e = Done e' →
  ep_config e' = ep_config e ∧ local_node e' = local_node e ∧
  ((heard p event e ∧ ∃ mesh mesh', topics e !! rpc_topic event = Some mesh ∧ inject_rpc_call now p event mesh = Done (Ok mesh') ∧
      topics e' = <[rpc_topic event := mesh']> (topics e) ∧ banned_peers e' = banned_peers e ∧ ep_out e' = ep_out e) ∨
   (topics e' = topics e ∧ last (ep_out e') = Some (CloseConnection p conn) ∧
      banned_peers e' = banned_peers e ∪
        (if bool_decide (heard p event e) && (negb (is_some (rpc_action event)) ||
             match topics e !! rpc_topic event with
             | Some mesh => match inject_rpc_call now p event mesh with Done (Err _) => true | _ => false end
             | None => false end)
         then {[p]} else ∅))).
Proof.
  assert (∀ (b : gset PeerId), b = b ∪ ∅) as Hempty by (intros b; set_solver).
  unfold inject_event, heard. case_bool_decide as Hban.
  { intros [= <-]. split_and!; [done..|right]. split_and!; [done| cbn [ep_out force_disconnect ban_peer ep_push set_ep_out set_banned set_addresses]; by rewrite last_snoc|].
    rewrite (bool_decide_false (_ ∧ _)) by tauto. apply Hempty. }
  destruct (authorizer (ep_config e) (rpc_topic event) p) as [[]| |] eqn:Hauth; cbn [mbind outcome_bind negb]; [| |done..].
  2: { intros [= <-]. split_and!; [done..|right]. split_and!; [done| cbn [ep_out force_disconnect ban_peer ep_push set_ep_out set_banned set_addresses]; by rewrite last_snoc|].
       rewrite (bool_decide_false (_ ∧ _)) by (intros [_ ?]; done). apply Hempty. }
  rewrite (bool_decide_true (_ ∧ _)) by done. destruct (rpc_action event) as [a|]; cbn [is_some negb orb andb].
  2: { intros [= <-]. split_and!; [done..|right]. split_and!; [done| cbn [ep_out force_disconnect ban_peer ep_push set_ep_out set_banned set_addresses]; by rewrite last_snoc|done]. }
  destruct (topics e !! rpc_topic event) as [mesh|] eqn:Hmesh.
  2: { intros [= <-]. split_and!; [done..|right]. split_and!; [done| cbn [ep_out force_disconnect ban_peer ep_push set_ep_out set_banned set_addresses]; by rewrite last_snoc|]. apply Hempty. }
  intros (r & Hr & He)%outcome_bind_done. rewrite Hr. injection He as <-. destruct r as [mesh'|err].
  - split_and!; [done..|left]. split; [done|]. by exists mesh, mesh'.
  - split_and!; [done..|right]. split_and!; [done| cbn [ep_out force_disconnect ban_peer ep_push set_ep_out set_banned set_addresses]; by rewrite last_snoc|done].
Qed.

(** Any peer that is heard can stop the node with one message: a payload
    that does not decompress, under an identifier that the node has not received,
    makes it panic when compression is on. *)
Theorem undecodable_payload_panics now p conn topic id hop payload mesh e :
  heard p (MkRpc topic (Some (Message id hop payload))) e → topics e !! topic = Some mesh →
  cache_get id (received (tm_tree mesh)) = None → enable_compression (pt_config (tm_tree mesh)) = true → decode_all payload = None →
  inject_event now p conn (MkRpc topic (Some (Message id hop payload))) e = Panic.
Proof.
  intros [Hban Hauth] Hmesh Hnew Hc Hd. unfold inject_event. rewrite bool_decide_false by done. rewrite Hauth. cbn [negb rpc_action rpc_topic].
  rewrite Hmesh. cbn [inject_rpc_call rpc_action tree_rpc]. unfold inject_message.
  pose proof (cache_insert_new mr_id mr_hop now (MkRecord id hop p payload) (received (tm_tree mesh))) as Hn. cbn [mr_id] in Hn. rewrite Hnew in Hn.
  destruct (cache_insert mr_id mr_hop now _ (received (tm_tree mesh))) as [new r]. cbn [fst is_some negb] in Hn. subst new.
  cbn [set_caches pt_config]. by rewrite Hc, Hd.
Qed.

(** A mesh that was just made wants every authorized peer. *)
Lemma new_mesh_wants now rng topic config node p :
  authorizer config topic p = Done true → wants config p topic (Mesh_new now rng topic config node) = Done true.
Proof.
  intros Ha. unfold wants, starved, is_active. rewrite Ha. cbn [tm_nodes Mesh_new active View_new hv_config].
  rewrite map_size_empty, lookup_empty. cbn [is_some negb]. rewrite (proj2 (Z.ltb_lt _ _)); [done|]. unfold min_active_view_size. lia.
Qed.

(** A bootstrap peer can stop a node that has no address yet: it is dialed,
    is noted for a later request to join, violates the protocol, and is banned,
    which forgets its address; once the node learns its own address it asks the
    banned peer to join and panics for want of the address. *)
Theorem banned_bootstrap_peer_panics now rng id config topic p conn a addr e1 e2 :
  authorizer config topic p = Done true → is_local_address addr = false →
  inject_connection_established p conn (Dialer a) (subscribe now (rng topic) topic (Episub_new config)).2 = Done e1 →
  inject_event now p conn (MkRpc topic None) e1 = Done e2 →
  p ∈ banned_peers e2 ∧ episub_poll now rng id [addr] e2 = Panic.
Proof.
  intros Hauth Haddr He1 He2. unfold subscribe in He1. cbn [topics Episub_new] in He1. rewrite lookup_empty in He1.
  cbn [local_node Episub_new snd] in He1. unfold inject_connection_established in He1.
  rewrite bool_decide_false in He1 by apply not_elem_of_empty. cbn in He1. injection He1 as <-.
  unfold inject_event in He2. rewrite bool_decide_false in He2 by apply not_elem_of_empty. cbn [ep_config set_early set_addresses set_pending rpc_topic Episub_new] in He2.
  rewrite Hauth in He2. cbn in He2. injection He2 as <-. split; [cbn; set_solver|].
  unfold episub_poll, update_local_node_info, ban_peer, force_disconnect. episub_cbn.
  rewrite filter_cons, decide_True by done. cbn [filter list_filter].
  rewrite !union_empty_l_L, !elements_singleton. cbn [request_joins foldl]. rewrite lookup_empty.
  unfold request_join_for_starving_topics. episub_cbn. rewrite insert_empty, map_to_list_singleton.
  cbn [request_join_each]. episub_cbn. rewrite new_mesh_wants by done. cbn [mbind outcome_bind].
  by rewrite lookup_delete_eq.
Qed.
End behaviour.

(** ** Witnesses *)

Import NetExample ViewExample.

Module BehaviourExample.
Definition known : Episub := set_local (Some me) (Episub_new toy_config).
Definition node : Episub := (subscribe 0 (0%nat : @ThreadRng toy_rand) "blocks" known).2.
Definition mesh : TopicMesh := Mesh_new 0 (0%nat : @ThreadRng toy_rand) "blocks" toy_config me.
Definition join : Rpc := MkRpc "blocks" (Some (Join 3 (pb_of_peer (stranger 2)))).
Definition node1 : Episub := done_or (inject_event 0 (peer 2) 7 join node) node.
Definition rngs : string → @ThreadRng toy_rand := λ _, 0%nat.
Definition young : Episub := (subscribe 0 (rngs "blocks") "blocks" (Episub_new toy_config)).2.
Definition young1 : Episub := done_or (inject_connection_established (peer 2) 7 (Dialer (9 : @Multiaddr toy_libp2p)) young) young.
Definition young2 : Episub := done_or (inject_event 0 (peer 2) 7 (MkRpc "blocks" None) young1) young1.
End BehaviourExample.
Import BehaviourExample.

Lemma inject_event_guarded_witness : ep_config node1 = toy_config.
Proof.
  destruct (inject_event_guarded 0 (peer 2) 7 join node node1) as (Hc & _); [|exact Hc].
  unfold node1. apply is_done_eq. by vm_compute.
Defined.

Lemma undecodable_payload_panics_witness : inject_event 0 (peer 2) 7 (MkRpc "blocks" (Some (Message 5 1 [x07]))) node = Panic.
Proof.
  apply (undecodable_payload_panics 0 (peer 2) 7 "blocks" 5 1 [x07] mesh node).
  - split; [apply not_elem_of_empty|reflexivity].
  - reflexivity.
  - reflexivity.
  - reflexivity.
  - reflexivity.
Defined.

Lemma banned_bootstrap_peer_panics_witness : episub_poll 0 rngs (peer 1) [(9 : @Multiaddr toy_libp2p)] young2 = Panic.
Proof.
  apply (banned_bootstrap_peer_panics 0 rngs (peer 1) toy_config "blocks" (peer 2) 7 (9 : @Multiaddr toy_libp2p) 9 young1 young2).
  - reflexivity.
  - reflexivity.
  - unfold young1. apply is_done_eq. by vm_compute.
  - unfold young2. apply is_done_eq. by vm_compute.
Defined.
