(* ===== verification/Codec.v ===== *)
(** * Frames of the gossip protocol (src/network/episub/codec.rs, connection.rs, error.rs)

    Messages are serialized by the generated protobuf code and prefixed with
    their length by the unsigned-varint package: both are parameters, with their
    documented behaviour as laws. *)
From S2P Require Import Prelude Primitives Episub.

(** The serialization that is generated from rpc.proto, and the codec
    [UviBytes] with the greatest length that it admits. *)
Class Wire `{Libp2p} := {
  prost_encode : Rpc → bytes;
  prost_decode : bytes → option Rpc;
  IoError : Type;
  is_permission_denied : IoError → bool;
  decode_error : IoError;
  broken_pipe : IoError;
  uvi_encode : Z → bytes → Result IoError bytes;
  (** one packet, if it is complete, and what is left of the buffer *)
  uvi_decode : Z → bytes → Result IoError (option (bytes * bytes))
}.

Class WireLaws `{Wire} : Prop := {
  prost_roundtrip : ∀ m, prost_decode (prost_encode m) = Some m;
  uvi_encode_fits : ∀ max l, is_ok (uvi_encode max l) = (Z.of_nat (length l) <=? max);
  uvi_roundtrip : ∀ max l f rest, uvi_encode max l = Ok f → uvi_decode max (f ++ rest) = Ok (Some (l, rest));
  uvi_nothing : ∀ max, uvi_decode max [] = Ok None
}.

Section codec.
Context `{Wire}.

Inductive EpisubHandlerError := MaxTransmissionSize | Io (e : IoError).

(** [EpisubCodec], with the length that connection.rs gives to the length codec *)
Record EpisubCodec := MkCodec { max_len : Z }.

(** [Encoder::encode]: the frame is appended to the buffer. *)
Definition encode (c : EpisubCodec) (item : Rpc) (dst : bytes) : Result EpisubHandlerError bytes :=
  match uvi_encode (max_len c) (prost_encode item) with
  | Ok frame => Ok (dst ++ frame)
  | Err _ => Err MaxTransmissionSize
  end.

(** [Decoder::decode]: the message at the start of the buffer and what is left
    of the buffer. *)
Definition decode (c : EpisubCodec) (src : bytes) : Result EpisubHandlerError (option (Rpc * bytes)) :=
  packet ← map_err (λ e, if is_permission_denied e then MaxTransmissionSize else Io e) (uvi_decode (max_len c) src);
  match packet with
  | None => Ok None
  | Some (packet, src) =>
      match prost_decode packet with
      | Some m => Ok (Some (m, src))
      | None => Err (Io decode_error)
      end
  end.

(** What a reader makes of a buffer, message by message. *)
Fixpoint decode_stream (fuel : nat) (c : EpisubCodec) (src : bytes) : Result EpisubHandlerError (list Rpc) :=
  match fuel with
  | O => Ok []
  | S fuel =>
      r ← decode c src;
      match r with
      | None => Ok []
      | Some (m, src) => ms ← decode_stream fuel c src; mret (m :: ms)
      end
  end.

(** Whether a message is small enough to be sent. *)
Definition fits (c : EpisubCodec) (m : Rpc) : bool := Z.of_nat (length (prost_encode m)) <=? max_len c.

(** The frames of the messages that are. *)
Definition frames (c : EpisubCodec) (ms : list Rpc) : bytes :=
  foldl (λ dst m, match encode c m dst with Ok dst => dst | Err _ => dst end) [] ms.

(** ** Lemmas *)

Context `{!WireLaws}.
Implicit Types (c : EpisubCodec) (m : Rpc).

Lemma encode_fits c m dst : is_ok (encode c m dst) = fits c m.
Proof. unfold encode, fits. rewrite <- uvi_encode_fits. by destruct (uvi_encode _ _). Qed.

Lemma encode_err c m dst e : encode c m dst = Err e → e = MaxTransmissionSize ∧ fits c m = false.
Proof. intros He. rewrite <- (encode_fits c m dst), He. unfold encode in He. destruct (uvi_encode _ _); by simplify_eq. Qed.

Lemma encode_app c m dst : encode c m dst = (f ← encode c m []; Ok (dst ++ f)).
Proof. unfold encode. by destruct (uvi_encode _ _). Qed.

Lemma decode_encode c m rest f : encode c m [] = Ok f → decode c (f ++ rest) = Ok (Some (m, rest)).
Proof.
  unfold encode, decode. destruct (uvi_encode _ _) as [f'|] eqn:E; [|done]. intros [= <-]. cbn [app].
  rewrite (uvi_roundtrip _ _ _ rest E). cbn. by rewrite prost_roundtrip.
Qed.

Lemma frames_snoc c ms m :
  frames c (ms ++ [m]) = match encode c m (frames c ms) with Ok dst => dst | Err _ => frames c ms end.
Proof. unfold frames. by rewrite foldl_app. Qed.

Lemma frames_app c ms ms' : frames c (ms ++ ms') = frames c ms ++ frames c ms'.
Proof.
  induction ms' as [|m ms' IH] using rev_ind; [by rewrite !app_nil_r|].
  rewrite app_assoc, !frames_snoc, IH, (encode_app c m (_ ++ _)), (encode_app c m (frames c ms')).
  destruct (encode c m []); cbn; [by rewrite app_assoc|done].
Qed.

Lemma frames_cons c m ms : frames c (m :: ms) = match encode c m [] with Ok f => f | Err _ => [] end ++ frames c ms.
Proof. apply (frames_app c [m] ms). Qed.

(** A reader finds exactly the messages that were small enough, in order. *)
Lemma decode_stream_frames c ms fuel :
  (length ms < fuel)%nat → decode_stream fuel c (frames c ms) = Ok (filter (λ m, fits c m = true) ms).
Proof.
  revert fuel. induction ms as [|m ms IH]; intros [|fuel] Hf; cbn in Hf; try lia.
  { cbn. unfold decode. by rewrite uvi_nothing. }
  rewrite frames_cons, filter_cons, <- (encode_fits c m []). destruct (encode c m []) as [f|] eqn:E; cbn [is_ok].
  - rewrite decide_True by done. cbn [decode_stream]. rewrite (decode_encode c m _ _ E). cbn.
    rewrite IH by lia. done.
  - rewrite decide_False by done. cbn [app]. apply IH. lia.
Qed.
End codec.
