(* ===== verification/Handler.v ===== *)
(** * The handler of one connection (src/network/episub/handler.rs, connection.rs)

    Two substreams, one for each direction, as state machines. A substream is a
    [Framed] of the asynchronous-codec package over the codec of Codec.v: a
    parameter, whose answers to a poll may depend on anything. *)
From S2P Require Import Prelude Primitives Episub Codec.

Inductive Poll (A : Type) := Ready (a : A) | Pending.
Arguments Ready {A} _.
Arguments Pending {A}.

Class Framed `{Wire} := {
  Socket : Type;
  Substream : Type;
  framed_new : Socket → EpisubCodec → Substream;
  (** the codec of a substream and the bytes that were put into it *)
  sub_codec : Substream → EpisubCodec;
  sub_written : Substream → bytes;
  poll_stream : Substream → Poll (option (Result EpisubHandlerError Rpc)) * Substream;
  poll_ready : Substream → Poll (Result EpisubHandlerError unit) * Substream;
  start_send : Substream → Rpc → Result EpisubHandlerError unit * Substream;
  poll_flush : Substream → Poll (Result EpisubHandlerError unit) * Substream;
  poll_close : Substream → Poll (Result EpisubHandlerError unit) * Substream
}.

(** Only [start_send] adds to what is written, by means of the encoder. *)
Class FramedLaws `{Framed} : Prop := {
  new_codec : ∀ k c, sub_codec (framed_new k c) = c;
  new_written : ∀ k c, sub_written (framed_new k c) = [];
  ready_frame : ∀ s, let s' := (poll_ready s).2 in sub_codec s' = sub_codec s ∧ sub_written s' = sub_written s;
  flush_frame : ∀ s, let s' := (poll_flush s).2 in sub_codec s' = sub_codec s ∧ sub_written s' = sub_written s;
  start_send_codec : ∀ s m, sub_codec (start_send s m).2 = sub_codec s;
  start_send_encodes : ∀ s m,
    match encode (sub_codec s) m (sub_written s) with
    | Ok dst => (start_send s m).1 = Ok tt ∧ sub_written (start_send s m).2 = dst
    | Err e => (start_send s m).1 = Err e ∧ sub_written (start_send s m).2 = sub_written s
    end
}.

Section handler.
Context `{Framed}.

(** ** The protocol of a connection (connection.rs) *)

Record EpisubConnection := MkConnection { max_transmit : Z }.

Definition protocol_info : string := "/rensa/episub/1.0.0".

(** [upgrade_inbound] and [upgrade_outbound] *)
Definition upgrade (c : EpisubConnection) (k : Socket) : Substream := framed_new k (MkCodec (max_transmit c)).

(** ** The handler *)

Inductive InboundSubstreamState := WaitingInput (s : Substream) | InClosing (s : Substream) | InPoisoned.
Inductive OutboundSubstreamState :=
  | SubstreamRequested
  | WaitingOutput (s : Substream)
  | PendingSend (s : Substream) (m : Rpc)
  | PendingFlush (s : Substream)
  | OutClosing (s : Substream)
  | OutPoisoned.

Inductive KeepAlive := KeepYes | KeepNo.

Record EpisubHandler := MkHandler {
  listen_protocol : EpisubConnection;
  outbound : option OutboundSubstreamState;
  inbound : option InboundSubstreamState;
  keep_alive : KeepAlive;
  outbound_queue : list Rpc
}.

Inductive HandlerEvent :=
  | OutboundSubstreamRequest (protocol : EpisubConnection)
  | Close (e : EpisubHandlerError)
  | Custom (m : Rpc).

Definition Handler_new (max_transmit_size : Z) (temporary : bool) : EpisubHandler :=
  MkHandler (MkConnection max_transmit_size) None None (if temporary then KeepNo else KeepYes) [].

Definition set_inbound (i : option InboundSubstreamState) (h : EpisubHandler) : EpisubHandler :=
  MkHandler (listen_protocol h) (outbound h) i (keep_alive h) (outbound_queue h).
Definition set_outbound (o : option OutboundSubstreamState) (h : EpisubHandler) : EpisubHandler :=
  MkHandler (listen_protocol h) o (inbound h) (keep_alive h) (outbound_queue h).
Definition set_keep (k : KeepAlive) (h : EpisubHandler) : EpisubHandler :=
  MkHandler (listen_protocol h) (outbound h) (inbound h) k (outbound_queue h).
Definition set_queue (q : list Rpc) (h : EpisubHandler) : EpisubHandler :=
  MkHandler (listen_protocol h) (outbound h) (inbound h) (keep_alive h) q.

Definition fully_negotiated_inbound (s : Substream) (h : EpisubHandler) : EpisubHandler := set_inbound (Some (WaitingInput s)) h.
Definition fully_negotiated_outbound (s : Substream) (h : EpisubHandler) : EpisubHandler := set_outbound (Some (WaitingOutput s)) h.

(** [inject_event]: a temporary connection takes only replies to a shuffle. *)
Definition handler_inject (event : Rpc) (h : EpisubHandler) : EpisubHandler :=
  match keep_alive h with
  | KeepYes => set_queue (outbound_queue h ++ [event]) h
  | KeepNo =>
      match rpc_action event with
      | Some (ShuffleReply _) => set_queue (outbound_queue h ++ [event]) h
      | _ => h
      end
  end.

(** ** Polling *)

(** [process_inbound_poll]: the state is replaced by the poisoned one before
    it is looked at, and stays so after an error. *)
Fixpoint process_inbound_poll (fuel : nat) (h : EpisubHandler) : Outcome (Poll HandlerEvent * EpisubHandler) :=
  match fuel with
  | O => OutOfFuel
  | S fuel =>
      let state := inbound h in
      let h := set_inbound (Some InPoisoned) h in
      match state with
      | Some (WaitingInput s) =>
          match poll_stream s with
          | (Ready (Some (Ok message)), s) => Done (Ready (Custom message), set_inbound (Some (WaitingInput s)) h)
          | (Ready (Some (Err error)), s) => process_inbound_poll fuel h
          | (Ready None, s) => process_inbound_poll fuel (set_inbound (Some (InClosing s)) h)
          | (Pending, s) => Done (Pending, set_inbound (Some (WaitingInput s)) h)
          end
      | Some (InClosing s) =>
          match poll_close s with
          | (Ready res, s) =>
              let h := set_inbound None h in
              Done (Pending, match outbound h with None => set_keep KeepNo h | Some _ => h end)
          | (Pending, s) => Done (Pending, set_inbound (Some (InClosing s)) h)
          end
      | Some InPoisoned => Panic
      | None => Done (Pending, set_inbound None h)
      end
  end.

(** [process_outbound_poll] *)
Fixpoint process_outbound_poll (fuel : nat) (h : EpisubHandler) : Outcome (Poll HandlerEvent * EpisubHandler) :=
  match fuel with
  | O => OutOfFuel
  | S fuel =>
      let state := outbound h in
      let h := set_outbound (Some OutPoisoned) h in
      match state with
      | Some (WaitingOutput s) =>
          match outbound_queue h with
          | msg :: queue => process_outbound_poll fuel (set_outbound (Some (PendingSend s msg)) (set_queue queue h))
          | [] => Done (Pending, set_outbound (Some (WaitingOutput s)) h)
          end
      | Some (PendingSend s message) =>
          match poll_ready s with
          | (Ready (Ok _), s) =>
              match start_send s message with
              | (Ok _, s) => process_outbound_poll fuel (set_outbound (Some (PendingFlush s)) h)
              | (Err MaxTransmissionSize, s) => process_outbound_poll fuel (set_outbound (Some (WaitingOutput s)) h)
              | (Err e, s) => Done (Ready (Close e), h)
              end
          | (Ready (Err e), s) => Done (Ready (Close e), h)
          | (Pending, s) => Done (Pending, set_outbound (Some (PendingSend s message)) (set_keep KeepYes h))
          end
      | Some (PendingFlush s) =>
          match poll_flush s with
          | (Ready (Ok _), s) => process_outbound_poll fuel (set_outbound (Some (WaitingOutput s)) h)
          | (Ready (Err e), s) => Done (Ready (Close e), h)
          | (Pending, s) => Done (Pending, set_outbound (Some (PendingFlush s)) (set_keep KeepYes h))
          end
      | Some (OutClosing s) =>
          match poll_close s with
          | (Ready (Ok _), s) =>
              let h := set_outbound None h in
              Done (Pending, match inbound h with None => set_keep KeepNo h | Some _ => h end)
          | (Ready (Err e), s) => Done (Ready (Close (Io broken_pipe)), h)
          | (Pending, s) => Done (Pending, set_outbound (Some (OutClosing s)) (set_keep KeepNo h))
          end
      | Some SubstreamRequested => Done (Pending, set_outbound (Some SubstreamRequested) h)
      | Some OutPoisoned => Panic
      | None => Done (Ready (OutboundSubstreamRequest (listen_protocol h)), set_outbound (Some SubstreamRequested) h)
      end
  end.

(** [poll]: the inbound substream first. *)
Definition handler_poll (fuel : nat) (h : EpisubHandler) : Outcome (Poll HandlerEvent * EpisubHandler) :=
  r ← process_inbound_poll fuel h;
  match r.1 with
  | Ready _ => Done r
  | Pending => process_outbound_poll fuel r.2
  end.
End handler.
