(* ===== verification/WireExample.v ===== *)
(** * Frames and substreams to evaluate a connection with *)
From S2P Require Import Prelude Primitives Episub NetExample Codec Handler.
From Stdlib Require Import Strings.Byte.

#[export] Instance pb_peer_eq_dec : EqDecision PbPeer.
Proof. solve_decision. Defined.
#[export] Program Instance pb_peer_countable : Countable PbPeer :=
  inj_countable' (λ p, (pb_peer_id p, pb_addresses p)) (λ '(i, a), MkPbPeer i a) _.
Next Obligation. by intros []. Qed.

#[export] Instance action_eq_dec : EqDecision Action.
Proof. solve_decision. Defined.
#[export] Instance rpc_eq_dec : EqDecision Rpc.
Proof. solve_decision. Defined.

(** Actions by the number of their field in rpc.proto, and their contents. *)
Definition action_tree (a : Action) : Z * (list Z * list PbPeer * bytes * list (Z * Z)) :=
  match a with
  | Join ttl p => (2, ([ttl], [p], [], []))
  | ForwardJoin ttl p => (3, ([ttl], [p], [], []))
  | Neighbor p priority => (4, ([priority], [p], [], []))
  | Shuffle ttl o ns => (5, ([ttl], o :: ns, [], []))
  | ShuffleReply ns => (6, ([], ns, [], []))
  | Disconnect alive => (7, ([if alive then 1 else 0], [], [], []))
  | Message id hop l => (9, ([id; hop], [], l, []))
  | Ihave ihs => (10, ([], [], [], ihs))
  | Prune => (11, ([], [], [], []))
  | Graft ids => (12, (ids, [], [], []))
  end.

Definition tree_action (t : Z * (list Z * list PbPeer * bytes * list (Z * Z))) : option Action :=
  match t with
  | (2, ([ttl], [p], _, _)) => Some (Join ttl p)
  | (3, ([ttl], [p], _, _)) => Some (ForwardJoin ttl p)
  | (4, ([priority], [p], _, _)) => Some (Neighbor p priority)
  | (5, ([ttl], o :: ns, _, _)) => Some (Shuffle ttl o ns)
  | (6, (_, ns, _, _)) => Some (ShuffleReply ns)
  | (7, ([alive], _, _, _)) => Some (Disconnect (alive =? 1))
  | (9, ([id; hop], _, l, _)) => Some (Message id hop l)
  | (10, (_, _, _, ihs)) => Some (Ihave ihs)
  | (11, _) => Some Prune
  | (12, (ids, _, _, _)) => Some (Graft ids)
  | _ => None
  end.

#[export] Program Instance action_countable : Countable Action := inj_countable action_tree tree_action _.
Next Obligation. by intros [ttl p|ttl p|p pr|ttl o ns|ns|[]|id hop l|ihs| |ids]. Qed.

#[export] Program Instance rpc_countable : Countable Rpc :=
  inj_countable' (λ r, (rpc_topic r, rpc_action r)) (λ '(t, a), MkRpc t a) _.
Next Obligation. by intros []. Qed.

(** The length of a packet as so many ones, ended by a zero. *)
Fixpoint split_length (src : bytes) : option (nat * bytes) :=
  match src with
  | x00 :: l => Some (O, l)
  | x01 :: l => '(n, l) ← split_length l; mret (S n, l)
  | _ => None
  end.

#[export] Instance toy_wire : Wire := {|
  prost_encode m := pos_bytes (countable.encode m);
  prost_decode l := countable.decode (bytes_pos l);
  IoError := bool;
  is_permission_denied e := e;
  decode_error := false;
  broken_pipe := false;
  uvi_encode max l := if Z.of_nat (length l) <=? max then Ok (replicate (length l) x01 ++ x00 :: l) else Err true;
  uvi_decode max src :=
    match split_length src with
    | Some (n, l) =>
        if Z.of_nat n <=? max then if (n <=? length l)%nat then Ok (Some (take n l, drop n l)) else Ok None else Err true
    | None => Ok None
    end
|}.

Lemma split_length_frame n l : split_length (replicate n x01 ++ x00 :: l) = Some (n, l).
Proof. induction n as [|n IH]; [done|]. cbn. by rewrite IH. Qed.

#[export] Instance toy_wire_laws : WireLaws.
Proof.
  split; cbn.
  - intros m. by rewrite bytes_pos_bytes, countable.decode_encode.
  - intros max l. by destruct (_ <=? _).
  - intros max l f rest. destruct (_ <=? _) eqn:E; [|done]. intros [= <-]. rewrite <- app_assoc. cbn.
    rewrite split_length_frame, E, length_app, (proj2 (Nat.leb_le _ _)) by lia.
    by rewrite take_app_length, drop_app_length.
  - done.
Qed.

(** A substream that is given what it will read, and accepts one message
    between two polls that find it busy. *)
Record ToySubstream := MkSub { toy_codec : EpisubCodec; toy_written : bytes; toy_input : list (Result EpisubHandlerError Rpc); toy_busy : bool }.

#[export] Instance toy_framed : Framed := {|
  Socket := list (Result EpisubHandlerError Rpc);
  Substream := ToySubstream;
  framed_new k c := MkSub c [] k false;
  sub_codec := toy_codec;
  sub_written := toy_written;
  poll_stream s :=
    match toy_input s with
    | x :: l => (Ready (Some x), MkSub (toy_codec s) (toy_written s) l (toy_busy s))
    | [] => (Pending, s)
    end;
  poll_ready s :=
    if toy_busy s then (Pending, MkSub (toy_codec s) (toy_written s) (toy_input s) false) else (Ready (Ok tt), s);
  start_send s m :=
    match Codec.encode (toy_codec s) m (toy_written s) with
    | Ok dst => (Ok tt, MkSub (toy_codec s) dst (toy_input s) true)
    | Err e => (Err e, s)
    end;
  poll_flush s := (Ready (Ok tt), s);
  poll_close s := (Ready (Ok tt), s)
|}.

#[export] Instance toy_framed_laws : FramedLaws.
Proof.
  split; intros s; cbn; try done.
  - by destruct (toy_busy s).
  - intros m. by destruct (Codec.encode _ _ _).
  - intros m. by destruct (Codec.encode _ _ _).
Qed.

Module WireExample.
Definition small (ids : list Z) : Rpc := MkRpc "tx" (Some (Graft ids)).
Definition large : Rpc := MkRpc "blocks" (Some (Message 1 2 (replicate 40 x07))).
Definition limit : Z := Z.of_nat (length (prost_encode (small [5; 6]))).
Definition garbage : list (Result EpisubHandlerError Rpc) := [Err MaxTransmissionSize].

(** A handler with one message that waits, then its outbound substream, then
    two more messages and some polls. *)
Definition fresh : EpisubHandler := handler_inject (small [5]) (Handler_new limit false).
Definition opened : EpisubHandler := fully_negotiated_outbound (upgrade (listen_protocol fresh) []) fresh.
Definition loaded : EpisubHandler := handler_inject (small [6]) (handler_inject large opened).
Definition poll (h : EpisubHandler) : Poll HandlerEvent * EpisubHandler := done_or (handler_poll 20 h) (Pending, h).
Definition polled : EpisubHandler := (poll loaded).2.
Definition reading : EpisubHandler := fully_negotiated_inbound (upgrade (listen_protocol fresh) garbage) fresh.
End WireExample.
