(* ===== verification/HandlerProps.v ===== *)
(** * Properties of a connection: it ends its polls, keeps the order of what it
    sends, and panics on what it cannot read *)
From S2P Require Import Prelude Primitives Episub Codec Handler.

Section handler_props.
Context `{Framed} `{!WireLaws} `{!FramedLaws}.
Implicit Types (h : EpisubHandler) (c : EpisubCodec) (m : Rpc) (s : Substream).

(** ** The loops end *)

Lemma inbound_total fuel h : (3 ≤ fuel)%nat → finished (process_inbound_poll fuel h) = true.
Proof.
  intros Hf. do 3 (destruct fuel as [|fuel]; [lia|]). cbn.
  repeat (case_match; cbn; try done).
Qed.

(** Steps until the queue is empty and the substream waits. *)
Definition outbound_measure h : nat :=
  3 * length (outbound_queue h) +
  match outbound h with Some (PendingSend _ _) => 3 | Some (PendingFlush _) => 2 | _ => 1 end.

Lemma outbound_total fuel h : (outbound_measure h ≤ fuel)%nat → finished (process_outbound_poll fuel h) = true.
Proof.
  revert h. induction fuel as [|fuel IH]; intros h Hf.
  { unfold outbound_measure in Hf. repeat case_match; lia. }
  cbn [process_outbound_poll]. unfold outbound_measure in Hf.
  destruct (outbound h) as [[|s|s m|s|s|]|] eqn:E; cbn [outbound set_outbound outbound_queue]; try done.
  - destruct (outbound_queue h) as [|msg queue]; [done|]. apply IH. unfold outbound_measure. cbn in *. lia.
  - destruct (poll_ready s) as [[[]|] ?]; try done.
    destruct (start_send _ m) as [[|[]] ?]; try done; apply IH; unfold outbound_measure; cbn; lia.
  - destruct (poll_flush s) as [[[]|] ?]; try done. apply IH; unfold outbound_measure; cbn; lia.
  - destruct (poll_close s) as [[[]|] ?]; done.
Qed.

(** ** Sending *)

(** The substream that messages go to: its codec and what was written. *)
Definition channel h : option (EpisubCodec * bytes) :=
  match outbound h with
  | Some (WaitingOutput s) | Some (PendingSend s _) | Some (PendingFlush s) => Some (sub_codec s, sub_written s)
  | _ => None
  end.

(** The messages that were taken and not yet attempted. *)
Definition unsent h : list Rpc :=
  match outbound h with Some (PendingSend _ m) => [m] | _ => [] end ++ outbound_queue h.

Definition closes (r : Poll HandlerEvent) : bool := match r with Ready (Close _) => true | _ => false end.

Lemma inbound_frame fuel h r h' :
  process_inbound_poll fuel h = Done (r, h') → outbound h' = outbound h ∧ outbound_queue h' = outbound_queue h.
Proof.
  revert h. induction fuel as [|fuel IH]; intros h; cbn [process_inbound_poll]; [done|].
  destruct (inbound h) as [[s|s|]|]; try done.
  - destruct (poll_stream s) as [[[[]|]|] ?]; try (by intros [= <- <-]); intros Hp; exact (IH _ Hp).
  - destruct (poll_close s) as [[] ?]; intros [= <- <-]; by destruct h as [? [] ? ? ?].
  - by intros [= <- <-].
Qed.

Lemma outbound_fifo fuel h r h' c sent :
  channel h = Some (c, frames c sent) → process_outbound_poll fuel h = Done (r, h') → closes r = false →
  ∃ more, unsent h = more ++ unsent h' ∧ channel h' = Some (c, frames c (sent ++ more)).
Proof.
  revert h sent. induction fuel as [|fuel IH]; intros h sent Hc; cbn [process_outbound_poll]; [done|].
  unfold channel in Hc. unfold unsent at 1.
  destruct (outbound h) as [[|s|s m|s|s|]|] eqn:E; cbn [outbound set_outbound outbound_queue]; try done; injection Hc as <- Hw.
  - destruct (outbound_queue h) as [|msg queue] eqn:Eq.
    + intros [= <- <-] _. exists []. split; [done|]. cbn. by rewrite Hw, app_nil_r.
    + intros Hp Hr. apply (IH _ sent) in Hp; [done|cbn; by rewrite Hw|done].
  - pose proof (ready_frame s) as Hrd. destruct (poll_ready s) as [[[]|] s1]; cbn in Hrd; destruct Hrd as [Hk1 Hw1].
    + pose proof (start_send_codec s1 m) as Hk2. pose proof (start_send_encodes s1 m) as Hs. rewrite Hk1, Hw1, Hw in Hs.
      pose proof (frames_snoc (sub_codec s) sent m) as Hsnoc.
      destruct (encode (sub_codec s) m (frames _ sent)) as [dst|e] eqn:Ee; destruct (start_send s1 m) as [res s2]; cbn in Hs, Hk2; destruct Hs as [-> Hs].
      * intros Hp Hr. apply (IH _ (sent ++ [m])) in Hp as (more & Hu & Hch); [|cbn; by rewrite Hk2, Hk1, Hs, Hsnoc|done].
        exists (m :: more). rewrite <- app_assoc in Hch. split; [|done]. cbn in Hu |- *. by rewrite Hu.
      * destruct (encode_err _ _ _ _ Ee) as [-> _].
        intros Hp Hr. apply (IH _ (sent ++ [m])) in Hp as (more & Hu & Hch); [|cbn; by rewrite Hk2, Hk1, Hs, Hsnoc|done].
        exists (m :: more). rewrite <- app_assoc in Hch. split; [|done]. cbn in Hu |- *. by rewrite Hu.
    + by intros [= <- <-].
    + intros [= <- <-] _. exists []. split; [done|]. cbn. by rewrite Hk1, Hw1, Hw, app_nil_r.
  - pose proof (flush_frame s) as Hfl. destruct (poll_flush s) as [[[]|] s1]; cbn in Hfl; destruct Hfl as [Hk1 Hw1].
    + intros Hp Hr. apply (IH _ sent) in Hp; [done|cbn; by rewrite Hk1, Hw1, Hw|done].
    + by intros [= <- <-].
    + intros [= <- <-] _. exists []. split; [done|]. cbn. by rewrite Hk1, Hw1, Hw, app_nil_r.
Qed.

(** ** Runs of a connection *)

(** Whether a message that is handed to the handler is taken. *)
Definition takes m h : bool :=
  match keep_alive h, rpc_action m with KeepYes, _ => true | KeepNo, Some (ShuffleReply _) => true | KeepNo, _ => false end.

(** What happens to a connection, with the messages that it takes, until a poll
    asks to close it. *)
Inductive connection_run (h : EpisubHandler) : list Rpc → EpisubHandler → Prop :=
  | run_start : connection_run h [] h
  | run_inject ms h1 m :
      connection_run h ms h1 → connection_run h (ms ++ if takes m h1 then [m] else []) (handler_inject m h1)
  | run_inbound ms h1 s : connection_run h ms h1 → connection_run h ms (fully_negotiated_inbound s h1)
  | run_poll ms h1 fuel r h2 :
      connection_run h ms h1 → handler_poll fuel h1 = Done (r, h2) → closes r = false → connection_run h ms h2.

Lemma inject_unsent m h :
  unsent (handler_inject m h) = unsent h ++ (if takes m h then [m] else []) ∧ channel (handler_inject m h) = channel h.
Proof.
  unfold handler_inject, takes, unsent, channel.
  destruct (keep_alive h), (rpc_action m) as [[]|]; cbn; by rewrite ?app_nil_r, ?app_assoc.
Qed.

Lemma poll_fifo fuel h r h' c sent :
  channel h = Some (c, frames c sent) → handler_poll fuel h = Done (r, h') → closes r = false →
  ∃ more, unsent h = more ++ unsent h' ∧ channel h' = Some (c, frames c (sent ++ more)).
Proof.
  intros Hc ([r1 h1] & Hin & Hp)%outcome_bind_done Hr. destruct (inbound_frame _ _ _ _ Hin) as [Ho Hq].
  assert (channel h1 = channel h ∧ unsent h1 = unsent h) as [Hc1 Hu1] by (unfold channel, unsent; by rewrite Ho, Hq).
  cbn in Hp. destruct r1.
  - injection Hp as <- <-. exists []. by rewrite app_nil_r, Hc1, Hu1.
  - rewrite <- Hu1. rewrite <- Hc1 in Hc. by apply (outbound_fifo fuel _ r).
Qed.

Lemma run_fifo h ms h' c :
  channel h = Some (c, []) → connection_run h ms h' →
  ∃ sent, unsent h ++ ms = sent ++ unsent h' ∧ channel h' = Some (c, frames c sent).
Proof.
  intros Hc. induction 1 as [|ms h1 m Hrun IH|ms h1 s Hrun IH|ms h1 fuel r h2 Hrun IH Hp Hr].
  - exists []. by rewrite app_nil_r.
  - destruct IH as (sent & Hu & Hch). exists sent. destruct (inject_unsent m h1) as [-> ->].
    by rewrite !app_assoc, Hu.
  - destruct IH as (sent & Hu & Hch). by exists sent.
  - destruct IH as (sent & Hu & Hch). destruct (poll_fifo _ _ _ _ _ _ Hch Hp Hr) as (more & Hm & Hch').
    exists (sent ++ more). by rewrite <- app_assoc, <- Hm.
Qed.

(** C35: the peer reads what the node sent: whatever is handed to a connection
    and however it is polled, the messages that were taken are those that a
    reader of the outbound substream decodes, in the same order, but for those
    that exceed the transmission size, followed by the ones that still wait. *)
Theorem peer_reads_what_was_sent h k ms h' :
  connection_run (fully_negotiated_outbound (upgrade (listen_protocol h) k) h) ms h' →
  let c := MkCodec (max_transmit (listen_protocol h)) in
  ∃ sent written, outbound_queue h ++ ms = sent ++ unsent h' ∧ channel h' = Some (c, written) ∧
    ∀ fuel, (length sent < fuel)%nat → decode_stream fuel c written = Ok (filter (λ m, fits c m = true) sent).
Proof.
  intros Hrun. cbv zeta. apply (run_fifo _ _ _ (MkCodec (max_transmit (listen_protocol h)))) in Hrun as (sent & Hu & Hch).
  2: { unfold channel, upgrade. cbn. by rewrite new_codec, new_written. }
  eexists sent, _. split_and!; [done..|]. intros fuel Hf. by apply decode_stream_frames.
Qed.

(** A poll of a connection always comes to an end, with steps for each
    message that waits: three, and four more. *)
Theorem handler_poll_total fuel h : (3 * length (outbound_queue h) + 4 ≤ fuel)%nat → finished (handler_poll fuel h) = true.
Proof.
  intros Hf. unfold handler_poll. pose proof (inbound_total fuel h ltac:(lia)) as Hin.
  destruct (process_inbound_poll fuel h) as [[[] h1]| |] eqn:E; cbn; try done.
  apply outbound_total. destruct (inbound_frame _ _ _ _ E) as [Ho Hq]. unfold outbound_measure. rewrite Ho, Hq. repeat case_match; lia.
Qed.

(** Any peer can make the handler of its connection panic, with a frame that
    is too long or does not parse: the inbound state stays poisoned. *)
Theorem unreadable_frame_panics fuel h s s' e :
  inbound h = Some (WaitingInput s) → poll_stream s = (Ready (Some (Err e)), s') → (2 ≤ fuel)%nat →
  handler_poll fuel h = Panic.
Proof.
  intros Hi Hs Hf. do 2 (destruct fuel as [|fuel]; [lia|]). unfold handler_poll. cbn [process_inbound_poll].
  by rewrite Hi, Hs.
Qed.

(** A temporary connection that has to wait for its substream becomes a
    permanent one, which takes every message. *)
Lemma waiting_reply_keeps_connection fuel h s s' m :
  inbound h = None → outbound h = Some (PendingSend s m) → poll_ready s = (Pending, s') → (1 ≤ fuel)%nat →
  ∃ h', handler_poll fuel h = Done (Pending, h') ∧ ∀ m, takes m h' = true.
Proof.
  intros Hi Ho Hs Hf. destruct fuel as [|fuel]; [lia|]. unfold handler_poll. cbn. rewrite Hi. cbn. rewrite Ho. cbn. rewrite Hs.
  eexists. by split.
Qed.
End handler_props.

(** ** Witnesses *)

From S2P Require Import NetExample WireExample.
Import WireExample.

Lemma poll_run h ms h1 : connection_run h ms h1 → is_done (handler_poll 20 h1) = true → closes (poll h1).1 = false → connection_run h ms (poll h1).2.
Proof.
  intros Hrun ([r h2] & Hp)%is_done_exists. unfold poll. rewrite Hp. cbn. intros Hc. by eapply run_poll.
Qed.

Lemma all_sent : unsent (poll polled).2 = [].
Proof. vm_compute. reflexivity. Qed.

Lemma example_run : connection_run opened [large; small [6]] (poll polled).2.
Proof.
  assert (connection_run opened [large; small [6]] loaded) as Hrun.
  { exact (run_inject opened [large] _ (small [6]) (run_inject opened [] _ large (run_start opened))). }
  apply poll_run; [|vm_compute; reflexivity..]. apply poll_run; [exact Hrun|vm_compute; reflexivity..].
Qed.

Lemma peer_reads_what_was_sent_witness :
  ∃ written, channel (poll polled).2 = Some (MkCodec limit, written) ∧
    decode_stream 4 (MkCodec limit) written = Ok (filter (λ m, fits (MkCodec limit) m = true) [small [5]; large; small [6]]).
Proof.
  destruct (peer_reads_what_was_sent fresh [] [large; small [6]] (poll polled).2 example_run) as (sent & written & Hs & Hc & Hd).
  exists written. split; [exact Hc|]. rewrite all_sent, app_nil_r in Hs. rewrite <- Hs in Hd. apply Hd. cbn. lia.
Defined.

Lemma handler_poll_total_witness : finished (handler_poll 13 loaded) = true.
Proof. apply handler_poll_total. vm_compute. lia. Defined.

Lemma unreadable_frame_panics_witness : handler_poll 2 reading = Panic.
Proof. eapply (unreadable_frame_panics 2 reading); [reflexivity|reflexivity|lia]. Defined.
