(* ===== verification/Network.v ===== *)
(** * The network of a validator (src/network/mod.rs)

    The task that owns the swarm: four topics of the chain, whose payloads are
    serialized objects. Serialization and the identities of peers are parameters. A panic ends the task, after which nothing can be sent. *)
From S2P Require Import Prelude Primitives Text State Transaction Block Episub Behaviour.
From Stdlib Require Import Floats.SpecFloat.

(** The identity of the peer that has a key. *)
Class NetPrimitives `{TextForms} `{Libp2p} := {
  peer_of_key : Pubkey → PeerId
}.

(** The digest of the identity is the serialized public key: four bytes for its
    kind and its length come first. *)
Class NetPrimitivesLaws `{NetPrimitives} : Prop := {
  peer_of_key_digest : ∀ k, ∃ header, length header = 4%nat ∧ PeerId_digest (peer_of_key k) = header ++ b32 k
}.

Section network.
Context `{NetPrimitives} `{Zstd} `{Rand} {D : Type} `{BlockData D}.
Context `{!Bincode Vote} `{!Bincode (Produced D)} `{!Bincode Transaction}.

Inductive NetworkEvent :=
  | MissingBlock (hash : Multihash)
  | BlockReceived (b : Produced D)
  | VoteReceived (v : Vote)
  | TransactionReceived (tx : Transaction).

Inductive NetworkCommand :=
  | Connect (addr : Multiaddr)
  | GossipMissing (hash : Multihash)
  | GossipBlock (b : Produced D)
  | GossipVote (v : Vote)
  | GossipTransaction (tx : Transaction).

(** ** Who may join *)

(** [From<PeerId> for Pubkey] (keys.rs): the digest without its first four
    bytes; panics unless 32 bytes are left. *)
Definition pubkey_of_peer (p : PeerId) : Outcome Pubkey :=
  let digest := PeerId_digest p in
  if (length digest <? 4)%nat then Panic
  else match array32_of_bytes (drop 4 digest) with Some k => Done k | None => Panic end.

(** The validators with enough stake. *)
Definition vset (g : Genesis) : gset Pubkey :=
  list_to_set (pubkey <$> filter (λ v, minimum_stake (limits g) ≤ stake v) (validators g)).

Definition network_authorizer (g : Genesis) (topic : string) (p : PeerId) : Outcome bool :=
  k ← pubkey_of_peer p;
  mret (bool_decide (k ∈ vset g)).

(** The literal [0.3f32]. *)
Definition f32_03 : spec_float := binary_normalize 24 128 10066330 (-25) false.

Definition network_config (g : Genesis) : Config :=
  let d := Config_default in
  {| network_size := Z.of_nat (length (validators g));
     active_view_factor := 4;
     passive_view_factor := passive_view_factor d;
     max_transmit_size := Z.of_nat (max_block_size (limits g));
     shuffle_interval := shuffle_interval d;
     shuffle_probability := f32_03;
     lazy_push_window := slot_interval g * 4;
     history_window := slot_interval g * 6;
     tick_frequency := tick_frequency d;
     optimize_sender_tree := optimize_sender_tree d;
     hop_optimization_factor := hop_optimization_factor d;
     enable_compression := enable_compression d;
     compression_level := compression_level d;
     authorizer := network_authorizer g |}.

(** ** The task *)

Definition topic_of (chainid name : string) : string := ("/" ++ chainid ++ "/" ++ name)%string.

(** [tx] is subscribed to twice. *)
Definition topic_names : list string := ["vote"; "tx"; "block"; "replay"; "tx"].

(** The swarm before the first poll. *)
Definition Swarm_new (now : Z) (rng : string → ThreadRng) (g : Genesis) : Episub :=
  foldl (λ e name, (subscribe now (rng (topic_of (chain_id g) name)) (topic_of (chain_id g) name) e).2)
    (Episub_new (network_config g)) topic_names.

(** What the swarm's events say to the validator; payloads that do not
    deserialize are dropped. *)
Definition dispatch (chainid : string) (ev : EpisubEvent) : option NetworkEvent :=
  match ev with
  | EvMessage topic _ payload =>
      if String.eqb topic (topic_of chainid "vote") then VoteReceived <$> bincode_deserialize payload
      else if String.eqb topic (topic_of chainid "block") then BlockReceived <$> bincode_deserialize payload
      else if String.eqb topic (topic_of chainid "replay") then MissingBlock <$> mh_from_bytes payload
      else if String.eqb topic (topic_of chainid "tx") then TransactionReceived <$> bincode_deserialize payload
      else None
  | _ => None
  end.

(** A publication, whose failure is unwrapped. *)
Definition gossip (now id : Z) (topic : string) (payload : bytes) (e : Episub) : Outcome Episub :=
  match publish now id topic payload e with
  | (Ok _, e) => Done e
  | (Err _, _) => Panic
  end.

(** One command: the behaviour that it leaves, and the address to dial. *)
Definition run_command (now id : Z) (chainid : string) (cmd : NetworkCommand) (e : Episub) : Outcome (Episub * option Multiaddr) :=
  match cmd with
  | Connect addr => Done (e, Some addr)
  | GossipMissing hash => e ← gossip now id (topic_of chainid "replay") (mh_to_bytes hash) e; mret (e, None)
  | GossipBlock b => e ← gossip now id (topic_of chainid "block") (bincode_serialize b) e; mret (e, None)
  | GossipVote v => e ← gossip now id (topic_of chainid "vote") (bincode_serialize v) e; mret (e, None)
  | GossipTransaction tx => e ← gossip now id (topic_of chainid "tx") (bincode_serialize tx) e; mret (e, None)
  end.

(** ** The handle *)

(** The two channels, and the behaviour while the task runs. *)
Record Network := MkNetwork {
  netin : list NetworkEvent;
  netout : list NetworkCommand;
  net_chainid : string;
  swarm : option Episub
}.

Inductive SendError := ChannelClosed.

Definition Network_new (now : Z) (rng : string → ThreadRng) (g : Genesis) : Network :=
  MkNetwork [] [] (chain_id g) (Some (Swarm_new now rng g)).

(** The channel is closed when the task has ended. *)
Definition net_send (cmd : NetworkCommand) (n : Network) : Result SendError Network :=
  match swarm n with
  | Some _ => Ok (MkNetwork (netin n) (netout n ++ [cmd]) (net_chainid n) (swarm n))
  | None => Err ChannelClosed
  end.

Definition connect (addr : Multiaddr) : Network → Result SendError Network := net_send (Connect addr).
Definition gossip_vote (v : Vote) : Network → Result SendError Network := net_send (GossipVote v).
Definition gossip_transaction (tx : Transaction) : Network → Result SendError Network := net_send (GossipTransaction tx).
Definition gossip_block (b : Produced D) : Network → Result SendError Network := net_send (GossipBlock b).
Definition gossip_missing (hash : Multihash) : Network → Result SendError Network := net_send (GossipMissing hash).

Definition network_poll (n : Network) : option NetworkEvent * Network :=
  match netin n with
  | ev :: evs => (Some ev, MkNetwork evs (netout n) (net_chainid n) (swarm n))
  | [] => (None, n)
  end.

(** What the swarm does between two events, and the event that comes of it: the
    library calls the behaviour, which may panic. *)
Definition net_swarm_event (step : Episub → Outcome (option NetAction * Episub)) (n : Network) : Network :=
  match swarm n with
  | None => n
  | Some e =>
      match step e with
      | Done (Some (GenerateEvent ev), e) =>
          MkNetwork (netin n ++ option_list (dispatch (net_chainid n) ev)) (netout n) (net_chainid n) (Some e)
      | Done (_, e) => MkNetwork (netin n) (netout n) (net_chainid n) (Some e)
      | _ => MkNetwork (netin n) (netout n) (net_chainid n) None
      end
  end.

(** One command of the validator. *)
Definition net_command (now id : Z) (n : Network) : Network :=
  match swarm n, netout n with
  | Some e, cmd :: cmds =>
      match run_command now id (net_chainid n) cmd e with
      | Done (e, _) => MkNetwork (netin n) cmds (net_chainid n) (Some e)
      | _ => MkNetwork (netin n) cmds (net_chainid n) None
      end
  | _, _ => n
  end.
End network.
Arguments NetworkEvent {_} _.
Arguments NetworkCommand {_ _} _.
