(* ===== verification/NetworkProps.v ===== *)
(** * Properties of the network of a validator: who is heard, and what arrives *)
From S2P Require Import Prelude Primitives Text State Transaction Block Episub Cache PlumTree HyParView Topic Behaviour Network.

(** ** Topics *)

Lemma topic_of_inj chainid a b : topic_of chainid a = topic_of chainid b → a = b.
Proof. unfold topic_of. intros Heq. by do 3 apply (inj (String.append _)) in Heq. Qed.

Lemma topic_eqb chainid a b : String.eqb (topic_of chainid a) (topic_of chainid b) = bool_decide (a = b).
Proof.
  case_bool_decide as Heq; [subst; by apply String.eqb_eq|]. apply String.eqb_neq. by intros ?%topic_of_inj.
Qed.

Section network_props.
Context `{NetPrimitives} `{Zstd} `{Rand} {D : Type} `{BlockData D}.
Context `{!Bincode Vote} `{!Bincode (Produced D)} `{!Bincode Transaction}.
Implicit Types (e : Episub) (p q : PeerId) (g : Genesis) (cmd : NetworkCommand D).

(** ** Who is heard *)


(** The validator that has a key is found by its identity. *)
Lemma pubkey_of_peer_of_key `{!NetPrimitivesLaws} k : pubkey_of_peer (peer_of_key k) = Done k.
Proof.
  unfold pubkey_of_peer. destruct (peer_of_key_digest k) as (header & Hl & ->).
  rewrite length_app, Hl, drop_app_length' by done. cbn. by rewrite array32_of_bytes_b32.
Qed.

Lemma validators_authorized `{!NetPrimitivesLaws} g topic v :
  v ∈ validators g → minimum_stake (limits g) ≤ stake v → network_authorizer g topic (peer_of_key (pubkey v)) = Done true.
Proof.
  intros Hv Hs. unfold network_authorizer. rewrite pubkey_of_peer_of_key. cbn. rewrite bool_decide_true; [done|].
  unfold vset. rewrite elem_of_list_to_set, list_elem_of_fmap. exists v. split; [done|]. by apply list_elem_of_filter.
Qed.

(** ** What arrives *)

(** The event that a command causes at other validators, the topic it goes to,
    and its payload. *)
Definition event_of cmd : option (NetworkEvent D) :=
  match cmd with
  | Connect _ => None
  | GossipMissing hash => Some (MissingBlock hash)
  | GossipBlock b => Some (BlockReceived b)
  | GossipVote v => Some (VoteReceived v)
  | GossipTransaction tx => Some (TransactionReceived tx)
  end.
Definition name_of cmd : string :=
  match cmd with Connect _ => "" | GossipMissing _ => "replay" | GossipBlock _ => "block" | GossipVote _ => "vote" | GossipTransaction _ => "tx" end.
Definition payload_of cmd : bytes :=
  match cmd with
  | Connect _ => []
  | GossipMissing hash => mh_to_bytes hash
  | GossipBlock b => bincode_serialize b
  | GossipVote v => bincode_serialize v
  | GossipTransaction tx => bincode_serialize tx
  end.

Lemma dispatch_payload `{!TextFormsLaws} `{!NetPrimitivesLaws} `{!BincodeLaws Vote} `{!BincodeLaws (Produced D)} `{!BincodeLaws Transaction} chainid cmd id :
  event_of cmd ≠ None → dispatch chainid (EvMessage (topic_of chainid (name_of cmd)) id (payload_of cmd)) = event_of cmd.
Proof.
  intros Hev. unfold dispatch. rewrite !topic_eqb.
  destruct cmd; cbn; try done; by rewrite ?mh_roundtrip, ?bincode_roundtrip.
Qed.

Lemma run_command_gossip now id chainid cmd e :
  event_of cmd ≠ None →
  run_command now id chainid cmd e = (e ← gossip now id (topic_of chainid (name_of cmd)) (payload_of cmd) e; mret (e, None)).
Proof. by destruct cmd. Qed.

(** A publication sends the compressed payload to the eager peers of the mesh. *)
Lemma gossip_done now id topic payload e e' :
  gossip now id topic payload e = Done e' → enable_compression (ep_config e) = true →
  ∃ mesh z, topics e !! topic = Some mesh ∧ encode_all payload (compression_level (ep_config e)) = Some z ∧
    e' = set_topics (<[topic := mesh_publish now id z mesh]> (topics e)) e.
Proof.
  unfold gossip, publish. intros Hg Hc. rewrite Hc in Hg. destruct (topics e !! topic) as [mesh|]; [|done].
  destruct (encode_all _ _) as [z|] eqn:Hz; [|done]. injection Hg as <-. by exists mesh, z.
Qed.

Lemma publish_queues now id z t q :
  cache_get id (received t) = None → cache_get id (observed t) = None → q ∈ eager t →
  NotifyHandler q (MkRpc (pt_topic t) (Some (Message id 1 z))) ∈ pt_out (tree_publish now id z t).
Proof.
  intros Hr Ho Hq. unfold tree_publish. rewrite Hr, Ho. cbn. apply elem_of_app. right.
  apply list_elem_of_fmap. exists q. split; [done|]. by apply elem_of_elements.
Qed.

Lemma inject_message_event now p id hop z out t :
  cache_get id (received t) = None → enable_compression (pt_config t) = true → decode_all z = Some out →
  ∃ t', inject_message now p id hop z t = Done t' ∧ GenerateEvent (EvMessage (pt_topic t) id out) ∈ pt_out t'.
Proof.
  intros Hnew Hc Hz. unfold inject_message.
  destruct (cache_insert mr_id mr_hop now (MkRecord id hop p z) (received t)) as [new r] eqn:E.
  unfold cache_insert in E. cbn [mr_id] in E. unfold cache_get in Hnew.
  destruct (cache_data (received t) !! id); [done|]. injection E as <- <-. cbn [pt_config set_caches]. rewrite Hc, Hz.
  eexists. split; [reflexivity|]. cbn. set_solver.
Qed.

(** C37: what a validator gossips arrives as it was. A command that succeeds
    queues a message for each eager peer of the topic, and whichever node that
    is subscribed to the topic and hears the sender takes that message, hands it
    to its validator, and the validator gets the same vote, block, transaction
    or request, whatever compression and serialization did to it on the way. *)
Theorem gossip_arrives_unchanged
    `{!TextFormsLaws} `{!NetPrimitivesLaws} `{!ZstdLaws} `{!BincodeLaws Vote} `{!BincodeLaws (Produced D)} `{!BincodeLaws Transaction}
    g now id cmd ev e e' dial mesh :
  let topic := topic_of (chain_id g) (name_of cmd) in
  run_command now id (chain_id g) cmd e = Done (e', dial) → event_of cmd = Some ev → ep_config e = network_config g →
  topics e !! topic = Some mesh → pt_topic (tm_tree mesh) = topic →
  cache_get id (received (tm_tree mesh)) = None → cache_get id (observed (tm_tree mesh)) = None →
  ∃ mesh' z, topics e' !! topic = Some mesh' ∧
    (∀ q, q ∈ eager (tm_tree mesh) → NotifyHandler q (MkRpc topic (Some (Message id 1 z))) ∈ pt_out (tm_tree mesh')) ∧
    (∀ now2 p conn hop r mesh2,
      p ∉ banned_peers r → authorizer (ep_config r) topic p = Done true → topics r !! topic = Some mesh2 → pt_topic (tm_tree mesh2) = topic →
      enable_compression (pt_config (tm_tree mesh2)) = true → cache_get id (received (tm_tree mesh2)) = None →
      ∃ r' mesh2' out, inject_event now2 p conn (MkRpc topic (Some (Message id hop z))) r = Done r' ∧ topics r' !! topic = Some mesh2' ∧
        GenerateEvent out ∈ pt_out (tm_tree mesh2') ∧ dispatch (chain_id g) out = Some ev).
Proof.
  intros topic Hcmd Hev Hcfg Hmesh Ht Hr Ho. assert (event_of cmd ≠ None) as Hne by (by rewrite Hev).
  rewrite run_command_gossip in Hcmd by done. apply outcome_bind_done in Hcmd as (e1 & Hg & [= -> <-]).
  apply gossip_done in Hg as (mesh0 & z & Hm0 & Hz & ->); [|by rewrite Hcfg].
  unfold topic in Hmesh. rewrite Hm0 in Hmesh. injection Hmesh as ->. fold topic in Ht, Hm0.
  exists (mesh_publish now id z mesh), z. split_and!.
  - cbn. apply lookup_insert_eq.
  - intros q Hq. cbn. rewrite <- Ht. by apply publish_queues.
  - intros now2 p conn hop r mesh2 Hb Ha Hm2 Ht2 Hc2 Hn2.
    destruct (inject_message_event now2 p id hop z (payload_of cmd) (tm_tree mesh2) Hn2 Hc2) as (t' & Hi & Hin).
    { by eapply zstd_roundtrip. }
    exists (set_topics (<[topic := set_tree t' mesh2]> (topics r)) r), (set_tree t' mesh2), (EvMessage topic id (payload_of cmd)). split_and!.
    + unfold inject_event. rewrite bool_decide_false by done. cbn [rpc_topic rpc_action]. rewrite Ha. cbn [mbind outcome_bind negb].
      rewrite Hm2. unfold inject_rpc_call. cbn [rpc_action tree_rpc]. by rewrite Hi.
    + cbn. apply lookup_insert_eq.
    + cbn. by rewrite <- Ht2.
    + by rewrite <- Hev, <- (dispatch_payload (chain_id g) cmd id).
Qed.

(** ** Before the node knows its own address *)

Lemma subscribe_unknown now rng topic e : local_node e = None → topics e = ∅ →
  local_node (subscribe now rng topic e).2 = None ∧ topics (subscribe now rng topic e).2 = ∅.
Proof. intros Hl Ht. unfold subscribe. by rewrite Ht, lookup_empty, Hl. Qed.

(** Gossip before the node knows an address of its own stops the network:
    no topic is subscribed to until then, and the failure of the publication is
    unwrapped. From then on nothing can be sent, which ends the validator. *)
Theorem early_gossip_stops_network now now2 id rng g cmd cmds cmd2 :
  event_of cmd ≠ None →
  let n := Network_new now rng g in
  let stopped := net_command now2 id (MkNetwork (netin n) (cmd :: cmds) (net_chainid n) (swarm n)) in
  swarm stopped = None ∧ net_send cmd2 stopped = Err ChannelClosed.
Proof.
  intros Hev n stopped.
  assert (topics (Swarm_new now rng g) = ∅) as Ht.
  { unfold Swarm_new. assert (local_node (Episub_new (network_config g)) = None ∧ topics (Episub_new (network_config g)) = ∅) as [Hl Ht] by done.
    revert Hl Ht. generalize (Episub_new (network_config g)). induction topic_names as [|name names IH]; intros e Hl Ht; [done|].
    destruct (subscribe_unknown now (rng (topic_of (chain_id g) name)) (topic_of (chain_id g) name) e Hl Ht). by apply IH. }
  assert (swarm stopped = None) as Hs; [|split; [done|]; unfold net_send; by rewrite Hs].
  unfold stopped, net_command. cbn [swarm netout n Network_new net_chainid].
  rewrite run_command_gossip by done. unfold gossip, publish. by rewrite Ht, lookup_empty.
Qed.
End network_props.

(** ** Witnesses *)

From S2P Require Import VmExample CurrencyProps StoreExample NetExample.
From Stdlib Require Import Strings.Byte.
Import VmExample NetExample.

#[export] Instance vote_bincode : Bincode (@Vote toy_crypto) := count_bincode _.
#[export] Instance vote_bincode_laws : BincodeLaws (@Vote toy_crypto) := count_bincode_laws _.
#[export] Instance transaction_bincode : Bincode (@Transaction toy_crypto) := count_bincode _.
#[export] Instance transaction_bincode_laws : BincodeLaws (@Transaction toy_crypto) := count_bincode_laws _.

(** The identity of a validator is its key as a number; negative numbers are
    identities with other kinds of keys. *)
#[export] Instance toy_net_primitives : NetPrimitives := {|
  peer_of_key k := of_be_bytes (b32 k) : @PeerId toy_libp2p
|}.

#[export] Instance toy_net_primitives_laws : NetPrimitivesLaws.
Proof.
  constructor. intros k. exists [x08; x01; x12; x20]. split; [done|]. cbn [peer_of_key toy_net_primitives PeerId_digest toy_libp2p].
  assert (0 ≤ of_be_bytes (b32 k)) as Hk.
  { unfold of_be_bytes. generalize (reverse (b32 k)). intros l. induction l as [|b l IH]; cbn; [done|]. pose proof (Z_of_byte_bounds b). lia. }
  rewrite (proj2 (Z.ltb_ge _ _)) by done. by rewrite <- (be_bytes_of_be_bytes (b32 k)) at 2; rewrite b32_len.
Qed.

Module NetworkExample.
Definition chain_genesis : Genesis :=
  MkGenesis "toy" 0 1000 1 toy_limits [] [MkValidator (array32_of_Z 3) 10; MkValidator (array32_of_Z 5) 0] (array32_of_Z 1) ∅.
Definition rngs : string → @ThreadRng toy_rand := λ _, 0%nat.
Definition node_of (k : Z) : AddressablePeer := MkPeer (peer k) {[ (k : @Multiaddr toy_libp2p) ]}.

(** A node that knows its address, and links of its vote mesh. *)
Definition vote_topic : string := topic_of "toy" "vote".
Definition knows (k : Z) : Episub := set_local (Some (node_of k)) (Episub_new (network_config chain_genesis)).
Definition linked (k q : Z) : TopicMesh :=
  let m := Mesh_new 0 (0%nat : @ThreadRng toy_rand) vote_topic (network_config chain_genesis) (node_of k) in
  set_tree (inject_neighbor_up (peer q) (tm_tree m)) m.
Definition on_topic (k q : Z) : Episub := set_topics {[vote_topic := linked k q]} (knows k).
Definition ballot : @Vote toy_crypto := Vote_new (toy_key 3) [x01] [x02].
Definition cast : @NetworkCommand toy_crypto toy_libp2p (list (@Transaction toy_crypto)) := GossipVote ballot.
End NetworkExample.
Import NetworkExample.


Lemma gossip_arrives_unchanged_witness :
  ∃ z r' mesh2' out, inject_event 5 (peer 3) 7 (MkRpc vote_topic (Some (Message 9 1 z))) (on_topic 3 5) = Done r' ∧
    topics r' !! vote_topic = Some mesh2' ∧ GenerateEvent out ∈ pt_out (tm_tree mesh2') ∧ dispatch "toy" out = Some (VoteReceived ballot).
Proof.
  destruct (is_done_exists (run_command 0 9 "toy" cast (on_topic 3 5))) as [[e' dial] E]; [by vm_compute|].
  destruct (gossip_arrives_unchanged chain_genesis 0 9 cast (VoteReceived ballot) (on_topic 3 5) e' dial (linked 3 5)) as (mesh' & z & _ & _ & Hr).
  - exact E.
  - reflexivity.
  - reflexivity.
  - apply lookup_singleton_eq.
  - reflexivity.
  - reflexivity.
  - reflexivity.
  - exists z. apply (Hr 5 (peer 3) 7 1 (on_topic 3 5) (linked 3 5)).
    + apply not_elem_of_empty.
    + apply (bool_decide_unpack _). by vm_compute.
    + apply lookup_singleton_eq.
    + reflexivity.
    + reflexivity.
    + reflexivity.
Defined.

Lemma early_gossip_stops_network_witness :
  swarm (net_command 0 9 (MkNetwork [] [cast] "toy" (Some (Swarm_new 0 rngs chain_genesis)))) = None.
Proof. by apply (early_gossip_stops_network 0 0 9 rngs chain_genesis cast [] cast). Defined.
