(* ===== verification/ForkTree.v ===== *)
(** * The tree of volatile blocks (src/consensus/forktree.rs)

    A node of the code holds its children and a raw pointer to its parent. A
    reference to a node is modelled by a [Ref]: the node together with the
    nodes on its path to the root, nearest first, which is what following the
    parent pointers visits. *)
From S2P Require Import Prelude Primitives State Transaction Contract Block Machine Execution.

Section forktree.
Context `{Crypto} `{WasmRuntime} {D : Type} `{BlockData D} `{!Executable D}.

Record VolatileBlock := MkVolatile {
  block : Executed D;
  vb_votes : Z;
  voters : gset Pubkey
}.

(** [VolatileBlock::new] *)
Definition Volatile_new (b : Executed D) : VolatileBlock := MkVolatile b 0 ∅.

Definition vb_hash (v : VolatileBlock) : Multihash := block_hash (underlying (block v)).
Definition vb_parent (v : VolatileBlock) : Multihash := parent (underlying (block v)).
Definition vb_height (v : VolatileBlock) : Z := height (underlying (block v)).

Inductive TreeNode := Node (value : VolatileBlock) (children : list TreeNode).

Definition value (n : TreeNode) : VolatileBlock := let (v, _) := n in v.
Definition children (n : TreeNode) : list TreeNode := let (_, cs) := n in cs.
Definition node_hash (n : TreeNode) : Multihash := vb_hash (value n).

(** [TreeNode::new] *)
Definition TreeNode_new (v : VolatileBlock) : TreeNode := Node v [].

Definition Ref : Type := TreeNode * list TreeNode.

(** [get]: depth first, the node itself before its children. [anc] is the path
    from the node's parent to the root. *)
Fixpoint tree_get (hash : Multihash) (anc : list TreeNode) (n : TreeNode) : option Ref :=
  match n with
  | Node v cs =>
      if bool_decide (vb_hash v = hash) then Some (n, anc)
      else find_map (tree_get hash (n :: anc)) cs
  end.

(** What is done through the pointer that [get_mut] returns: [f] to the node
    found and [g] to the blocks on its path to the root. *)
Fixpoint tree_update (hash : Multihash) (f : TreeNode → TreeNode) (g : VolatileBlock → VolatileBlock)
    (n : TreeNode) : option TreeNode :=
  match n with
  | Node v cs =>
      if bool_decide (vb_hash v = hash) then Some (f n)
      else
        (fix go (seen cs : list TreeNode) : option TreeNode :=
           match cs with
           | [] => None
           | c :: cs =>
               match tree_update hash f g c with
               | Some c' => Some (Node (g v) (rev seen ++ c' :: cs))
               | None => go (c :: seen) cs
               end
           end) [] cs
  end.

(** [add_child], without its assertion that the child names this node as its
    parent: the caller checks it. *)
Definition add_child (v : VolatileBlock) (n : TreeNode) : TreeNode := Node (value n) (children n ++ [Node v []]).

(** One step of [add_votes]: votes are counted once per validator and block. *)
Definition add_vote_to (votes : Z) (voter : Pubkey) (v : VolatileBlock) : VolatileBlock :=
  if bool_decide (voter ∈ voters v) then v
  else MkVolatile (block v) (wrap64 (vb_votes v + votes)) ({[voter]} ∪ voters v).

(** [add_votes] on the node with the given hash: its block and all its
    ancestors'. *)
Definition tree_add_votes (hash : Multihash) (votes : Z) (voter : Pubkey) : TreeNode → option TreeNode :=
  tree_update hash (λ n, Node (add_vote_to votes voter (value n)) (children n)) (add_vote_to votes voter).

(** ** Paths *)

(** The references to the ancestors of a node. *)
Fixpoint ancestors (anc : list TreeNode) : list Ref :=
  match anc with
  | [] => []
  | a :: anc => (a, anc) :: ancestors anc
  end.

(** [path]: the node and its ancestors. *)
Definition path (r : Ref) : list Ref := r :: ancestors r.2.

Definition depth (r : Ref) : nat := length (path r) - 1.

Definition is_descendant_of (r : Ref) (hash : Multihash) : bool :=
  existsb (λ s, bool_decide (node_hash s.1 = hash)) (drop 1 (path r)).

(** ** Fork choice *)

(** The loop of [head] over the children of a node, whose path is [anc]. Each
    child comes with the head of its own subtree. *)
Definition head_step {X} (anc : list TreeNode) (acc : Z * (TreeNode * X)) (c : TreeNode * X) : Z * (TreeNode * X) :=
  match vb_votes (value c.1) ?= acc.1 with
  | Lt => acc
  | Eq => if (depth (acc.2.1, anc) <? depth (c.1, anc))%nat then (acc.1, c) else acc
  | Gt => (vb_votes (value c.1), c)
  end.

Fixpoint tree_head (anc : list TreeNode) (n : TreeNode) : Ref :=
  match n with
  | Node v cs =>
      match map (λ c, (c, tree_head (n :: anc) c)) cs with
      | [] => (n, anc)
      | front :: rest => (foldl (head_step (n :: anc)) (0, front) (front :: rest)).2.2
      end
  end.

(** ** Epochs *)

Definition ref_epoch (epoch_blocks : Z) (r : Ref) : Z := vb_height (value r.1) / epoch_blocks.

Fixpoint epoch_loop (epoch_blocks e : Z) (needle : Ref) (steps : list Ref) : Ref :=
  match steps with
  | [] => needle
  | s :: steps => if ref_epoch epoch_blocks s =? e then epoch_loop epoch_blocks e s steps else needle
  end.

Definition epoch_start (epoch_blocks : Z) (r : Ref) : Ref :=
  let needle := epoch_loop epoch_blocks (ref_epoch epoch_blocks r) r (drop 1 (path r)) in
  if bool_decide (node_hash needle.1 ≠ node_hash r.1) then needle else r.

(** ** State *)

(** [CascadingState::get]: the most recent block on the path that has written
    the account. *)
Definition cascading_get (r : Ref) (address : Pubkey) : option Account :=
  find_map (λ s, sd_get (out_state (output (block (value s.1)))) address) (path r).

#[export] Instance cascading_State : State Ref := {|
  state_get := cascading_get;
  state_set _ _ _ := Err WritesNotSupported;
  state_remove _ _ := Err WritesNotSupported
|}.

(** ** Traversal *)

(** The nodes of a subtree, parents before children: the order of the [visit]
    that reports discarded blocks. *)
Fixpoint tree_nodes (n : TreeNode) : list TreeNode :=
  match n with Node v cs => n :: concat (map tree_nodes cs) end.

Definition tree_size (n : TreeNode) : nat := length (tree_nodes n).

Fixpoint TreeNode_induction (P : TreeNode → Prop)
    (HNode : ∀ v cs, Forall P cs → P (Node v cs)) (n : TreeNode) : P n :=
  match n with
  | Node v cs =>
      HNode v cs ((fix go cs : Forall P cs :=
        match cs with
        | [] => List.Forall_nil P
        | c :: cs => List.Forall_cons P _ _ (TreeNode_induction P HNode c) (go cs)
        end) cs)
  end.
End forktree.
Arguments VolatileBlock {_} _.
Arguments TreeNode {_} _.
Arguments Ref {_} _.
