(* ===== verification/ForkTreeProps.v ===== *)
(** * Properties of the tree of volatile blocks

    Well-formed trees and the operations that preserve them, the fork choice as
    a specification, and the state that a fork sees. *)
From S2P Require Import Prelude Primitives State Transaction Contract Block Machine Execution ForkTree.

Section tree.
Context `{Crypto} `{WasmRuntime} {D : Type} `{BlockData D} `{!Executable D}.
Implicit Types (v w : VolatileBlock D) (n m : TreeNode D) (cs anc : list (TreeNode D)) (r : Ref D).

(** ** Nodes of a tree *)

Lemma tree_nodes_eq v cs : tree_nodes (Node v cs) = Node v cs :: concat (map tree_nodes cs).
Proof. done. Qed.

Lemma elem_of_tree_nodes m v cs : m ∈ tree_nodes (Node v cs) ↔ m = Node v cs ∨ ∃ c, c ∈ cs ∧ m ∈ tree_nodes c.
Proof.
  rewrite tree_nodes_eq, elem_of_cons, list_elem_of_In, in_concat. apply or_iff_compat_l. split.
  - intros (l & (c & <- & Hc)%in_map_iff & Hm). exists c. by rewrite !list_elem_of_In.
  - intros (c & Hc & Hm). exists (tree_nodes c). rewrite in_map_iff. rewrite !list_elem_of_In in *. eauto.
Qed.

Lemma tree_nodes_self n : n ∈ tree_nodes n.
Proof. destruct n. apply elem_of_tree_nodes. by left. Qed.

(** ** Finding nodes *)

(** The path of a reference: each node on it is a child of the next. *)
Fixpoint chained (n : TreeNode D) (anc : list (TreeNode D)) : Prop :=
  match anc with
  | [] => True
  | a :: anc => n ∈ children a ∧ chained a anc
  end.

Lemma tree_get_some hash n anc r :
  chained n anc → tree_get hash anc n = Some r →
  node_hash r.1 = hash ∧ r.1 ∈ tree_nodes n ∧ chained r.1 r.2.
Proof.
  revert anc. induction n as [v cs IH] using TreeNode_induction. intros anc Hch. cbn [tree_get].
  case_bool_decide as Hv; [intros [= <-]; by split_and!; [|apply tree_nodes_self|]|].
  intros (c & Hc & Hr)%find_map_some. rewrite Forall_forall in IH.
  destruct (IH c Hc (Node v cs :: anc)) as (Hh & Hin & Hch'); [by split|done|].
  split_and!; [done| |done]. apply elem_of_tree_nodes. eauto.
Qed.

Lemma tree_get_none hash n anc : tree_get hash anc n = None ↔ ∀ m, m ∈ tree_nodes n → node_hash m ≠ hash.
Proof.
  revert anc. induction n as [v cs IH] using TreeNode_induction. intros anc. rewrite Forall_forall in IH. cbn [tree_get].
  case_bool_decide as Hv.
  - split; [done|]. intros Hno. by destruct (Hno _ (tree_nodes_self (Node v cs))).
  - rewrite find_map_none. split.
    + intros Hno m [->|(c & Hc & Hm)]%elem_of_tree_nodes; [done|]. by apply (IH c Hc (Node v cs :: anc)); [apply Hno|].
    + intros Hno c Hc. apply IH; [done|]. intros m Hm. apply Hno, elem_of_tree_nodes. eauto.
Qed.

(** ** Updating nodes *)

(** One level of [tree_update]. *)
Lemma tree_update_inv hash f g v cs n' :
  tree_update hash f g (Node v cs) = Some n' →
  (vb_hash v = hash ∧ n' = f (Node v cs)) ∨
  (vb_hash v ≠ hash ∧ ∃ pre c c' post, cs = pre ++ c :: post ∧ tree_update hash f g c = Some c' ∧
    Forall (λ d, tree_update hash f g d = None) pre ∧ n' = Node (g v) (pre ++ c' :: post)).
Proof.
  cbn [tree_update]. case_bool_decide as Hv; [intros [= <-]; by left|]. intros Hgo. right. split; [done|].
  assert (∀ seen rest, ((fix go (seen cs : list (TreeNode D)) : option (TreeNode D) :=
           match cs with
           | [] => None
           | c :: cs =>
               match tree_update hash f g c with
               | Some c' => Some (Node (g v) (rev seen ++ c' :: cs))
               | None => go (c :: seen) cs
               end
           end) seen rest = Some n') →
    ∃ pre c c' post, rest = pre ++ c :: post ∧ tree_update hash f g c = Some c' ∧
      Forall (λ d, tree_update hash f g d = None) pre ∧ n' = Node (g v) (rev seen ++ pre ++ c' :: post)) as Haux.
  { intros seen rest. revert seen. induction rest as [|c rest IH]; intros seen; [done|].
    destruct (tree_update hash f g c) as [c'|] eqn:E.
    - intros [= <-]. by exists [], c, c', rest.
    - intros (pre & d & d' & post & -> & Hd & Hpre & ->)%IH. exists (c :: pre), d, d', post.
      split_and!; [done|done|by constructor|]. simpl. by rewrite <-app_assoc. }
  destruct (Haux [] cs Hgo) as (pre & c & c' & post & -> & Hc & Hpre & ->). by exists pre, c, c', post.
Qed.

Lemma tree_update_none hash f g n : tree_update hash f g n = None ↔ ∀ m, m ∈ tree_nodes n → node_hash m ≠ hash.
Proof.
  induction n as [v cs IH] using TreeNode_induction. rewrite Forall_forall in IH. cbn [tree_update].
  case_bool_decide as Hv.
  { split; [done|]. intros Hno. by destruct (Hno _ (tree_nodes_self (Node v cs))). }
  trans (Forall (λ c, tree_update hash f g c = None) cs).
  - generalize ([] : list (TreeNode D)). clear IH. induction cs as [|c cs IHcs]; intros seen; [by split; [constructor|]|].
    rewrite Forall_cons. destruct (tree_update hash f g c); [by split; [|intros []]|]. rewrite IHcs. tauto.
  - rewrite Forall_forall. split.
    + intros Hno m [->|(c & Hc & Hm)]%elem_of_tree_nodes; [done|]. by apply (IH c Hc); [apply Hno|].
    + intros Hno c Hc. apply IH; [done|]. intros m Hm. apply Hno, elem_of_tree_nodes. eauto.
Qed.

(** ** Well-formed trees *)

(** The votes of a block are the stakes of its voters. *)
Definition votes_ok (stakes : gmap Pubkey Z) v : Prop :=
  voters v ⊆ dom stakes ∧
  vb_votes v = wrap64 (sum_Z ((λ p, default 0 (stakes !! p)) <$> elements (voters v))).

(** A block and its child: the child names it as its parent, is one higher, and
    everybody who voted for the child has voted for it. *)
Definition link v (c : TreeNode D) : Prop :=
  vb_parent (value c) = vb_hash v ∧ vb_height (value c) = vb_height v + 1 ∧ voters (value c) ⊆ voters v.

Definition tree_wf (stakes : gmap Pubkey Z) n : Prop :=
  ∀ m, m ∈ tree_nodes n → votes_ok stakes (value m) ∧ Forall (link (value m)) (children m).

Lemma tree_wf_node stakes v cs :
  tree_wf stakes (Node v cs) ↔ votes_ok stakes v ∧ Forall (link v) cs ∧ Forall (tree_wf stakes) cs.
Proof.
  unfold tree_wf. split.
  - intros Hwf. destruct (Hwf _ (tree_nodes_self _)) as [Hv Hl]. split_and!; [done|done|].
    apply Forall_forall. intros c Hc m Hm. apply Hwf, elem_of_tree_nodes. eauto.
  - intros (Hv & Hl & Hcs) m [->|(c & Hc & Hm)]%elem_of_tree_nodes; [done|].
    rewrite Forall_forall in Hcs. by eapply Hcs.
Qed.

(** What an update has to respect. *)
Lemma tree_update_wf stakes hash f g n n' :
  (∀ m, m ∈ tree_nodes n → tree_wf stakes m → node_hash m = hash → tree_wf stakes (f m) ∧ value (f m) = g (value m)) →
  (∀ v, block (g v) = block v) → (∀ v, votes_ok stakes v → votes_ok stakes (g v)) →
  (∀ v w, voters v ⊆ voters w → voters (g v) ⊆ voters (g w)) → (∀ v, voters v ⊆ voters (g v)) →
  tree_wf stakes n → tree_update hash f g n = Some n' → tree_wf stakes n' ∧ value n' = g (value n).
Proof.
  intros Hf Hblock Hok Hmono Hincr. revert Hf n'. induction n as [v cs IH] using TreeNode_induction.
  intros Hf n' Hwf [[Hh ->]|(Hh & pre & c & c' & post & -> & Hc & Hpre & ->)]%tree_update_inv; [by apply Hf; [apply tree_nodes_self|..]|].
  split; [|done]. apply tree_wf_node in Hwf as (Hv & Hl & Hcs).
  apply Forall_app in IH as [_ [IHc _]%Forall_cons].
  apply Forall_app in Hcs as [Hcs1 [Hcsc Hcs2]%Forall_cons]. assert (∀ m, m ∈ tree_nodes c → m ∈ tree_nodes (Node v (pre ++ c :: post))) as Hsub.
  { intros m Hm. apply elem_of_tree_nodes. right. exists c. split; [set_solver|done]. }
  destruct (IHc (λ m Hm, Hf m (Hsub m Hm)) _ Hcsc Hc) as [Hwf' Hval].
  assert (∀ d, link v d → link (g v) d) as Hlink.
  { intros d (Hp & Hhe & Hvo). unfold link, vb_hash, vb_height in *. rewrite Hblock. split_and!; [done|done|].
    etrans; [exact Hvo|apply Hincr]. }
  apply Forall_app in Hl as [Hl1 [(Hlp & Hlh & Hlv) Hl2]%Forall_cons].
  apply tree_wf_node. split_and!; [by apply Hok| |].
  - apply Forall_app. split; [exact (Forall_impl _ _ _ Hl1 Hlink)|]. constructor; [|exact (Forall_impl _ _ _ Hl2 Hlink)].
    unfold link, vb_hash, vb_height, vb_parent in *. rewrite Hval, !Hblock. split_and!; auto.
  - apply Forall_app. split; [done|]. by constructor.
Qed.

(** ** Votes *)

Lemma wrap64_idem_l a b : wrap64 (wrap64 a + b) = wrap64 (a + b).
Proof. unfold wrap64. by rewrite Zplus_mod_idemp_l. Qed.

Lemma add_vote_to_ok (stakes : gmap Pubkey Z) voter stake v :
  stakes !! voter = Some stake → votes_ok stakes v → votes_ok stakes (add_vote_to stake voter v).
Proof.
  intros Hs [Hdom Hv]. unfold add_vote_to. case_bool_decide as Hin; [done|]. split; cbn [voters vb_votes].
  - apply union_subseteq. split; [|done]. apply singleton_subseteq_l. by apply elem_of_dom_2 in Hs.
  - rewrite elements_union_singleton by done. rewrite Hv, wrap64_idem_l. f_equal. cbn. rewrite Hs. simpl.
    unfold sum_Z. simpl. lia.
Qed.

Lemma add_vote_to_mono votes voter v w : voters v ⊆ voters w → voters (add_vote_to votes voter v) ⊆ voters (add_vote_to votes voter w).
Proof. intros Hsub. unfold add_vote_to. repeat case_bool_decide; simpl; set_solver. Qed.

Lemma add_vote_to_incr votes voter v : voters v ⊆ voters (add_vote_to votes voter v).
Proof. unfold add_vote_to. case_bool_decide; simpl; set_solver. Qed.

Lemma add_vote_to_voter votes voter v : voter ∈ voters (add_vote_to votes voter v).
Proof. unfold add_vote_to. case_bool_decide; simpl; set_solver. Qed.

Lemma add_vote_to_block votes voter v : block (add_vote_to votes voter v) = block v.
Proof. unfold add_vote_to. by case_bool_decide. Qed.

Lemma tree_add_votes_wf (stakes : gmap Pubkey Z) hash voter stake n n' :
  stakes !! voter = Some stake → tree_wf stakes n → tree_add_votes hash stake voter n = Some n' →
  tree_wf stakes n' ∧ value n' = add_vote_to stake voter (value n).
Proof.
  intros Hs. apply tree_update_wf; auto using add_vote_to_block, add_vote_to_ok, add_vote_to_mono, add_vote_to_incr.
  intros [v cs] _ Hwf _. apply tree_wf_node in Hwf as (Hv & Hl & Hcs). split; [|done].
  apply tree_wf_node. split_and!; [by apply add_vote_to_ok| |done].
  eapply Forall_impl; [exact Hl|]. intros d (Hp & Hh & Hvo). simpl. unfold link, vb_hash, vb_height in *.
  rewrite add_vote_to_block. split_and!; [done|done|]. etrans; [exact Hvo|apply add_vote_to_incr].
Qed.

(** ** Children *)

Lemma add_child_wf (stakes : gmap Pubkey Z) (e : Executed D) n :
  tree_wf stakes n → parent (underlying e) = node_hash n → height (underlying e) = vb_height (value n) + 1 →
  tree_wf stakes (add_child (Volatile_new e) n) ∧ value (add_child (Volatile_new e) n) = value n.
Proof.
  intros Hwf Hp Hh. destruct n as [v cs]. apply tree_wf_node in Hwf as (Hv & Hl & Hcs). split; [|done].
  apply tree_wf_node. cbn [value children] in *. split_and!; [done| |].
  - apply Forall_app. split; [done|]. constructor; [|constructor]. split_and!; [done|done|]. set_solver.
  - apply Forall_app. split; [done|]. constructor; [|constructor]. apply tree_wf_node.
    split_and!; [|constructor|constructor]. split; [set_solver|done].
Qed.

Lemma tree_add_child_wf (stakes : gmap Pubkey Z) hash (e : Executed D) n n' :
  tree_wf stakes n → parent (underlying e) = hash →
  (∀ m, m ∈ tree_nodes n → node_hash m = hash → height (underlying e) = vb_height (value m) + 1) →
  tree_update hash (add_child (Volatile_new e)) id n = Some n' → tree_wf stakes n' ∧ value n' = value n.
Proof.
  intros Hwf Hp Hheight. revert Hwf. apply tree_update_wf; auto.
  intros m Hin Hm Hmh. apply add_child_wf; [done|congruence|auto].
Qed.

(** ** Fork choice *)

(** The specification of the head: go down to the child with the most votes,
    the first one of several, until there is none. *)
Inductive heaviest (anc : list (TreeNode D)) : TreeNode D → Ref D → Prop :=
  | HeaviestLeaf v : heaviest anc (Node v []) (Node v [], anc)
  | HeaviestChild v pre c post r :
      Forall (λ d, vb_votes (value d) < vb_votes (value c)) pre →
      Forall (λ d, vb_votes (value d) ≤ vb_votes (value c)) post →
      heaviest (Node v (pre ++ c :: post) :: anc) c r →
      heaviest anc (Node v (pre ++ c :: post)) r.

Lemma depth_eq r : depth r = length r.2.
Proof. destruct r as [n anc]. unfold depth, path. simpl. induction anc as [|a anc IH]; simpl in *; lia. Qed.

(** The invariant of the loop: the best child so far is the first maximum of
    what was seen. *)
Definition first_max {X} (seen : list (TreeNode D * X)) (best : TreeNode D * X) : Prop :=
  ∃ pre post, seen = pre ++ best :: post ∧
    Forall (λ d, vb_votes (value d.1) < vb_votes (value best.1)) pre ∧
    Forall (λ d, vb_votes (value d.1) ≤ vb_votes (value best.1)) post.

Lemma head_loop {X} anc (rest seen : list (TreeNode D * X)) mx best :
  first_max seen best → mx = vb_votes (value best.1) →
  first_max (seen ++ rest) (foldl (head_step anc) (mx, best) rest).2.
Proof.
  revert seen mx best. induction rest as [|c rest IH]; intros seen mx best (pre & post & -> & Hpre & Hpost) Hmx.
  { rewrite app_nil_r. by exists pre, post. }
  rewrite cons_middle, (assoc_L (++)). cbn [foldl]. unfold head_step at 2. cbn [fst snd].
  assert ((depth (best.1, anc) <? depth (c.1, anc))%nat = false) as -> by (rewrite !depth_eq; apply Nat.ltb_irrefl).
  destruct (Z.compare_spec (vb_votes (value c.1)) mx); apply IH; try done.
  - exists pre, (post ++ [c]). rewrite <-(assoc_L (++)). split_and!; [done|done|].
    apply Forall_app. split; [done|]. repeat constructor. lia.
  - exists pre, (post ++ [c]). rewrite <-(assoc_L (++)). split_and!; [done|done|].
    apply Forall_app. split; [done|]. repeat constructor. lia.
  - exists (pre ++ best :: post), []. split_and!; [done| |constructor]. apply Forall_app. split.
    + eapply Forall_impl; [exact Hpre|]. simpl. intros. lia.
    + constructor; [lia|]. eapply Forall_impl; [exact Hpost|]. simpl. intros. lia.
Qed.

(** The first comparison is with zero: it settles nothing new as votes are not
    negative. *)
Lemma head_loop_start {X} anc (front : TreeNode D * X) rest :
  0 ≤ vb_votes (value front.1) →
  first_max (front :: rest) (foldl (head_step anc) (0, front) (front :: rest)).2.
Proof.
  intros Hf. cbn [foldl]. unfold head_step at 2. cbn [fst snd].
  rewrite Nat.ltb_irrefl.
  assert (first_max [front] front) as Hfm by (exists [], []; split_and!; [done|constructor|constructor]).
  destruct (Z.compare_spec (vb_votes (value front.1)) 0) as [He| |He]; [|lia|];
    apply (head_loop anc rest [front]); done.
Qed.

Definition votes_nonneg n : Prop := ∀ m, m ∈ tree_nodes n → 0 ≤ vb_votes (value m).

Lemma tree_head_heaviest n anc : votes_nonneg n → heaviest anc n (tree_head anc n).
Proof.
  revert anc. induction n as [v cs IH] using TreeNode_induction. intros anc Hnn. rewrite Forall_forall in IH.
  destruct cs as [|c0 cs0]; [constructor|]. cbn [tree_head]. remember (c0 :: cs0) as cs eqn:Hcs.
  set (pairs := map (λ c, (c, tree_head (Node v cs :: anc) c)) cs).
  destruct pairs as [|front rest] eqn:Hp; [by subst pairs; rewrite Hcs in Hp|].
  assert (front :: rest = map (λ c, (c, tree_head (Node v cs :: anc) c)) cs) as Hpairs by (subst pairs; done).
  assert (∀ c, c ∈ cs → votes_nonneg c) as Hnn'.
  { intros c Hc m Hm. apply Hnn, elem_of_tree_nodes. eauto. }
  destruct (head_loop_start (Node v cs :: anc) front rest) as (pre & post & Heq & Hpre & Hpost).
  { rewrite Hcs in Hpairs. injection Hpairs as -> _. simpl. apply (Hnn' c0); [rewrite Hcs; by left|apply tree_nodes_self]. }
  set (best := (foldl (head_step (Node v cs :: anc)) (0, front) (front :: rest)).2) in *.
  rewrite Hpairs in Heq. apply map_eq_app in Heq as (l1 & l2 & Hl & Hpre' & Hl2).
  apply map_eq_cons in Hl2 as (c & l3 & -> & Hbest & Hpost').
  rewrite <-Hbest, <-Hpost' in *. rewrite <-Hpre' in Hpre. cbn [fst snd] in *.
  rewrite Hl at 1. apply HeaviestChild.
  - rewrite List.Forall_map in Hpre. exact Hpre.
  - rewrite List.Forall_map in Hpost. exact Hpost.
  - rewrite <-Hl. apply IH; [rewrite Hl; set_solver|]. apply Hnn'. rewrite Hl. set_solver.
Qed.

(** ** The blocks of a tree *)

Definition tree_blocks n : list (Executed D) := (λ m, block (value m)) <$> tree_nodes n.

Lemma tree_blocks_node v cs : tree_blocks (Node v cs) = block v :: concat (tree_blocks <$> cs).
Proof.
  unfold tree_blocks. rewrite tree_nodes_eq. simpl. f_equal. induction cs as [|c cs IH]; [done|].
  simpl. rewrite fmap_app. f_equal. exact IH.
Qed.

Lemma tree_update_blocks hash f g n n' (new : list (Executed D)) :
  (∀ m, tree_blocks (f m) ≡ₚ new ++ tree_blocks m) → (∀ v, block (g v) = block v) →
  tree_update hash f g n = Some n' → tree_blocks n' ≡ₚ new ++ tree_blocks n.
Proof.
  intros Hf Hg. revert n'. induction n as [v cs IH] using TreeNode_induction.
  intros n' [[_ ->]|(_ & pre & c & c' & post & -> & Hc & _ & ->)]%tree_update_inv; [apply Hf|].
  apply Forall_app in IH as [_ [IHc _]%Forall_cons]. specialize (IHc _ Hc).
  rewrite !tree_blocks_node, Hg, !fmap_app, !fmap_cons, !concat_app. simpl. rewrite IHc. solve_Permutation.
Qed.

Lemma tree_add_votes_blocks hash stake voter n n' :
  tree_add_votes hash stake voter n = Some n' → tree_blocks n' ≡ₚ tree_blocks n.
Proof.
  intros Hup. apply (tree_update_blocks _ _ _ _ _ []) in Hup; [done| |apply add_vote_to_block].
  intros [v cs]. simpl. by rewrite !tree_blocks_node, add_vote_to_block.
Qed.

Lemma tree_add_child_blocks hash (e : Executed D) n n' :
  tree_update hash (add_child (Volatile_new e)) id n = Some n' → tree_blocks n' ≡ₚ e :: tree_blocks n.
Proof.
  apply (tree_update_blocks _ _ _ _ _ [e]); [|done]. intros [v cs]. unfold add_child. simpl.
  rewrite !tree_blocks_node, fmap_app, concat_app. simpl. unfold tree_blocks. simpl. solve_Permutation.
Qed.

Lemma elem_of_tree_blocks e n : e ∈ tree_blocks n ↔ ∃ m, m ∈ tree_nodes n ∧ block (value m) = e.
Proof. unfold tree_blocks. rewrite list_elem_of_fmap. naive_solver. Qed.

(** ** Epochs *)

Lemma epoch_loop_spec eb e (needle : Ref D) steps :
  ref_epoch eb needle = e →
  ∃ k, (needle :: steps) !! k = Some (epoch_loop eb e needle steps) ∧
    (∀ j s, (j ≤ k)%nat → (needle :: steps) !! j = Some s → ref_epoch eb s = e) ∧
    (∀ s, (needle :: steps) !! S k = Some s → ref_epoch eb s ≠ e).
Proof.
  revert needle. induction steps as [|x steps IH]; intros needle Hn; cbn [epoch_loop].
  { exists 0%nat. split_and!; [done| |done]. intros [|j] s Hj Hs; [by simplify_eq/=|lia]. }
  destruct (ref_epoch eb x =? e) eqn:E.
  - apply Z.eqb_eq in E. destruct (IH x E) as (k & Hk & Hle & Hgt). exists (S k). split_and!; [done| |done].
    intros [|j] s Hj Hs; [by simplify_eq/=|]. apply (Hle j); [lia|done].
  - apply Z.eqb_neq in E. exists 0%nat. split_and!; [done| |].
    + intros [|j] s Hj Hs; [by simplify_eq/=|lia].
    + intros s Hs. by simplify_eq/=.
Qed.

Lemma epoch_start_spec_lemma eb r :
  NoDup ((λ s : Ref D, node_hash s.1) <$> path r) →
  ∃ k, path r !! k = Some (epoch_start eb r) ∧
    (∀ j s, (j ≤ k)%nat → path r !! j = Some s → ref_epoch eb s = ref_epoch eb r) ∧
    (∀ s, path r !! S k = Some s → ref_epoch eb s ≠ ref_epoch eb r).
Proof.
  intros Hnd. destruct (epoch_loop_spec eb (ref_epoch eb r) r (ancestors r.2) eq_refl) as (k & Hk & Hle & Hgt).
  exists k. split_and!; [|done|done]. unfold epoch_start. change (drop 1 (path r)) with (ancestors r.2).
  set (needle := epoch_loop eb (ref_epoch eb r) r (ancestors r.2)) in *.
  case_bool_decide as Hh; [done|].
  assert (k = 0%nat) as ->; [|done].
  eapply (NoDup_lookup _ _ _ _ Hnd); [|reflexivity]. rewrite list_lookup_fmap. unfold path. rewrite Hk. simpl. by rewrite Hh.
Qed.

(** ** References *)

(** The references to all nodes of a tree. *)
Fixpoint tree_refs (anc : list (TreeNode D)) n : list (Ref D) :=
  match n with Node v cs => (n, anc) :: concat (map (tree_refs (n :: anc)) cs) end.

Lemma elem_of_tree_refs r anc v cs :
  r ∈ tree_refs anc (Node v cs) ↔ r = (Node v cs, anc) ∨ ∃ c, c ∈ cs ∧ r ∈ tree_refs (Node v cs :: anc) c.
Proof.
  cbn [tree_refs]. rewrite elem_of_cons, list_elem_of_In, in_concat. apply or_iff_compat_l. split.
  - intros (l & (c & <- & Hc)%in_map_iff & Hm). exists c. by rewrite !list_elem_of_In.
  - intros (c & Hc & Hm). exists (tree_refs (Node v cs :: anc) c). rewrite in_map_iff. rewrite !list_elem_of_In in *. eauto.
Qed.

Lemma tree_refs_fst anc n : (tree_refs anc n).*1 = tree_nodes n.
Proof.
  revert anc. induction n as [v cs IH] using TreeNode_induction. intros anc. cbn [tree_refs tree_nodes]. rewrite fmap_cons.
  f_equal. generalize (Node v cs :: anc). intros anc'. induction IH as [|c cs Hc _ IH]; [done|].
  cbn [map concat]. by rewrite fmap_app, Hc, IH.
Qed.

Definition ref_has_hash (hash : Multihash) r : option (Ref D) := if bool_decide (node_hash r.1 = hash) then Some r else None.

Lemma find_map_app {A B} (f : A → option B) l k :
  find_map f (l ++ k) = match find_map f l with Some y => Some y | None => find_map f k end.
Proof. induction l as [|x l IH]; simpl; [done|]. by destruct (f x). Qed.

Lemma tree_get_refs hash anc n : tree_get hash anc n = find_map (ref_has_hash hash) (tree_refs anc n).
Proof.
  revert anc. induction n as [v cs IH] using TreeNode_induction. intros anc. cbn [tree_get tree_refs find_map].
  unfold ref_has_hash at 1. cbn [fst]. change (node_hash (Node v cs)) with (vb_hash v).
  case_bool_decide; [done|]. generalize (Node v cs :: anc). intros anc'.
  induction IH as [|c cs Hc _ IH]; [done|]. cbn [map concat find_map]. rewrite find_map_app, <-Hc, IH. done.
Qed.

Lemma find_ref_unique r (l : list (Ref D)) :
  NoDup ((λ s : Ref D, node_hash s.1) <$> l) → r ∈ l → find_map (ref_has_hash (node_hash r.1)) l = Some r.
Proof.
  induction l as [|x l IH]; [by intros _ ?%not_elem_of_nil|]. rewrite fmap_cons. intros [Hx Hnd]%NoDup_cons Hin.
  cbn [find_map]. unfold ref_has_hash at 1. apply elem_of_cons in Hin as [->|Hin]; [by rewrite bool_decide_true|].
  rewrite bool_decide_false; [by apply IH|]. intros Heq. apply Hx. rewrite Heq. apply list_elem_of_fmap. eauto.
Qed.

(** A reference is what looking up its hash gives, when hashes are unique. *)
Lemma tree_get_ref n r : NoDup (node_hash <$> tree_nodes n) → r ∈ tree_refs [] n → tree_get (node_hash r.1) [] n = Some r.
Proof.
  intros Hnd Hr. rewrite tree_get_refs. apply find_ref_unique; [|done].
  rewrite <-(tree_refs_fst [] n), <-list_fmap_compose in Hnd. exact Hnd.
Qed.

Lemma head_step_in {X} anc (acc : Z * (TreeNode D * X)) c : (head_step anc acc c).2 = acc.2 ∨ (head_step anc acc c).2 = c.
Proof. unfold head_step. repeat case_match; auto. Qed.

Lemma head_fold_in {X} anc (rest : list (TreeNode D * X)) acc :
  (foldl (head_step anc) acc rest).2 = acc.2 ∨ (foldl (head_step anc) acc rest).2 ∈ rest.
Proof.
  revert acc. induction rest as [|c rest IH]; intros acc; [by left|]. cbn [foldl].
  destruct (IH (head_step anc acc c)) as [->|Hin]; [|right; by right].
  destruct (head_step_in anc acc c) as [->| ->]; [by left|right; by left].
Qed.

Lemma tree_head_ref anc n : tree_head anc n ∈ tree_refs anc n.
Proof.
  revert anc. induction n as [v cs IH] using TreeNode_induction. intros anc. rewrite Forall_forall in IH.
  destruct cs as [|c0 cs0]; [by left|]. cbn [tree_head]. remember (c0 :: cs0) as cs eqn:Hcs.
  destruct (map (λ c, (c, tree_head (Node v cs :: anc) c)) cs) as [|front rest] eqn:Hp; [by rewrite Hcs in Hp|].
  assert ((foldl (head_step (Node v cs :: anc)) (0, front) (front :: rest)).2 ∈ front :: rest) as Hin.
  { destruct (head_fold_in (Node v cs :: anc) (front :: rest) (0, front)) as [->|Hin]; [by left|done]. }
  rewrite <-Hp in Hin at 2. apply list_elem_of_In, in_map_iff in Hin as (c & <- & Hc%list_elem_of_In).
  apply elem_of_tree_refs. right. exists c. split; [done|]. by apply IH.
Qed.

(** ** The state of a fork *)

Definition ref_diff r : StateDiff := out_state (output (block (value r.1))).

(** All the changes on the path to a node, oldest first. *)
Definition merged_diff (rs : list (Ref D)) : StateDiff := foldr (λ s acc, merge acc (ref_diff s)) sd_default rs.

Lemma merged_diff_get rs a : sd_get (merged_diff rs) a = find_map (λ s, sd_get (ref_diff s) a) rs.
Proof.
  induction rs as [|s rs IH]; [done|]. change (merged_diff (s :: rs)) with (merge (merged_diff rs) (ref_diff s)).
  rewrite merge_get, IH. done.
Qed.

Lemma ancestors_fst anc : (ancestors anc).*1 = anc.
Proof. induction anc as [|a anc IH]; [done|]. simpl. f_equal. exact IH. Qed.

Lemma find_map_fmap {A B E} (g : A → B) (f : B → option E) l : find_map f (g <$> l) = find_map (λ x, f (g x)) l.
Proof. induction l as [|x l IH]; [done|]. simpl. destruct (f (g x)); [done|exact IH]. Qed.

Lemma cascading_get_nodes r a :
  cascading_get r a = find_map (λ m, sd_get (out_state (output (block (value m)))) a) (r.1 :: r.2).
Proof.
  unfold cascading_get, path. destruct r as [n anc]. simpl. destruct (sd_get _ _); [done|].
  pose proof (find_map_fmap fst (λ m, sd_get (out_state (output (block (value m)))) a) (ancestors anc)) as Hf.
  rewrite ancestors_fst in Hf. by rewrite Hf.
Qed.


(** ** Theorems *)

(** C21: the head of a tree is the leaf reached by going, from the root, to the
    child with the most votes each time (GHOST). Among children with equally
    many votes it is always the first one to have been added: the depths that
    the code compares to break a draw are those of siblings, which are equal. *)
Theorem head_is_heaviest_first n : votes_nonneg n → heaviest [] n (tree_head [] n).
Proof. apply tree_head_heaviest. Qed.

(** The start of a block's epoch is its oldest ancestor that is reached
    without leaving the epoch: every block between them is in the epoch and the
    next one up, if there is one, is not. *)
Theorem epoch_start_oldest_in_epoch eb r :
  NoDup ((λ s : Ref D, node_hash s.1) <$> path r) →
  ∃ k, path r !! k = Some (epoch_start eb r) ∧
    (∀ j s, (j ≤ k)%nat → path r !! j = Some s → ref_epoch eb s = ref_epoch eb r) ∧
    (∀ s, path r !! S k = Some s → ref_epoch eb s ≠ ref_epoch eb r).
Proof. apply epoch_start_spec_lemma. Qed.

(** A block executes on the result of executing all its ancestors: reading
    through the path of a fork is reading the single diff that merges the diffs
    of its blocks, oldest first. *)
Theorem fork_state_is_merged_diff (fin : View) r a :
  Overlayed_get (MkOverlayed fin (cascading_get r)) a = Overlayed_get (MkOverlayed fin (sd_get (merged_diff (path r)))) a.
Proof. unfold Overlayed_get. cbn [overlay base]. unfold cascading_get. by rewrite merged_diff_get. Qed.

(** Finalizing the root of a fork does not change what the blocks above it
    see: moving the root's diff from the path into the finalized state leaves
    every account of the fork's view as it was, provided the root deletes no
    account. *)
Theorem finalization_keeps_fork_view (fin : View) n anc (root : TreeNode D) a :
  sd_deletes (out_state (output (block (value root)))) = ∅ →
  Overlayed_get (MkOverlayed (apply_spec (out_state (output (block (value root)))) fin) (cascading_get (n, anc))) a =
  Overlayed_get (MkOverlayed fin (cascading_get (n, anc ++ [root]))) a.
Proof.
  intros Hdel. unfold Overlayed_get. cbn [overlay base]. rewrite !cascading_get_nodes. cbn [fst snd].
  change (n :: anc ++ [root]) with ((n :: anc) ++ [root]). rewrite find_map_app.
  destruct (find_map _ (n :: anc)); [done|]. unfold apply_spec. rewrite Hdel, bool_decide_false by set_solver.
  simpl. unfold sd_get. by destruct (sd_data _ !! a).
Qed.
End tree.
