(* ===== verification/Orphans.v ===== *)
(** * Blocks and votes that wait for a block (src/consensus/orphans.rs)

    The hash maps of the code are association lists in the order of their
    iteration, which the code leaves unspecified: here it is the order of
    insertion. The clock is an argument [now], in milliseconds. *)
From S2P Require Import Prelude Primitives State Transaction Block.

Section orphans.
Context `{Crypto} {D : Type} `{BlockData D}.

Inductive ONode := MkONode (at_ : Z) (oblock : Produced D) (ochildren : list (Multihash * ONode)).

Definition onode_at (n : ONode) : Z := match n with MkONode a _ _ => a end.
Definition onode_block (n : ONode) : Produced D := match n with MkONode _ b _ => b end.
Definition onode_children (n : ONode) : list (Multihash * ONode) := match n with MkONode _ _ cs => cs end.

(** [Node::new] *)
Definition ONode_new (now : Z) (b : Produced D) : ONode := MkONode now b [].

Definition onode_height (n : ONode) : Z := height (onode_block n).

(** The helper [traverse] of [max_height], and [max_height]. *)
Fixpoint traverse (n : ONode) (sofar : Z) : Z :=
  match n with
  | MkONode _ b cs => Z.max (foldl (λ sofar c, Z.max (traverse c.2 sofar) sofar) sofar cs) (height b)
  end.

Definition max_height (n : ONode) : Z :=
  foldl (λ h c, Z.max (traverse c.2 h) h) (onode_height n) (onode_children n).

(** [insert]: [None] hands the block back to the caller. *)
Fixpoint onode_insert (now : Z) (new : Produced D) (n : ONode) : option ONode :=
  match n with
  | MkONode at_ b cs =>
      if height new <=? height b then None
      else if bool_decide (parent new = block_hash b) then
        match im_get (block_hash new) cs with
        | Some _ => Some n
        | None => Some (MkONode at_ b (cs ++ [(block_hash new, ONode_new now new)]))
        end
      else
        (fix go (seen cs : list (Multihash * ONode)) : option ONode :=
           match cs with
           | [] => None
           | (k, c) :: cs =>
               match onode_insert now new c with
               | Some c' => Some (MkONode at_ b (rev seen ++ (k, c') :: cs))
               | None => go ((k, c) :: seen) cs
               end
           end) [] cs
  end.

Definition since (now : Z) (n : ONode) : Z := now - onode_at n.
Definition reset_timer (now : Z) (n : ONode) : ONode := MkONode now (onode_block n) (onode_children n).

(** [flatten]: the queue of the code is read from its back to its front, so
    that the next node to be taken out is the first of the list. One round per
    node is enough fuel. *)
Fixpoint flatten_loop (fuel : nat) (queue : list ONode) : list (Produced D) :=
  match fuel, queue with
  | S fuel, node :: queue => onode_block node :: flatten_loop fuel (queue ++ (onode_children node).*2)
  | _, _ => []
  end.

Fixpoint onode_size (n : ONode) : nat :=
  match n with MkONode _ _ cs => S (foldr (λ c s, onode_size c.2 + s)%nat 0%nat cs) end.

Definition flatten (n : ONode) : list (Produced D) := flatten_loop (onode_size n) [n].

(** ** The collection *)

Record Orphans := MkOrphans {
  timeout : Z;
  orphan_blocks : list (Multihash * ONode);
  orphan_votes : gmap Multihash (list Vote)
}.

Definition Orphans_new (timeout : Z) : Orphans := MkOrphans timeout [] ∅.

Definition add_vote (vote : Vote) (o : Orphans) : Orphans :=
  MkOrphans (timeout o) (orphan_blocks o)
    (<[target vote := default [] (orphan_votes o !! target vote) ++ [vote]]> (orphan_votes o)).

(** The loop of [add_block] over the existing trees. *)
Fixpoint insert_into_roots (now : Z) (b : Produced D) (roots : list (Multihash * ONode)) :
    option (list (Multihash * ONode)) :=
  match roots with
  | [] => None
  | (k, root) :: roots =>
      match onode_insert now b root with
      | Some root' => Some ((k, root') :: roots)
      | None => cons (k, root) <$> insert_into_roots now b roots
      end
  end.

Definition add_block (now : Z) (b : Produced D) (o : Orphans) : Orphans :=
  MkOrphans (timeout o)
    (match insert_into_roots now b (orphan_blocks o) with
     | Some roots => roots
     | None =>
         match im_get (parent b) (orphan_blocks o) with
         | Some _ => orphan_blocks o
         | None => orphan_blocks o ++ [(parent b, ONode_new now b)]
         end
     end)
    (orphan_votes o).

Definition consume_votes (hash : Multihash) (o : Orphans) : option (list Vote) * Orphans :=
  (orphan_votes o !! hash, MkOrphans (timeout o) (orphan_blocks o) (delete hash (orphan_votes o))).

Definition consume_blocks (parent_hash : Multihash) (o : Orphans) : option (list (Produced D)) * Orphans :=
  (flatten <$> im_get parent_hash (orphan_blocks o),
   MkOrphans (timeout o) (im_remove parent_hash (orphan_blocks o)) (orphan_votes o)).

(** [missing_blocks]: the parents to ask for. Trees that are not higher than the
    finalized block are dropped, those that have waited long enough are
    reported and wait again. *)
Definition missing_step (now min_relevant_height timeout : Z)
    (p : Multihash * ONode) : option (Multihash * ONode) * option Multihash :=
  if max_height p.2 <=? min_relevant_height then (None, None)
  else if timeout <=? since now p.2 then (Some (p.1, reset_timer now p.2), Some p.1)
  else (Some p, None).

Definition missing_blocks (now min_relevant_height : Z) (o : Orphans) : list Multihash * Orphans :=
  let steps := missing_step now min_relevant_height (timeout o) <$> orphan_blocks o in
  (omap snd steps, MkOrphans (timeout o) (omap fst steps) (orphan_votes o)).

(** Every block of a tree, parents first. *)
Fixpoint onode_blocks (n : ONode) : list (Produced D) :=
  match n with MkONode _ b cs => b :: concat (map (λ c, onode_blocks c.2) cs) end.

Definition all_orphans (o : Orphans) : list (Produced D) := concat (map (λ p, onode_blocks p.2) (orphan_blocks o)).

Fixpoint ONode_induction (P : ONode → Prop)
    (HNode : ∀ a b cs, Forall (λ c, P c.2) cs → P (MkONode a b cs)) (n : ONode) : P n :=
  match n with
  | MkONode a b cs =>
      HNode a b cs ((fix go cs : Forall (λ c, P c.2) cs :=
        match cs with
        | [] => List.Forall_nil _
        | c :: cs => List.Forall_cons _ _ _ (ONode_induction P HNode c.2) (go cs)
        end) cs)
  end.
End orphans.
Arguments ONode {_} _.
Arguments Orphans {_} _.
