(* ===== verification/OrphansProps.v ===== *)
(** * Properties of the orphan collection *)
From S2P Require Import Prelude Primitives State Transaction Block Orphans.

Section orphans.
Context `{Crypto} {D : Type} `{BlockData D}.
Implicit Types (b : Produced D) (n : ONode D) (o : Orphans D) (cs : list (Multihash * ONode D)).

(** ** Blocks of trees *)

Lemma onode_blocks_eq a b cs : onode_blocks (MkONode a b cs) = b :: concat ((λ c, onode_blocks c.2) <$> cs).
Proof. done. Qed.

Lemma onode_size_blocks n : onode_size n = length (onode_blocks n).
Proof.
  induction n as [a b cs IH] using ONode_induction. rewrite onode_blocks_eq. cbn [onode_size length]. f_equal.
  induction IH as [|c cs Hc _ IH]; [done|]. rewrite fmap_cons, concat_cons, length_app, <-IH, <-Hc. done.
Qed.

Definition queue_blocks (q : list (ONode D)) : list (Produced D) := concat (onode_blocks <$> q).

Lemma queue_blocks_app q1 q2 : queue_blocks (q1 ++ q2) = queue_blocks q1 ++ queue_blocks q2.
Proof. unfold queue_blocks. by rewrite fmap_app, concat_app. Qed.

Lemma queue_blocks_children n : onode_blocks n = onode_block n :: queue_blocks (onode_children n).*2.
Proof. destruct n as [a b cs]. rewrite onode_blocks_eq. simpl. unfold queue_blocks. by rewrite <-list_fmap_compose. Qed.

Lemma flatten_loop_perm fuel q :
  (length (queue_blocks q) ≤ fuel)%nat → flatten_loop fuel q ≡ₚ queue_blocks q.
Proof.
  revert q. induction fuel as [|fuel IH]; intros q Hf.
  - destruct q as [|n q]; [done|]. unfold queue_blocks in Hf. rewrite fmap_cons, concat_cons, queue_blocks_children in Hf.
    simpl in Hf. lia.
  - destruct q as [|n q]; [done|]. cbn [flatten_loop].
    change (queue_blocks (n :: q)) with (onode_blocks n ++ queue_blocks q) in *.
    rewrite queue_blocks_children in *. cbn [app length] in *. constructor. rewrite length_app in Hf.
    rewrite IH; rewrite queue_blocks_app; [solve_Permutation|rewrite length_app; lia].
Qed.

Lemma flatten_perm n : flatten n ≡ₚ onode_blocks n.
Proof.
  unfold flatten. rewrite flatten_loop_perm; unfold queue_blocks; simpl; rewrite app_nil_r; [done|].
  by rewrite onode_size_blocks.
Qed.

(** ** Parents first *)

(** Every node of a tree names the node above it as its parent. *)
Fixpoint onode_wf n : Prop :=
  match n with
  | MkONode _ b cs =>
      foldr (λ c P, (c.1 = block_hash (onode_block c.2) ∧ parent (onode_block c.2) = block_hash b ∧ onode_wf c.2) ∧ P) True cs
  end.

Lemma onode_wf_eq a b cs :
  onode_wf (MkONode a b cs) ↔
  Forall (λ c, c.1 = block_hash (onode_block c.2) ∧ parent (onode_block c.2) = block_hash b ∧ onode_wf c.2) cs.
Proof.
  cbn [onode_wf]. induction cs as [|c cs IH]; cbn [foldr]; [split; [constructor|done]|]. rewrite Forall_cons, IH. done.
Qed.

(** Every block of a list either is one of [roots] or comes after its parent. *)
Definition parents_first (roots bs : list (Produced D)) : Prop :=
  ∀ i b, bs !! i = Some b → b ∈ roots ∨ ∃ j b', (j < i)%nat ∧ bs !! j = Some b' ∧ block_hash b' = parent b.

Lemma flatten_loop_parents fuel q : Forall onode_wf q → parents_first (onode_block <$> q) (flatten_loop fuel q).
Proof.
  revert q. induction fuel as [|fuel IH]; intros q Hwf i b; [done|]. destruct q as [|n q]; [done|]. cbn [flatten_loop].
  apply Forall_cons in Hwf as [Hn Hq]. destruct i as [|i]; simpl; [intros [= <-]; left; by left|]. intros Hi.
  destruct n as [a b0 cs]. apply onode_wf_eq in Hn. cbn [onode_children onode_block] in *.
  assert (Forall onode_wf (q ++ cs.*2)) as Hwf'.
  { apply Forall_app. split; [done|]. apply Forall_fmap. eapply Forall_impl; [exact Hn|]. by intros c (_ & _ & ?). }
  destruct (IH _ Hwf' i b Hi) as [Hroot|(j & b' & Hj & Hb' & Hh)].
  - rewrite fmap_app in Hroot. apply elem_of_app in Hroot as [Hroot|Hroot]; [left; by right|].
    right. exists 0%nat, b0. split_and!; [lia|done|].
    apply list_elem_of_fmap in Hroot as (c & -> & Hc). apply list_elem_of_fmap in Hc as (kc & -> & Hkc).
    rewrite Forall_forall in Hn. by destruct (Hn _ Hkc) as (_ & ? & _).
  - right. exists (S j), b'. split_and!; [lia|done|done].
Qed.

(** ** Insertion *)

Lemma onode_insert_inv now new a b cs n' :
  onode_insert now new (MkONode a b cs) = Some n' →
  height b < height new ∧
  ((parent new = block_hash b ∧
      (n' = MkONode a b cs ∧ is_Some (im_get (block_hash new) cs) ∨
       n' = MkONode a b (cs ++ [(block_hash new, ONode_new now new)]))) ∨
   (∃ pre k c c' post, cs = pre ++ (k, c) :: post ∧ onode_insert now new c = Some c' ∧
      n' = MkONode a b (pre ++ (k, c') :: post))).
Proof.
  cbn [onode_insert]. destruct (Z.leb_spec (height new) (height b)) as [|Hh]; [done|]. intros Hn'. split; [done|].
  case_bool_decide as Hp.
  { left. split; [done|]. destruct (im_get (block_hash new) cs) eqn:E; injection Hn' as <-; [left; split; [done|by eauto]|by right]. }
  right.
  assert (∀ seen rest, ((fix go (seen cs : list (Multihash * ONode D)) : option (ONode D) :=
           match cs with
           | [] => None
           | (k, c) :: cs =>
               match onode_insert now new c with
               | Some c' => Some (MkONode a b (rev seen ++ (k, c') :: cs))
               | None => go ((k, c) :: seen) cs
               end
           end) seen rest = Some n') →
    ∃ pre k c c' post, rest = pre ++ (k, c) :: post ∧ onode_insert now new c = Some c' ∧
      n' = MkONode a b (rev seen ++ pre ++ (k, c') :: post)) as Haux.
  { intros seen rest. revert seen. induction rest as [|[k c] rest IH]; intros seen; [done|].
    destruct (onode_insert now new c) as [c'|] eqn:E.
    - intros [= <-]. by exists [], k, c, c', rest.
    - intros (pre & k0 & d & d' & post & -> & Hd & ->)%IH. exists ((k, c) :: pre), k0, d, d', post.
      split_and!; [done|done|]. simpl. by rewrite <-app_assoc. }
  destruct (Haux [] cs Hn') as (pre & k & c & c' & post & -> & Hc & ->). by exists pre, k, c, c', post.
Qed.

Lemma onode_insert_spec now new n n' :
  onode_insert now new n = Some n' →
  onode_block n' = onode_block n ∧ (onode_wf n → onode_wf n') ∧
  (onode_blocks n' ≡ₚ onode_blocks n ∨ onode_blocks n' ≡ₚ new :: onode_blocks n).
Proof.
  revert n'. induction n as [a b cs IH] using ONode_induction.
  intros n' [_ [[Hp [[-> _]| ->]]|(pre & k & c & c' & post & -> & Hc & ->)]]%onode_insert_inv.
  - split_and!; [done|done|by left].
  - split_and!; [done| |].
    + rewrite !onode_wf_eq. intros Hwf. apply Forall_app. split; [done|]. by repeat constructor.
    + right. rewrite !onode_blocks_eq, fmap_app, concat_app. simpl. solve_Permutation.
  - apply Forall_app in IH as [_ [IHc _]%Forall_cons]. destruct (IHc _ Hc) as (Hb & Hwf & Hperm). split_and!; [done| |].
    + rewrite !onode_wf_eq. intros [Hpre [(Hk & Hpc & Hwc) Hpost]%Forall_cons]%Forall_app.
      apply Forall_app. split; [done|]. constructor; [|done]. cbn [fst snd] in *. rewrite Hb. auto.
    + rewrite !onode_blocks_eq, !fmap_app, !fmap_cons, !concat_app, !concat_cons. cbn [snd] in *.
      destruct Hperm as [->| ->]; [left|right]; [done|]. solve_Permutation.
Qed.

(** ** The collection *)

Definition roots_blocks (roots : list (Multihash * ONode D)) : list (Produced D) :=
  concat ((λ p, onode_blocks p.2) <$> roots).

Lemma all_orphans_eq o : all_orphans o = roots_blocks (orphan_blocks o).
Proof. done. Qed.

Lemma insert_into_roots_blocks now b roots roots' :
  insert_into_roots now b roots = Some roots' →
  roots_blocks roots' ≡ₚ roots_blocks roots ∨ roots_blocks roots' ≡ₚ b :: roots_blocks roots.
Proof.
  revert roots'. induction roots as [|[k root] roots IH]; intros roots'; [done|]. cbn [insert_into_roots].
  unfold roots_blocks in *. destruct (onode_insert now b root) as [root'|] eqn:E.
  - intros [= <-]. rewrite !fmap_cons, !concat_cons. cbn [snd].
    destruct (onode_insert_spec _ _ _ _ E) as (_ & _ & [->| ->]); [by left|by right].
  - destruct (insert_into_roots now b roots) as [rs|]; [|done]. intros [= <-]. rewrite !fmap_cons, !concat_cons. cbn [snd].
    destruct (IH _ eq_refl) as [->| ->]; [by left|right]. solve_Permutation.
Qed.

Lemma add_block_orphans now b o :
  all_orphans (add_block now b o) ≡ₚ all_orphans o ∨ all_orphans (add_block now b o) ≡ₚ b :: all_orphans o.
Proof.
  rewrite !all_orphans_eq. unfold add_block. cbn [orphan_blocks].
  destruct (insert_into_roots now b (orphan_blocks o)) as [roots|] eqn:E; [by eapply insert_into_roots_blocks|].
  destruct (im_get (parent b) (orphan_blocks o)); [by left|right].
  unfold roots_blocks. rewrite fmap_app, concat_app. simpl. solve_Permutation.
Qed.

Lemma consume_blocks_orphans hash o bs o' :
  consume_blocks hash o = (Some bs, o') → (length bs + length (all_orphans o') ≤ length (all_orphans o))%nat.
Proof.
  unfold consume_blocks. rewrite !all_orphans_eq. destruct (im_get hash (orphan_blocks o)) as [n|] eqn:E; [|done].
  intros [= <- <-]. rewrite flatten_perm. cbn [orphan_blocks]. revert E.
  induction (orphan_blocks o) as [|[k x] roots IH]; [done|]. cbn [im_get]. unfold im_remove, roots_blocks in *.
  rewrite filter_cons. case_bool_decide as Hk.
  - subst. intros [= ->]. rewrite decide_False by (simpl; naive_solver). rewrite fmap_cons, concat_cons, length_app. simpl.
    apply Nat.add_le_mono_l. clear IH. induction roots as [|[k2 y] roots IH]; [done|]. rewrite filter_cons.
    case_decide; rewrite ?fmap_cons, ?concat_cons, ?length_app; simpl; lia.
  - intros Hn. rewrite decide_True by (simpl; naive_solver). rewrite !fmap_cons, !concat_cons, !length_app. simpl.
    specialize (IH Hn). lia.
Qed.

(** ** Theorems *)

(** Consuming the blocks that wait for a block gives back every block of
    their tree exactly once, in an order in which each of them comes after its
    parent; so when they are included in this order, each finds its parent. *)
Theorem flatten_topological n :
  onode_wf n → flatten n ≡ₚ onode_blocks n ∧ parents_first [onode_block n] (flatten n).
Proof. intros Hwf. split; [apply flatten_perm|]. apply (flatten_loop_parents _ [n]). by constructor. Qed.

(** A block that waits for the same missing parent as another one of its
    height is lost: adding it leaves the collection as it was, and it is not
    among the blocks that are included when the parent arrives. *)
Theorem orphan_sibling_dropped now now' t b1 b2 :
  parent b1 = parent b2 → height b1 = height b2 →
  let o := add_block now' b2 (add_block now b1 (Orphans_new t)) in
  o = add_block now b1 (Orphans_new t) ∧ (consume_blocks (parent b2) o).1 = Some [b1].
Proof.
  intros Hp Hh. cbv zeta.
  assert (add_block now' b2 (add_block now b1 (Orphans_new t)) = add_block now b1 (Orphans_new t)) as ->.
  { unfold add_block. simpl. rewrite Hh. rewrite (proj2 (Z.leb_le _ _)) by lia. simpl.
    rewrite Hp. by rewrite bool_decide_true by done. }
  split; [done|]. unfold consume_blocks. simpl. rewrite Hp. by rewrite bool_decide_true by done.
Qed.
End orphans.

(** ** Witnesses *)

Module OrphanExample.
Definition mh (z : Z) : Multihash := mh_sha3 (array32_of_Z z).
Definition b1 : Produced unit := Produced_new (toy_key 3) 5 (mh 1) tt (mh 2) [].
Definition b2 : Produced unit := Produced_new (toy_key 5) 5 (mh 1) tt (mh 2) [].
Definition b3 : Produced unit := Produced_new (toy_key 5) 6 (block_hash b1) tt (mh 2) [].
Definition pair_tree : ONode unit := MkONode 0 b1 [(block_hash b3, ONode_new 0 b3)].
End OrphanExample.
Import OrphanExample.

Lemma flatten_topological_witness : flatten pair_tree ≡ₚ onode_blocks pair_tree ∧ parents_first [b1] (flatten pair_tree).
Proof. apply (flatten_topological pair_tree). simpl. done. Defined.

Lemma orphan_sibling_dropped_witness :
  b1 ≠ b2 ∧ (consume_blocks (parent b2) (add_block 0 b2 (add_block 0 b1 (Orphans_new 10)))).1 = Some [b1].
Proof.
  split; [intros Heq%(f_equal (λ b, (signature b).1)); vm_compute in Heq; discriminate|].
  exact (proj2 (orphan_sibling_dropped 0 0 10 b1 b2 eq_refl eq_refl)).
Defined.
