(* ===== verification/Chain.v ===== *)
(** * The consensus state machine (src/consensus/chain.rs)

    Every operation takes the chain and returns the chain it leaves. The events
    are a list whose head is the front of the deque of the code. [now] is the
    clock and [vm_fuel] the depth bound of contract calls. *)
From S2P Require Import Prelude Primitives State Transaction Contract Block Machine Execution ForkTree Orphans.
From Stdlib Require Import Floats.SpecFloat.

(** ** Two thirds of the stake *)

(** [x as f64]: the double nearest to [x]. *)
Definition f64_of_u64 (x : Z) : spec_float := binary_normalize 53 1024 x 0 false.

(** The literal [0.67f64]. *)
Definition f64_067 : spec_float := binary_normalize 53 1024 6034823500676465 (-53) false.

(** [f.ceil() as u64]: the cast saturates and sends NaN to zero. *)
Definition f64_ceil_as_u64 (f : spec_float) : Z :=
  match f with
  | S754_finite false m e =>
      Z.min u64_max (if 0 <=? e then Z.pos m * 2 ^ e else - ((- Z.pos m) / 2 ^ (- e)))
  | S754_infinity false => u64_max
  | _ => 0
  end.

Definition majority_of (total : Z) : Z :=
  f64_ceil_as_u64 (SFmul 53 1024 (f64_of_u64 total) f64_067).

Section chain.
Context `{Crypto} `{WasmRuntime} {D : Type} `{BlockData D} `{!Executable D} {St : Type} `{StateStore St}.

Inductive ChainEvent :=
  | VoteCast (target justification : Multihash)
  | BlockDiscarded (b : Produced D)
  | BlockMissing (parent : Multihash)
  | BlockIncluded (b : Executed D)
  | BlockConfirmed (b : Executed D) (votes : Z)
  | BlockFinalized (b : Executed D) (votes : Z).

Record Chain := MkChain {
  genesis : Genesis;
  stakes : gmap Pubkey Z;
  finalized : Finalized D St;
  forktrees : list (TreeNode D);
  chain_orphans : Orphans D;
  ownvotes : gmap Z (Multihash * Multihash);
  events : list ChainEvent;
  finalized_history : gmap Z (gset Multihash);
  virtual_machine : Machine
}.

(** *** Updates of single fields *)

Definition set_finalized (c : Chain) (f : Finalized D St) : Chain :=
  MkChain (genesis c) (stakes c) f (forktrees c) (chain_orphans c) (ownvotes c) (events c) (finalized_history c) (virtual_machine c).
Definition set_forktrees (c : Chain) (t : list (TreeNode D)) : Chain :=
  MkChain (genesis c) (stakes c) (finalized c) t (chain_orphans c) (ownvotes c) (events c) (finalized_history c) (virtual_machine c).
Definition set_orphans (c : Chain) (o : Orphans D) : Chain :=
  MkChain (genesis c) (stakes c) (finalized c) (forktrees c) o (ownvotes c) (events c) (finalized_history c) (virtual_machine c).
Definition set_ownvotes (c : Chain) (v : gmap Z (Multihash * Multihash)) : Chain :=
  MkChain (genesis c) (stakes c) (finalized c) (forktrees c) (chain_orphans c) v (events c) (finalized_history c) (virtual_machine c).
Definition set_events (c : Chain) (e : list ChainEvent) : Chain :=
  MkChain (genesis c) (stakes c) (finalized c) (forktrees c) (chain_orphans c) (ownvotes c) e (finalized_history c) (virtual_machine c).
Definition set_history (c : Chain) (h : gmap Z (gset Multihash)) : Chain :=
  MkChain (genesis c) (stakes c) (finalized c) (forktrees c) (chain_orphans c) (ownvotes c) (events c) h (virtual_machine c).

Definition push_front (e : ChainEvent) (c : Chain) : Chain := set_events c (e :: events c).

(** [Chain::new]; a validator listed twice keeps its last stake. *)
Definition Chain_new (genesis : Genesis) (machine : Machine) (finalized : Finalized D St) : Chain :=
  MkChain genesis (foldl (λ m v, <[pubkey v := stake v]> m) ∅ (validators genesis)) finalized []
    (Orphans_new (slot_interval genesis * epoch_blocks genesis)) ∅ [] ∅ machine.

Definition finalized_hash (c : Chain) : Multihash := any_hash (fin_underlying (finalized c)).
Definition finalized_height (c : Chain) : Z := any_height (fin_underlying (finalized c)).
Definition finalized_view (c : Chain) : View := state_get (fin_state (finalized c)).

(** ** Stakes *)

(** [total_stake]: the sum over a hash map, at 64 bits. *)
Definition total_stake (c : Chain) : Z :=
  wrap64 (sum_Z (filter (λ p : Pubkey * Z, minimum_stake (limits (genesis c)) ≤ p.2) (map_to_list (stakes c))).*2).

Definition minimum_majority_stake (c : Chain) : Z := majority_of (total_stake c).

Definition epoch (c : Chain) (h : Z) : Z := h / epoch_blocks (genesis c).

Definition confirmed (c : Chain) (v : VolatileBlock D) : bool := minimum_majority_stake c <=? vb_votes v.

(** ** Head *)

(** The order of [sort_by] in [with_head]: by votes, then by depth. *)
Definition head_leb (a b : Ref D) : bool :=
  match vb_votes (value a.1) ?= vb_votes (value b.1) with
  | Lt => true
  | Eq => (depth a <=? depth b)%nat
  | Gt => false
  end.

(** [heads.last()] *)
Definition best_head (c : Chain) : option (Ref D) := last (stable_sort head_leb (tree_head [] <$> forktrees c)).

(** The state on top of which the head's child is built, and the head. *)
Definition with_head (c : Chain) : View * AnyBlock D :=
  match best_head c with
  | Some head => (Overlayed_get (MkOverlayed (finalized_view c) (cascading_get head)),
                  ProducedBlock (underlying (block (value head.1))))
  | None => (finalized_view c, fin_underlying (finalized c))
  end.

(** ** Lookup *)

(** The first root that has the block, with its position. *)
Fixpoint find_root (hash : Multihash) (roots : list (TreeNode D)) : option (nat * Ref D) :=
  match roots with
  | [] => None
  | root :: roots =>
      match tree_get hash [] root with
      | Some r => Some (0%nat, r)
      | None => (λ p, (S p.1, p.2)) <$> find_root hash roots
      end
  end.

Definition get_block_node (c : Chain) (hash : Multihash) : option (AnyBlock D) :=
  match find_root hash (forktrees c) with
  | Some (_, r) => Some (ProducedBlock (underlying (block (value r.1))))
  | None => if bool_decide (finalized_hash c = hash) then Some (fin_underlying (finalized c)) else None
  end.

(** [Chain::get] *)
Definition chain_get (c : Chain) (hash : Multihash) : option (Executed D) :=
  (λ p, block (value p.2.1)) <$> find_root hash (forktrees c).

Definition in_finalized_history (c : Chain) (hash : Multihash) : bool :=
  bool_decide (finalized_hash c = hash)
  || existsb (λ p : Z * gset Multihash, bool_decide (hash ∈ p.2)) (map_to_list (finalized_history c))
  || ((Z.of_nat (size (finalized_history c)) <? max_justification_age (limits (genesis c)))
      && bool_decide (hash = genesis_hash (genesis c))).

(** ** Votes *)

(** Applying [f] to the first root in which it succeeds. *)
Fixpoint update_root (f : TreeNode D → option (TreeNode D)) (roots : list (TreeNode D)) : list (TreeNode D) :=
  match roots with
  | [] => []
  | root :: roots => match f root with Some root' => root' :: roots | None => root :: update_root f roots end
  end.

(** The blocks on a path that a vote confirms: not confirmed before, confirmed
    after it is counted. *)
Definition newly_confirmed (c : Chain) (stake : Z) (voter : Pubkey) (r : Ref D) : list ChainEvent :=
  let unconfirmed := filter (λ s : Ref D, confirmed c (value s.1) = false) (path r) in
  omap (λ s : Ref D, let v := add_vote_to stake voter (value s.1) in
             if confirmed c v then Some (BlockConfirmed (block v) (vb_votes v)) else None) unconfirmed.

Definition injest_vote (vote : Vote) (c : Chain) : Chain :=
  match stakes c !! validator vote with
  | None => c
  | Some stake =>
      if stake <? minimum_stake (limits (genesis c)) then c
      else if negb (Vote_verify_signature vote) then c
      else match find_root (target vote) (forktrees c) with
           | Some (_, r) =>
               if negb (in_finalized_history c (justification vote)) && negb (is_descendant_of r (justification vote))
               then c
               else set_events
                      (set_forktrees c (update_root (tree_add_votes (target vote) stake (validator vote)) (forktrees c)))
                      (events c ++ newly_confirmed c stake (validator vote) r)
           | None => set_orphans c (add_vote vote (chain_orphans c))
           end
  end.

Definition count_votes (votes : list Vote) (c : Chain) : Chain := foldl (λ c v, injest_vote v c) c votes.

(** ** Inclusion *)

(** What [try_include] returns: the block was consumed, it was handed back, or
    the machine rejected it. *)
Inductive Inclusion := Consumed | HandedBack.

Definition try_include (vm_fuel : nat) (b : Produced D) (c : Chain) :
    Outcome (Result MachineError (Inclusion * Chain)) :=
  match get_block_node c (block_hash b) with
  | Some _ => Done (Ok (Consumed, c))
  | None =>
      if bool_decide (parent b = finalized_hash c) then
        if negb (height b =? finalized_height c + 1) then Done (Err InvalidBlockHeight)
        else
          e ←? Executed_new vm_fuel (finalized_view c) b (virtual_machine c);
          Done (Ok (Consumed, push_front (BlockIncluded e)
                      (set_forktrees c (forktrees c ++ [TreeNode_new (Volatile_new e)]))))
      else
        match find_root (parent b) (forktrees c) with
        | Some (_, p) =>
            if negb (height b =? vb_height (value p.1) + 1) then Done (Err InvalidBlockHeight)
            else
              e ←? Executed_new vm_fuel (Overlayed_get (MkOverlayed (finalized_view c) (cascading_get p)))
                     b (virtual_machine c);
              if bool_decide (parent (underlying e) ≠ node_hash p.1) then Panic
              else Done (Ok (Consumed, push_front (BlockIncluded e)
                     (set_forktrees c (update_root (tree_update (parent b) (add_child (Volatile_new e)) id) (forktrees c)))))
        | None => Done (Ok (HandedBack, c))
        end
  end.

(** [commit_and_vote] *)
Definition commit_and_vote (t : Multihash) (c : Chain) : Chain :=
  match find_root t (forktrees c) with
  | None => c
  | Some (_, r) =>
      let e := epoch c (vb_height (value r.1)) in
      let justification_hash := finalized_hash c in
      let target_hash := node_hash r.1 in
      let refused :=
        match ownvotes c !! e with
        | Some (j, t) =>
            (bool_decide (j ≠ justification_hash) && negb (in_finalized_history c j)) || negb (is_descendant_of r t)
        | None => false
        end in
      if refused then c
      else push_front (VoteCast target_hash justification_hash)
             (set_ownvotes c (<[e := (justification_hash, target_hash)]> (ownvotes c)))
  end.

(** The checks at the beginning of [include]. *)
Definition acceptable (b : Produced D) (c : Chain) : bool :=
  match stakes c !! (signature b).1 with
  | None => false
  | Some stake =>
      negb (stake <? minimum_stake (limits (genesis c)))
      && negb (height b <=? finalized_height c)
      && Produced_verify_signature b
  end.

(** Voting for a block that has become the head. *)
Definition vote_if_head (bhash : Multihash) (c : Chain) : Chain :=
  if bool_decide (bhash = any_hash (with_head c).2) then commit_and_vote bhash c else c.

(** Including a list of blocks one after the other. *)
Definition include_each (f : Produced D → Chain → Outcome Chain) : list (Produced D) → Chain → Outcome Chain :=
  fix go bs c := match bs with [] => Done c | b :: bs => c ← f b c; go bs c end.

(** [include]: [fuel] bounds the nesting of inclusions of orphans. *)
Fixpoint include (fuel vm_fuel : nat) (now : Z) (b : Produced D) (c : Chain) : Outcome Chain :=
  match fuel with
  | O => OutOfFuel
  | S fuel =>
      if negb (acceptable b c) then Done c
      else
        r ← try_include vm_fuel b c;
        match r with
        | Ok (Consumed, c) =>
            let c := vote_if_head (block_hash b) c in
            let '(found, o) := consume_blocks (block_hash b) (chain_orphans c) in
            let c := set_orphans c o in
            match found with
            | Some orphans => include_each (include fuel vm_fuel now) orphans c
            | None => Done c
            end
        | Ok (HandedBack, c) => Done (set_orphans c (add_block now b (chain_orphans c)))
        | Err _ => Done c
        end
  end.

(** ** Finality *)

(** The checkpoint before a reference: the start of the epoch of its parent. *)
Definition previous_checkpoint (c : Chain) (r : Ref D) : option (Ref D) :=
  epoch_start (epoch_blocks (genesis c)) <$> path r !! 1%nat.

Definition finalizable (c : Chain) (root : TreeNode D) : bool :=
  (minimum_majority_stake c <=? vb_votes (value root)) &&
  let head := tree_head [] root in
  let head_epoch_start := epoch_start (epoch_blocks (genesis c)) head in
  match previous_checkpoint c head_epoch_start with
  | Some first_checkpoint =>
      (minimum_majority_stake c <=? vb_votes (value first_checkpoint.1)) &&
      match previous_checkpoint c first_checkpoint with
      | Some second_checkpoint => minimum_majority_stake c <=? vb_votes (value second_checkpoint.1)
      | None => false
      end
  | None => false
  end.

Definition find_finalizable_root (c : Chain) : option nat := find_index (finalizable c) (forktrees c).

(** The events of the discarded trees: each is pushed in front of the others. *)
Definition discard_events (evs : list ChainEvent) (n : TreeNode D) : list ChainEvent :=
  foldl (λ evs m, BlockDiscarded (underlying (block (value m))) :: evs) evs (tree_nodes n).

Definition finalize_root (subtree : TreeNode D) (c : Chain) : Outcome Chain :=
  f ← Finalized_apply (finalized c) (block (value subtree));
  let discarded := filter (λ t, node_hash t ≠ node_hash subtree) (forktrees c) in
  mret (set_forktrees (set_events (set_finalized c f) (foldl discard_events (events c) discarded)) (children subtree)).

(** [try_finalize_roots]: whether a root was finalized. *)
Definition try_finalize_roots (c : Chain) : Outcome (bool * Chain) :=
  match find_finalizable_root c with
  | None => Done (false, c)
  | Some index =>
      match forktrees c !! index with
      | None => Panic
      | Some subtree =>
          let c := set_forktrees c (delete index (forktrees c)) in
          c ← finalize_root subtree c;
          let c := set_ownvotes c (delete (epoch c (vb_height (value subtree))) (ownvotes c)) in
          mret (true, push_front (BlockFinalized (block (value subtree)) (vb_votes (value subtree))) c)
      end
  end.

(** [while self.try_finalize_roots() {}] *)
Fixpoint finalize_loop (fuel : nat) (c : Chain) : Outcome Chain :=
  match fuel with
  | O => OutOfFuel
  | S fuel =>
      r ← try_finalize_roots c;
      if r.1 : bool then finalize_loop fuel r.2 else Done r.2
  end.

(** The number of volatile blocks: enough fuel for the loop above. *)
Definition forest_size (c : Chain) : nat := list_sum (map tree_size (forktrees c)).

(** ** Reactions to events *)

Definition post_block_included (now : Z) (b : Produced D) (c : Chain) : Outcome Chain :=
  let c := count_votes (votes b) c in
  let '(late, o) := consume_votes (block_hash b) (chain_orphans c) in
  let c := count_votes (default [] late) (set_orphans c o) in
  c ← finalize_loop (S (forest_size c)) c;
  let '(missing, o) := missing_blocks now (finalized_height c) (chain_orphans c) in
  mret (foldl (λ c m, push_front (BlockMissing m) c) (set_orphans c o) missing).

Definition post_block_finalized (b : Produced D) (c : Chain) : Chain :=
  let e := epoch c (finalized_height c) in
  let history := <[e := {[block_hash b]} ∪ default ∅ (finalized_history c !! e)]> (finalized_history c) in
  let window := max_justification_age (limits (genesis c)) in
  set_history c (filter (λ p : Z * gset Multihash, saturating_sub e window ≤ p.1) history).

(** [poll_next]: the last event of the queue, after the chain reacted to it. *)
Definition poll_next (now : Z) (c : Chain) : Outcome (option ChainEvent * Chain) :=
  match last (events c) with
  | None => Done (None, c)
  | Some event =>
      let c := set_events c (removelast (events c)) in
      c ← match event with
          | BlockIncluded e => post_block_included now (underlying e) c
          | _ => Done c
          end;
      let c := match event with BlockFinalized e _ => post_block_finalized (underlying e) c | _ => c end in
      mret (Some event, c)
  end.
End chain.
