(* ===== verification/Majority.v ===== *)
(** * The supermajority, computed with doubles

    [minimum_majority_stake] multiplies the total stake by 0.67 in floating point
    and rounds up. The bounds here follow the roundings of the conversion and of
    the multiplication, for every total of 64 bits. *)
From S2P Require Import Prelude Primitives Chain.
From Stdlib Require Import Floats.SpecFloat.

(** ** Shifts *)

Lemma digits2_log2 p : Z.pos (digits2_pos p) = Z.log2 (Z.pos p) + 1.
Proof. induction p as [p IH|p IH|]; [| |done]; cbn [digits2_pos]; rewrite Pos2Z.inj_succ, IH; destruct p; simpl; lia. Qed.

Lemma shr_1_half mrs : 0 ≤ shr_m mrs → shr_m (shr_1 mrs) = shr_m mrs / 2.
Proof.
  destruct mrs as [[|[p|p|]|p] r s]; cbn [shr_1 shr_m]; intros Hm; [done| | |done|lia].
  - rewrite Pos2Z.inj_xI. apply (Z.div_unique _ _ _ 1); lia.
  - rewrite Pos2Z.inj_xO. apply (Z.div_unique _ _ _ 0); lia.
Qed.

Lemma iter_shr_1 p mrs : 0 ≤ shr_m mrs → shr_m (SpecFloat.iter_pos shr_1 p mrs) = shr_m mrs / 2 ^ Z.pos p.
Proof.
  assert (∀ z k, 0 ≤ z → 0 ≤ k → 0 ≤ z / 2 ^ k) as Hnn by (intros; apply Z.div_pos; lia).
  revert mrs. induction p as [p IH|p IH|]; intros mrs Hm; cbn [SpecFloat.iter_pos].
  - assert (shr_m (shr_1 mrs) = shr_m mrs / 2 ^ 1) as H1 by by apply shr_1_half.
    assert (0 ≤ shr_m (shr_1 mrs)) as H2 by (rewrite H1; auto with lia).
    pose proof (IH _ H2) as H3. rewrite IH, H3, H1, !Z.div_div, <-!Z.pow_add_r by (rewrite ?H3; auto with lia). do 2 f_equal. lia.
  - pose proof (IH _ Hm) as H3. rewrite IH, H3, Z.div_div, <-Z.pow_add_r by (rewrite ?H3; auto with lia). do 2 f_equal. lia.
  - by apply shr_1_half.
Qed.

(** The bits that are shifted out of a mantissa of 53 bits. *)
Definition excess (mx : Z) : Z := Z.max 0 (Z.log2 mx - 52).

Lemma shr_fexp_excess mx ex l :
  0 < mx → -1000 ≤ ex →
  shr_m (shr_fexp 53 1024 mx ex l).1 = mx / 2 ^ excess mx ∧ (shr_fexp 53 1024 mx ex l).2 = ex + excess mx ∧
  (excess mx = 0 → (shr_fexp 53 1024 mx ex l).1 = shr_record_of_loc mx l).
Proof.
  intros Hm He. unfold shr_fexp, SpecFloat.fexp, SpecFloat.emin, excess. destruct mx as [|p|]; try lia.
  cbn [Zdigits2]. rewrite digits2_log2. pose proof (Z.log2_nonneg (Z.pos p)).
  replace (Z.max (Z.log2 (Z.pos p) + 1 + ex - 53) (3 - 1024 - 53) - ex) with (Z.max (Z.log2 (Z.pos p) - 52) (-1074 - ex)) by lia.
  assert (shr_m (shr_record_of_loc (Z.pos p) l) = Z.pos p) as Hrec by by destruct l as [|[]].
  destruct (Z.max_spec (Z.log2 (Z.pos p) - 52) (-1074 - ex)) as [[? ->]|[? ->]].
  - rewrite Z.max_l by lia. unfold shr. destruct (-1074 - ex) eqn:E; try lia; cbn [fst snd]; rewrite Hrec, Z.div_1_r; auto with lia.
  - destruct (Z.log2 (Z.pos p) - 52) as [|k|k] eqn:E; unfold shr; cbn [fst snd].
    + rewrite Hrec, Z.div_1_r. auto with lia.
    + rewrite iter_shr_1 by (rewrite Hrec; lia). rewrite Hrec, Z.max_r by lia. split_and!; [done|done|lia].
    + rewrite Hrec, Z.div_1_r, Z.max_l by lia. auto with lia.
Qed.

Lemma round_nearest_even_bounds mx l : mx ≤ round_nearest_even mx l ≤ mx + 1.
Proof. unfold round_nearest_even. destruct l as [|[]]; repeat case_match; lia. Qed.

(** ** One rounding *)

(** Values are compared after scaling by [2 ^ 200]. *)
Definition scaled (m e : Z) : Z := m * 2 ^ (e + 200).

(** [w] is [v] up to one part in [2 ^ 52]. *)
Definition near (v w : Z) : Prop := v * (2 ^ 52 - 1) ≤ w * 2 ^ 52 ≤ v * (2 ^ 52 + 1).

Lemma scaled_shift m e k : -200 ≤ e → 0 ≤ k → scaled m (e + k) = scaled (m * 2 ^ k) e.
Proof. intros. unfold scaled. replace (e + k + 200) with (k + (e + 200)) by lia. rewrite Z.pow_add_r by lia. lia. Qed.

Lemma scaled_near m m' e : near m m' → near (scaled m e) (scaled m' e).
Proof. unfold near, scaled. intros. pose proof (Z.pow_nonneg 2 (e + 200)). nia. Qed.

Lemma excess_small mx : 0 < mx → excess mx = 0 → mx < 2 ^ 53.
Proof.
  unfold excess. intros Hm Hk. destruct (Z.log2_spec mx Hm) as [_ Hlt]. eapply Z.lt_le_trans; [exact Hlt|].
  apply Z.pow_le_mono_r; lia.
Qed.

Lemma excess_mantissa mx : 0 < mx → 0 < excess mx → 2 ^ 52 ≤ mx / 2 ^ excess mx < 2 ^ 53.
Proof.
  unfold excess. intros Hm Hk. destruct (Z.log2_spec mx Hm) as [Hle Hlt].
  assert (Z.max 0 (Z.log2 mx - 52) = Z.log2 mx - 52) as -> by lia. set (k := Z.log2 mx - 52) in *.
  replace (Z.succ (Z.log2 mx)) with (53 + k) in Hlt by lia. replace (Z.log2 mx) with (52 + k) in Hle by lia.
  rewrite Z.pow_add_r in * by lia. split; [apply Z.div_le_lower_bound|apply Z.div_lt_upper_bound]; lia.
Qed.

(** The second normalization: the mantissa is at most [2 ^ 53]. *)
Lemma renormalize r e :
  0 < r ≤ 2 ^ 53 → -200 ≤ e →
  ∃ m e', (shr_m (shr_fexp 53 1024 r e loc_Exact).1 = Z.pos m) ∧ (shr_fexp 53 1024 r e loc_Exact).2 = e' ∧
    e ≤ e' ≤ e + 1 ∧ Z.pos m ≤ 2 ^ 53 ∧ scaled (Z.pos m) e' = scaled r e.
Proof.
  intros Hr He. destruct (shr_fexp_excess r e loc_Exact) as (-> & -> & _); [lia..|].
  destruct (Z.eq_dec r (2 ^ 53)) as [->|Hne].
  - exists (2 ^ 52)%positive. eexists. split_and!; try done; [change (excess _) with 1; lia..|].
    change (excess _) with 1. rewrite scaled_shift by lia. done.
  - assert (excess r = 0) as ->.
    { unfold excess. assert (Z.log2 r < 53) by (apply Z.log2_lt_pow2; lia). lia. }
    rewrite Z.div_1_r. destruct r as [|m|]; try lia. exists m. eexists. split_and!; [done|done|lia..|]. f_equal. lia.
Qed.

Lemma round_aux_near mx ex :
  0 < mx → -200 ≤ ex ≤ 100 → excess mx ≤ 200 →
  ∃ m e, binary_round_aux 53 1024 false mx ex loc_Exact = S754_finite false m e ∧
    ex ≤ e ≤ ex + excess mx + 1 ∧ Z.pos m ≤ 2 ^ 53 ∧ near (scaled mx ex) (scaled (Z.pos m) e).
Proof.
  intros Hm He Hk. unfold binary_round_aux. destruct (shr_fexp_excess mx ex loc_Exact) as (Hq & He' & Hexact); [lia..|].
  destruct (shr_fexp 53 1024 mx ex loc_Exact) as [mrs e']. cbn [fst snd] in *. rewrite Hq. subst e'.
  set (k := excess mx) in *. assert (0 ≤ k) by (unfold k, excess; lia).
  set (r := round_nearest_even (mx / 2 ^ k) (loc_of_shr_record mrs)).
  assert (0 < r ≤ 2 ^ 53 ∧ near mx (r * 2 ^ k)) as [Hr Hnear].
  { destruct (Z.eq_dec k 0) as [Hk0|Hk0].
    - pose proof (excess_small mx Hm Hk0). subst r. rewrite (Hexact Hk0), Hk0, Z.div_1_r. simpl. unfold near. lia.
    - pose proof (excess_mantissa mx Hm) as Hman. fold k in Hman. specialize (Hman ltac:(lia)).
      pose proof (round_nearest_even_bounds (mx / 2 ^ k) (loc_of_shr_record mrs)) as Hr. fold r in Hr. split; [lia|].
      pose proof (Z.mul_div_le mx (2 ^ k)). pose proof (Z.mul_succ_div_gt mx (2 ^ k)). unfold near. nia. }
  destruct (renormalize r (ex + k) Hr) as (m & e & Hm' & He' & Hbound & Hmax & Hs); [lia|].
  destruct (shr_fexp 53 1024 r (ex + k) loc_Exact) as [mrs' e'']. cbn [fst snd] in *. rewrite Hm', He'.
  rewrite (proj2 (Z.leb_le _ _)) by lia. exists m, e. split_and!; [done|lia|lia|done|].
  rewrite Hs, scaled_shift by lia. by apply scaled_near.
Qed.

(** ** The conversion, the product and the ceiling *)

Lemma log2_u64 x : 0 < x ≤ u64_max → 0 ≤ Z.log2 x ≤ 63.
Proof.
  intros Hx. split; [apply Z.log2_nonneg|]. apply Z.lt_succ_r, Z.log2_lt_pow2; [lia|]. unfold u64_max in Hx. lia.
Qed.

Lemma iter_xO p k : Z.pos (Pos.iter xO p k) = Z.pos p * 2 ^ Z.pos k.
Proof. change (Pos.iter xO p k) with (shift_pos k p). rewrite shift_pos_correct. apply Z.mul_comm. Qed.

Lemma f64_of_u64_near x :
  0 < x ≤ u64_max →
  ∃ m e, f64_of_u64 x = S754_finite false m e ∧ -60 ≤ e ≤ 60 ∧ Z.pos m ≤ 2 ^ 53 ∧ near (scaled x 0) (scaled (Z.pos m) e).
Proof.
  intros Hx. pose proof (log2_u64 x Hx) as Hlog. destruct x as [|p|]; try lia.
  unfold f64_of_u64, binary_normalize, binary_round, SpecFloat.fexp, SpecFloat.emin, shl_align.
  rewrite digits2_log2. rewrite Z.max_l by lia. destruct (Z.log2 (Z.pos p) + 1 + 0 - 53 - 0) as [|k|k] eqn:E.
  1, 2: destruct (round_aux_near (Z.pos p) 0) as (m & e & -> & He & Hm & Hn); [lia|lia|unfold excess; lia|];
    exists m, e; unfold excess in He; split_and!; try done; lia.
  assert (Z.log2 (Z.pos (Pos.iter xO p k)) = 52) as Hl.
  { rewrite iter_xO, Z.log2_mul_pow2 by lia. lia. }
  assert (excess (Z.pos (Pos.iter xO p k)) = 0) as Hex by (unfold excess; lia).
  replace (Z.log2 (Z.pos p) + 1 + 0 - 53) with (Z.neg k) by lia.
  destruct (round_aux_near (Z.pos (Pos.iter xO p k)) (Z.neg k)) as (m & e & -> & He & Hm & Hn); [lia|lia|lia|].
  exists m, e. split_and!; [done|lia|lia|done|]. rewrite iter_xO, <-scaled_shift in Hn by lia. 
  replace (Z.neg k + Z.pos k) with 0 in Hn by lia. exact Hn.
Qed.

Lemma ceil_bounds m e :
  -200 ≤ e →
  ∃ z, f64_ceil_as_u64 (S754_finite false m e) = Z.min u64_max z ∧ (z - 1) * 2 ^ 200 < scaled (Z.pos m) e ≤ z * 2 ^ 200.
Proof.
  intros He. cbn [f64_ceil_as_u64]. eexists. split; [done|]. unfold scaled. destruct (Z.leb_spec 0 e) as [Hp|Hneg].
  - rewrite Z.pow_add_r by lia. nia.
  - replace (2 ^ 200) with (2 ^ (e + 200) * 2 ^ (- e)) by (rewrite <-Z.pow_add_r by lia; f_equal; lia).
    pose proof (Z.mul_div_le (- Z.pos m) (2 ^ (- e))). pose proof (Z.mul_succ_div_gt (- Z.pos m) (2 ^ (- e))).
    assert (0 < 2 ^ (e + 200)) by lia. assert (0 < 2 ^ (- e)) by lia. nia.
Qed.

(** The product before it is rounded up. *)
Lemma product_near x :
  0 < x ≤ u64_max →
  ∃ m e w, SFmul 53 1024 (f64_of_u64 x) f64_067 = S754_finite false m e ∧ -200 ≤ e ∧
    near (scaled x 0) w ∧ near (w * 6034823500676465) (scaled (Z.pos m) e * 2 ^ 53).
Proof.
  intros Hx. destruct (f64_of_u64_near x Hx) as (m1 & e1 & -> & He1 & Hm1 & Hn1).
  change f64_067 with (S754_finite false 6034823500676465 (-53)). cbn [SFmul xorb].
  destruct (round_aux_near (Z.pos (m1 * 6034823500676465)) (e1 + -53)) as (m & e & -> & He & Hm & Hn); [lia|lia| |].
  { unfold excess. assert (Z.log2 (Z.pos (m1 * 6034823500676465)) < 252); [|lia]. apply Z.log2_lt_pow2; lia. }
  exists m, e, (scaled (Z.pos m1) e1). split_and!; [done|lia|done|].
  assert (scaled (Z.pos m1) e1 * 6034823500676465 = scaled (Z.pos (m1 * 6034823500676465)) (e1 + -53) * 2 ^ 53) as ->.
  { unfold scaled. replace (e1 + 200) with ((e1 + -53 + 200) + 53) by lia. rewrite (Z.pow_add_r 2 _ 53), Pos2Z.inj_mul by lia. lia. }
  unfold near in *. lia.
Qed.

Lemma majority_bounds total : 0 < total ≤ u64_max → 2 * total < 3 * majority_of total ∧ majority_of total ≤ total.
Proof.
  intros Hx. unfold majority_of. destruct (product_near total Hx) as (m & e & w & -> & He & Hw & Hv).
  destruct (ceil_bounds m e He) as (z & -> & Hz). unfold near in *. unfold u64_max in *.
  assert (scaled total 0 = total * 2 ^ 200) as Ht by done. lia.
Qed.
