(* ===== verification/ChainExample.v ===== *)
(** * A chain to evaluate the model on

    Blocks that carry strings and execute to nothing (the instance that the
    tests of the code use), one validator, epochs of one block, and three blocks
    in a row, of which the last two carry the validator's votes. *)
From S2P Require Import Prelude Primitives State Transaction Contract Block Machine VmExample Execution ForkTree Orphans Chain.
Import VmExample.

#[export] Instance string_block_data : BlockData string := {|
  data_default := "";
  data_bincode := String.list_byte_of_string
|}.

#[export] Instance string_executable : Executable string := {|
  execute _ _ _ _ := Done (Ok (MkBlockOutput sd_default [] []))
|}.

#[export] Instance gmap_store : StateStore (gmap bytes bytes) := PersistentState_store.

Module ChainExample.
Definition key : @Keypair toy_crypto := toy_key 3.
Definition toy_chain_genesis : Genesis :=
  MkGenesis "toy" 0 1000 1 toy_limits [] [MkValidator (array32_of_Z 3) 10; MkValidator (array32_of_Z 5) 1] (array32_of_Z 1) ∅.
Abbreviation ToyChain := (@Chain toy_crypto string (gmap bytes bytes)).

Definition empty_hash : Multihash := block_output_hash (MkBlockOutput sd_default [] []).
Definition vote_for (b : Produced string) : Vote := Vote_new key (block_hash b) (genesis_hash toy_chain_genesis).
Definition next_block (h : Z) (p : Multihash) (vs : list Vote) : Produced string :=
  Produced_new key h p "data" empty_hash vs.

Definition b1 : Produced string := next_block 1 (genesis_hash toy_chain_genesis) [].
Definition b2 : Produced string := next_block 2 (block_hash b1) [vote_for b1].
Definition b3 : Produced string := next_block 3 (block_hash b2) [vote_for b2].

Definition c0 : ToyChain := Chain_new toy_chain_genesis toy_vm (MkFinalized (GenesisBlock toy_chain_genesis) ∅).

Definition include_block (b : Produced string) (c : ToyChain) : ToyChain := done_or (include 10 1 0 b c) c.
Definition poll (c : ToyChain) : ToyChain := (done_or (poll_next 0 c) (None, c)).2.

(** The three blocks were received, the last one first; no event was taken. *)
Definition c1 : ToyChain := include_block b1 (include_block b2 (include_block b3 c0)).
(** Five events later the votes of the second block are counted, and the third
    block's after seven: then the first block is finalized. *)
Definition c2 : ToyChain := poll (poll (poll c1)).
Definition c3 : ToyChain := poll (poll (poll c2)).
End ChainExample.
