(* ===== verification/ChainProps.v ===== *)
(** * Invariants of the consensus state machine *)
From S2P Require Import Prelude Primitives State Transaction Contract Block Machine Execution ForkTree ForkTreeProps Orphans OrphansProps Chain.

Section chain.
Context `{Crypto} `{WasmRuntime} {D : Type} `{BlockData D} `{!Executable D} {St : Type} `{StateStore St}.
Abbreviation Chain := (@Chain _ D St).
Implicit Types (c : Chain) (b : Produced D) (e : Executed D) (t n : TreeNode D) (v w : VolatileBlock D).

(** ** The forest *)

Definition forest_blocks c : list (Executed D) := concat (tree_blocks <$> forktrees c).

Definition executed_hash e : Multihash := block_hash (underlying e).

(** The validators that may vote and propose, with their stakes. *)
Definition eligible c : gmap Pubkey Z := filter (λ p, minimum_stake (limits (genesis c)) ≤ p.2) (stakes c).

(** A block that was checked before it entered the forest: an eligible
    validator signed it and executing it gave the state it declares. *)
Definition validated c e : Prop :=
  Produced_verify_signature (underlying e) = true ∧
  is_Some (eligible c !! (signature (underlying e)).1) ∧
  block_output_hash (output e) = state_hash (underlying e).

(** The root of a tree continues the finalized chain. *)
Definition root_ok c t : Prop :=
  vb_parent (value t) = finalized_hash c ∧ vb_height (value t) = finalized_height c + 1.

Record chain_wf c : Prop := {
  wf_trees : Forall (tree_wf (eligible c)) (forktrees c);
  wf_roots : Forall (root_ok c) (forktrees c);
  wf_unique : NoDup (executed_hash <$> forest_blocks c);
  wf_validated : Forall (validated c) (forest_blocks c);
  wf_fresh : finalized_hash c ∉ executed_hash <$> forest_blocks c
}.

(** Everything the invariant speaks about, apart from the queues. *)
Definition same_core c c' : Prop :=
  genesis c' = genesis c ∧ stakes c' = stakes c ∧ finalized c' = finalized c ∧ forktrees c' = forktrees c.

Lemma same_core_wf c c' : same_core c c' → chain_wf c → chain_wf c'.
Proof.
  destruct c, c'. intros (Hg & Hs & Hf & Ht) [W1 W2 W3 W4 W5]. simpl in *. subst. by split.
Qed.

(** *** Permutations of the forest's blocks *)

Lemma update_root_blocks (f : TreeNode D → option (TreeNode D)) (new : list (Executed D)) roots :
  (∀ t t', f t = Some t' → tree_blocks t' ≡ₚ new ++ tree_blocks t) → (∃ t, t ∈ roots ∧ is_Some (f t)) →
  concat (tree_blocks <$> update_root f roots) ≡ₚ new ++ concat (tree_blocks <$> roots).
Proof.
  intros Hf. induction roots as [|t roots IH]; intros (t0 & Hin & Hs); [by apply not_elem_of_nil in Hin|].
  cbn [update_root]. destruct (f t) as [t'|] eqn:E.
  - rewrite !fmap_cons. simpl. rewrite (Hf _ _ E). solve_Permutation.
  - rewrite !fmap_cons. simpl. rewrite IH; [solve_Permutation|].
    apply elem_of_cons in Hin as [->|Hin]; [by rewrite E in Hs; destruct Hs|by exists t0].
Qed.

Lemma update_root_forall (P : TreeNode D → Prop) (f : TreeNode D → option (TreeNode D)) roots :
  (∀ t t', t ∈ roots → P t → f t = Some t' → P t') → Forall P roots → Forall P (update_root f roots).
Proof.
  induction roots as [|t roots IH]; intros Hf Hall; [done|]. apply Forall_cons in Hall as [Ht Hall].
  cbn [update_root]. destruct (f t) as [t'|] eqn:E; constructor; try done.
  - eapply Hf; [by left|done|done].
  - apply IH; [|done]. intros x x' Hx. apply Hf. by right.
Qed.

(** *** Finding roots *)

Lemma find_root_some hash (roots : list (TreeNode D)) i (r : Ref D) :
  find_root hash roots = Some (i, r) →
  ∃ t, roots !! i = Some t ∧ tree_get hash [] t = Some r.
Proof.
  revert i. induction roots as [|t roots IH]; intros i; [done|]. cbn [find_root].
  destruct (tree_get hash [] t) eqn:E; [intros [= <- <-]; by exists t|].
  destruct (find_root hash roots) as [[j r']|]; [|done]. intros [= <- <-]. by apply IH.
Qed.

Lemma find_root_none hash (roots : list (TreeNode D)) :
  find_root hash roots = None → ∀ t m, t ∈ roots → m ∈ tree_nodes t → node_hash m ≠ hash.
Proof.
  induction roots as [|t roots IH]; intros Hn t0 m Hin Hm; [by apply not_elem_of_nil in Hin|].
  cbn [find_root] in Hn. destruct (tree_get hash [] t) eqn:E; [done|].
  destruct (find_root hash roots) eqn:F; [done|].
  apply elem_of_cons in Hin as [->|Hin]; [|by eapply IH]. by eapply tree_get_none in E.
Qed.

Lemma elem_of_forest e c : e ∈ forest_blocks c ↔ ∃ t m, t ∈ forktrees c ∧ m ∈ tree_nodes t ∧ block (value m) = e.
Proof.
  unfold forest_blocks. rewrite list_elem_of_In, in_concat. split.
  - intros (l & Hl & He). apply list_elem_of_In, list_elem_of_fmap in Hl as (t & -> & Ht).
    apply list_elem_of_In, elem_of_tree_blocks in He as (m & Hm & <-). eauto.
  - intros (t & m & Ht & Hm & <-). exists (tree_blocks t). rewrite <-!list_elem_of_In. split.
    + apply list_elem_of_fmap. eauto.
    + apply elem_of_tree_blocks. eauto.
Qed.

(** A reference found in the forest. *)
Lemma find_root_ref hash c i (r : Ref D) :
  find_root hash (forktrees c) = Some (i, r) →
  ∃ t, forktrees c !! i = Some t ∧ r.1 ∈ tree_nodes t ∧ node_hash r.1 = hash ∧ chained r.1 r.2.
Proof.
  intros (t & Ht & Hr)%find_root_some. destruct (tree_get_some hash t [] r I Hr) as (Hh & Hin & Hch). eauto.
Qed.

Lemma find_root_update hash (roots : list (TreeNode D)) i (r : Ref D) f g :
  find_root hash roots = Some (i, r) → ∃ t, t ∈ roots ∧ is_Some (tree_update hash f g t).
Proof.
  intros (t & Ht & Hr)%find_root_some. exists t. split; [by eapply list_elem_of_lookup_2|].
  destruct (tree_update hash f g t) eqn:E; [eauto|]. exfalso.
  apply tree_get_some in Hr as (Hh & Hin & _); [|done]. rewrite tree_update_none in E. by apply (E r.1).
Qed.

Lemma not_in_forest hash c : find_root hash (forktrees c) = None → hash ∉ executed_hash <$> forest_blocks c.
Proof.
  intros Hn (e & -> & He)%list_elem_of_fmap. apply elem_of_forest in He as (t & m & Ht & Hm & <-).
  by eapply find_root_none in Hn.
Qed.

(** ** Voting *)

Lemma eligible_lookup c p stake :
  stakes c !! p = Some stake → minimum_stake (limits (genesis c)) ≤ stake → eligible c !! p = Some stake.
Proof. intros Hs Hm. apply map_lookup_filter_Some. done. Qed.

Lemma injest_vote_wf vote c : chain_wf c → chain_wf (injest_vote vote c).
Proof.
  intros Hwf. unfold injest_vote. destruct (stakes c !! validator vote) as [stake|] eqn:Hs; [|done].
  destruct (Z.ltb_spec stake (minimum_stake (limits (genesis c)))) as [|Hmin]; [done|].
  destruct (negb (Vote_verify_signature vote)); [done|].
  destruct (find_root (target vote) (forktrees c)) as [[i r]|] eqn:Hr; [|by apply (same_core_wf c)].
  destruct (_ && _); [done|]. pose proof (eligible_lookup _ _ _ Hs Hmin) as Hel. destruct Hwf as [W1 W2 W3 W4 W5].
  assert (concat (tree_blocks <$> update_root (tree_add_votes (target vote) stake (validator vote)) (forktrees c))
    ≡ₚ forest_blocks c) as Hperm.
  { apply (update_root_blocks _ []); [intros t t' Ht; by apply tree_add_votes_blocks in Ht|].
    by eapply find_root_update. }
  split; unfold forest_blocks in *; simpl.
  - apply update_root_forall; [|done]. intros t t' _ Ht Hup. by eapply tree_add_votes_wf.
  - rewrite Forall_forall in W1. apply update_root_forall; [|done]. intros t t' Hin [Hp Hh] Hup.
    apply (tree_add_votes_wf (eligible c)) in Hup as [_ Hv]; [|done|by apply W1].
    unfold root_ok, vb_parent, vb_height in *. rewrite Hv, add_vote_to_block. done.
  - by rewrite Hperm.
  - rewrite Hperm. exact W4.
  - rewrite Hperm. exact W5.
Qed.

Lemma injest_vote_core vote c :
  genesis (injest_vote vote c) = genesis c ∧ stakes (injest_vote vote c) = stakes c ∧
  finalized (injest_vote vote c) = finalized c.
Proof. unfold injest_vote. repeat (case_match; try done). Qed.

Lemma count_votes_wf vs c : chain_wf c → chain_wf (count_votes vs c).
Proof. unfold count_votes. revert c. induction vs as [|v vs IH]; intros c Hwf; [done|]. simpl. by apply IH, injest_vote_wf. Qed.

Lemma commit_and_vote_core hash c : same_core c (commit_and_vote hash c).
Proof. unfold commit_and_vote. repeat (case_match; try done). Qed.

(** ** Inclusion *)

Lemma Executed_new_inv fuel (st : View) b m e :
  Executed_new fuel st b m = Done (Ok e) →
  underlying e = b ∧ block_output_hash (output e) = state_hash b ∧
  execute fuel m st (block_data b) = Done (Ok (output e)).
Proof.
  unfold Executed_new. intros He. apply try_bind_ok in He as (o & Ho & He). apply (inj Done) in He.
  case_bool_decide as Hh; [|done]. by injection He as <-.
Qed.

Lemma acceptable_inv b c :
  acceptable b c = true →
  is_Some (eligible c !! (signature b).1) ∧ finalized_height c < height b ∧ Produced_verify_signature b = true.
Proof.
  unfold acceptable. destruct (stakes c !! (signature b).1) as [stake|] eqn:Hs; [|done].
  intros [[Hm Hh]%andb_true_iff Hsig]%andb_true_iff. apply negb_true_iff in Hm, Hh.
  apply Z.ltb_ge in Hm. apply Z.leb_gt in Hh. split_and!; [|done|done].
  exists stake. by apply eligible_lookup.
Qed.

Lemma chain_wf_add_block c e roots' evs :
  chain_wf c → validated c e → executed_hash e ∉ executed_hash <$> forest_blocks c → executed_hash e ≠ finalized_hash c →
  Forall (tree_wf (eligible c)) roots' → Forall (root_ok c) roots' →
  concat (tree_blocks <$> roots') ≡ₚ e :: forest_blocks c →
  chain_wf (set_events (set_forktrees c roots') evs).
Proof.
  intros [W1 W2 W3 W4 W5] He Hnew Hfin Ht Hr Hperm. split; unfold forest_blocks in *; simpl; [done|done|..].
  - rewrite Hperm. simpl. by constructor.
  - rewrite Hperm. by constructor.
  - rewrite Hperm. change (finalized_hash c ∉ executed_hash e :: (executed_hash <$> forest_blocks c)).
    rewrite not_elem_of_cons. done.
Qed.

Lemma height_in_forest c t m m' :
  chain_wf c → t ∈ forktrees c → m ∈ tree_nodes t → (∃ t', t' ∈ forktrees c ∧ m' ∈ tree_nodes t') →
  node_hash m = node_hash m' → vb_height (value m) = vb_height (value m').
Proof.
  intros Hwf Ht Hm (t' & Ht' & Hm') Hh. unfold vb_height.
  assert (block (value m) ∈ forest_blocks c) as [i Hi]%list_elem_of_lookup by (apply elem_of_forest; eauto).
  assert (block (value m') ∈ forest_blocks c) as [j Hj]%list_elem_of_lookup by (apply elem_of_forest; eauto).
  assert (i = j) as ->; [|rewrite Hi in Hj; injection Hj as Heq; by rewrite Heq].
  eapply (NoDup_lookup _ i j (node_hash m) (wf_unique c Hwf)); rewrite list_lookup_fmap; [rewrite Hi|rewrite Hj, Hh]; done.
Qed.

Lemma try_include_wf vm_fuel b c i c' :
  chain_wf c → acceptable b c = true → try_include vm_fuel b c = Done (Ok (i, c')) →
  chain_wf c' ∧ genesis c' = genesis c ∧ stakes c' = stakes c ∧ finalized c' = finalized c.
Proof.
  intros Hwf (Hel & Hheight & Hsig)%acceptable_inv. unfold try_include.
  destruct (get_block_node c (block_hash b)) eqn:Hdup; [by intros [= <- <-]|].
  assert (find_root (block_hash b) (forktrees c) = None ∧ block_hash b ≠ finalized_hash c) as [Hnew Hfin].
  { unfold get_block_node in Hdup. destruct (find_root (block_hash b) (forktrees c)) as [[]|]; [done|].
    case_bool_decide; [done|]. split; [done|congruence]. }
  apply not_in_forest in Hnew.
  case_bool_decide as Hparent.
  - destruct (Z.eqb_spec (height b) (finalized_height c + 1)) as [Hh|]; simpl; [|done].
    intros Hok. apply try_bind_ok in Hok as (e & He & Hok). apply (inj Done) in Hok. injection Hok as _ <-.
    apply Executed_new_inv in He as (Hu & Hst & _). split; [|done].
    apply (chain_wf_add_block c e); [done|by unfold validated; rewrite Hu|by unfold executed_hash; rewrite Hu|by unfold executed_hash; rewrite Hu| | |].
    + apply Forall_app. split; [apply Hwf|]. constructor; [|constructor]. apply tree_wf_node.
      split_and!; [|constructor|constructor]. split; [set_solver|done].
    + apply Forall_app. split; [apply Hwf|]. constructor; [|constructor].
      unfold root_ok, vb_parent, vb_height. simpl. by rewrite Hu.
    + rewrite fmap_app, concat_app. simpl. unfold forest_blocks, tree_blocks. simpl. solve_Permutation.
  - destruct (find_root (parent b) (forktrees c)) as [[k p]|] eqn:Hp; [|by intros [= <- <-]].
    destruct (Z.eqb_spec (height b) (vb_height (value p.1) + 1)) as [Hh|]; simpl; [|done].
    intros Hok. apply try_bind_ok in Hok as (e & He & Hok). case_bool_decide as Hassert; [done|].
    apply (inj Done) in Hok. injection Hok as _ <-.
    apply Executed_new_inv in He as (Hu & Hst & _). split; [|done].
    destruct (find_root_ref _ _ _ _ Hp) as (t0 & Ht0 & Hin0 & Hh0 & _).
    assert (∀ t t', t ∈ forktrees c → tree_update (parent b) (add_child (Volatile_new e)) id t = Some t' →
      tree_wf (eligible c) t' ∧ value t' = value t) as Hup.
    { intros t t' Ht. apply tree_add_child_wf; [by eapply Forall_forall; [apply (wf_trees c Hwf)|]|by rewrite Hu|].
      intros m Hm Hmh. rewrite Hu, Hh. f_equal. symmetry.
      apply (height_in_forest c t m p.1 Hwf Ht Hm); [|congruence].
      exists t0. split; [by eapply list_elem_of_lookup_2|done]. }
    apply (chain_wf_add_block c e); [done|by unfold validated; rewrite Hu|by unfold executed_hash; rewrite Hu|by unfold executed_hash; rewrite Hu| | |].
    + apply update_root_forall; [|apply Hwf]. intros t t' Ht _ Hu'. by eapply Hup.
    + apply update_root_forall; [|apply Hwf]. intros t t' Ht Hr Hu'. unfold root_ok.
      by rewrite (proj2 (Hup t t' Ht Hu')).
    + apply (update_root_blocks _ [e]); [intros t t'; apply tree_add_child_blocks|]. by eapply find_root_update.
Qed.

Lemma vote_if_head_core hash c : same_core c (vote_if_head hash c).
Proof. unfold vote_if_head. case_bool_decide; [apply commit_and_vote_core|done]. Qed.

(** What inclusion never changes. *)
Definition same_base c c' : Prop := genesis c' = genesis c ∧ stakes c' = stakes c ∧ finalized c' = finalized c.

Lemma include_each_ind (P : Chain → Prop) f bs c c' :
  (∀ b c c', b ∈ bs → P c → f b c = Done c' → P c') → P c → include_each f bs c = Done c' → P c'.
Proof.
  revert c. induction bs as [|b bs IH]; intros c Hf Hc; simpl; [by intros [= <-]|].
  intros Hc'. apply outcome_bind_done in Hc' as (c1 & H1' & Hc'). revert Hc'. apply IH.
  - intros b' x x' Hb'. apply Hf. by right.
  - eapply Hf; [by left|exact Hc|exact H1'].
Qed.

Lemma include_wf fuel vm_fuel now b c c' :
  chain_wf c → include fuel vm_fuel now b c = Done c' → chain_wf c' ∧ same_base c c'.
Proof.
  revert b c c'. induction fuel as [|fuel IH]; intros b c c' Hwf; [done|]. cbn [include].
  destruct (acceptable b c) eqn:Hacc; cbn [negb]; [|by intros [= <-]].
  intros Hc'. apply outcome_bind_done in Hc' as ([[[] c1]|err] & Hinc & Hc').
  - destruct (try_include_wf _ _ _ _ _ Hwf Hacc Hinc) as (Hwf1 & Hg & Hs & Hf).
    pose proof (vote_if_head_core (block_hash b) c1) as Hcore.
    set (c2 := vote_if_head (block_hash b) c1) in *. destruct (consume_blocks (block_hash b) (chain_orphans c2)) as [found o].
    assert (chain_wf (set_orphans c2 o) ∧ same_base c (set_orphans c2 o)) as [Hwf2 Hb2].
    { split; [apply (same_core_wf c1); [exact Hcore|done]|]. destruct Hcore as (Hg2 & Hs2 & Hf2 & _).
      unfold same_base. simpl. rewrite Hg2, Hs2, Hf2. done. }
    destruct found as [bs|]; [|by injection Hc' as <-].
    apply (include_each_ind (λ x, chain_wf x ∧ same_base c x)) in Hc'; [done| |done].
    intros b' x x' _ [Hx (Hg' & Hs' & Hf')] Hx'. destruct (IH _ _ _ Hx Hx') as [? (Hg'' & Hs'' & Hf'')].
    split; [done|]. unfold same_base. by rewrite Hg'', Hs'', Hf''.
  - destruct (try_include_wf _ _ _ _ _ Hwf Hacc Hinc) as (Hwf1 & Hg & Hs & Hf).
    injection Hc' as <-. split; [by apply (same_core_wf c1)|done].
  - by injection Hc' as <-.
Qed.

(** ** Finalization *)

Lemma Finalized_apply_inv (f f' : Finalized D St) e :
  Finalized_apply f e = Done f' →
  parent (underlying e) = any_hash (fin_underlying f) ∧ fin_underlying f' = ProducedBlock (underlying e) ∧
  store_apply (fin_state f) (out_state (output e)) = Some (fin_state f').
Proof.
  unfold Finalized_apply. case_bool_decide as Hp; [done|].
  destruct (store_apply _ _) as [s|] eqn:E; [|done]. by intros [= <-].
Qed.

Lemma forest_blocks_at c i t :
  forktrees c !! i = Some t →
  forest_blocks c ≡ₚ block (value t) :: forest_blocks (set_forktrees c (children t)) ++ forest_blocks (set_forktrees c (delete i (forktrees c))).
Proof.
  intros Ht. unfold forest_blocks. simpl. rewrite (delete_Permutation _ _ _ Ht) at 1. simpl.
  destruct t as [v cs]. rewrite tree_blocks_node. simpl. done.
Qed.

Lemma try_finalize_roots_inv c ok c' :
  try_finalize_roots c = Done (ok, c') →
  if ok then
    ∃ i t, forktrees c !! i = Some t ∧ finalizable c t = true ∧
      forktrees c' = children t ∧ genesis c' = genesis c ∧ stakes c' = stakes c ∧
      parent (underlying (block (value t))) = finalized_hash c ∧
      fin_underlying (finalized c') = ProducedBlock (underlying (block (value t))) ∧
      store_apply (fin_state (finalized c)) (out_state (output (block (value t)))) = Some (fin_state (finalized c')) ∧
      head (events c') = Some (BlockFinalized (block (value t)) (vb_votes (value t)))
  else c' = c ∧ find_finalizable_root c = None.
Proof.
  unfold try_finalize_roots. destruct (find_finalizable_root c) as [i|] eqn:Hi; [|by intros [= <- <-]].
  destruct (forktrees c !! i) as [t|] eqn:Ht; [|done]. intros Hc'.
  apply outcome_bind_done in Hc' as (c1 & Hc1 & Hc'). injection Hc' as <- <-.
  unfold finalize_root in Hc1. apply outcome_bind_done in Hc1 as (f & Hf & Hc1). injection Hc1 as <-.
  apply Finalized_apply_inv in Hf as (Hp & Hu & Hst). simpl in *.
  apply find_index_some in Hi as (t' & Ht' & Hfin). assert (t' = t) as -> by congruence. by exists i, t.
Qed.

Lemma try_finalize_roots_wf c ok c' :
  chain_wf c → try_finalize_roots c = Done (ok, c') → chain_wf c'.
Proof.
  intros Hwf Hc'. apply try_finalize_roots_inv in Hc'. destruct ok; [|by destruct Hc' as [-> _]].
  destruct Hc' as (i & t & Ht & _ & Hfork & Hg & Hs & _ & Hu & _). pose proof (forest_blocks_at c i t Ht) as Hperm.
  assert (eligible c' = eligible c) as Hel by (unfold eligible; by rewrite Hg, Hs).
  assert (t ∈ forktrees c) as Hin by (by eapply list_elem_of_lookup_2).
  destruct Hwf as [W1 W2 W3 W4 W5]. rewrite Forall_forall in W1. specialize (W1 t Hin).
  destruct t as [v cs]. apply tree_wf_node in W1 as (_ & Hl & Hcs). cbn [value children] in *.
  assert (forest_blocks c' = forest_blocks (set_forktrees c cs)) as Hb by (unfold forest_blocks; by rewrite Hfork).
  split.
  - by rewrite Hfork, Hel.
  - rewrite Hfork. eapply Forall_impl; [exact Hl|]. intros d (Hp & Hh & _).
    unfold root_ok, finalized_hash, finalized_height. rewrite Hu. split; [exact Hp|exact Hh].
  - rewrite Hperm, fmap_cons, fmap_app in W3. apply NoDup_cons in W3 as [_ W3]. rewrite Hb.
    apply NoDup_app in W3 as [W3 _]. exact W3.
  - rewrite Hperm in W4. apply Forall_cons in W4 as [_ W4]. apply Forall_app in W4 as [W4 _]. rewrite Hb.
    eapply Forall_impl; [exact W4|]. intros e. unfold validated. by rewrite Hel.
  - rewrite Hperm, fmap_cons, fmap_app in W3. apply NoDup_cons in W3 as [W3 _]. rewrite Hb.
    unfold finalized_hash. rewrite Hu. intros Hin'. apply W3, elem_of_app. by left.
Qed.

Lemma finalize_loop_wf fuel c c' : chain_wf c → finalize_loop fuel c = Done c' → chain_wf c'.
Proof.
  revert c. induction fuel as [|fuel IH]; intros c Hwf; [done|]. cbn [finalize_loop]. intros Hc'.
  apply outcome_bind_done in Hc' as ([ok c1] & H1' & Hc'). apply try_finalize_roots_wf in H1'; [|done].
  destruct ok; cbn [fst snd] in Hc'; [by apply (IH c1)|by injection Hc' as <-].
Qed.

(** ** Events *)

Lemma push_missing_core (ms : list Multihash) c : same_core c (foldl (λ c m, push_front (BlockMissing m) c) c ms).
Proof.
  assert (∀ c1, same_core c c1 → same_core c (foldl (λ c m, push_front (BlockMissing m) c) c1 ms)) as Hgen; [|by apply Hgen].
  induction ms as [|x ms IH]; intros c1 Hc1; [done|]. simpl. by apply IH.
Qed.

Lemma post_block_included_wf now b c c' : chain_wf c → post_block_included now b c = Done c' → chain_wf c'.
Proof.
  intros Hwf. unfold post_block_included.
  destruct (consume_votes (block_hash b) (chain_orphans (count_votes (votes b) c))) as [late o].
  set (c1 := count_votes (default [] late) (set_orphans (count_votes (votes b) c) o)).
  assert (chain_wf c1) as Hwf1.
  { apply count_votes_wf. apply (same_core_wf (count_votes (votes b) c)); [done|]. by apply count_votes_wf. }
  intros Hc'. apply outcome_bind_done in Hc' as (c2 & Hc2 & Hc'). apply finalize_loop_wf in Hc2; [|done].
  destruct (missing_blocks now (finalized_height c2) (chain_orphans c2)) as [missing o2]. injection Hc' as <-.
  eapply same_core_wf; [apply push_missing_core|]. by apply (same_core_wf c2).
Qed.

Lemma poll_next_wf now c ev c' : chain_wf c → poll_next now c = Done (ev, c') → chain_wf c'.
Proof.
  intros Hwf. unfold poll_next. destruct (last (events c)) as [event|]; [|by intros [= <- <-]].
  intros Hc'. apply outcome_bind_done in Hc' as (c1 & Hc1 & Hc'). injection Hc' as <- <-.
  assert (chain_wf c1) as Hwf1.
  { destruct event; try (injection Hc1 as <-; by apply (same_core_wf c)).
    apply post_block_included_wf in Hc1; [done|]. by apply (same_core_wf c). }
  destruct event; try done. by apply (same_core_wf c1).
Qed.

Lemma Chain_new_wf (g : Genesis) m (f : Finalized D St) : chain_wf (Chain_new g m f).
Proof. split; simpl; [constructor..|apply not_elem_of_nil]. Qed.

(** ** Runs *)

(** The operations that drive the chain: receiving a block and taking an event. *)
Inductive chain_step : Chain → Chain → Prop :=
  | StepInclude fuel vm_fuel now b c c' : include fuel vm_fuel now b c = Done c' → chain_step c c'
  | StepPoll now ev c c' : poll_next now c = Done (ev, c') → chain_step c c'.

Lemma chain_steps_wf c c' : rtc chain_step c c' → chain_wf c → chain_wf c'.
Proof.
  induction 1 as [|c c1 c' Hstep _ IH]; [done|]. intros Hwf. apply IH. destruct Hstep.
  - by eapply include_wf.
  - by eapply poll_next_wf.
Qed.

(** ** Finalization always goes through *)

Lemma forest_size_blocks c : forest_size c = length (forest_blocks c).
Proof.
  unfold forest_size, forest_blocks. induction (forktrees c) as [|t ts IH]; [done|]. rewrite (fmap_cons tree_blocks), concat_cons.
  rewrite length_app, <-IH. unfold tree_blocks at 1. by rewrite length_fmap.
Qed.

Lemma try_finalize_roots_done c :
  chain_wf c → (∀ s d, is_Some (store_apply s d : option St)) →
  ∃ ok c', try_finalize_roots c = Done (ok, c') ∧ (ok = true → (forest_size c' < forest_size c)%nat).
Proof.
  intros Hwf Hstore. destruct (try_finalize_roots c) as [[ok c']| |] eqn:E.
  - exists ok, c'. split; [done|]. intros ->. apply try_finalize_roots_inv in E as (i & t & Ht & _ & Hfork & _).
    rewrite !forest_size_blocks, (forest_blocks_at c i t Ht). simpl. rewrite length_app. unfold forest_blocks.
    rewrite Hfork. simpl. lia.
  - exfalso. revert E. unfold try_finalize_roots. destruct (find_finalizable_root c) as [i|] eqn:Hi; [|done].
    apply find_index_some in Hi as (t & Ht & _). rewrite Ht. unfold finalize_root, Finalized_apply.
    assert (root_ok c t) as [Hp _] by (eapply Forall_lookup_1; [apply (wf_roots c Hwf)|exact Ht]).
    rewrite bool_decide_false by (intros Hn; by apply Hn).
    destruct (Hstore (fin_state (finalized c)) (out_state (output (block (value t))))) as [s' Hs']; simpl; by rewrite Hs'.
  - exfalso. revert E. unfold try_finalize_roots. destruct (find_finalizable_root c) as [i|] eqn:Hi; [|done].
    destruct (forktrees c !! i) as [t|]; [|done]. unfold finalize_root, Finalized_apply.
    case_bool_decide; [done|]. simpl. by destruct (store_apply _ _).
Qed.

Lemma finalize_loop_done fuel c :
  chain_wf c → (∀ s d, is_Some (store_apply s d : option St)) → (forest_size c < fuel)%nat →
  ∃ c', finalize_loop fuel c = Done c'.
Proof.
  revert c. induction fuel as [|fuel IH]; intros c Hwf Hstore Hf; [lia|]. cbn [finalize_loop].
  destruct (try_finalize_roots_done c Hwf Hstore) as (ok & c' & Hc' & Hlt). rewrite Hc'. simpl.
  destruct ok; [|eauto]. apply IH; [by eapply try_finalize_roots_wf|done|]. specialize (Hlt eq_refl). lia.
Qed.

(** ** The finalized chain only grows *)

(** One block on top of another. *)
Definition child_block (a b : AnyBlock D) : Prop :=
  any_parent b = Some (any_hash a) ∧ any_height b = any_height a + 1.

Lemma finalize_loop_extends fuel c c' :
  chain_wf c → finalize_loop fuel c = Done c' →
  rtc child_block (fin_underlying (finalized c)) (fin_underlying (finalized c')).
Proof.
  revert c. induction fuel as [|fuel IH]; intros c Hwf; [done|]. cbn [finalize_loop]. intros Hc'.
  apply outcome_bind_done in Hc' as ([ok c1] & H1' & Hc'). pose proof (try_finalize_roots_wf _ _ _ Hwf H1') as Hwf1.
  apply try_finalize_roots_inv in H1'. destruct ok; cbn [fst snd] in Hc'.
  - destruct H1' as (i & t & Ht & _ & _ & _ & _ & Hp & Hu & _). eapply rtc_l; [|by apply (IH c1)].
    assert (root_ok c t) as [Hp' Hh] by (eapply Forall_lookup_1; [apply (wf_roots c Hwf)|exact Ht]).
    unfold child_block. rewrite Hu. split; simpl; [by rewrite Hp|exact Hh].
  - destruct H1' as [-> _]. by injection Hc' as <-.
Qed.

Lemma count_votes_base vs c : same_base c (count_votes vs c).
Proof.
  unfold count_votes. revert c. induction vs as [|v vs IH]; intros c; [done|]. simpl.
  destruct (IH (injest_vote v c)) as (Hg & Hs & Hf). destruct (injest_vote_core v c) as (Hg' & Hs' & Hf').
  unfold same_base. by rewrite Hg, Hs, Hf.
Qed.

(** The chain after a block's votes were counted, before finalization. *)
Lemma post_block_included_inv now b c c' :
  chain_wf c → post_block_included now b c = Done c' →
  ∃ c1 c2, chain_wf c1 ∧ same_base c c1 ∧ finalize_loop (S (forest_size c1)) c1 = Done c2 ∧ finalized c' = finalized c2.
Proof.
  intros Hwf. unfold post_block_included.
  destruct (consume_votes (block_hash b) (chain_orphans (count_votes (votes b) c))) as [late o].
  set (c1 := count_votes (default [] late) (set_orphans (count_votes (votes b) c) o)).
  intros Hc'. apply outcome_bind_done in Hc' as (c2 & Hc2 & Hc'). exists c1, c2.
  destruct (missing_blocks now (finalized_height c2) (chain_orphans c2)) as [missing o2]. injection Hc' as <-.
  split_and!; [| |done|].
  - apply count_votes_wf, (same_core_wf (count_votes (votes b) c)); [done|]. by apply count_votes_wf.
  - destruct (count_votes_base (votes b) c) as (Hg & Hs & Hf).
    destruct (count_votes_base (default [] late) (set_orphans (count_votes (votes b) c) o)) as (Hg' & Hs' & Hf').
    unfold same_base, c1. rewrite Hg', Hs', Hf'. done.
  - by destruct (push_missing_core missing (set_orphans c2 o2)) as (_ & _ & -> & _).
Qed.

Lemma poll_next_extends now c ev c' :
  chain_wf c → poll_next now c = Done (ev, c') →
  rtc child_block (fin_underlying (finalized c)) (fin_underlying (finalized c')).
Proof.
  intros Hwf. unfold poll_next. destruct (last (events c)) as [event|]; [|by intros [= _ <-]].
  intros Hc'. apply outcome_bind_done in Hc' as (c1 & Hc1 & Hc'). injection Hc' as <- <-.
  assert (rtc child_block (fin_underlying (finalized c)) (fin_underlying (finalized c1))) as Hx.
  { destruct event; try (by injection Hc1 as <-).
    apply post_block_included_inv in Hc1 as (x1 & x2 & Hw & (_ & _ & Hf) & Hl & ->); [|by apply (same_core_wf c)].
    apply finalize_loop_extends in Hl; [|done]. by rewrite Hf in Hl. }
  by destruct event.
Qed.

(** ** Confirmation *)

Lemma sum_subset (m : gmap Pubkey Z) (X : gset Pubkey) :
  X ⊆ dom m → (∀ p z, m !! p = Some z → 0 ≤ z) →
  sum_Z ((λ p, default 0 (m !! p)) <$> elements X) ≤ sum_Z (map_to_list m).*2.
Proof.
  revert X. induction m as [|p z m Hp IH] using map_ind; intros X Hsub Hnn.
  { rewrite dom_empty_L in Hsub. assert (X = ∅) as -> by set_solver. done. }
  rewrite map_to_list_insert by done. simpl. unfold sum_Z at 2. cbn [foldr]. fold (sum_Z (map_to_list m).*2).
  assert (∀ q, q ∈ X ∖ {[p]} → default 0 (<[p := z]> m !! q) = default 0 (m !! q)) as Hext.
  { intros q Hq. rewrite lookup_insert_ne; [done|]. set_solver. }
  assert (sum_Z ((λ q, default 0 (<[p := z]> m !! q)) <$> elements (X ∖ {[p]})) ≤ sum_Z (map_to_list m).*2) as Hle.
  { assert (X ∖ {[p]} ⊆ dom m) as Hsub' by (rewrite dom_insert_L in Hsub; set_solver).
    specialize (IH (X ∖ {[p]}) Hsub'). etrans; [|apply IH].
    - apply Z.eq_le_incl. f_equal. apply list_fmap_ext. intros i q Hq. apply Hext.
      apply elem_of_elements. by eapply list_elem_of_lookup_2.
    - intros q x Hq. apply (Hnn q). rewrite lookup_insert_ne; [done|]. congruence. }
  assert (0 ≤ z) by (apply (Hnn p); apply lookup_insert_eq).
  destruct (decide (p ∈ X)) as [Hin|Hnin].
  - assert (elements X ≡ₚ p :: elements (X ∖ {[p]})) as ->.
    { rewrite <-elements_union_singleton by set_solver. f_equiv. set_unfold. intros q. destruct (decide (q = p)); naive_solver. }
    rewrite fmap_cons, lookup_insert_eq. unfold sum_Z at 1. cbn [foldr default].
    fold (sum_Z ((λ q, default 0 (<[p := z]> m !! q)) <$> elements (X ∖ {[p]}))). exact (Zplus_le_compat_l _ _ z Hle).
  - assert (X ∖ {[p]} = X) as Hx by set_solver. rewrite Hx in Hle. etrans; [exact Hle|].
    change (sum_Z (map_to_list m).*2 ≤ z + sum_Z (map_to_list m).*2). lia.
Qed.

(** The total stake of the eligible validators fits 64 bits. *)
Definition stakes_ok c : Prop :=
  (∀ p z, eligible c !! p = Some z → 0 ≤ z) ∧ sum_Z (map_to_list (eligible c)).*2 ≤ u64_max.

Lemma stakes_ok_test c :
  bool_decide (map_Forall (λ _ z, 0 ≤ z) (eligible c)) && (sum_Z (map_to_list (eligible c)).*2 <=? u64_max) = true → stakes_ok c.
Proof. intros [Hall%bool_decide_eq_true Hle%Z.leb_le]%andb_prop. split; [|exact Hle]. intros p z Hz. by apply (Hall p). Qed.

Lemma eligible_total c : stakes_ok c → total_stake c = sum_Z (map_to_list (eligible c)).*2.
Proof.
  intros [Hnn Hmax]. unfold total_stake.
  assert (sum_Z (filter (λ p : Pubkey * Z, minimum_stake (limits (genesis c)) ≤ p.2) (map_to_list (stakes c))).*2 =
    sum_Z (map_to_list (eligible c)).*2) as ->.
  { apply sum_Z_perm, fmap_Permutation. unfold eligible. rewrite map_filter_alt. symmetry. apply map_to_list_to_map.
    eapply sublist_NoDup; [apply (NoDup_fst_map_to_list (stakes c))|]. apply fmap_sublist, sublist_filter. }
  apply wrap64_id. split; [|done]. apply sum_Z_nonneg. intros z ([p x] & -> & Hin)%list_elem_of_fmap.
  apply elem_of_map_to_list in Hin. by apply (Hnn p).
Qed.

Definition stake_of c (X : gset Pubkey) : Z := sum_Z ((λ p, default 0 (eligible c !! p)) <$> elements X).

Lemma stake_of_bounds c X : stakes_ok c → X ⊆ dom (eligible c) → 0 ≤ stake_of c X ≤ total_stake c.
Proof.
  intros Hok Hsub. split.
  - apply sum_Z_nonneg. intros z (p & -> & Hp)%list_elem_of_fmap. apply elem_of_elements in Hp.
    destruct (eligible c !! p) eqn:E; simpl; [|done]. by apply (proj1 Hok p).
  - rewrite eligible_total by done. apply sum_subset; [done|apply Hok].
Qed.

Lemma stake_of_union c X Y : X ## Y → stake_of c (X ∪ Y) = stake_of c X + stake_of c Y.
Proof. intros Hd. unfold stake_of. rewrite elements_disj_union by done. by rewrite fmap_app, sum_Z_app. Qed.

Lemma votes_are_stakes c v : stakes_ok c → votes_ok (eligible c) v → vb_votes v = stake_of c (voters v).
Proof.
  intros Hok [Hsub ->]. apply wrap64_id. destruct (stake_of_bounds c (voters v) Hok Hsub) as [? Hle].
  split; [done|]. etrans; [exact Hle|]. rewrite eligible_total by done. apply Hok.
Qed.

Lemma forest_votes_ok c t m : chain_wf c → t ∈ forktrees c → m ∈ tree_nodes t → votes_ok (eligible c) (value m).
Proof. intros Hwf Ht Hm. pose proof (wf_trees c Hwf) as Hall. rewrite Forall_forall in Hall. by apply (Hall t Ht). Qed.

(** ** Inclusion of orphans ends *)

Definition orphan_count c : nat := length (all_orphans (chain_orphans c)).

Lemma try_include_orphans vm_fuel b c i c' :
  try_include vm_fuel b c = Done (Ok (i, c')) → chain_orphans c' = chain_orphans c.
Proof.
  unfold try_include. destruct (get_block_node c (block_hash b)); [by intros [= _ <-]|]. case_bool_decide.
  - destruct (negb _); [done|]. intros Hok. apply try_bind_ok in Hok as (e & _ & Hok). by injection Hok as _ <-.
  - destruct (find_root (parent b) (forktrees c)) as [[k p]|]; [|by intros [= _ <-]]. destruct (negb _); [done|].
    intros Hok. apply try_bind_ok in Hok as (e & _ & Hok). case_bool_decide; [done|]. by injection Hok as _ <-.
Qed.

Lemma Executed_new_finished vm_fuel (st : View) b m :
  finished (execute vm_fuel m st (block_data b)) = true → finished (Executed_new vm_fuel st b m) = true.
Proof. unfold Executed_new. by destruct (execute vm_fuel m st (block_data b)) as [[]| |]. Qed.

Lemma try_include_finished vm_fuel b c :
  (∀ m st d, finished (execute vm_fuel m st d) = true) → finished (try_include vm_fuel b c) = true.
Proof.
  intros Hvm. unfold try_include. destruct (get_block_node c (block_hash b)); [done|]. case_bool_decide.
  - destruct (negb _); [done|]. pose proof (Executed_new_finished vm_fuel (finalized_view c) b (virtual_machine c) (Hvm _ _ _)) as Hf.
    by destruct (Executed_new _ _ _ _) as [[]| |].
  - destruct (find_root (parent b) (forktrees c)) as [[k p]|]; [|done]. destruct (negb _); [done|].
    match goal with |- context [Executed_new ?f ?v ?x ?m] => pose proof (Executed_new_finished f v x m (Hvm _ _ _)) as Hf end.
    destruct (Executed_new _ _ _ _) as [[]| |]; simpl; [|done..]. by case_bool_decide.
Qed.

Lemma vote_if_head_orphans hash c : chain_orphans (vote_if_head hash c) = chain_orphans c.
Proof. unfold vote_if_head, commit_and_vote. repeat (case_match; try done). Qed.

Lemma include_each_bounded f bs c K :
  (∀ b c, (orphan_count c < K)%nat → finished (f b c) = true ∧
    ∀ c', f b c = Done c' → (orphan_count c' ≤ S (orphan_count c))%nat) →
  (orphan_count c + length bs ≤ K)%nat →
  finished (include_each f bs c) = true ∧
  ∀ c', include_each f bs c = Done c' → (orphan_count c' ≤ orphan_count c + length bs)%nat.
Proof.
  intros Hf. revert c. induction bs as [|b bs IH]; intros c Hle; simpl in *.
  { split; [done|]. intros c' [= <-]. lia. }
  destruct (Hf b c) as [Hfin Hcount]; [lia|]. destruct (f b c) as [c1| |]; simpl; [|done|done].
  specialize (Hcount c1 eq_refl). destruct (IH c1) as [Hfin' Hcount']; [lia|]. split; [done|].
  intros c' Hc'. specialize (Hcount' c' Hc'). lia.
Qed.

Lemma include_bounded fuel vm_fuel now :
  (∀ m st d, finished (execute vm_fuel m st d) = true) →
  ∀ b c, (orphan_count c < fuel)%nat →
  finished (include fuel vm_fuel now b c) = true ∧
  ∀ c', include fuel vm_fuel now b c = Done c' → (orphan_count c' ≤ S (orphan_count c))%nat.
Proof.
  intros Hvm. induction fuel as [|fuel IH]; intros b c Hf; [lia|]. cbn [include].
  destruct (acceptable b c); cbn [negb]; [|split; [done|intros c' [= <-]; lia]].
  pose proof (try_include_finished vm_fuel b c Hvm) as Hfin.
  destruct (try_include vm_fuel b c) as [[[[] c1]|err]| |] eqn:Hinc; cbn [mbind outcome_bind]; try done.
  - apply try_include_orphans in Hinc. set (c2 := vote_if_head (block_hash b) c1).
    assert (chain_orphans c2 = chain_orphans c) as Ho by (unfold c2; by rewrite vote_if_head_orphans).
    destruct (consume_blocks (block_hash b) (chain_orphans c2)) as [[bs|] o] eqn:Hcons.
    + rewrite Ho in Hcons. apply consume_blocks_orphans in Hcons. unfold orphan_count in *.
      destruct (include_each_bounded (include fuel vm_fuel now) bs (set_orphans c2 o) fuel IH) as [Hfin' Hcount].
      { unfold orphan_count. simpl. lia. }
      split; [done|]. intros c' Hc'. specialize (Hcount c' Hc'). unfold orphan_count in Hcount. simpl in Hcount. lia.
    + split; [done|]. intros c' [= <-]. unfold orphan_count. simpl. unfold consume_blocks in Hcons.
      destruct (im_get _ _) eqn:E; [done|]. injection Hcons as <-. rewrite <-Ho. unfold all_orphans. simpl.
      unfold im_remove. rewrite (filter_all_true _ (orphan_blocks (chain_orphans c2))).
      * lia.
      * intros [k x] Hin Hk. simpl in Hk. subst. by apply (im_get_none _ _ x) in E.
  - apply try_include_orphans in Hinc. split; [done|]. intros c' [= <-]. unfold orphan_count. simpl. rewrite <-Hinc.
    destruct (add_block_orphans now b (chain_orphans c1)) as [->| ->]; simpl; lia.
  - split; [done|]. intros c' [= <-]. lia.
Qed.
End chain.
