(* ===== verification/ChainSafety.v ===== *)
(** * What the consensus state machine guarantees

    Theorems about chains that are reached from a new one by including blocks and
    taking events: the forest stays well formed, confirmed blocks share voters,
    the finalized chain only grows, and no operation gets stuck. Evaluated on the
    chain of ChainExample.v. *)
From S2P Require Import Prelude Primitives State Transaction Contract Block Machine Execution ForkTree ForkTreeProps Orphans OrphansProps Chain Majority ChainProps VmExample ChainExample.

Section chain.
Context `{Crypto} `{WasmRuntime} {D : Type} `{BlockData D} `{!Executable D} {St : Type} `{StateStore St}.
Abbreviation Chain := (@Chain _ D St).
Implicit Types (c : Chain) (b : Produced D) (e : Executed D) (t n : TreeNode D).

(** ** Helper lemmas *)

Lemma chain_steps_extend c c' :
  rtc chain_step c c' → chain_wf c → rtc child_block (fin_underlying (finalized c)) (fin_underlying (finalized c')).
Proof.
  induction 1 as [|c c1 c' Hstep _ IH]; [done|]. intros Hwf. destruct Hstep as [fuel vm_fuel now b c c1 Hc1|now ev c c1 Hc1].
  - destruct (include_wf _ _ _ _ _ _ Hwf Hc1) as [Hwf1 (_ & _ & Hf)]. rewrite <-Hf. by apply IH.
  - etrans; [by eapply poll_next_extends|]. apply IH. by eapply poll_next_wf.
Qed.

Lemma child_block_heights (x y : AnyBlock D) : rtc child_block x y → x = y ∨ any_height x < any_height y.
Proof.
  induction 1 as [x|x z y [_ Hz] _ IH]; [by left|]. right. destruct IH as [<-|IH]; lia.
Qed.

Lemma post_block_included_finishes now b c :
  chain_wf c → (∀ s d, is_Some (store_apply s d : option St)) → ∃ c', post_block_included now b c = Done c'.
Proof.
  intros Hwf Hstore. unfold post_block_included.
  destruct (consume_votes (block_hash b) (chain_orphans (count_votes (votes b) c))) as [late o].
  set (c1 := count_votes (default [] late) (set_orphans (count_votes (votes b) c) o)).
  assert (chain_wf c1) as Hwf1.
  { apply count_votes_wf, (same_core_wf (count_votes (votes b) c)); [done|]. by apply count_votes_wf. }
  destruct (finalize_loop_done (S (forest_size c1)) c1 Hwf1 Hstore) as [c2 Hc2]; [lia|]. rewrite Hc2.
  cbn [mbind outcome_bind]. destruct (missing_blocks now (finalized_height c2) (chain_orphans c2)) as [missing o2]. by eexists.
Qed.

Lemma confirmed_stake c v : stakes_ok c → votes_ok (eligible c) v → confirmed c v = true → minimum_majority_stake c ≤ stake_of c (voters v).
Proof. intros Hok Hv Hc%Z.leb_le. by rewrite <-(votes_are_stakes c v Hok Hv). Qed.

Lemma total_stake_bounds c : 0 ≤ total_stake c ≤ u64_max.
Proof. apply wrap64_bounds. Qed.

Lemma supermajority c : 0 < total_stake c → 2 * total_stake c < 3 * minimum_majority_stake c ∧ minimum_majority_stake c ≤ total_stake c.
Proof. intros Hpos. apply majority_bounds. pose proof (total_stake_bounds c). lia. Qed.

Lemma stake_of_split c (X Y : gset Pubkey) : stake_of c X = stake_of c (X ∩ Y) + stake_of c (X ∖ Y).
Proof. rewrite <-stake_of_union by set_solver. f_equal. set_unfold. intros p. destruct (decide (p ∈ Y)); naive_solver. Qed.

(** What a node takes for a supermajority depends on the eligible stakes only. *)
Lemma total_stake_eligible c c' : stakes_ok c → eligible c' = eligible c → total_stake c' = total_stake c.
Proof. intros Hok Hel. rewrite !eligible_total by (unfold stakes_ok in *; by rewrite ?Hel). by rewrite Hel. Qed.
Lemma minimum_majority_eq c c' : total_stake c' = total_stake c → minimum_majority_stake c' = minimum_majority_stake c.
Proof. unfold minimum_majority_stake. by intros ->. Qed.

(** Two sets of voters with two thirds of the stake each. *)
Lemma quorums_intersect c (X Y : gset Pubkey) :
  stakes_ok c → X ⊆ dom (eligible c) → Y ⊆ dom (eligible c) →
  stake_of c X + stake_of c Y ≤ total_stake c + stake_of c (X ∩ Y).
Proof.
  intros Hok HX HY. destruct (stake_of_bounds c (X ∪ (Y ∖ X)) Hok) as [_ Hle]; [set_solver|].
  rewrite stake_of_union in Hle by set_solver. rewrite (stake_of_split c Y X), (intersection_comm_L Y X). lia.
Qed.

(** The validators who voted for both of two confirmed blocks, on whatever
    forks and in the chains of whatever two nodes of the network they are, hold
    more than a third of the stake: conflicting blocks are confirmed, by one node
    or by two that do not agree, only when that many validators vote on both forks. *)
Lemma shared_voters c c' t1 n1 t2 n2 :
  chain_wf c → chain_wf c' → eligible c' = eligible c → stakes_ok c → total_stake c ≠ 0 →
  t1 ∈ forktrees c → n1 ∈ tree_nodes t1 → t2 ∈ forktrees c' → n2 ∈ tree_nodes t2 →
  confirmed c (value n1) = true → confirmed c' (value n2) = true →
  total_stake c < 3 * stake_of c (voters (value n1) ∩ voters (value n2)).
Proof.
  intros Hwf Hwf' Hel Hok Hne Ht1 Hn1 Ht2 Hn2 Hc1 Hc2.
  pose proof (forest_votes_ok c t1 n1 Hwf Ht1 Hn1) as Hv1. pose proof (forest_votes_ok c' t2 n2 Hwf' Ht2 Hn2) as Hv2.
  assert (total_stake c' = total_stake c) as Htot by by apply total_stake_eligible.
  pose proof (confirmed_stake c _ Hok Hv1 Hc1) as Hs1. rewrite Hel in Hv2.
  unfold confirmed in Hc2. rewrite (minimum_majority_eq c c') in Hc2 by done. apply (confirmed_stake c _ Hok Hv2) in Hc2.
  pose proof (quorums_intersect c _ _ Hok (proj1 Hv1) (proj1 Hv2)).
  destruct (supermajority c); [pose proof (total_stake_bounds c); lia|lia].
Qed.

(** ** Theorems *)


(** C18: the supermajority, which is computed in floating point, is more than
    two thirds of the total stake of the eligible validators and at most all of
    it, for every total of 64 bits; without any stake it is zero, and every block
    counts as confirmed. *)
Theorem supermajority_exceeds_two_thirds c :
  (total_stake c = 0 → minimum_majority_stake c = 0) ∧
  (total_stake c ≠ 0 → 2 * total_stake c < 3 * minimum_majority_stake c ∧ minimum_majority_stake c ≤ total_stake c).
Proof.
  split.
  - intros Ht. unfold minimum_majority_stake. by rewrite Ht.
  - intros Hne. apply supermajority. pose proof (total_stake_bounds c). lia.
Qed.

(** C2: whatever happens, the finalized block is only ever replaced by the end
    of a chain of blocks that grows out of it, each naming the one before as its
    parent and one higher: finality is never undone. *)
Theorem finalized_chain_grows c c' :
  chain_wf c → rtc chain_step c c' →
  rtc child_block (fin_underlying (finalized c)) (fin_underlying (finalized c')) ∧
  (finalized_height c < finalized_height c' ∨ fin_underlying (finalized c') = fin_underlying (finalized c)).
Proof.
  intros Hwf Hsteps. pose proof (chain_steps_extend c c' Hsteps Hwf) as Hext. split; [done|].
  unfold finalized_height. destruct (child_block_heights _ _ Hext) as [->|]; auto.
Qed.


(** C17: including a block comes to an end when executing blocks does, and
    one round more than there are orphans bounds how deep the inclusion of
    orphans nests. The collection of orphans grows by at most the block. *)
Theorem include_total fuel vm_fuel now b c :
  (∀ m st d, finished (execute vm_fuel m st d) = true) → (orphan_count c < fuel)%nat →
  finished (include fuel vm_fuel now b c) = true ∧
  ∀ c', include fuel vm_fuel now b c = Done c' → (orphan_count c' ≤ S (orphan_count c))%nat.
Proof. intros Hvm. by apply include_bounded. Qed.

(** C5: a block is finalized only when it is a root of the forest that carries
    two thirds of the stake, and so does the checkpoint of the epoch before the
    head's and the one before that; then it is a child of the block finalized
    before, its changes are applied to the finalized state, the volatile blocks
    that remain are exactly its descendants, and its event is queued behind
    those that wait. *)
Theorem finalization_needs_supermajority c c' :
  chain_wf c → try_finalize_roots c = Done (true, c') →
  ∃ t first second, t ∈ forktrees c ∧
    minimum_majority_stake c ≤ vb_votes (value t) ∧
    previous_checkpoint c (epoch_start (epoch_blocks (genesis c)) (tree_head [] t)) = Some first ∧
    minimum_majority_stake c ≤ vb_votes (value first.1) ∧
    previous_checkpoint c first = Some second ∧
    minimum_majority_stake c ≤ vb_votes (value second.1) ∧
    validated c (block (value t)) ∧
    child_block (fin_underlying (finalized c)) (fin_underlying (finalized c')) ∧
    store_apply (fin_state (finalized c)) (out_state (output (block (value t)))) = Some (fin_state (finalized c')) ∧
    forktrees c' = children t ∧
    head (events c') = Some (BlockFinalized (block (value t)) (vb_votes (value t))).
Proof.
  intros Hwf (i & t & Ht & Hfin & Hfork & _ & _ & Hp & Hu & Hst & Hev)%try_finalize_roots_inv.
  assert (root_ok c t) as [_ Hh] by (eapply Forall_lookup_1; [apply (wf_roots c Hwf)|exact Ht]).
  apply list_elem_of_lookup_2 in Ht as Hin. unfold finalizable in Hfin. apply andb_true_iff in Hfin as [Hroot Hfin].
  destruct (previous_checkpoint c _) as [first|] eqn:Hfirst; [|done]. apply andb_true_iff in Hfin as [Hf1 Hfin].
  destruct (previous_checkpoint c first) as [second|] eqn:Hsecond; [|done]. apply Z.leb_le in Hroot, Hf1, Hfin.
  exists t, first, second. split_and!; try done.
  - pose proof (wf_validated c Hwf) as Hall. rewrite Forall_forall in Hall. apply Hall, elem_of_forest.
    exists t, t. split_and!; [done|apply tree_nodes_self|done].
  - unfold child_block. rewrite Hu. split; simpl; [by rewrite Hp|exact Hh].
Qed.

End chain.

(** ** Witnesses *)

Import VmExample ChainExample.

Lemma include_block_step b c : is_done (include 10 1 0 b c) = true → chain_step c (include_block b c).
Proof. intros Hd. apply (StepInclude 10 1 0 b). by apply is_done_eq. Qed.

Lemma poll_step c : is_done (poll_next 0 c) = true → chain_step c (poll c).
Proof.
  intros Hd. eapply (StepPoll 0 (done_or (poll_next 0 c) (None, c)).1). rewrite (is_done_eq _ (None, c) Hd) at 1.
  unfold poll. by destruct (done_or _ _).
Qed.

Lemma c0_wf : chain_wf c0.
Proof. apply Chain_new_wf. Qed.

Lemma include_block_reach c b : rtc chain_step c0 c → is_done (include 10 1 0 b c) = true → rtc chain_step c0 (include_block b c).
Proof. intros Hc Hd. eapply rtc_r; [exact Hc|by apply include_block_step]. Qed.

Lemma poll_reach c : rtc chain_step c0 c → is_done (poll_next 0 c) = true → rtc chain_step c0 (poll c).
Proof. intros Hc Hd. eapply rtc_r; [exact Hc|by apply poll_step]. Qed.

Lemma c1_reachable : rtc chain_step c0 c1.
Proof.
  unfold c1. apply include_block_reach; [|by vm_compute]. apply include_block_reach; [|by vm_compute].
  apply include_block_reach; [apply rtc_refl|by vm_compute].
Qed.

Lemma c2_reachable : rtc chain_step c0 c2.
Proof. unfold c2. do 3 (apply poll_reach; [|by vm_compute]). exact c1_reachable. Qed.

Lemma c3_reachable : rtc chain_step c0 c3.
Proof. unfold c3. do 3 (apply poll_reach; [|by vm_compute]). exact c2_reachable. Qed.

Lemma toy_store_applies : ∀ s d, is_Some (store_apply s d : option (gmap bytes bytes)).
Proof. intros. by eexists. Qed.

(** The chain when the votes of the third block have been counted: its first
    block can be finalized. *)
Definition ripe : ToyChain := count_votes (votes b3) c2.
Definition ripe_root : TreeNode string := hd (TreeNode_new (Volatile_new (Executed_recreate b1 (MkBlockOutput sd_default [] [])))) (forktrees ripe).
Definition ripe_child : TreeNode string := hd ripe_root (children ripe_root).

Lemma hd_elem {A} (d : A) l : length l ≠ 0%nat → hd d l ∈ l.
Proof. destruct l; [done|]. intros _. by left. Qed.

Lemma first_child_node (d t : TreeNode string) : length (children t) ≠ 0%nat → hd d (children t) ∈ tree_nodes t.
Proof.
  intros Hl. destruct t as [v cs]. apply elem_of_tree_nodes. right. exists (hd d cs).
  split; [by apply hd_elem|apply tree_nodes_self].
Qed.

Lemma ripe_root_in : ripe_root ∈ forktrees ripe.
Proof. apply hd_elem. by vm_compute. Qed.

Lemma ripe_child_in : ripe_child ∈ tree_nodes ripe_root.
Proof. apply first_child_node. by vm_compute. Qed.

Lemma ripe_wf : chain_wf ripe.
Proof. apply count_votes_wf. eapply chain_steps_wf; [apply c2_reachable|apply c0_wf]. Qed.

Definition is_done_true {A} (o : Outcome (bool * A)) : bool := match o with Done (ok, _) => ok | _ => false end.

Lemma is_done_true_eq {A} (o : Outcome (bool * A)) : is_done_true o = true → ∃ a, o = Done (true, a).
Proof. destruct o as [[[] a]| |]; [by eexists|done..]. Qed.

Lemma ripe_finalizes : ∃ c', try_finalize_roots ripe = Done (true, c').
Proof. apply is_done_true_eq. by vm_compute. Qed.


Lemma finalized_chain_grows_witness :
  rtc child_block (fin_underlying (finalized c0)) (fin_underlying (finalized c3)) ∧ finalized_height c3 = 1.
Proof. split; [exact (proj1 (finalized_chain_grows c0 c3 c0_wf c3_reachable))|by vm_compute]. Defined.


Lemma include_total_witness : finished (include 10 1 0 b3 c0) = true ∧ orphan_count (include_block b3 c0) = 1%nat.
Proof. split; [|by vm_compute]. apply (include_total 10 1 0 b3 c0); [done|by vm_compute; lia]. Defined.

Lemma finalization_needs_supermajority_witness :
  ∃ (c' : ToyChain) t, t ∈ forktrees ripe ∧ minimum_majority_stake ripe ≤ vb_votes (value t) ∧
    child_block (fin_underlying (finalized ripe)) (fin_underlying (finalized c')).
Proof.
  destruct ripe_finalizes as [c' Hc'].
  destruct (finalization_needs_supermajority ripe c' ripe_wf Hc') as (t & _ & _ & Ht & Hv & _ & _ & _ & _ & _ & Hch & _).
  exists c', t. split; [exact Ht|split; [exact Hv|exact Hch]].
Defined.

(** Witnesses of the theorems on trees of ForkTreeProps.v. *)
Definition ripe_head : Ref string := tree_head [] ripe_root.

Lemma Forall_node_votes (t : TreeNode string) : forallb (λ m : TreeNode string, 0 <=? vb_votes (value m)) (tree_nodes t) = true → votes_nonneg t.
Proof. intros Hall m Hm. rewrite forallb_forall in Hall. apply Z.leb_le, Hall, list_elem_of_In, Hm. Qed.

Lemma head_is_heaviest_first_witness : heaviest [] ripe_root ripe_head ∧ depth ripe_head = 2%nat.
Proof. split; [|by vm_compute]. apply (head_is_heaviest_first ripe_root). apply Forall_node_votes. by vm_compute. Defined.

Lemma epoch_start_oldest_in_epoch_witness :
  ∃ k, path ripe_head !! k = Some (epoch_start 2 ripe_head) ∧
    (∀ s, path ripe_head !! S k = Some s → ref_epoch 2 s ≠ ref_epoch 2 ripe_head).
Proof.
  destruct (epoch_start_oldest_in_epoch 2 ripe_head) as (k & Hk & _ & Hn); [apply (bool_decide_unpack _); by vm_compute|].
  by exists k.
Defined.

Lemma finalization_keeps_fork_view_witness :
  Overlayed_get (MkOverlayed (apply_spec (out_state (output (block (value ripe_root)))) (finalized_view ripe)) (cascading_get (ripe_child, []))) mallory =
  Overlayed_get (MkOverlayed (finalized_view ripe) (cascading_get (ripe_child, [ripe_root]))) mallory.
Proof. apply (finalization_keeps_fork_view (finalized_view ripe) ripe_child [] ripe_root mallory). apply (bool_decide_unpack _). by vm_compute. Defined.
