(* ===== verification/Sources.v ===== *)
(** * Where the votes of a chain come from

    Steps of a chain that is given certain blocks only: the blocks that it
    executes, keeps as orphans and reports are these, and every vote that it counts
    is in one of them. *)
From S2P Require Import Prelude Primitives State Transaction Contract Block Machine Execution ForkTree ForkTreeProps Orphans OrphansProps Chain ChainProps.

Section sources.
Context `{Crypto} `{WasmRuntime} {D : Type} `{BlockData D} `{!Executable D} {St : Type} `{StateStore St}.
Abbreviation Chain := (@Chain _ D St).
Abbreviation ChainEvent := (@ChainEvent _ D).
Implicit Types (c : Chain) (b : Produced D) (e : Executed D) (v vote : Vote).

(** The blocks that come in, and what is true of the votes in them. *)
Context (B : Produced D → Prop) (W : Vote → Prop) (HBW : ∀ b v, B b → v ∈ votes b → W v).

Inductive chain_step_from : Chain → Chain → Prop :=
  | FromInclude fuel vm_fuel now b c c' : B b → include fuel vm_fuel now b c = Done c' → chain_step_from c c'
  | FromPoll now ev c c' : poll_next now c = Done (ev, c') → chain_step_from c c'.

Lemma chain_step_from_step c c' : chain_step_from c c' → chain_step c c'.
Proof. intros [fuel vm_fuel now b c1 c2 _ Hi|now ev c1 c2 Hp]; [by eapply StepInclude|by eapply StepPoll]. Qed.

(** Everything that waits in the chain came with these blocks. *)
Record sourced c : Prop := {
  so_orphans b : b ∈ all_orphans (chain_orphans c) → B b;
  so_votes h v : v ∈ default [] (orphan_votes (chain_orphans c) !! h) → W v;
  so_events e : BlockIncluded e ∈ events c → B (underlying e)
}.

(** ** Events *)

Lemma sourced_events c c' :
  chain_orphans c' = chain_orphans c → (∀ e, BlockIncluded e ∈ events c' → BlockIncluded e ∈ events c ∨ B (underlying e)) →
  sourced c → sourced c'.
Proof.
  intros Ho He [S1 S2 S3]. split; [rewrite Ho; exact S1|rewrite Ho; exact S2|]. intros e [Hin|Hb]%He; [by apply S3|done].
Qed.

Lemma push_front_sourced (ev : ChainEvent) c :
  (∀ e, ev = BlockIncluded e → B (underlying e)) → sourced c → sourced (push_front ev c).
Proof.
  intros Hev. apply sourced_events; [done|]. cbn. intros e [Heq|Hin]%elem_of_cons; [right; by apply Hev|by left].
Qed.

Lemma vote_if_head_sourced hash c : sourced c → sourced (vote_if_head hash c).
Proof. intros Hs. unfold vote_if_head, commit_and_vote. repeat (case_match; try done); by apply push_front_sourced, (sourced_events c); [|done|left|]. Qed.

Lemma push_missing_sourced (ms : list Multihash) c : sourced c → sourced (foldl (λ c m, push_front (BlockMissing m) c) c ms).
Proof. revert c. induction ms as [|m ms IH]; intros c Hs; [done|]. cbn [foldl]. by apply IH, push_front_sourced. Qed.

Lemma discard_events_included ts (evs : list ChainEvent) e :
  BlockIncluded e ∈ foldl discard_events evs ts → BlockIncluded e ∈ evs.
Proof.
  revert evs. induction ts as [|t ts IH]; intros evs; [done|]. cbn [foldl]. intros Hin%IH. revert Hin. unfold discard_events.
  generalize (tree_nodes t). intros ms. revert evs. induction ms as [|m ms IHm]; intros evs; [done|]. cbn [foldl].
  intros [?|Hin]%IHm%elem_of_cons; [done|done].
Qed.

Lemma try_finalize_roots_sourced c ok c' : try_finalize_roots c = Done (ok, c') → sourced c → sourced c'.
Proof.
  unfold try_finalize_roots. destruct (find_finalizable_root c) as [i|]; [|by intros [= _ <-]].
  destruct (forktrees c !! i) as [t|]; [|done]. intros (c1 & (f & _ & [= <-])%outcome_bind_done & [= _ <-])%outcome_bind_done.
  apply sourced_events; [done|]. cbn [events push_front set_events set_ownvotes set_forktrees set_finalized].
  intros e [?|Hin%discard_events_included]%elem_of_cons; [done|by left].
Qed.

Lemma finalize_loop_sourced fuel c c' : finalize_loop fuel c = Done c' → sourced c → sourced c'.
Proof.
  revert c. induction fuel as [|fuel IH]; intros c; [done|]. cbn [finalize_loop].
  intros ([ok c1] & H1' & Hc')%outcome_bind_done Hs. apply (try_finalize_roots_sourced _ _ _ H1') in Hs.
  destruct ok; cbn [fst snd] in Hc'; [by apply (IH c1)|by injection Hc' as <-].
Qed.

(** ** Votes *)

Lemma injest_vote_sourced vote c : W vote → sourced c → sourced (injest_vote vote c).
Proof.
  intros Hv Hs. unfold injest_vote. repeat (case_match; try done).
  - apply (sourced_events c); [done| |exact Hs]. cbn. intros e [?|Hin]%elem_of_app; [by left|]. exfalso. revert Hin.
    unfold newly_confirmed. intros (s & _ & Hs')%list_elem_of_omap. by case_match.
  - destruct Hs as [S1 S2 S3]. split; [exact S1| |exact S3]. cbn [chain_orphans set_orphans add_vote orphan_votes]. intros h v.
    destruct (decide (h = target vote)) as [->|Hne].
    + rewrite lookup_insert_eq. cbn [default]. intros [Hin| ->%list_elem_of_singleton]%elem_of_app; [by eapply S2|done].
    + rewrite lookup_insert_ne by done. apply S2.
Qed.

Lemma count_votes_sourced vs c : (∀ v, v ∈ vs → W v) → sourced c → sourced (count_votes vs c).
Proof.
  unfold count_votes. revert c. induction vs as [|v vs IH]; intros c Hv Hs; [done|]. cbn [foldl]. apply IH; [set_solver|].
  apply injest_vote_sourced; [|done]. apply Hv. by left.
Qed.

Lemma consume_votes_sourced hash c late o :
  consume_votes hash (chain_orphans c) = (late, o) → sourced c → sourced (set_orphans c o) ∧ ∀ v, v ∈ default [] late → W v.
Proof.
  intros [= <- <-] [S1 S2 S3]. split; [|apply S2]. split; [exact S1| |exact S3]. intros h v. cbn [chain_orphans set_orphans orphan_votes].
  destruct (decide (hash = h)) as [->|Hne]; [rewrite lookup_delete_eq; by intros ?%not_elem_of_nil|]. rewrite lookup_delete_ne by done. apply S2.
Qed.

(** ** Orphans *)

Lemma set_orphans_sourced c o :
  (∀ b, b ∈ all_orphans o → b ∈ all_orphans (chain_orphans c) ∨ B b) → orphan_votes o = orphan_votes (chain_orphans c) →
  sourced c → sourced (set_orphans c o).
Proof.
  intros Ho Hv [S1 S2 S3]. split; [|cbn; rewrite Hv; exact S2|exact S3]. intros b [?|?]%Ho; [by apply S1|done].
Qed.

Lemma elem_of_all_orphans b o : b ∈ all_orphans o ↔ ∃ k n, (k, n) ∈ orphan_blocks o ∧ b ∈ onode_blocks n.
Proof.
  unfold all_orphans. rewrite list_elem_of_In, in_concat. split.
  - intros (l & ([k n] & <- & Hin%list_elem_of_In)%in_map_iff & Hb%list_elem_of_In). eauto.
  - intros (k & n & Hin & Hb). exists (onode_blocks n). split; [apply in_map_iff; exists (k, n); by rewrite <-list_elem_of_In|by apply list_elem_of_In].
Qed.

Lemma consume_blocks_sourced hash c found o :
  consume_blocks hash (chain_orphans c) = (found, o) → sourced c →
  sourced (set_orphans c o) ∧ ∀ bs b, found = Some bs → b ∈ bs → B b.
Proof.
  unfold consume_blocks. intros [= <- <-] Hs. split.
  - apply set_orphans_sourced; [|done|done]. intros b (k & n & Hin & Hb)%elem_of_all_orphans. left. apply elem_of_all_orphans.
    exists k, n. split; [|done]. unfold im_remove in Hin. cbn [orphan_blocks] in Hin. by apply list_elem_of_filter in Hin as [_ ?].
  - intros bs b (n & Hn & ->)%fmap_Some Hb. assert (b ∈ onode_blocks n) as Hb' by (by rewrite <-(flatten_perm n)). apply (so_orphans c Hs), elem_of_all_orphans.
    exists hash, n. split; [by apply im_get_elem_of|done].
Qed.

Lemma missing_blocks_sourced now h c missing o :
  missing_blocks now h (chain_orphans c) = (missing, o) → sourced c → sourced (set_orphans c o).
Proof.
  unfold missing_blocks. intros [= <- <-]. apply set_orphans_sourced; [|done]. intros b (k & n & Hin & Hb)%elem_of_all_orphans. left.
  cbn [orphan_blocks] in Hin. apply list_elem_of_omap in Hin as (x & ([k' n'] & -> & Hx)%list_elem_of_fmap & Hfst).
  apply elem_of_all_orphans. unfold missing_step in Hfst. cbn [fst snd] in Hfst. repeat case_match; simplify_eq/=.
  - exists k, n'. split; [done|]. by destruct n'.
  - by exists k, n.
Qed.

Lemma add_block_sourced now b c : B b → sourced c → sourced (set_orphans c (add_block now b (chain_orphans c))).
Proof.
  intros Hb. apply set_orphans_sourced; [|done]. intros x. destruct (add_block_orphans now b (chain_orphans c)) as [->| ->]; [by left|].
  intros [->|?]%elem_of_cons; [by right|by left].
Qed.

Lemma try_include_sourced vm_fuel b c i c' : B b → try_include vm_fuel b c = Done (Ok (i, c')) → sourced c → sourced c'.
Proof.
  intros Hb. unfold try_include. destruct (get_block_node c (block_hash b)); [by intros [= _ <-]|]. case_bool_decide.
  - destruct (negb _); [done|]. intros (e & He & [= _ <-])%try_bind_ok Hs. apply Executed_new_inv in He as (He & _).
    apply push_front_sourced; [|by apply (sourced_events c); [|left|]]. intros e' [= <-]. by rewrite He.
  - destruct (find_root (parent b) (forktrees c)) as [[k p]|]; [|by intros [= _ <-]]. destruct (negb _); [done|].
    intros (e & He & Hok)%try_bind_ok. case_bool_decide; [done|]. injection Hok as _ <-. intros Hs. apply Executed_new_inv in He as (He & _).
    apply push_front_sourced; [|by apply (sourced_events c); [|left|]]. intros e' [= <-]. by rewrite He.
Qed.

(** ** Invariants *)

(** What including a block, counting a vote that came in, and finalizing preserve,
    and what does not depend on the queues. *)
Record step_invariant (I : Chain → Prop) : Prop := {
  si_core c c' : same_core c c' → I c → I c';
  si_vote vote c : W vote → I c → I (injest_vote vote c);
  si_include vm_fuel b c i c' : acceptable b c = true → I c → try_include vm_fuel b c = Done (Ok (i, c')) → I c';
  si_finalize c ok c' : I c → try_finalize_roots c = Done (ok, c') → I c'
}.

Section invariant.
Context (I : Chain → Prop) (HI : step_invariant I).

Lemma count_votes_invariant vs c : (∀ v, v ∈ vs → W v) → I c → I (count_votes vs c).
Proof.
  unfold count_votes. revert c. induction vs as [|v vs IH]; intros c Hv Hc; [done|]. cbn [foldl]. apply IH; [set_solver|].
  apply (si_vote _ HI); [|done]. apply Hv. by left.
Qed.

Lemma finalize_loop_invariant fuel c c' : finalize_loop fuel c = Done c' → I c → I c'.
Proof.
  revert c. induction fuel as [|fuel IH]; intros c; [done|]. cbn [finalize_loop].
  intros ([ok c1] & H1' & Hc')%outcome_bind_done Hc. apply (si_finalize _ HI) in H1'; [|done].
  destruct ok; cbn [fst snd] in Hc'; [by apply (IH c1)|by injection Hc' as <-].
Qed.

Lemma include_invariant fuel vm_fuel now b c c' :
  include fuel vm_fuel now b c = Done c' → B b → sourced c → I c → sourced c' ∧ I c'.
Proof.
  revert b c c'. induction fuel as [|fuel IH]; intros b c c'; [done|]. cbn [include].
  destruct (acceptable b c) eqn:Hacc; cbn [negb]; [|by intros [= <-]].
  intros ([[[] c1]|err] & Htry & Hc')%outcome_bind_done Hb Hs Hc; [| |by injection Hc' as <-].
  - pose proof (try_include_sourced _ _ _ _ _ Hb Htry Hs) as Hs1. apply (si_include _ HI) in Htry; [|done..].
    apply (vote_if_head_sourced (block_hash b)) in Hs1. apply (si_core _ HI _ _ (vote_if_head_core (block_hash b) c1)) in Htry.
    destruct (consume_blocks _ _) as [found o] eqn:Hcons. apply consume_blocks_sourced in Hcons as [Hs2 Hfound]; [|done].
    assert (I (set_orphans (vote_if_head (block_hash b) c1) o)) as Hi2 by (by eapply (si_core _ HI); [|exact Htry]).
    destruct found as [bs|]; [|by injection Hc' as <-].
    apply (include_each_ind (λ x, sourced x ∧ I x)) in Hc'; [done| |done]. intros b' x x' Hb' [Hsx Hix] Hx. by apply (IH b' x x' Hx); [apply (Hfound bs)|..].
  - injection Hc' as <-. pose proof (try_include_sourced _ _ _ _ _ Hb Htry Hs) as Hs1. apply (si_include _ HI) in Htry; [|done..].
    split; [by apply add_block_sourced|]. by eapply (si_core _ HI); [|exact Htry].
Qed.

(** The chain after the votes of an included block were counted. *)
Lemma votes_counted b c late o :
  B b → consume_votes (block_hash b) (chain_orphans (count_votes (votes b) c)) = (late, o) → sourced c → I c →
  sourced (count_votes (default [] late) (set_orphans (count_votes (votes b) c) o)) ∧
  I (count_votes (default [] late) (set_orphans (count_votes (votes b) c) o)).
Proof.
  intros Hb Hcons Hs Hc. assert (∀ v, v ∈ votes b → W v) as Hvs by (intros v; by apply HBW).
  pose proof (count_votes_sourced (votes b) c Hvs Hs) as Hs1. apply consume_votes_sourced in Hcons as [Hs2 Hlate]; [|done].
  split; [by apply count_votes_sourced|]. apply count_votes_invariant; [done|].
  eapply (si_core _ HI (count_votes (votes b) c)); [done|]. by apply count_votes_invariant.
Qed.

Lemma post_block_included_invariant now b c c' :
  post_block_included now b c = Done c' → B b → sourced c → I c → sourced c' ∧ I c'.
Proof.
  unfold post_block_included. destruct (consume_votes _ _) as [late o] eqn:Hcons.
  intros (c2 & Hl & Hc')%outcome_bind_done Hb Hs Hc. destruct (votes_counted b c late o Hb Hcons Hs Hc) as [Hs1 Hc1].
  pose proof (finalize_loop_sourced _ _ _ Hl Hs1) as Hs2. apply finalize_loop_invariant in Hl; [|done].
  destruct (missing_blocks _ _ _) as [missing o2] eqn:Hm. injection Hc' as <-. split.
  - apply push_missing_sourced. by eapply missing_blocks_sourced.
  - eapply (si_core _ HI); [apply push_missing_core|]. by eapply (si_core _ HI c2).
Qed.

Lemma take_event_sourced c event : last (events c) = Some event → sourced c → sourced (set_events c (removelast (events c))).
Proof.
  intros (evs & Hevs)%last_Some. apply sourced_events; [done|]. cbn. rewrite Hevs, removelast_last. intros e Hin. left. apply elem_of_app. by left.
Qed.

Lemma poll_next_invariant now ev c c' : poll_next now c = Done (ev, c') → sourced c → I c → sourced c' ∧ I c'.
Proof.
  unfold poll_next. destruct (last (events c)) as [event|] eqn:Hlast; [|by intros [= _ <-]].
  intros (c1 & Hc1 & [= _ <-])%outcome_bind_done Hs Hc. pose proof (take_event_sourced c event Hlast Hs) as Hs0.
  assert (I (set_events c (removelast (events c)))) as Hc0 by (by eapply (si_core _ HI); [|exact Hc]).
  assert (sourced c1 ∧ I c1) as [Hs1 Hi1].
  { destruct event as [| | |e| |]; try (by injection Hc1 as <-). apply post_block_included_invariant in Hc1; [done| |done|done].
    apply (so_events c Hs). apply last_Some in Hlast as (evs & ->). apply elem_of_app. right. by left. }
  destruct event; try done. split; [by apply (sourced_events c1); [|left|]|]. by eapply (si_core _ HI); [|exact Hi1].
Qed.

Lemma chain_step_invariant c c' : chain_step_from c c' → sourced c → I c → sourced c' ∧ I c'.
Proof.
  intros [fuel vm_fuel now b x x' Hb Hi|now ev x x' Hp]; [by eapply include_invariant|by eapply poll_next_invariant].
Qed.

Lemma chain_steps_invariant c c' : rtc chain_step_from c c' → sourced c → I c → sourced c' ∧ I c'.
Proof.
  induction 1 as [|c c1 c' Hstep _ IH]; [done|]. intros Hs Hc. destruct (chain_step_invariant _ _ Hstep Hs Hc). by apply IH.
Qed.
End invariant.

Lemma new_sourced g vm (f : Finalized D St) : sourced (Chain_new g vm f).
Proof. split; cbn; [by intros b ?%not_elem_of_nil|intros h v; rewrite lookup_empty; by intros ?%not_elem_of_nil|by intros e ?%not_elem_of_nil]. Qed.
End sources.

Section blocks.
Context `{Crypto} `{WasmRuntime} {D : Type} `{BlockData D} `{!Executable D} {St : Type} `{StateStore St}.
Abbreviation Chain := (@Chain _ D St).

(** The votes in some blocks. *)
Definition in_blocks (B : Produced D → Prop) (v : Vote) : Prop := ∃ b, B b ∧ v ∈ votes b.

Lemma votes_in_blocks (B : Produced D → Prop) b v : B b → v ∈ votes b → in_blocks B v.
Proof. intros Hb Hv. by exists b. Qed.

(** Steps of a chain that is given any blocks. *)
Lemma chain_step_any (c c' : Chain) : chain_step c c' → chain_step_from (λ _, True) c c'.
Proof. intros [fuel vm_fuel now b x x' Hi|now ev x x' Hp]; [by eapply FromInclude|by eapply FromPoll]. Qed.

Lemma sourced_any (c : Chain) : sourced (λ _, True) (λ _, True) c.
Proof. by split. Qed.

(** *** The machine stays *)

Lemma injest_votes_machine vs (c : Chain) : virtual_machine (count_votes vs c) = virtual_machine c.
Proof.
  unfold count_votes. revert c. induction vs as [|v vs IH]; intros c; [done|]. cbn [foldl]. rewrite IH. unfold injest_vote. by repeat case_match.
Qed.

Lemma try_include_machine vm_fuel b (c : Chain) i c' : try_include vm_fuel b c = Done (Ok (i, c')) → virtual_machine c' = virtual_machine c.
Proof.
  unfold try_include. destruct (get_block_node c (block_hash b)); [by intros [= _ <-]|]. case_bool_decide.
  - destruct (negb _); [done|]. by intros (e & _ & [= _ <-])%try_bind_ok.
  - destruct (find_root (parent b) (forktrees c)) as [[k p]|]; [|by intros [= _ <-]]. destruct (negb _); [done|].
    intros (e & _ & Hok)%try_bind_ok. case_bool_decide; [done|]. by injection Hok as _ <-.
Qed.

Lemma include_machine fuel vm_fuel now b (c c' : Chain) : include fuel vm_fuel now b c = Done c' → virtual_machine c' = virtual_machine c.
Proof.
  revert b c c'. induction fuel as [|fuel IH]; intros b c c'; [done|]. cbn [include]. destruct (acceptable b c); cbn [negb]; [|by intros [= <-]].
  intros ([[[] c1]|err] & Htry & Hc')%outcome_bind_done.
  - apply try_include_machine in Htry. assert (virtual_machine (vote_if_head (block_hash b) c1) = virtual_machine c) as Hv.
    { rewrite <-Htry. unfold vote_if_head, commit_and_vote. by repeat case_match. }
    destruct (consume_blocks _ _) as [[bs|] o]; [|by injection Hc' as <-].
    apply (include_each_ind (λ x, virtual_machine x = virtual_machine c)) in Hc'; [done| |done]. intros b' x x' _ <- Hx'. by apply IH in Hx'.
  - injection Hc' as <-. by apply try_include_machine in Htry.
  - by injection Hc' as <-.
Qed.

Lemma finalize_loop_machine fuel (c c' : Chain) : finalize_loop fuel c = Done c' → virtual_machine c' = virtual_machine c.
Proof.
  revert c. induction fuel as [|fuel IH]; intros c; [done|]. cbn [finalize_loop]. intros ([ok c1] & H1' & Hc')%outcome_bind_done.
  assert (virtual_machine c1 = virtual_machine c) as <-.
  { revert H1'. unfold try_finalize_roots. destruct (find_finalizable_root c); [|by intros [= _ <-]].
    destruct (forktrees c !! _); [|done]. by intros (c2 & (f & _ & [= <-])%outcome_bind_done & [= _ <-])%outcome_bind_done. }
  destruct ok; cbn [fst snd] in Hc'; [by apply IH|by injection Hc' as <-].
Qed.

Lemma chain_step_machine (c c' : Chain) : chain_step c c' → virtual_machine c' = virtual_machine c.
Proof.
  intros [fuel vm_fuel now b x x' Hi|now ev x x' Hp]; [by eapply include_machine|]. revert Hp. unfold poll_next.
  destruct (last (events x)) as [event|]; [|by intros [= _ <-]]. intros (c1 & Hc1 & [= _ <-])%outcome_bind_done.
  assert (virtual_machine c1 = virtual_machine x); [|by destruct event].
  destruct event as [| | |e| |]; try (by injection Hc1 as <-). unfold post_block_included in Hc1. destruct (consume_votes _ _) as [late o].
  apply outcome_bind_done in Hc1 as (c2 & Hl%finalize_loop_machine & Hc1). destruct (missing_blocks _ _ _) as [missing o2]. injection Hc1 as <-.
  rewrite injest_votes_machine in Hl. cbn [virtual_machine set_orphans] in Hl. rewrite injest_votes_machine in Hl.
  assert (∀ c3, virtual_machine (foldl (λ (c : Chain) m, push_front (BlockMissing m) c) c3 missing) = virtual_machine c3) as ->; [|exact Hl].
  clear. induction missing as [|m ms IH]; intros c3; [done|]. cbn [foldl]. by rewrite IH.
Qed.

Lemma any_steps_invariant (I : Chain → Prop) c c' :
  step_invariant (λ _, True) I → rtc chain_step c c' → I c → I c'.
Proof.
  intros HI Hsteps Hc. apply (rtc_subrel _ (chain_step_from (λ _, True))) in Hsteps; [|exact chain_step_any].
  by eapply (chain_steps_invariant (λ _, True) (λ _, True) (λ _ _ _ _, Logic.I) I HI _ _ Hsteps (sourced_any c)).
Qed.
End blocks.
