(* ===== verification/Accountability.v ===== *)
(** * Accountability of the validators who confirm a block

    Every vote that a node counts was signed: the voters of a block have signed
    votes for it or for one of its descendants. Two nodes that confirm blocks on
    different forks hold signed votes for both forks by more than a third of the
    stake. *)
From S2P Require Import Prelude Primitives State Transaction Contract Block Machine VmExample Execution ForkTree ForkTreeProps Orphans OrphansProps Chain Majority ChainExample ChainProps ChainSafety Sources.

Section chain.
Context `{Crypto} `{WasmRuntime} {D : Type} `{BlockData D} `{!Executable D} {St : Type} `{StateStore St}.
Abbreviation Chain := (@Chain _ D St).
Implicit Types (c : Chain) (b : Produced D) (e : Executed D) (t n m : TreeNode D) (v w : VolatileBlock D) (p : Pubkey).

(** ** Signed votes in a tree *)

(** The hashes of a block and its descendants. *)
Definition hashes n : list Multihash := node_hash <$> tree_nodes n.

Section votes.
(** Where the votes are to be found. *)
Context (W : Vote → Prop).

(** A signed vote for one of some blocks. *)
Definition voted (hs : list Multihash) p : Prop :=
  ∃ vote, W vote ∧ Vote_verify_signature vote = true ∧ validator vote = p ∧ target vote ∈ hs.

(** The voters of every block of a tree voted for it or for a descendant. *)
Definition signed_tree n : Prop := ∀ m, m ∈ tree_nodes n → ∀ p, p ∈ voters (value m) → voted (hashes m) p.

Lemma hashes_node x v cs : x ∈ hashes (Node v cs) ↔ x = vb_hash v ∨ ∃ d, d ∈ cs ∧ x ∈ hashes d.
Proof.
  unfold hashes. rewrite list_elem_of_fmap. split.
  - intros (m & -> & [->|(d & Hd & Hm)]%elem_of_tree_nodes); [by left|]. right. exists d. split; [done|]. apply list_elem_of_fmap. eauto.
  - intros [->|(d & Hd & (m & -> & Hm)%list_elem_of_fmap)].
    + exists (Node v cs). split; [done|]. apply tree_nodes_self.
    + exists m. split; [done|]. apply elem_of_tree_nodes. eauto.
Qed.

Lemma signed_tree_node v cs :
  signed_tree (Node v cs) ↔ (∀ p, p ∈ voters v → voted (hashes (Node v cs)) p) ∧ Forall signed_tree cs.
Proof.
  unfold signed_tree. split.
  - intros Hs. split; [exact (Hs _ (tree_nodes_self _))|]. apply Forall_forall. intros d Hd m Hm. apply Hs, elem_of_tree_nodes. eauto.
  - intros [Hv Hcs] m [->|(d & Hd & Hm)]%elem_of_tree_nodes; [done|]. rewrite Forall_forall in Hcs. by apply (Hcs d).
Qed.

Lemma voted_mono hs hs' p : (∀ x, x ∈ hs → x ∈ hs') → voted hs p → voted hs' p.
Proof. intros Hsub (vote & ? & ? & ? & ?). exists vote. auto. Qed.

Lemma hashes_replace v w pre post d d' x :
  vb_hash w = vb_hash v → (∀ x, x ∈ hashes d → x ∈ hashes d') → x ∈ hashes (Node v (pre ++ d :: post)) → x ∈ hashes (Node w (pre ++ d' :: post)).
Proof.
  intros Hw Hsub. rewrite !hashes_node, Hw. intros [->|(y & [Hy|[->|Hy]%elem_of_cons]%elem_of_app & Hx)]; [by left|right..].
  - exists y. set_solver.
  - exists d'. split; [set_solver|auto].
  - exists y. set_solver.
Qed.

(** An update that adds voters who voted for its target. *)
Lemma tree_update_signed hash f g n n' :
  (∀ m, signed_tree m → node_hash m = hash → signed_tree (f m) ∧ ∀ x, x ∈ hashes m → x ∈ hashes (f m)) →
  (∀ v, block (g v) = block v) → (∀ v p, p ∈ voters (g v) → p ∈ voters v ∨ voted [hash] p) →
  signed_tree n → tree_update hash f g n = Some n' →
  signed_tree n' ∧ (∀ x, x ∈ hashes n → x ∈ hashes n') ∧ hash ∈ hashes n'.
Proof.
  intros Hf Hblock Hg. revert n'. induction n as [v cs IH] using TreeNode_induction.
  intros n' Hs [[Hh ->]|(Hh & pre & d & d' & post & -> & Hd & Hpre & ->)]%tree_update_inv.
  { destruct (Hf _ Hs Hh) as [Hs' Hsub]. split_and!; [done|done|]. apply Hsub. rewrite hashes_node. by left. }
  apply signed_tree_node in Hs as [Hv Hcs]. apply Forall_app in IH as [_ [IHd _]%Forall_cons].
  apply Forall_app in Hcs as [Hcs1 [Hcsd Hcs2]%Forall_cons]. destruct (IHd _ Hcsd Hd) as (Hs' & Hsub & Hin).
  assert (vb_hash (g v) = vb_hash v) as Hgh by (unfold vb_hash; by rewrite Hblock).
  assert (hash ∈ hashes (Node (g v) (pre ++ d' :: post))) as Hin'.
  { rewrite hashes_node. right. exists d'. split; [set_solver|done]. }
  split_and!; [|intros x; by apply hashes_replace|done].
  apply signed_tree_node. split; [|apply Forall_app; split; [done|by constructor]].
  intros p [Hp|Hp]%Hg.
  - eapply voted_mono; [|by apply Hv]. intros x. by apply hashes_replace.
  - eapply voted_mono; [|exact Hp]. intros x ->%list_elem_of_singleton. done.
Qed.

Lemma tree_add_votes_signed vote stake n n' :
  W vote → Vote_verify_signature vote = true → signed_tree n → tree_add_votes (target vote) stake (validator vote) n = Some n' → signed_tree n'.
Proof.
  intros HW Hsig Hs Hup.
  assert (∀ v p, p ∈ voters (add_vote_to stake (validator vote) v) → p ∈ voters v ∨ voted [target vote] p) as Hg.
  { intros v p. unfold add_vote_to. case_bool_decide; [by left|]. cbn [voters]. intros [->%elem_of_singleton|?]%elem_of_union; [|by left].
    right. exists vote. split_and!; [done..|by left]. }
  apply (tree_update_signed (target vote) _ _ n n') in Hup as (Hs' & _); [done| |apply add_vote_to_block|exact Hg|done].
  intros [v cs] Hm Hh. apply signed_tree_node in Hm as [Hv Hcs].
  assert (∀ x, x ∈ hashes (Node v cs) → x ∈ hashes (Node (add_vote_to stake (validator vote) v) cs)) as Hsub.
  { intros x. rewrite !hashes_node. unfold vb_hash. by rewrite add_vote_to_block. }
  split; [|exact Hsub]. apply signed_tree_node. split; [|done]. intros p [Hp|Hp]%Hg.
  - eapply voted_mono; [exact Hsub|by apply Hv].
  - eapply voted_mono; [|exact Hp]. intros x ->%list_elem_of_singleton. apply Hsub, hashes_node. by left.
Qed.

Lemma new_node_signed e : signed_tree (TreeNode_new (Volatile_new e)).
Proof. apply signed_tree_node. split; [|constructor]. intros p Hp. cbn in Hp. set_solver. Qed.

Lemma tree_add_child_signed hash e n n' :
  signed_tree n → tree_update hash (add_child (Volatile_new e)) id n = Some n' → signed_tree n'.
Proof.
  intros Hs Hup. apply (tree_update_signed hash _ _ n n') in Hup as (Hs' & _); [done| |done|by left|done].
  intros [v cs] Hm Hh. apply signed_tree_node in Hm as [Hv Hcs].
  assert (∀ x, x ∈ hashes (Node v cs) → x ∈ hashes (add_child (Volatile_new e) (Node v cs))) as Hsub.
  { intros x. change (add_child (Volatile_new e) (Node v cs)) with (Node v (cs ++ [Node (Volatile_new e) []])). rewrite !hashes_node.
    intros [->|(d & Hd & Hx)]; [by left|]. right. exists d. set_solver. }
  split; [|exact Hsub]. cbn [add_child value children] in *. apply signed_tree_node. split.
  - intros p Hp. eapply voted_mono; [exact Hsub|by apply Hv].
  - apply Forall_app. split; [done|]. constructor; [apply new_node_signed|constructor].
Qed.

(** ** Signed votes in a chain *)

Definition signed_forest c : Prop := Forall signed_tree (forktrees c).

Lemma injest_vote_signed vote c : W vote → signed_forest c → signed_forest (injest_vote vote c).
Proof.
  intros HW Hs. unfold injest_vote. destruct (stakes c !! validator vote) as [stake|]; [|done].
  destruct (stake <? _); [done|]. destruct (Vote_verify_signature vote) eqn:Hsig; cbn [negb]; [|done].
  destruct (find_root (target vote) (forktrees c)) as [[i r]|]; [|done]. destruct (_ && _); [done|].
  apply update_root_forall; [|exact Hs]. intros t t' _ Ht. by apply tree_add_votes_signed.
Qed.

Lemma try_include_signed vm_fuel b c i c' : signed_forest c → try_include vm_fuel b c = Done (Ok (i, c')) → signed_forest c'.
Proof.
  intros Hs. unfold try_include. destruct (get_block_node c (block_hash b)); [by intros [= _ <-]|]. case_bool_decide.
  - destruct (height b =? _); cbn [negb]; [|done]. intros Hok. apply try_bind_ok in Hok as (e & _ & Hok). apply (inj Done) in Hok. injection Hok as _ <-.
    apply Forall_app. split; [done|]. constructor; [apply new_node_signed|constructor].
  - destruct (find_root (parent b) (forktrees c)) as [[k p]|]; [|by intros [= _ <-]].
    destruct (height b =? _); cbn [negb]; [|done]. intros Hok. apply try_bind_ok in Hok as (e & _ & Hok). case_bool_decide; [done|].
    apply (inj Done) in Hok. injection Hok as _ <-. apply update_root_forall; [|exact Hs]. intros t t' _ Ht. by apply tree_add_child_signed.
Qed.

Lemma try_finalize_roots_signed c ok c' : signed_forest c → try_finalize_roots c = Done (ok, c') → signed_forest c'.
Proof.
  intros Hs Hc'. apply try_finalize_roots_inv in Hc'. destruct ok; [|by destruct Hc' as [-> _]].
  destruct Hc' as (i & t & Ht & _ & Hfork & _). unfold signed_forest. rewrite Hfork.
  assert (signed_tree t) as Hst by (by eapply Forall_lookup_1). destruct t as [v cs]. by apply signed_tree_node in Hst as [_ ?].
Qed.

Lemma signed_forest_invariant : step_invariant W signed_forest.
Proof.
  split.
  - intros x x' (_ & _ & _ & Hf). unfold signed_forest. by rewrite Hf.
  - apply injest_vote_signed.
  - intros vm_fuel b x i x' _. apply try_include_signed.
  - apply try_finalize_roots_signed.
Qed.

(** The voters of a block of the forest voted for it or for a descendant. *)
Lemma forest_voted c t n p : signed_forest c → t ∈ forktrees c → n ∈ tree_nodes t → p ∈ voters (value n) → voted (hashes n) p.
Proof. intros Hs Ht Hn. unfold signed_forest in Hs. rewrite Forall_forall in Hs. by apply (Hs t Ht). Qed.

End votes.

(** The stakes are those of the genesis block. *)
Lemma chain_steps_stakes c c' : rtc chain_step c c' → genesis c' = genesis c ∧ stakes c' = stakes c.
Proof.
  intros Hsteps. apply (any_steps_invariant (λ x, genesis x = genesis c ∧ stakes x = stakes c) c c'); [split|done|done].
  - by intros x x' (-> & -> & _).
  - intros vote x _. by destruct (injest_vote_core vote x) as (-> & -> & _).
  - intros vm_fuel b x i x' _ Hx. unfold try_include. destruct (get_block_node x (block_hash b)); [by intros [= _ <-]|]. case_bool_decide.
    + destruct (height b =? _); cbn [negb]; [|done]. intros Hok. apply try_bind_ok in Hok as (e & _ & Hok). apply (inj Done) in Hok. by injection Hok as _ <-.
    + destruct (find_root (parent b) (forktrees x)) as [[k p]|]; [|by intros [= _ <-]].
      destruct (height b =? _); cbn [negb]; [|done]. intros Hok. apply try_bind_ok in Hok as (e & _ & Hok). case_bool_decide; [done|].
      apply (inj Done) in Hok. by injection Hok as _ <-.
  - intros x ok x' Hx Hfin. apply try_finalize_roots_inv in Hfin. destruct ok; [|by destruct Hfin as [-> _]].
    by destruct Hfin as (i & t & _ & _ & _ & -> & -> & _).
Qed.

Lemma eligible_genesis g vm vm' (f f' : Finalized D St) c c' :
  rtc chain_step (Chain_new g vm f) c → rtc chain_step (Chain_new g vm' f') c' → eligible c' = eligible c.
Proof. intros [Hg Hs]%chain_steps_stakes [Hg' Hs']%chain_steps_stakes. unfold eligible. by rewrite Hg, Hs, Hg', Hs'. Qed.

(** In a chain that was given certain blocks, the voters of a block of the forest
    voted for it or for a descendant in these blocks. *)
Lemma chain_steps_signed B g vm (f : Finalized D St) c :
  rtc (chain_step_from B) (Chain_new g vm f) c → signed_forest (in_blocks B) c.
Proof.
  intros Hsteps. eapply (chain_steps_invariant B (in_blocks B) (votes_in_blocks B) _ (signed_forest_invariant _) _ _ Hsteps).
  - apply new_sourced.
  - constructor.
Qed.

Lemma chain_steps_any B c c' : rtc (chain_step_from B) c c' → rtc chain_step c c'.
Proof. apply rtc_subrel. intros x y. apply chain_step_from_step. Qed.

(** ** Theorem *)

(** Validators can be held to account for what they confirm. Two nodes start from the same
    genesis block, each from what it has finalized, and are given blocks, the one those of [B]
    and the other those of [B']. When each of them has a confirmed block, there are validators
    with more than a third of the stake of each of whom there are two signed votes: one in the
    blocks of [B], for the first block or a descendant of it, and one in the blocks of [B'], for
    the second block or a descendant. When the blocks are on different forks, these are votes
    for both forks. *)
Theorem conflicting_confirmations_accountable B B' g vm vm' (f f' : Finalized D St) c c' t1 n1 t2 n2 :
  rtc (chain_step_from B) (Chain_new g vm f) c → rtc (chain_step_from B') (Chain_new g vm' f') c' →
  stakes_ok c → total_stake c ≠ 0 →
  t1 ∈ forktrees c → n1 ∈ tree_nodes t1 → confirmed c (value n1) = true →
  t2 ∈ forktrees c' → n2 ∈ tree_nodes t2 → confirmed c' (value n2) = true →
  ∃ X : gset Pubkey, total_stake c < 3 * stake_of c X ∧ X ⊆ dom (eligible c) ∧
    ∀ p, p ∈ X → voted (in_blocks B) (hashes n1) p ∧ voted (in_blocks B') (hashes n2) p.
Proof.
  intros Hc Hc' Hok Hne Ht1 Hn1 Hcf1 Ht2 Hn2 Hcf2. exists (voters (value n1) ∩ voters (value n2)).
  pose proof (chain_steps_signed _ _ _ _ _ Hc) as Hs. pose proof (chain_steps_signed _ _ _ _ _ Hc') as Hs'.
  apply chain_steps_any in Hc, Hc'. pose proof (eligible_genesis g vm vm' f f' c c' Hc Hc') as Hel.
  pose proof (chain_steps_wf _ _ Hc (Chain_new_wf g vm f)) as Hwf. pose proof (chain_steps_wf _ _ Hc' (Chain_new_wf g vm' f')) as Hwf'.
  split; [by apply (shared_voters c c' t1 n1 t2 n2)|]. split.
  - pose proof (forest_votes_ok c t1 n1 Hwf Ht1 Hn1) as [Hsub _]. set_solver.
  - intros p [Hp1 Hp2]%elem_of_intersection. split; [by apply (forest_voted _ c t1 n1)|by apply (forest_voted _ c' t2 n2)].
Qed.
End chain.

(** ** Witness *)

Import VmExample ChainExample.

(** Another first block, and a chain that has received it and its child, with the
    vote of the same validator. *)
Definition other1 : Produced string := Produced_new key 1 (genesis_hash toy_chain_genesis) "other" empty_hash [].
Definition other2 : Produced string := next_block 2 (block_hash other1) [vote_for other1].
Definition other : ToyChain := poll (poll (poll (include_block other2 (include_block other1 c0)))).

Lemma include_block_from (B : Produced string → Prop) b c :
  B b → rtc (chain_step_from B) c0 c → is_done (include 10 1 0 b c) = true → rtc (chain_step_from B) c0 (include_block b c).
Proof. intros Hb Hc Hd. eapply rtc_r; [exact Hc|]. apply (FromInclude B 10 1 0 b); [exact Hb|by apply is_done_eq]. Qed.

Lemma poll_from (B : Produced string → Prop) c :
  rtc (chain_step_from B) c0 c → is_done (poll_next 0 c) = true → rtc (chain_step_from B) c0 (poll c).
Proof.
  intros Hc Hd. eapply rtc_r; [exact Hc|]. eapply (FromPoll B 0 (done_or (poll_next 0 c) (None, c)).1).
  rewrite (is_done_eq _ (None, c) Hd) at 1. unfold poll. by destruct (done_or _ _).
Qed.

(** What the two chains were given. *)
Definition three_blocks (b : Produced string) : Prop := b = b1 ∨ b = b2 ∨ b = b3.
Definition other_blocks (b : Produced string) : Prop := b = other1 ∨ b = other2.

Lemma c2_from : rtc (chain_step_from three_blocks) c0 c2.
Proof.
  unfold c2. do 3 (apply poll_from; [|by vm_compute]). unfold c1.
  apply include_block_from; [left; reflexivity| |by vm_compute]. apply include_block_from; [right; left; reflexivity| |by vm_compute].
  apply include_block_from; [right; right; reflexivity|apply rtc_refl|by vm_compute].
Qed.

Lemma other_from : rtc (chain_step_from other_blocks) c0 other.
Proof.
  unfold other. do 3 (apply poll_from; [|by vm_compute]). apply include_block_from; [right; reflexivity| |by vm_compute].
  apply include_block_from; [left; reflexivity|apply rtc_refl|by vm_compute].
Qed.

Definition first_root (c : ToyChain) : TreeNode string := hd ripe_root (forktrees c).
Lemma c2_stakes_ok : stakes_ok c2.
Proof. apply stakes_ok_test. by vm_compute. Qed.
Lemma c2_root_in : first_root c2 ∈ forktrees c2.
Proof. apply hd_elem. by vm_compute. Qed.
Lemma other_root_in : first_root other ∈ forktrees other.
Proof. apply hd_elem. by vm_compute. Qed.
Lemma conflicting_roots : node_hash (first_root c2) = block_hash b1 ∧ node_hash (first_root other) = block_hash other1 ∧ block_hash b1 ≠ block_hash other1.
Proof. split_and!; apply (bool_decide_unpack _); by vm_compute. Qed.

Lemma conflicting_confirmations_accountable_witness :
  ∃ X : gset Pubkey, total_stake c2 < 3 * stake_of c2 X ∧ X ⊆ dom (eligible c2) ∧
    ∀ p, p ∈ X → voted (in_blocks three_blocks) (hashes (first_root c2)) p ∧
      voted (in_blocks other_blocks) (hashes (first_root other)) p.
Proof.
  apply (conflicting_confirmations_accountable _ _ toy_chain_genesis toy_vm toy_vm (MkFinalized (GenesisBlock toy_chain_genesis) ∅)
    (MkFinalized (GenesisBlock toy_chain_genesis) ∅) c2 other (first_root c2) (first_root c2) (first_root other) (first_root other)).
  - exact c2_from.
  - exact other_from.
  - exact c2_stakes_ok.
  - by vm_compute.
  - exact c2_root_in.
  - exact (tree_nodes_self (first_root c2)).
  - by vm_compute.
  - exact other_root_in.
  - exact (tree_nodes_self (first_root other)).
  - by vm_compute.
Defined.
