(* ===== verification/Liveness.v ===== *)
(** * Finality keeps up with the votes

    When a block at the head of its tree brings the votes of a quorum for its
    parent, the chain finalizes, as it takes the event of the block, everything
    that is more than an epoch older than the head's epoch. *)
From S2P Require Import Prelude Primitives State Transaction Contract Block Machine VmExample Execution ForkTree ForkTreeProps Orphans OrphansProps Chain Majority ChainExample ChainProps ChainSafety Accountability.

Section chain.
Context `{Crypto} `{WasmRuntime} {D : Type} `{BlockData D} `{!Executable D} {St : Type} `{StateStore St}.
Abbreviation Chain := (@Chain _ D St).
Implicit Types (c : Chain) (e : Executed D) (t n m : TreeNode D) (v w : VolatileBlock D) (r s : Ref D) (vote : Vote) (X : gset Pubkey).

(** ** Paths *)

(** The path of a reference to a node of a tree passes through the tree's nodes
    up to its root. *)
Lemma tree_refs_path anc n r :
  r ∈ tree_refs anc n →
  ∃ l, path r = l ++ path (n, anc) ∧ (∀ s, s ∈ l → s.1 ∈ tree_nodes n) ∧ (chained n anc → chained r.1 r.2).
Proof.
  revert anc. induction n as [v cs IH] using TreeNode_induction. rewrite Forall_forall in IH.
  intros anc [->|(d & Hd & Hr)]%elem_of_tree_refs.
  { exists []. split_and!; [done|by intros s ?%not_elem_of_nil|done]. }
  destruct (IH d Hd _ Hr) as (l & Hl & Hin & Hch). exists (l ++ [(d, Node v cs :: anc)]). split_and!.
  - by rewrite Hl, <-app_assoc.
  - intros s Hs. apply elem_of_tree_nodes. right. exists d. split; [done|].
    apply elem_of_app in Hs as [Hs| ->%list_elem_of_singleton]; [by apply Hin|apply tree_nodes_self].
  - intros Hc. apply Hch. by split.
Qed.

Lemma path_drop r k s : path r !! k = Some s → path s = drop k (path r).
Proof.
  destruct r as [n anc]. revert n k. induction anc as [|a anc IH]; intros n [|k]; unfold path; cbn [lookup list_lookup ancestors fst snd drop].
  - by intros [= <-].
  - done.
  - by intros [= <-].
  - apply (IH a k).
Qed.

Lemma chained_lookup r k s s' :
  chained r.1 r.2 → path r !! k = Some s → path r !! S k = Some s' → s.1 ∈ children s'.1.
Proof.
  destruct r as [n anc]. cbn [fst snd]. revert n k. induction anc as [|a anc IH]; intros n [|k] Hch; unfold path; cbn [lookup list_lookup ancestors fst snd]; try done.
  - destruct Hch as [Hn _]. by intros [= <-] [= <-].
  - destruct Hch as [_ Hch]. apply (IH a k Hch).
Qed.

Lemma epoch_start_on_path r eb k s :
  NoDup ((λ x : Ref D, node_hash x.1) <$> path r) → path r !! k = Some s → ∃ j, (k ≤ j)%nat ∧ path r !! j = Some (epoch_start eb s).
Proof.
  intros Hnd Hs. pose proof (path_drop r k s Hs) as Hdrop.
  destruct (epoch_start_spec_lemma eb s) as (i & Hi & _).
  { rewrite Hdrop, fmap_drop. eapply sublist_NoDup; [exact Hnd|apply sublist_drop]. }
  exists (k + i)%nat. split; [lia|]. by rewrite Hdrop, lookup_drop in Hi.
Qed.

Section tree.
Context (stakes : gmap Pubkey Z) t r (Hwf : tree_wf stakes t) (Hr : r ∈ tree_refs [] t).

Lemma path_in_tree k s : path r !! k = Some s → s.1 ∈ tree_nodes t.
Proof.
  destruct (tree_refs_path [] t r Hr) as (l & Hl & Hin & _). rewrite Hl. intros Hs%list_elem_of_lookup_2.
  apply elem_of_app in Hs as [Hs| ->%list_elem_of_singleton]; [by apply Hin|apply tree_nodes_self].
Qed.

Lemma path_link k s s' : path r !! k = Some s → path r !! S k = Some s' → link (value s'.1) s.1.
Proof.
  intros Hs Hs'. destruct (tree_refs_path [] t r Hr) as (_ & _ & _ & Hch). pose proof (chained_lookup r k s s' (Hch I) Hs Hs') as Hin.
  destruct (Hwf s'.1 (path_in_tree _ _ Hs')) as [_ Hl]. rewrite Forall_forall in Hl. by apply Hl.
Qed.

Lemma path_heights k s : path r !! k = Some s → vb_height (value s.1) = vb_height (value r.1) - Z.of_nat k.
Proof.
  revert s. induction k as [|k IH]; intros s Hs; [injection Hs as <-; lia|].
  assert (k < length (path r))%nat as [s0 Hs0]%lookup_lt_is_Some by (apply lookup_lt_Some in Hs; lia).
  destruct (path_link k s0 s Hs0 Hs) as (_ & Hh & _). specialize (IH s0 Hs0). lia.
Qed.

Lemma path_voters j k s s' : (j ≤ k)%nat → path r !! j = Some s → path r !! k = Some s' → voters (value s.1) ⊆ voters (value s'.1).
Proof.
  intros Hjk Hs. revert s'. induction Hjk as [|k Hjk IH]; intros s' Hs'; [by simplify_eq|].
  assert (k < length (path r))%nat as [s0 Hs0]%lookup_lt_is_Some by (apply lookup_lt_Some in Hs'; lia).
  destruct (path_link k s0 s' Hs0 Hs') as (_ & _ & Hv). etrans; [by apply IH|exact Hv].
Qed.

Lemma path_root : ∃ k, path r !! k = Some ((t, []) : Ref D) ∧ length (path r) = S k.
Proof.
  destruct (tree_refs_path [] t r Hr) as (l & Hl & _). exists (length l). rewrite Hl, length_app. split; [|simpl; lia].
  by apply list_lookup_middle.
Qed.

(** Above a block whose epoch is not the root's, the start of the epoch has a
    parent, in the epoch before. *)
Lemma epoch_before eb k s :
  0 < eb → NoDup ((λ x : Ref D, node_hash x.1) <$> path r) → path r !! k = Some s → ref_epoch eb (t, []) < ref_epoch eb s →
  ∃ j s', (k ≤ j)%nat ∧ path r !! j = Some (epoch_start eb s) ∧ path (epoch_start eb s) !! 1%nat = Some s' ∧
    path r !! S j = Some s' ∧ ref_epoch eb s' = ref_epoch eb s - 1.
Proof.
  intros Heb Hnd Hs Hlt. pose proof (path_drop r k s Hs) as Hdrop.
  assert (NoDup ((λ x : Ref D, node_hash x.1) <$> path s)) as Hnd'.
  { rewrite Hdrop, fmap_drop. eapply sublist_NoDup; [exact Hnd|apply sublist_drop]. }
  destruct (epoch_start_spec_lemma eb s Hnd') as (i & Hi & Hle & Hne). rewrite Hdrop, lookup_drop in Hi.
  pose proof (Hle i (epoch_start eb s) (le_n i)) as Hes. rewrite Hdrop, lookup_drop in Hes. specialize (Hes Hi).
  destruct path_root as (kr & Hkr & Hlen).
  assert (k + i < kr)%nat as Hlt'.
  { pose proof (lookup_lt_Some _ _ _ Hi). destruct (decide (k + i = kr)%nat) as [Heq|]; [|lia].
    rewrite Heq, Hkr in Hi. injection Hi as Hi. rewrite <-Hi in Hes. clear -Hes Hlt. lia. }
  assert (S (k + i) < length (path r))%nat as [s' Hs']%lookup_lt_is_Some by lia.
  exists (k + i)%nat, s'. split_and!; [lia|done| |done|].
  - rewrite (path_drop r _ _ Hi), lookup_drop. by replace (k + i + 1)%nat with (S (k + i)) by lia.
  - specialize (Hne s'). rewrite Hdrop, lookup_drop in Hne. replace (k + S i)%nat with (S (k + i)) in Hne by lia. specialize (Hne Hs').
    apply path_heights in Hs' as Hh'. apply path_heights in Hi as Hh. unfold ref_epoch in *. rewrite <-Hes in Hne |- *.
    assert (vb_height (value s'.1) = vb_height (value (epoch_start eb s).1) - 1) as Hx by lia. rewrite Hx in Hne |- *.
    clear -Heb Hne. set (h := vb_height _) in *.
    pose proof (Z.div_mod h eb). pose proof (Z.mod_pos_bound h eb Heb). pose proof (Z.div_mod (h - 1) eb). pose proof (Z.mod_pos_bound (h - 1) eb Heb). nia.
Qed.
End tree.

(** ** Votes that are counted *)

(** All the copies of a block in the forest have these voters. *)
Definition counted (hash : Multihash) X c : Prop :=
  ∀ t m, t ∈ forktrees c → m ∈ tree_nodes t → node_hash m = hash → X ⊆ voters (value m).

(** A vote that the chain counts when it knows the block. *)
Definition countable c vote : Prop :=
  is_Some (eligible c !! validator vote) ∧ Vote_verify_signature vote = true ∧ in_finalized_history c (justification vote) = true.

Lemma elem_of_update_root (f : TreeNode D → option (TreeNode D)) roots t' :
  t' ∈ update_root f roots → t' ∈ roots ∨ ∃ t, t ∈ roots ∧ f t = Some t'.
Proof.
  induction roots as [|x roots IH]; cbn [update_root]; [by left|]. destruct (f x) as [x'|] eqn:Hx.
  - intros [->|?]%elem_of_cons; [right; exists x; split; [by left|done]|left; by right].
  - intros [->|[?|(t & ? & ?)]%IH]%elem_of_cons; [left; by left|left; by right|right; exists t; split; [by right|done]].
Qed.

Lemma tree_add_votes_nodes hash stake voter n n' :
  tree_add_votes hash stake voter n = Some n' →
  (∀ m', m' ∈ tree_nodes n' → ∃ m, m ∈ tree_nodes n ∧ node_hash m = node_hash m' ∧ voters (value m) ⊆ voters (value m')) ∧
  ∃ m', m' ∈ tree_nodes n' ∧ node_hash m' = hash ∧ voter ∈ voters (value m').
Proof.
  revert n'. induction n as [v cs IH] using TreeNode_induction. intros n'.
  assert (∀ cs', ∃ m, m ∈ tree_nodes (Node v cs) ∧ node_hash m = node_hash (Node (add_vote_to stake voter v) cs') ∧
    voters (value m) ⊆ voters (add_vote_to stake voter v)) as Hself.
  { intros cs'. exists (Node v cs). split_and!; [apply tree_nodes_self| |apply add_vote_to_incr].
    unfold node_hash, vb_hash. cbn [value]. by rewrite add_vote_to_block. }
  intros [[Hh ->]|(Hh & pre & d & d' & post & -> & Hd & Hpre & ->)]%tree_update_inv; cbn [value children] in *.
  - split.
    + intros m' [->|(d & Hd & Hm)]%elem_of_tree_nodes; [apply Hself|]. exists m'. split_and!; [|done|done].
      apply elem_of_tree_nodes. eauto.
    + exists (Node (add_vote_to stake voter v) cs). split_and!; [apply tree_nodes_self| |apply add_vote_to_voter].
      unfold node_hash, vb_hash. cbn [value]. by rewrite add_vote_to_block.
  - apply Forall_app in IH as [_ [IHd _]%Forall_cons]. destruct (IHd _ Hd) as [Hold (m' & Hm' & Hhash & Hvoter)]. split.
    + intros x' [->|(y & Hy & Hx)]%elem_of_tree_nodes; [apply Hself|].
      assert (∃ z x, z ∈ pre ++ d :: post ∧ x ∈ tree_nodes z ∧ node_hash x = node_hash x' ∧ voters (value x) ⊆ voters (value x')) as (z & x & Hz & Hx' & ?).
      { apply elem_of_app in Hy as [Hy|[->|Hy]%elem_of_cons]; [exists y, x'; set_solver| |exists y, x'; set_solver].
        destruct (Hold x' Hx) as (x & ? & ?). exists d, x. set_solver. }
      exists x. split; [|done]. apply elem_of_tree_nodes. eauto.
    + exists m'. split; [|done]. apply elem_of_tree_nodes. right. exists d'. set_solver.
Qed.

Lemma injest_vote_keeps vote c hash X : counted hash X c → counted hash X (injest_vote vote c).
Proof.
  intros Hc. unfold injest_vote. repeat (case_match; try done). intros t' m' Ht' Hm' Hh.
  apply elem_of_update_root in Ht' as [Ht'|(t & Ht & Hup)]; [by apply (Hc t')|].
  apply tree_add_votes_nodes in Hup as [Hold _]. destruct (Hold m' Hm') as (m & Hm & Hhash & Hsub).
  etrans; [apply (Hc t m Ht Hm); by rewrite Hhash|exact Hsub].
Qed.

(** A hash names one node of the forest. *)
Lemma node_unique c t t' m m' :
  chain_wf c → t ∈ forktrees c → t' ∈ forktrees c → m ∈ tree_nodes t → m' ∈ tree_nodes t' → node_hash m = node_hash m' → m = m'.
Proof.
  intros Hwf Ht Ht' Hm Hm' Hh.
  assert (∀ ts : list (TreeNode D), concat (tree_blocks <$> ts) = (λ x : TreeNode D, block (value x)) <$> concat (tree_nodes <$> ts)) as Hmap.
  { intros ts. induction ts as [|x ts IH]; [done|]. rewrite !fmap_cons, !concat_cons, fmap_app, IH. done. }
  assert (∀ x y, x ∈ forktrees c → y ∈ tree_nodes x → y ∈ concat (tree_nodes <$> forktrees c)) as Hin.
  { intros x y Hx Hy. apply list_elem_of_In, in_concat. exists (tree_nodes x). rewrite <-!list_elem_of_In. split; [by apply list_elem_of_fmap_2|done]. }
  pose proof (wf_unique c Hwf) as Hnd. unfold forest_blocks in Hnd. rewrite Hmap, <-list_fmap_compose in Hnd.
  destruct (proj1 (list_elem_of_lookup _ _) (Hin t m Ht Hm)) as [i Hi]. destruct (proj1 (list_elem_of_lookup _ _) (Hin t' m' Ht' Hm')) as [j Hj].
  assert (i = j) as ->; [|congruence]. eapply (NoDup_lookup _ i j (node_hash m) Hnd); rewrite list_lookup_fmap.
  - by rewrite Hi.
  - by rewrite Hj, Hh.
Qed.

Lemma injest_vote_counts vote c : chain_wf c → countable c vote → counted (target vote) {[validator vote]} (injest_vote vote c).
Proof.
  intros Hwf ([stake Hel] & Hsig & Hhist). pose proof (injest_vote_wf vote c Hwf) as Hwf'. revert Hwf'.
  apply map_lookup_filter_Some in Hel as [Hs Hmin]. cbn [snd] in Hmin. unfold injest_vote. rewrite Hs, (proj2 (Z.ltb_ge _ _) Hmin), Hsig, Hhist. cbn [negb andb].
  destruct (find_root (target vote) (forktrees c)) as [[i r]|] eqn:Hr.
  2: { intros _ t m Ht Hm Hh. by eapply find_root_none in Hr. }
  intros Hwf'. destruct (find_root_update _ _ _ _ (λ n, Node (add_vote_to stake (validator vote) (value n)) (children n)) (add_vote_to stake (validator vote)) Hr) as (t & Ht & Hup).
  assert (∃ t' m', t' ∈ update_root (tree_add_votes (target vote) stake (validator vote)) (forktrees c) ∧ m' ∈ tree_nodes t' ∧
    node_hash m' = target vote ∧ validator vote ∈ voters (value m')) as (t' & m' & Ht' & Hm' & Hh' & Hv').
  { clear -Ht Hup. induction (forktrees c) as [|x ts IH]; [by apply not_elem_of_nil in Ht|]. cbn [update_root].
    destruct (tree_add_votes (target vote) stake (validator vote) x) as [x'|] eqn:Hx.
    - apply tree_add_votes_nodes in Hx as [_ (m' & ?)]. exists x', m'. split; [by left|done].
    - apply elem_of_cons in Ht as [->|Ht]; [unfold tree_add_votes in Hx; rewrite Hx in Hup; by destruct Hup|].
      destruct (IH Ht) as (t' & m' & ? & ?). exists t', m'. split; [by right|done]. }
  intros t2 m2 Ht2 Hm2 Hh2. assert (m2 = m') as ->; [|set_solver].
  eapply (node_unique _ t2 t' m2 m' Hwf'); [done..|]. by rewrite Hh2, Hh'.
Qed.

Lemma injest_vote_countable vote vote' c : countable c vote → countable (injest_vote vote' c) vote.
Proof.
  unfold countable, eligible, in_finalized_history, finalized_hash.
  destruct (injest_vote_core vote' c) as (-> & -> & ->).
  assert (finalized_history (injest_vote vote' c) = finalized_history c) as -> by (unfold injest_vote; by repeat case_match).
  done.
Qed.

Lemma count_votes_keeps vs c hash X : counted hash X c → counted hash X (count_votes vs c).
Proof. unfold count_votes. revert c. induction vs as [|x vs IH]; intros c Hc; [done|]. cbn [foldl]. by apply IH, injest_vote_keeps. Qed.

Lemma count_votes_counts vs vote c :
  chain_wf c → countable c vote → vote ∈ vs → counted (target vote) {[validator vote]} (count_votes vs c).
Proof.
  unfold count_votes. revert c. induction vs as [|x vs IH]; intros c Hwf Hc; [by intros ?%not_elem_of_nil|].
  intros [->|Hin]%elem_of_cons; cbn [foldl].
  - by apply count_votes_keeps, injest_vote_counts.
  - apply IH; [by apply injest_vote_wf|by apply injest_vote_countable|done].
Qed.

(** ** When the loop has ended *)

(** Nothing is left to finalize. *)
Definition settled c : Prop := ∀ t, t ∈ forktrees c → finalizable c t = false.

Lemma find_index_none {A} (p : A → bool) (l : list A) x : find_index p l = None → x ∈ l → p x = false.
Proof.
  induction l as [|y l IH]; cbn [find_index]; [by intros _ ?%not_elem_of_nil|].
  destruct (p y) eqn:Hy; [done|]. destruct (find_index p l); [done|]. intros _ [->|Hin]%elem_of_cons; [done|by apply IH].
Qed.

Lemma same_core_finalizable c c' t : same_core c c' → finalizable c' t = finalizable c t.
Proof. destruct c, c'. intros (Hg & Hs & _). simpl in *. subst. done. Qed.

Lemma same_core_settled c c' : same_core c c' → settled c → settled c'.
Proof. intros Hc Hs t. rewrite (same_core_finalizable c c') by done. destruct Hc as (_ & _ & _ & ->). apply Hs. Qed.

Lemma same_core_counted c c' hash X : same_core c c' → counted hash X c → counted hash X c'.
Proof. intros (_ & _ & _ & Hf) Hc t m. rewrite Hf. apply Hc. Qed.

Lemma finalize_loop_settles fuel c c' hash X :
  counted hash X c → finalize_loop fuel c = Done c' →
  settled c' ∧ counted hash X c' ∧ genesis c' = genesis c ∧ stakes c' = stakes c.
Proof.
  revert c. induction fuel as [|fuel IH]; intros c Hc; [done|]. cbn [finalize_loop].
  intros ([ok c1] & H1' & Hc')%outcome_bind_done. apply try_finalize_roots_inv in H1'. destruct ok; cbn [fst snd] in Hc'.
  - destruct H1' as (i & [v cs] & Ht & _ & Hfork & <- & <- & _). apply (IH c1); [|done].
    intros d m. rewrite Hfork. intros Hd Hm. apply (Hc (Node v cs)); [by eapply list_elem_of_lookup_2|].
    apply elem_of_tree_nodes. eauto.
  - destruct H1' as [-> Hnone]. injection Hc' as <-. split_and!; [|done..]. intros t Ht. by eapply find_index_none.
Qed.

Lemma post_block_included_settles now b c c' X :
  chain_wf c → (∀ p, p ∈ X → ∃ vote, vote ∈ votes b ∧ validator vote = p ∧ target vote = parent b ∧ countable c vote) →
  post_block_included now b c = Done c' →
  settled c' ∧ counted (parent b) X c' ∧ genesis c' = genesis c ∧ stakes c' = stakes c.
Proof.
  intros Hwf HX. unfold post_block_included. destruct (consume_votes _ _) as [late o].
  intros (c2 & Hc2 & Hc')%outcome_bind_done. destruct (missing_blocks _ _ _) as [missing o2]. injection Hc' as <-.
  set (c1 := count_votes (default [] late) (set_orphans (count_votes (votes b) c) o)) in *.
  assert (counted (parent b) X (count_votes (votes b) c)) as Hvotes.
  { intros t m Ht Hm Hh p Hp. destruct (HX p Hp) as (vote & Hin & <- & Htgt & Hok). rewrite <-Htgt in Hh.
    apply (count_votes_counts _ _ _ Hwf Hok Hin t m) in Hh; [set_solver|done..]. }
  assert (counted (parent b) X c1) as Hc1 by (by apply count_votes_keeps, (same_core_counted (count_votes (votes b) c))).
  apply (finalize_loop_settles _ _ _ (parent b) X) in Hc2 as (Hs & Hcount & Hg & Hst); [|done].
  pose proof (push_missing_core missing (set_orphans c2 o2)) as Hcore.
  destruct (count_votes_base (votes b) c) as (Hg0 & Hs0 & _).
  destruct (count_votes_base (default [] late) (set_orphans (count_votes (votes b) c) o)) as (Hg1 & Hs1 & _).
  split_and!.
  - eapply same_core_settled; [exact Hcore|]. by eapply (same_core_settled c2).
  - eapply same_core_counted; [exact Hcore|]. by eapply (same_core_counted c2).
  - destruct Hcore as (-> & _). cbn [genesis set_orphans]. rewrite Hg. etrans; [exact Hg1|exact Hg0].
  - destruct Hcore as (_ & -> & _). cbn [stakes set_orphans]. rewrite Hst. etrans; [exact Hs1|exact Hs0].
Qed.

(** ** The lag of finality *)

Lemma stake_of_mono c X Y : stakes_ok c → X ⊆ Y → Y ⊆ dom (eligible c) → stake_of c X ≤ stake_of c Y.
Proof.
  intros Hok Hsub Hdom. rewrite (union_difference_L X Y Hsub), stake_of_union by set_solver.
  destruct (stake_of_bounds c (Y ∖ X) Hok) as [? _]; [set_solver|lia].
Qed.

Lemma path_nodup c t r : chain_wf c → t ∈ forktrees c → r ∈ tree_refs [] t → NoDup ((λ s, node_hash s.1) <$> path r).
Proof.
  intros Hwf Ht Hr. pose proof (wf_trees c Hwf) as Htree. rewrite Forall_forall in Htree. specialize (Htree t Ht).
  apply NoDup_alt. intros i j x. rewrite !list_lookup_fmap.
  destruct (path r !! i) as [s|] eqn:Hi; [|done]. destruct (path r !! j) as [s'|] eqn:Hj; [|done]. intros [= <-] [= Hh].
  pose proof (path_heights _ t r Htree Hr i s Hi). pose proof (path_heights _ t r Htree Hr j s' Hj).
  assert (vb_height (value s.1) = vb_height (value s'.1)); [|lia].
  eapply (height_in_forest c t); [done|done|by eapply path_in_tree| |by rewrite Hh]. exists t. split; [done|by eapply path_in_tree].
Qed.

Lemma settled_lag c t :
  chain_wf c → settled c → 0 < epoch_blocks (genesis c) → t ∈ forktrees c →
  (∀ k s, path (tree_head [] t) !! S k = Some s → minimum_majority_stake c ≤ vb_votes (value s.1)) →
  ref_epoch (epoch_blocks (genesis c)) (tree_head [] t) ≤ ref_epoch (epoch_blocks (genesis c)) (t, []) + 1.
Proof.
  intros Hwf Hset Heb Ht Hmaj. specialize (Hset t Ht). set (r := tree_head [] t) in *. set (eb := epoch_blocks (genesis c)) in *.
  pose proof (wf_trees c Hwf) as Htree. rewrite Forall_forall in Htree. specialize (Htree t Ht).
  pose proof (tree_head_ref [] t : r ∈ tree_refs [] t) as Hr. pose proof (path_nodup c t r Hwf Ht Hr) as Hnd.
  apply Z.nlt_ge. intros Hlag.
  destruct (epoch_before _ t r Htree Hr eb 0 r Heb Hnd eq_refl ltac:(lia)) as (j & s1 & _ & _ & Hp1 & Hj & He1).
  destruct (epoch_before _ t r Htree Hr eb (S j) s1 Heb Hnd Hj ltac:(lia)) as (j2 & s2 & Hle & Hs1 & Hp2 & Hj2 & _).
  destruct (epoch_start_on_path r eb (S j2) s2 Hnd Hj2) as (j3 & Hle3 & Hs2).
  destruct (path_root t r Hr) as (k & Hk & Hlen). apply lookup_lt_Some in Hs2 as Hlt.
  destruct j2 as [|j2]; [lia|]. destruct j3 as [|j3]; [lia|]. destruct k as [|k]; [lia|].
  apply Hmaj in Hk, Hs1, Hs2. cbn [fst] in Hk. revert Hset. unfold finalizable. fold r eb. unfold previous_checkpoint. fold eb.
  rewrite Hp1. cbn [fmap option_fmap option_map]. rewrite Hp2. cbn [fmap option_fmap option_map].
  by rewrite (proj2 (Z.leb_le _ _) Hk), (proj2 (Z.leb_le _ _) Hs1), (proj2 (Z.leb_le _ _) Hs2).
Qed.

Lemma epochs_apart a b eb : 0 < eb → a / eb ≤ (b + 1) / eb + 1 → a - b ≤ 2 * eb.
Proof.
  intros Heb Hle. pose proof (Z.div_mod a eb). pose proof (Z.mod_pos_bound a eb Heb).
  pose proof (Z.div_mod (b + 1) eb). pose proof (Z.mod_pos_bound (b + 1) eb Heb). nia.
Qed.

(** A quorum for the parent of the head is one for every block below the head. *)
Lemma quorum_below_head c t e X k s :
  chain_wf c → stakes_ok c → t ∈ forktrees c → block (value (tree_head [] t).1) = e →
  counted (parent (underlying e)) X c → minimum_majority_stake c ≤ stake_of c X →
  path (tree_head [] t) !! S k = Some s → minimum_majority_stake c ≤ vb_votes (value s.1).
Proof.
  intros Hwf Hok Ht Hhead Hcount Hmaj Hs. pose proof (tree_head_ref [] t) as Hr.
  pose proof (wf_trees c Hwf) as Htree. rewrite Forall_forall in Htree. specialize (Htree t Ht).
  assert (1 < length (path (tree_head [] t)))%nat as [s1 Hs1]%lookup_lt_is_Some by (apply lookup_lt_Some in Hs; lia).
  destruct (path_link _ t _ Htree Hr 0 _ s1 eq_refl Hs1) as (Hp & _).
  pose proof (path_in_tree t _ Hr _ _ Hs1) as Hin1. pose proof (path_in_tree t _ Hr _ _ Hs) as Hin.
  pose proof (forest_votes_ok c t s.1 Hwf Ht Hin) as Hv. rewrite (votes_are_stakes c _ Hok Hv). etrans; [exact Hmaj|].
  apply stake_of_mono; [done| |apply Hv]. etrans; [|apply (path_voters _ t _ Htree Hr 1 (S k) s1 s); [lia|done|done]].
  apply (Hcount t s1.1 Ht Hin1). unfold vb_parent in Hp. rewrite Hhead in Hp. symmetry. exact Hp.
Qed.

(** ** Theorem *)

(** The block at the head of its tree, and what was finalized when its event is taken. *)
Lemma finality_lag g vm (f : Finalized D St) c e X now :
  rtc chain_step (Chain_new g vm f) c → stakes_ok c → 0 < epoch_blocks g → (∀ (st : St) d, is_Some (store_apply st d)) →
  last (events c) = Some (BlockIncluded e) → X ⊆ dom (eligible c) → minimum_majority_stake c ≤ stake_of c X →
  (∀ p, p ∈ X → ∃ vote, vote ∈ votes (underlying e) ∧ validator vote = p ∧ target vote = parent (underlying e) ∧
    Vote_verify_signature vote = true ∧ in_finalized_history c (justification vote) = true) →
  ∃ c', poll_next now c = Done (Some (BlockIncluded e), c') ∧
    ∀ t, t ∈ forktrees c' → block (value (tree_head [] t).1) = e →
      epoch c' (height (underlying e)) ≤ epoch c' (finalized_height c' + 1) + 1 ∧
      height (underlying e) - finalized_height c' ≤ 2 * epoch_blocks g.
Proof.
  intros Hreach Hok Heb Hstore Hlast Hdom Hmaj Hquorum.
  pose proof (chain_steps_wf _ _ Hreach (Chain_new_wf g vm f)) as Hwf. set (c1 := set_events c (removelast (events c))).
  assert (chain_wf c1) as Hwf1 by (by apply (same_core_wf c)).
  destruct (post_block_included_finishes now (underlying e) c1 Hwf1 Hstore) as [c' Hc']. exists c'.
  unfold poll_next. rewrite Hlast. fold c1. cbn [mbind outcome_bind]. rewrite Hc'. split; [done|]. intros t Ht Hhead.
  assert (chain_wf c') as Hwf' by (by eapply post_block_included_wf).
  apply (post_block_included_settles _ _ _ _ X) in Hc' as (Hset & Hcount & Hg & Hs); [|done|].
  2: { intros p Hp. destruct (Hquorum p Hp) as (vote & ? & <- & ? & ? & ?). exists vote. split_and!; [done..|]. split; [by apply elem_of_dom, Hdom|done]. }
  change (genesis c1) with (genesis c) in Hg. change (stakes c1) with (stakes c) in Hs.
  destruct (chain_steps_stakes _ _ Hreach) as [Hgen _].
  assert (epoch_blocks (genesis c') = epoch_blocks g) as Heb' by (rewrite Hg, Hgen; done).
  assert (eligible c' = eligible c) as Hel by (unfold eligible; by rewrite Hg, Hs).
  assert (stakes_ok c') as Hok' by (unfold stakes_ok; by rewrite Hel).
  assert (minimum_majority_stake c' ≤ stake_of c' X) as Hmaj'.
  { unfold minimum_majority_stake, total_stake, stake_of. rewrite Hg, Hs, Hel. exact Hmaj. }
  assert (root_ok c' t) as [_ Hroot] by (pose proof (wf_roots c' Hwf') as Hall; rewrite Forall_forall in Hall; by apply Hall).
  assert (ref_epoch (epoch_blocks g) (tree_head [] t) ≤ ref_epoch (epoch_blocks g) (t, []) + 1) as Hlag.
  { rewrite <-Heb'. apply settled_lag; [done|done|by rewrite Heb'|done|]. intros k s. by apply (quorum_below_head c' t e X). }
  unfold ref_epoch, epoch in *. cbn [fst] in Hlag. rewrite Hroot in Hlag. unfold vb_height in Hlag. rewrite Hhead in Hlag. rewrite Heb'.
  split; [exact Hlag|]. by apply epochs_apart.
Qed.

(** C4: Finality keeps up with the votes. In any chain that is reached from a new one, take the event
    of an included block that brings the votes of a quorum for its parent: signed votes of
    validators with a supermajority, which name a finalized block as their justification. Taking the event
    comes to an end, and if the block is now at the head of its tree, then the tree starts at most one
    epoch before the block's: whatever is older is finalized. No more than two epochs of
    blocks are left to be finalized below the head. *)
Theorem finality_keeps_up g vm (f : Finalized D St) c e X now :
  rtc chain_step (Chain_new g vm f) c → stakes_ok c → 0 < epoch_blocks g → (∀ (st : St) d, is_Some (store_apply st d)) →
  last (events c) = Some (BlockIncluded e) → X ⊆ dom (eligible c) → minimum_majority_stake c ≤ stake_of c X →
  (∀ p, p ∈ X → ∃ vote, vote ∈ votes (underlying e) ∧ validator vote = p ∧ target vote = parent (underlying e) ∧
    Vote_verify_signature vote = true ∧ in_finalized_history c (justification vote) = true) →
  ∃ c', poll_next now c = Done (Some (BlockIncluded e), c') ∧
    ∀ t, t ∈ forktrees c' → block (value (tree_head [] t).1) = e →
      epoch c' (height (underlying e)) ≤ epoch c' (finalized_height c' + 1) + 1 ∧
      height (underlying e) - finalized_height c' ≤ 2 * epoch_blocks g.
Proof. apply finality_lag. Qed.
End chain.

(** ** Witness *)

Import VmExample ChainExample.

(** The chain of the example when the event of its third block is the next one. *)
Definition awaiting_third : ToyChain := poll (poll c2).
Definition included_or (e : Executed string) (ev : option ChainEvent) : Executed string := match ev with Some (BlockIncluded e') => e' | _ => e end.
Definition is_included (ev : option (@ChainEvent toy_crypto string)) : bool := match ev with Some (BlockIncluded _) => true | _ => false end.
Definition third : Executed string := included_or (block (value ripe_root)) (last (events awaiting_third)).

Lemma is_included_eq e ev : is_included ev = true → ev = Some (BlockIncluded (included_or e ev)).
Proof. by destruct ev as [[]|]. Qed.

Lemma awaiting_third_reachable : rtc chain_step c0 awaiting_third.
Proof. unfold awaiting_third. do 2 (apply poll_reach; [|by vm_compute]). exact c2_reachable. Qed.

(** The third block brings the vote of the validator with the supermajority, and
    the first block is finalized. *)
Lemma finality_keeps_up_witness :
  ∃ c', poll_next 0 awaiting_third = Done (Some (BlockIncluded third), c') ∧
    (∀ t, t ∈ forktrees c' → block (value (tree_head [] t).1) = third →
      epoch c' (height (underlying third)) ≤ epoch c' (finalized_height c' + 1) + 1 ∧
      height (underlying third) - finalized_height c' ≤ 2 * 1).
Proof.
  apply (finality_keeps_up toy_chain_genesis toy_vm (MkFinalized (GenesisBlock toy_chain_genesis) ∅) awaiting_third third {[array32_of_Z 3]} 0).
  - exact awaiting_third_reachable.
  - apply stakes_ok_test. by vm_compute.
  - done.
  - intros. by eexists.
  - apply is_included_eq. by vm_compute.
  - apply (bool_decide_unpack _). by vm_compute.
  - by vm_compute.
  - intros p ->%elem_of_singleton. exists (vote_for b2). split_and!; apply (bool_decide_unpack _); by vm_compute.
Defined.
