(* ===== verification/Finality.v ===== *)
(** * The stream of finalized blocks (src/consensus/chain.rs)

    The events of the chain, seen as a queue of finalized blocks: they come out in
    the order of the chain, and nothing that the chain does loses or repeats one. *)
From S2P Require Import Prelude Primitives State Transaction Contract Block Machine Execution ForkTree ForkTreeProps Orphans OrphansProps Chain ChainProps Sources.

Section finality.
Context `{Crypto} `{WasmRuntime} {D : Type} `{BlockData D} `{!Executable D} {St : Type} `{StateStore St}.
Abbreviation Chain := (@Chain _ D St).
Abbreviation ChainEvent := (@ChainEvent _ D).
Implicit Types (c : Chain) (b : Produced D) (e : Executed D) (ev : ChainEvent) .

(** ** Chains of finalized blocks *)

(** Blocks that are finalized one after the other: each is a child of the one
    before, and its changes are applied to the state of the one before. *)
Fixpoint finalizes (f : Finalized D St) (l : list (Executed D)) (f' : Finalized D St) : Prop :=
  match l with
  | [] => f = f'
  | e :: l => ∃ f1, Finalized_apply f e = Done f1 ∧ height (underlying e) = any_height (fin_underlying f) + 1 ∧ finalizes f1 l f'
  end.

Lemma finalizes_app f l k f' : finalizes f (l ++ k) f' ↔ ∃ m, finalizes f l m ∧ finalizes m k f'.
Proof.
  revert f. induction l as [|e l IH]; intros f; cbn [app finalizes].
  - split; [by exists f|]. by intros (m & -> & Hk).
  - setoid_rewrite IH. naive_solver.
Qed.

Lemma finalizes_step f e f1 :
  Finalized_apply f e = Done f1 → height (underlying e) = any_height (fin_underlying f) + 1 →
  child_block (fin_underlying f) (fin_underlying f1) ∧ any_height (fin_underlying f1) = any_height (fin_underlying f) + 1.
Proof.
  intros (Hp & Hu & _)%Finalized_apply_inv Hh. rewrite Hu. unfold child_block. cbn. by rewrite Hp.
Qed.

Lemma finalizes_height f l f' :
  finalizes f l f' → any_height (fin_underlying f') = any_height (fin_underlying f) + Z.of_nat (length l).
Proof.
  revert f. induction l as [|e l IH]; intros f; cbn; [intros ->; lia|].
  intros (f1 & Ha & Hh & Hl). destruct (finalizes_step _ _ _ Ha Hh) as [_ Hf]. apply IH in Hl. lia.
Qed.

(** The block at the end is the last one of the list. *)
Lemma finalizes_last f l e f' : finalizes f (l ++ [e]) f' → fin_underlying f' = ProducedBlock (underlying e).
Proof. intros (m & _ & (f1 & (_ & Hu & _)%Finalized_apply_inv & _ & <-))%finalizes_app. done. Qed.

(** ** The finalized blocks among the events *)

Definition finalized_event ev : option (Executed D) := match ev with BlockFinalized e _ => Some e | _ => None end.

(** Those that will be taken, first one first. *)
Definition awaited c : list (Executed D) := omap finalized_event (reverse (events c)).

Definition silent (evs : list ChainEvent) : Prop := Forall (λ ev, finalized_event ev = None) evs.

Lemma silent_awaited evs : silent evs → omap finalized_event (reverse evs) = [].
Proof.
  intros Hs. assert (silent (reverse evs)) as Hr by by apply Forall_reverse.
  induction Hr as [|ev evs' Hev _ IH]; [done|]. cbn. by rewrite Hev.
Qed.

Lemma awaited_eq c c' : events c' = events c → awaited c' = awaited c.
Proof. unfold awaited. by intros ->. Qed.

Lemma awaited_front c c' evs : events c' = evs ++ events c → silent evs → awaited c' = awaited c.
Proof. unfold awaited. intros -> Hs. by rewrite reverse_app, omap_app, (silent_awaited evs Hs), app_nil_r. Qed.

Lemma awaited_back c c' evs : events c' = events c ++ evs → silent evs → awaited c' = awaited c.
Proof. unfold awaited. intros -> Hs. by rewrite reverse_app, omap_app, (silent_awaited evs Hs). Qed.

Lemma awaited_push ev c : finalized_event ev = None → awaited (push_front ev c) = awaited c.
Proof. intros Hev. apply (awaited_front _ _ [ev]); [done|]. by constructor. Qed.

Lemma injest_vote_awaited v c : awaited (injest_vote v c) = awaited c.
Proof.
  unfold injest_vote. repeat case_match; try done. eapply awaited_back; [reflexivity|].
  unfold newly_confirmed. apply Forall_forall. intros ev (s & _ & Hs)%list_elem_of_omap. by case_match; simplify_eq.
Qed.

Lemma count_votes_awaited vs c : awaited (count_votes vs c) = awaited c.
Proof. unfold count_votes. revert c. induction vs as [|v vs IH]; intros c; [done|]. cbn. by rewrite IH, injest_vote_awaited. Qed.

(** *** Inclusion *)

Lemma try_include_awaited vm_fuel b c i c' : try_include vm_fuel b c = Done (Ok (i, c')) → awaited c' = awaited c.
Proof.
  unfold try_include. destruct (get_block_node c (block_hash b)); [by intros [= <- <-]|]. case_bool_decide.
  - destruct (negb _); [done|]. intros (e & _ & [= <- <-])%try_bind_ok. by rewrite awaited_push.
  - destruct (find_root _ _) as [[k p]|]; [|by intros [= <- <-]]. destruct (negb _); [done|].
    intros (e & _ & Hok)%try_bind_ok. case_bool_decide; [done|]. injection Hok as <- <-. by rewrite awaited_push.
Qed.

Lemma vote_if_head_awaited hash c : awaited (vote_if_head hash c) = awaited c.
Proof.
  unfold vote_if_head, commit_and_vote. repeat (case_match; try done); by rewrite awaited_push.
Qed.

Lemma include_awaited fuel vm_fuel now b c c' : include fuel vm_fuel now b c = Done c' → awaited c' = awaited c.
Proof.
  revert b c c'. induction fuel as [|fuel IH]; intros b c c'; [done|]. cbn [include].
  destruct (acceptable b c); cbn [negb]; [|by intros [= <-]].
  intros ([[[] c1]|err] & Hinc & Hc')%outcome_bind_done; [| |by injection Hc' as <-]; apply try_include_awaited in Hinc.
  - destruct (consume_blocks _ _) as [[bs|] o]; cbn in Hc'.
    + apply (include_each_ind (λ x, awaited x = awaited c)) in Hc'; [done|intros b' x x' _ <- Hx'; by apply IH in Hx'|].
      rewrite <- Hinc. by rewrite (awaited_eq (vote_if_head (block_hash b) c1)), vote_if_head_awaited.
    + injection Hc' as <-. by rewrite (awaited_eq (vote_if_head (block_hash b) c1)), vote_if_head_awaited.
  - injection Hc' as <-. by rewrite (awaited_eq c1).
Qed.

(** *** Finalization *)

(** An invariant of the chain, and what it tells of the blocks that are finalized
    while it holds. *)
Record finality_invariant (W : Vote → Prop) (I : Chain → Prop) (Q : Executed D → Prop) : Prop := {
  fi_steps : step_invariant W I;
  fi_wf c : I c → chain_wf c;
  fi_root c t : I c → t ∈ forktrees c → finalizable c t = true → Q (block (value t))
}.

Lemma wf_invariant : finality_invariant (λ _, True) chain_wf (λ _, True).
Proof.
  split; [split|done..].
  - apply same_core_wf.
  - intros vote c _. apply injest_vote_wf.
  - intros vm_fuel b c i c' Hacc Hwf Hinc. by apply try_include_wf in Hinc as [? _].
  - apply try_finalize_roots_wf.
Qed.

Lemma discard_events_silent ts evs : ∃ ds, foldl discard_events evs ts = ds ++ evs ∧ silent ds.
Proof.
  revert evs. induction ts as [|t ts IH]; intros evs; cbn; [by exists []; split; [|constructor]|].
  destruct (IH (discard_events evs t)) as (ds & -> & Hds). unfold discard_events. 
  assert (∃ ds', foldl (λ evs m, BlockDiscarded (underlying (block (value m))) :: evs) evs (tree_nodes t) = ds' ++ evs ∧ silent ds') as (ds' & -> & Hds').
  { generalize (tree_nodes t). intros ms. revert evs. induction ms as [|m ms IHm]; intros evs; cbn; [by exists []; split; [|constructor]|].
    destruct (IHm (BlockDiscarded (underlying (block (value m))) :: evs)) as (ds' & -> & Hds').
    exists (ds' ++ [BlockDiscarded (underlying (block (value m)))]). rewrite <- app_assoc. split; [done|].
    apply Forall_app. split; [done|]. by constructor. }
  exists (ds ++ ds'). rewrite app_assoc. split; [done|]. by apply Forall_app.
Qed.

Section invariant.
Context (B : Produced D → Prop) (W : Vote → Prop) (HBW : ∀ b v, B b → v ∈ votes b → W v).
Context (I : Chain → Prop) (Q : Executed D → Prop) (HI : finality_invariant W I Q).

Lemma try_finalize_awaited c ok c' :
  I c → try_finalize_roots c = Done (ok, c') →
  ∃ more, awaited c' = awaited c ++ more ∧ finalizes (finalized c) more (finalized c') ∧ Forall Q more.
Proof.
  intros Hc. pose proof (fi_wf _ _ _ HI c Hc) as Hwf. unfold try_finalize_roots. destruct (find_finalizable_root c) as [i|] eqn:Hi.
  2: { intros [= <- <-]. exists []. by rewrite app_nil_r. }
  apply find_index_some in Hi as (t' & Ht' & Hfin).
  destruct (forktrees c !! i) as [t|] eqn:Ht; [|done]. intros (c1 & Hc1 & [= <- <-])%outcome_bind_done.
  apply outcome_bind_done in Hc1 as (f & Hf & [= <-]). 
  assert (root_ok c t) as [_ Hh] by (eapply Forall_lookup_1; [apply (wf_roots c Hwf)|exact Ht]).
  exists [block (value t)]. split_and!; cycle 2.
  { constructor; [|constructor]. injection Ht' as <-. apply (fi_root _ _ _ HI c); [done|by eapply list_elem_of_lookup_2|done]. }
  - destruct (discard_events_silent (filter (λ t0, node_hash t0 ≠ node_hash t) (delete i (forktrees c))) (events c)) as (ds & Hds & Hs).
    unfold awaited. cbn [events push_front set_events set_ownvotes set_forktrees set_finalized forktrees].
    rewrite Hds, reverse_cons, reverse_app, !omap_app, (silent_awaited ds Hs), app_nil_r. done.
  - exists f. split_and!; [exact Hf|exact Hh|done].
Qed.

Lemma finalize_loop_awaited fuel c c' :
  I c → finalize_loop fuel c = Done c' →
  ∃ more, awaited c' = awaited c ++ more ∧ finalizes (finalized c) more (finalized c') ∧ Forall Q more.
Proof.
  revert c. induction fuel as [|fuel IH]; intros c Hc; [done|]. cbn [finalize_loop].
  intros ([ok c1] & H1' & Hc')%outcome_bind_done. pose proof (si_finalize _ _ (fi_steps _ _ _ HI) _ _ _ Hc H1') as Hc1.
  apply try_finalize_awaited in H1' as (more & Ha & Hl & HQ); [|done]. destruct ok; cbn [fst snd] in Hc'.
  - destruct (IH c1 Hc1 Hc') as (more' & Ha' & Hl' & HQ'). exists (more ++ more'). rewrite Ha', Ha, app_assoc. split_and!; [done| |by apply Forall_app].
    apply finalizes_app. by eexists.
  - injection Hc' as <-. by exists more.
Qed.

(** *** Events *)

Lemma push_missing_awaited (ms : list Multihash) c : awaited (foldl (λ c m, push_front (BlockMissing m) c) c ms) = awaited c.
Proof. revert c. induction ms as [|m ms IH]; intros c; [done|]. cbn. by rewrite IH, awaited_push. Qed.

Lemma post_block_included_awaited now b c c' :
  B b → sourced B W c → I c → post_block_included now b c = Done c' →
  ∃ more, awaited c' = awaited c ++ more ∧ finalizes (finalized c) more (finalized c') ∧ Forall Q more.
Proof.
  intros Hb Hs Hc. unfold post_block_included.
  destruct (consume_votes (block_hash b) (chain_orphans (count_votes (votes b) c))) as [late o] eqn:Hcons.
  set (c1 := count_votes (default [] late) (set_orphans (count_votes (votes b) c) o)).
  assert (I c1 ∧ awaited c1 = awaited c ∧ finalized c1 = finalized c) as (Hwf1 & Ha1 & Hf1).
  { split_and!.
    - by apply (votes_counted B W HBW I (fi_steps _ _ _ HI) b c late o Hb Hcons).
    - unfold c1. by rewrite count_votes_awaited, (awaited_eq (count_votes (votes b) c)), count_votes_awaited.
    - destruct (count_votes_base (votes b) c) as (_ & _ & Hf).
      destruct (count_votes_base (default [] late) (set_orphans (count_votes (votes b) c) o)) as (_ & _ & Hf'). unfold c1. by rewrite Hf'. }
  intros (c2 & Hc2 & Hc')%outcome_bind_done. apply finalize_loop_awaited in Hc2 as (more & Ha & Hl); [|done].
  destruct (missing_blocks now (finalized_height c2) (chain_orphans c2)) as [missing o2]. injection Hc' as <-. exists more.
  rewrite push_missing_awaited, (awaited_eq c2), Ha, Ha1, <- Hf1 by done.
  by destruct (push_missing_core missing (set_orphans c2 o2)) as (_ & _ & -> & _).
Qed.

(** What is taken was first in the queue; what is added continues the
    finalized chain. *)
Lemma poll_next_awaited now c (ev : option ChainEvent) c' :
  sourced B W c → I c → poll_next now c = Done (ev, c') →
  ∃ more, option_list (ev ≫= finalized_event) ++ awaited c' = awaited c ++ more ∧
    finalizes (finalized c) more (finalized c') ∧ Forall Q more.
Proof.
  intros Hs Hc. unfold poll_next. destruct (last (events c)) as [event|] eqn:Hlast.
  2: { intros [= <- <-]. exists []. by rewrite app_nil_r. }
  pose proof (take_event_sourced B W c event Hlast Hs) as Hs0. apply last_Some in Hlast as (evs & Hevs).
  assert (awaited c = option_list (finalized_event event) ++ awaited (set_events c (removelast (events c)))) as ->.
  { unfold awaited. cbn. rewrite Hevs, removelast_last, reverse_snoc. cbn. by destruct (finalized_event event). }
  set (c0 := set_events c (removelast (events c))). assert (I c0) as Hwf0 by by apply (si_core _ _ (fi_steps _ _ _ HI) c).
  intros (c1 & Hc1 & Hc')%outcome_bind_done. injection Hc' as <- <-.
  assert (∃ more, awaited c1 = awaited c0 ++ more ∧ finalizes (finalized c) more (finalized c1) ∧ Forall Q more) as (more & Ha & Hl & HQ).
  { destruct event; try (injection Hc1 as <-; exists []; by rewrite app_nil_r).
    apply post_block_included_awaited in Hc1; [done| |done|done]. apply (so_events _ _ c Hs). rewrite Hevs. apply elem_of_app. right. by left. }
  exists more. split_and!; [|by destruct event|done].
  transitivity (option_list (finalized_event event) ++ awaited c1); [by destruct event|]. by rewrite Ha, app_assoc.
Qed.
End invariant.
End finality.
