(* ===== verification/ProducerProps.v ===== *)
(** * Properties of the mempool and of produced blocks

    What is taken out of the mempool, that producing does not fail when each
    payer's transactions are neighbours and can fail when they are not, and that
    a validator's chain accepts the blocks the validator produces. *)
From S2P Require Import Prelude Primitives State Transaction Contract Currency Builtins Block Machine Execution ExecutionProps ForkTree ForkTreeProps Orphans OrphansProps Chain ChainProps Consumer Producer CurrencyProps VmExample ChainExample StoreExample.

(** ** The head of the chain *)

Section head.
Context `{Crypto} `{WasmRuntime} {D : Type} `{BlockData D} `{!Executable D} {St : Type} `{StateStore St}.
Abbreviation Chain := (@Chain _ D St).
Implicit Types (c : Chain) (t n : TreeNode D) (r : Ref D).

Lemma forest_hashes c : executed_hash <$> forest_blocks c = node_hash <$> concat (tree_nodes <$> forktrees c).
Proof.
  unfold forest_blocks. induction (forktrees c) as [|t ts IH]; [done|].
  rewrite !fmap_cons, !concat_cons, !fmap_app. f_equal; [|exact IH]. unfold tree_blocks. by rewrite <-list_fmap_compose.
Qed.

Lemma find_root_unique r t (roots : list (TreeNode D)) :
  NoDup (node_hash <$> concat (tree_nodes <$> roots)) → t ∈ roots → r ∈ tree_refs [] t →
  ∃ i, find_root (node_hash r.1) roots = Some (i, r).
Proof.
  induction roots as [|x roots IH]; [by intros _ ?%not_elem_of_nil|].
  rewrite fmap_cons, concat_cons, fmap_app. intros (Hx & Hdisj & Hrest)%NoDup_app Ht Hr. cbn [find_root].
  apply elem_of_cons in Ht as [->|Ht]; [rewrite (tree_get_ref x r Hx Hr); eauto|].
  destruct (tree_get (node_hash r.1) [] x) as [r'|] eqn:E.
  - exfalso. apply tree_get_some in E as (Hh & Hin & _); [|done]. apply (Hdisj (node_hash r.1)).
    + rewrite <-Hh. by apply list_elem_of_fmap_2.
    + apply list_elem_of_fmap_2, list_elem_of_In, in_concat. exists (tree_nodes t). split.
      * by apply list_elem_of_In, list_elem_of_fmap_2.
      * rewrite <-(tree_refs_fst []). by apply list_elem_of_In, list_elem_of_fmap_2.
  - destruct (IH Hrest Ht Hr) as [i ->]. by eexists.
Qed.

Lemma best_head_tree c r : best_head c = Some r → ∃ t, t ∈ forktrees c ∧ r ∈ tree_refs [] t.
Proof.
  unfold best_head. intros Hr%last_Some_elem_of. rewrite stable_sort_perm in Hr.
  apply list_elem_of_fmap in Hr as (t & -> & Ht). exists t. split; [done|apply tree_head_ref].
Qed.

Lemma best_head_found c r : chain_wf c → best_head c = Some r → ∃ i, find_root (node_hash r.1) (forktrees c) = Some (i, r).
Proof.
  intros Hwf (t & Ht & Hr)%best_head_tree. eapply find_root_unique; [|exact Ht|exact Hr].
  rewrite <-forest_hashes. apply (wf_unique c Hwf).
Qed.

Lemma tree_heights (stakes : gmap Pubkey Z) t h :
  tree_wf stakes t → h < vb_height (value t) → ∀ m, m ∈ tree_nodes t → h < vb_height (value m).
Proof.
  induction t as [v cs IH] using TreeNode_induction. intros (_ & Hl & Hcs)%tree_wf_node Hh m [->|(x & Hx & Hm)]%elem_of_tree_nodes; [done|].
  rewrite Forall_forall in IH, Hl, Hcs. destruct (Hl x Hx) as (_ & Hxh & _). apply (IH x Hx (Hcs x Hx)); [|done].
  cbn [value] in Hh. lia.
Qed.

Lemma forest_heights c t m : chain_wf c → t ∈ forktrees c → m ∈ tree_nodes t → finalized_height c < vb_height (value m).
Proof.
  intros Hwf Ht. pose proof (wf_trees c Hwf) as Hw. pose proof (wf_roots c Hwf) as Hr. rewrite Forall_forall in Hw, Hr.
  apply (tree_heights (eligible c)); [by apply Hw|]. destruct (Hr t Ht) as [_ ->]. lia.
Qed.

(** The view, the hash and the height of the head. *)
Lemma with_head_cases c :
  chain_wf c →
  (best_head c = None ∧ with_head c = (finalized_view c, fin_underlying (finalized c))) ∨
  ∃ i r, find_root (any_hash (with_head c).2) (forktrees c) = Some (i, r) ∧
    (with_head c).1 = Overlayed_get (MkOverlayed (finalized_view c) (cascading_get r)) ∧
    any_hash (with_head c).2 ≠ finalized_hash c ∧ any_hash (with_head c).2 = node_hash r.1 ∧
    any_height (with_head c).2 = vb_height (value r.1) ∧ finalized_height c < any_height (with_head c).2.
Proof.
  intros Hwf. unfold with_head. destruct (best_head c) as [r|] eqn:Hr; [right|by left].
  destruct (best_head_found c r Hwf Hr) as [i Hi]. exists i, r. cbn [fst snd any_hash any_height].
  destruct (find_root_ref _ _ _ _ Hi) as (t & Ht & Hin & _ & _). apply list_elem_of_lookup_2 in Ht.
  split_and!; try done; [|by eapply forest_heights].
  intros Heq. apply (wf_fresh c Hwf). rewrite <-Heq. apply list_elem_of_fmap.
  exists (block (value r.1)). split; [done|]. apply elem_of_forest. eauto.
Qed.
End head.

(** ** The mempool *)

Section mempool.
Context `{Crypto} `{WasmRuntime} `{BuiltinAddresses} `{!BlockData (list Transaction)}.
Implicit Types (mp : MempoolState) (tx : Transaction) (txs g : list Transaction).

(** Transactions are filed under their hashes, each once. *)
Definition mempool_wf mp : Prop :=
  Forall (λ p, p.1 = tx_hash p.2) (mp_txs mp) ∧ NoDup (mp_txs mp).*1.

Lemma group_by_payer_concat txs : concat (group_by_payer txs) = txs.
Proof.
  induction txs as [|tx txs IH]; [done|]. cbn [group_by_payer].
  destruct (group_by_payer txs) as [|[|t g] gs]; cbn [concat app] in *; [by subst|by subst|].
  case_bool_decide; cbn [concat app]; by subst.
Qed.

Lemma group_by_payer_groups txs : Forall (λ g, ∃ tx g', g = tx :: g' ∧ Forall (λ x, payer x = payer tx) g') (group_by_payer txs).
Proof.
  induction txs as [|tx txs IH]; [constructor|]. cbn [group_by_payer].
  destruct (group_by_payer txs) as [|[|t g] gs]; [by repeat econstructor| |].
  - apply Forall_cons in IH as [(? & ? & ? & _) _]. done.
  - apply Forall_cons in IH as [(t' & g' & [= <- <-] & Hg) Hgs]. case_bool_decide as Hp.
    + constructor; [|done]. exists tx, (t :: g). split; [done|]. rewrite Hp. by constructor.
    + constructor; [by exists tx, []|]. constructor; [by exists t, g|done].
Qed.

Lemma bt_insert_perm {V} k (v : V) m : k ∉ m.*1 → bt_insert k v m ≡ₚ (k, v) :: m.
Proof.
  induction m as [|[k' v'] m IH]; intros Hk; [done|]. cbn [bt_insert]. rewrite fmap_cons, not_elem_of_cons in Hk.
  destruct Hk as [Hne Hk]. rewrite bool_decide_false by done. destruct (multihash_leb k k'); [done|].
  rewrite IH by done. apply Permutation_swap.
Qed.

(** What a group becomes in the sorted map. *)
Definition entry g : Multihash * list Transaction :=
  (default (mh_sha3 (Sha3_256 [])) (tx_hash <$> head (stable_sort nonce_leb g)), stable_sort nonce_leb g).

Lemma insert_group_entry out g : g ≠ [] → insert_group out g = bt_insert (entry g).1 (entry g).2 out.
Proof.
  intros Hne. unfold insert_group, entry. pose proof (stable_sort_perm nonce_leb g) as Hg.
  destruct (stable_sort nonce_leb g); [by apply Permutation_nil_l in Hg|done].
Qed.

Lemma insert_groups_perm gs out :
  Forall (λ g, g ≠ []) gs → NoDup (out.*1 ++ (tx_hash <$> concat gs)) → foldl insert_group out gs ≡ₚ out ++ (entry <$> gs).
Proof.
  revert out. induction gs as [|g gs IH]; intros out Hne Hnd; [by rewrite app_nil_r|].
  apply Forall_cons in Hne as [Hg Hne]. cbn [foldl concat] in *. rewrite insert_group_entry by done.
  assert ((entry g).1 ∈ tx_hash <$> g) as Hfirst.
  { unfold entry. pose proof (stable_sort_perm nonce_leb g) as Hp.
    destruct (stable_sort nonce_leb g) as [|x l]; [by apply Permutation_nil_l in Hp|]. cbn [fst head default]. rewrite <-Hp. by left. }
  rewrite fmap_app in Hnd. apply NoDup_app in Hnd as (Hout & Hd & Hrest). apply NoDup_app in Hrest as (_ & Hdg & Hrest).
  assert ((entry g).1 ∉ out.*1) as Hnew by (intros Hin; apply (Hd _ Hin), elem_of_app; by left).
  rewrite IH; [rewrite bt_insert_perm by done; rewrite fmap_cons; cbn; by rewrite Permutation_middle|done|].
  rewrite bt_insert_perm by done. rewrite fmap_cons. cbn [fst]. rewrite <-app_comm_cons. apply NoDup_cons. split.
  - rewrite elem_of_app. intros [|Hin]; [done|]. by apply (Hdg _ Hfirst).
  - apply NoDup_app. split_and!; [done| |done]. intros x Hx Hx'. apply (Hd x Hx), elem_of_app. by right.
Qed.

Lemma concat_perm {A} (l k : list (list A)) : Forall2 (≡ₚ) l k → concat l ≡ₚ concat k.
Proof. induction 1 as [|x y l k Hxy _ IH]; [done|]. simpl. by rewrite Hxy, IH. Qed.

Lemma groups_nonempty txs : Forall (λ g, g ≠ []) (group_by_payer txs).
Proof. eapply Forall_impl; [apply group_by_payer_groups|]. by intros g (? & ? & -> & _). Qed.

Lemma mempool_groups mp :
  mempool_wf mp → foldl insert_group [] (group_by_payer (mp_txs mp).*2) ≡ₚ entry <$> group_by_payer (mp_txs mp).*2.
Proof.
  intros [Hk Hnd]. apply (insert_groups_perm _ []); [apply groups_nonempty|]. cbn. rewrite group_by_payer_concat, <-list_fmap_compose.
  assert ((mp_txs mp).*1 = (tx_hash ∘ snd) <$> mp_txs mp) as <-; [|done].
  clear Hnd. induction Hk as [|p l Hp _ IH]; [done|]. by rewrite !fmap_cons, Hp, IH.
Qed.

Lemma ordered_transactions_perm mp : mempool_wf mp → ordered_transactions mp ≡ₚ (mp_txs mp).*2.
Proof.
  intros Hwf. unfold ordered_transactions. rewrite (mempool_groups mp Hwf), <-list_fmap_compose.
  rewrite <-(group_by_payer_concat (mp_txs mp).*2) at 2. apply concat_perm, Forall2_fmap_l, Forall_Forall2_diag, Forall_forall.
  intros g _. apply stable_sort_perm.
Qed.

Lemma remove_all_filter out (m : list (Multihash * Transaction)) :
  foldl (λ m tx, im_remove (tx_hash tx) m) m out = filter (λ p, p.1 ∉ tx_hash <$> out) m.
Proof.
  revert m. induction out as [|tx out IH]; intros m.
  - cbn. symmetry. apply filter_all_true. intros x _. apply not_elem_of_nil.
  - cbn [foldl]. rewrite IH. unfold im_remove. rewrite list_filter_filter. apply list_filter_iff. intros p.
    rewrite fmap_cons, not_elem_of_cons. tauto.
Qed.

Lemma remaining_transactions mp out rest :
  mempool_wf mp → out ++ rest ≡ₚ (mp_txs mp).*2 →
  (filter (λ p, p.1 ∉ tx_hash <$> out) (mp_txs mp)).*2 ≡ₚ rest.
Proof.
  intros [Hk Hnd] Hperm.
  assert (NoDup (tx_hash <$> (out ++ rest))) as Hnd'.
  { rewrite Hperm, <-list_fmap_compose. assert ((mp_txs mp).*1 = (tx_hash ∘ snd) <$> mp_txs mp) as <-; [|done].
    clear Hnd Hperm. induction Hk as [|p l Hp _ IH]; [done|]. by rewrite !fmap_cons, Hp, IH. }
  assert ((filter (λ p, p.1 ∉ tx_hash <$> out) (mp_txs mp)).*2 = filter (λ tx, tx_hash tx ∉ tx_hash <$> out) (mp_txs mp).*2) as ->.
  { clear Hnd Hperm. induction Hk as [|p l Hp _ IH]; [done|]. rewrite fmap_cons, !filter_cons, <-Hp.
    case_decide; [by rewrite fmap_cons, IH|done]. }
  rewrite <-Hperm, filter_app. rewrite fmap_app in Hnd'. apply NoDup_app in Hnd' as (_ & Hd & _).
  rewrite (filter_all_true _ rest).
  - assert (filter (λ tx, tx_hash tx ∉ tx_hash <$> out) out = []) as ->; [|done].
    apply elem_of_nil_inv. intros tx [Hin Htx]%list_elem_of_filter. apply Hin. by apply list_elem_of_fmap_2.
  - intros tx Htx Hin. apply (Hd _ Hin). by apply list_elem_of_fmap_2.
Qed.

(** ** The order of the transactions *)

(** What separates neighbours from the descending pairs of the order check. *)
Definition in_order (a b : Transaction) : Prop := payer a ≠ payer b ∨ tx_nonce a ≤ tx_nonce b.

(** Every payer's transactions are neighbours in the mempool. *)
Definition grouped mp : Prop := NoDup ((λ g, payer <$> head g) <$> group_by_payer (mp_txs mp).*2).

Definition nonces_ok mp : Prop := Forall (λ tx, 0 ≤ tx_nonce tx < u64_max) (mp_txs mp).*2.

Lemma in_order_no_groups first rest :
  StronglySorted in_order (first :: rest) → Forall (λ tx, 0 ≤ tx_nonce tx < u64_max) (first :: rest) →
  no_groups first rest = true.
Proof.
  revert first. induction rest as [|tx rest IH]; intros first; [done|]. cbn [no_groups].
  intros [Hs [Hf _]%Forall_cons]%StronglySorted_inv [Hn0 Hn]%Forall_cons. apply andb_true_iff. split; [|by apply IH].
  apply Forall_cons in Hn as [Hn _]. unfold is_within_payer_group. case_bool_decide as Hp; [|done]. simpl.
  apply negb_true_iff, Z.eqb_neq. destruct Hf as [Hne|Hle]; [congruence|]. unfold wrap64, u64_modulus, u64_max in *.
  destruct (Z.eq_dec (tx_nonce first) 0) as [->|]; [change ((0 - 1) mod 2 ^ 64) with (2 ^ 64 - 1); lia|].
  rewrite Z.mod_small; lia.
Qed.

Lemma sorted_group g : StronglySorted in_order (stable_sort nonce_leb g).
Proof.
  assert (Sorted (λ a b, nonce_leb a b = true) (stable_sort nonce_leb g)) as Hs.
  { apply stable_sort_sorted. intros x y. unfold nonce_leb. rewrite !Z.leb_le. lia. }
  apply Sorted_StronglySorted in Hs; [|intros x y z; unfold nonce_leb; rewrite !Z.leb_le; lia].
  induction Hs as [|x l Hs IH Hx]; constructor; [done|]. eapply Forall_impl; [exact Hx|]. intros y Hy%Z.leb_le. by right.
Qed.

Lemma StronglySorted_concat (l : list (list Transaction)) :
  Forall (StronglySorted in_order) l → NoDup ((λ g, payer <$> head g) <$> l) →
  Forall (λ g, ∃ p, payer <$> head g = Some p ∧ Forall (λ x, payer x = p) g) l →
  StronglySorted in_order (concat l).
Proof.
  induction l as [|g l IH]; [constructor|]. rewrite fmap_cons.
  intros [Hg Hs]%Forall_cons [Hd Hnd]%NoDup_cons [(p & Hp & Hall) Hps]%Forall_cons. cbn [concat].
  specialize (IH Hs Hnd Hps). rewrite Hp in Hd. clear Hp Hs Hnd. rewrite Forall_forall in Hall.
  assert (∀ x, x ∈ concat l → payer x ≠ p) as Hother.
  { intros x Hx Heq. apply list_elem_of_In, in_concat in Hx as (k & Hk & Hx). apply list_elem_of_In in Hk, Hx.
    rewrite Forall_forall in Hps. destruct (Hps k Hk) as (q & Hq & Hkq). rewrite Forall_forall in Hkq.
    apply Hd. rewrite <-Heq, (Hkq x Hx), <-Hq. by apply (list_elem_of_fmap_2 (λ g, payer <$> head g)). }
  induction Hg as [|x g Hg IHg Hx]; [done|]. cbn [app]. constructor; [apply IHg; intros y Hy; apply Hall; by right|].
  apply Forall_app. split; [done|]. apply Forall_forall. intros y Hy. left.
  rewrite (Hall x) by by left. intros Heq. by apply (Hother y Hy).
Qed.

Lemma StronglySorted_take {A} (R : A → A → Prop) n l : StronglySorted R l → StronglySorted R (take n l).
Proof.
  intros Hs. revert n. induction Hs as [|x l Hs IH Hx]; intros [|n]; try constructor; [apply IH|].
  by apply Forall_take.
Qed.

Lemma head_sorted_payer g p :
  g ≠ [] → Forall (λ x, payer x = p) g → payer <$> head (stable_sort nonce_leb g) = Some p ∧
  Forall (λ x, payer x = p) (stable_sort nonce_leb g).
Proof.
  intros Hne Hall. assert (Forall (λ x, payer x = p) (stable_sort nonce_leb g)) as Hs by by rewrite stable_sort_perm.
  split; [|done]. pose proof (stable_sort_perm nonce_leb g) as Hp.
  destruct (stable_sort nonce_leb g) as [|x l]; [by apply Permutation_nil_l in Hp|]. apply Forall_cons in Hs as [<- _]. done.
Qed.

Lemma ordered_in_order mp : mempool_wf mp → grouped mp → StronglySorted in_order (ordered_transactions mp).
Proof.
  intros Hwf Hg. unfold ordered_transactions. pose proof (mempool_groups mp Hwf) as Hperm.
  set (m := foldl insert_group [] (group_by_payer (mp_txs mp).*2)) in *.
  pose proof (group_by_payer_groups (mp_txs mp).*2) as Hgs. unfold grouped in Hg.
  set (gs := group_by_payer (mp_txs mp).*2) in *.
  assert (m.*2 ≡ₚ stable_sort nonce_leb <$> gs) as Hm by (rewrite Hperm, <-list_fmap_compose; done).
  assert (Forall (λ g, ∃ p, (payer <$> head g = Some p ∧ Forall (λ x, payer x = p) g) ∧
    (payer <$> head (stable_sort nonce_leb g) = Some p ∧ Forall (λ x, payer x = p) (stable_sort nonce_leb g))) gs) as Hpay.
  { eapply Forall_impl; [exact Hgs|]. intros g (tx & g' & -> & Hall). exists (payer tx).
    assert (Forall (λ x, payer x = payer tx) (tx :: g')) as Hall' by by constructor.
    split; [done|]. by apply head_sorted_payer. }
  apply StronglySorted_concat.
  - rewrite Hm. apply Forall_fmap, Forall_forall. intros g _. apply sorted_group.
  - rewrite Hm, <-list_fmap_compose. erewrite Forall_fmap_ext_1; [exact Hg|].
    eapply Forall_impl; [exact Hpay|]. intros g (p & [Hp _] & [Hp' _]). cbn. by rewrite Hp, Hp'.
  - rewrite Hm. apply Forall_fmap. eapply Forall_impl; [exact Hpay|]. intros g (p & _ & Hp). by exists p.
Qed.

Lemma taken_pass_order_check `{!CryptoLaws} count mp :
  mempool_wf mp → grouped mp → nonces_ok mp → verify_transactions_order (take_transactions count mp).1 = true.
Proof.
  intros Hwf Hg Hn. cbn [take_transactions fst].
  assert (Forall (λ tx, 0 ≤ tx_nonce tx < u64_max) (take count (ordered_transactions mp))) as Hall.
  { apply Forall_take. by rewrite ordered_transactions_perm. }
  pose proof (StronglySorted_take in_order count _ (ordered_in_order mp Hwf Hg)) as Hs.
  destruct (take count (ordered_transactions mp)) as [|first rest]; [done|].
  apply order_loop_no_groups. by apply in_order_no_groups.
Qed.
End mempool.

(** ** Theorems *)

Section theorems.
Context `{Crypto} `{WasmRuntime} `{BuiltinAddresses} `{!BlockData (list Transaction)} `{!CryptoLaws}.
Context {St : Type} `{StateStore St}.
Abbreviation Chain := (@Chain _ (list Transaction) St).
Implicit Types (mp : MempoolState) (p : BlockProducer) (c : Chain).

Lemma produce_inv fuel (st : View) prev m p p' b :
  produce fuel st prev m p = Done p' → pending p' = Some b →
  parent b = any_hash prev ∧ height b = wrap64 (any_height prev + 1) ∧ (signature b).1 = keypair_public (pr_keypair p) ∧
  Produced_verify_signature b = true ∧
  ∃ out, execute fuel m st (block_data b) = Done (Ok out) ∧ block_output_hash out = state_hash b.
Proof.
  unfold produce. destruct (take_votes (mempool p)) as [vs mp1]. destruct (take_transactions _ mp1) as [txs mp2]. intros Hp.
  apply outcome_bind_done in Hp as ([out|] & Hout & Hp); [|done]. injection Hp as <-. cbn [pending]. intros [= <-].
  split_and!; try done; [apply sign_verify|]. by exists out.
Qed.

(** C25: taking transactions out of the mempool neither loses nor duplicates
    any, however the map is iterated: what is taken, as many as asked for or all
    there are, and what remains are together the transactions there were. *)
Theorem take_transactions_partition count mp :
  mempool_wf mp →
  let r := take_transactions count mp in
  r.1 ++ (mp_txs r.2).*2 ≡ₚ (mp_txs mp).*2 ∧ length r.1 = (count `min` length (mp_txs mp))%nat ∧ mempool_wf r.2.
Proof.
  intros Hwf. pose proof (ordered_transactions_perm mp Hwf) as Hperm. cbn [take_transactions fst snd mp_txs].
  rewrite remove_all_filter. split_and!.
  - rewrite remaining_transactions; [| done | rewrite take_drop; exact Hperm]. by rewrite take_drop.
  - by rewrite length_take, Hperm, length_fmap.
  - destruct Hwf as [Hk Hnd]. split; cbn [mp_txs].
    + rewrite Forall_forall in *. intros x [_ Hx]%list_elem_of_filter. by apply Hk.
    + eapply sublist_NoDup; [exact Hnd|]. apply fmap_sublist, sublist_filter.
Qed.

(** When each payer's transactions are neighbours in the mempool and no
    nonce is the largest one, producing a block succeeds: the transactions pass
    the order check on which the producer would otherwise stop, and the block
    carries all votes and a share of the transactions of the mempool, on top of
    the given head. *)
Theorem produce_succeeds fuel (st : View) prev m p :
  mempool_wf (mempool p) → grouped (mempool p) → nonces_ok (mempool p) →
  (∃ acc, execute_all fuel m st block_acc_default
     (take_transactions (max_block_transactions (pr_limits p)) (mempool p)).1 = Done acc) →
  ∃ p' b, produce fuel st prev m p = Done p' ∧ pending p' = Some b ∧
    parent b = any_hash prev ∧ height b = wrap64 (any_height prev + 1) ∧
    votes b = (mp_votes (mempool p)).*2 ∧ mp_votes (mempool p') = [] ∧
    block_data b ++ (mp_txs (mempool p')).*2 ≡ₚ (mp_txs (mempool p)).*2 ∧
    (length (block_data b) ≤ max_block_transactions (pr_limits p))%nat.
Proof.
  intros Hwf Hg Hn [acc Hacc]. unfold produce. cbn [take_votes].
  set (mp := MkMempool (mp_validators (mempool p)) [] (mp_txs (mempool p))).
  assert (mempool_wf mp) as Hwf' by exact Hwf.
  pose proof (taken_pass_order_check (max_block_transactions (pr_limits p)) mp Hwf' Hg Hn) as Horder.
  pose proof (ordered_transactions_perm mp Hwf') as Hperm.
  change (take_transactions (max_block_transactions (pr_limits p)) (mempool p)).1
    with (take_transactions (max_block_transactions (pr_limits p)) mp).1 in Hacc.
  destruct (take_transactions (max_block_transactions (pr_limits p)) mp) as [txs mp'] eqn:E. cbn [fst] in Horder, Hacc.
  cbn [execute transactions_executable]. unfold transactions_execute.
  rewrite Horder. cbn [negb]. rewrite Hacc. eexists _, _. split; [reflexivity|]. split; [reflexivity|].
  unfold take_transactions in E. injection E as <- <-. cbn [mempool mp_votes mp_txs block_data Produced_new parent height votes].
  split_and!; try done.
  - rewrite remove_all_filter. change (mp_txs (mempool p)) with (mp_txs mp).
    rewrite remaining_transactions; [|done|rewrite take_drop; exact Hperm]. by rewrite take_drop.
  - rewrite length_take. lia.
Qed.

(** A validator's chain accepts the block that the validator produces on
    the chain's head: it passes the checks of a received block when the
    validator has enough stake, executing it again gives the declared state,
    and it joins the forest under its parent. *)
Lemma produced_block_accepted fuel c p p' b :
  chain_wf c → 0 ≤ any_height (with_head c).2 < u64_max → is_Some (eligible c !! keypair_public (pr_keypair p)) →
  produce fuel (with_head c).1 (with_head c).2 (virtual_machine c) p = Done p' → pending p' = Some b →
  get_block_node c (block_hash b) = None →
  acceptable b c = true ∧
  ∃ e c', try_include fuel b c = Done (Ok (Consumed, c')) ∧ underlying e = b ∧
    forest_blocks c' ≡ₚ e :: forest_blocks c ∧ head (events c') = Some (BlockIncluded e).
Proof.
  intros Hwf Hh Hel Hprod Hpend Hnew.
  destruct (produce_inv fuel (with_head c).1 (with_head c).2 (virtual_machine c) p p' b Hprod Hpend) as (Hp & Hhb & Hs & Hv & out & Hex & Hout).
  assert (height b = any_height (with_head c).2 + 1) as Hhb'.
  { rewrite Hhb. apply wrap64_id. unfold is_u64. lia. }
  assert (∀ st, st = (with_head c).1 → Executed_new fuel st b (virtual_machine c) = Done (Ok (MkExecuted b out))) as Hexec.
  { intros st ->. unfold Executed_new. rewrite Hex. cbn [try_bind]. by rewrite bool_decide_true. }
  assert (finalized_height c < height b) as Hfh.
  { rewrite Hhb'. destruct (with_head_cases c Hwf) as [[_ ->]|(i & r & _ & _ & _ & _ & _ & Hlt)]; [cbn|lia].
    unfold finalized_height. lia. }
  split.
  { unfold acceptable. rewrite Hs. destruct Hel as [z [Hz Hmin]%map_lookup_filter_Some]. cbn [snd] in Hmin. rewrite Hz.
    rewrite (proj2 (Z.ltb_ge _ _)) by lia. rewrite (proj2 (Z.leb_gt _ _)) by lia. by rewrite Hv. }
  exists (MkExecuted b out). unfold try_include. rewrite Hnew.
  destruct (with_head_cases c Hwf) as [[_ Hhead]|(i & r & Hr & Hview & Hne & Hhash & Hheight & _)].
  - rewrite Hhead in Hp, Hhb', Hexec. cbn [fst snd] in *. rewrite bool_decide_true by done. unfold finalized_height.
    rewrite Hhb', Z.eqb_refl. cbn [negb]. rewrite (Hexec (finalized_view c) eq_refl). cbn [try_bind]. eexists. split; [reflexivity|].
    split_and!; try done. unfold forest_blocks. simpl. rewrite fmap_app, concat_app. unfold tree_blocks. simpl. solve_Permutation.
  - rewrite bool_decide_false by congruence. rewrite Hp, Hr, <-Hheight, <-Hhb', Z.eqb_refl. cbn [negb snd].
    rewrite <-Hview, (Hexec _ eq_refl). cbn [try_bind underlying].
    rewrite bool_decide_false by (intros Hx; apply Hx; congruence). eexists. split; [reflexivity|]. split_and!; try done.
    unfold forest_blocks. simpl. apply (update_root_blocks _ [_]); [intros t t'; apply tree_add_child_blocks|]. by eapply find_root_update.
Qed.
End theorems.

(** ** Examples *)

Import CoinExample VmExample.

Module ProducerExample.
Definition pay (n : Z) : Transaction := transfer_tx prog alice alice bob 1 n [alice].
Definition other_tx : Transaction := transfer_tx prog mallory mallory bob 1 0 [mallory].
Definition mempool_of (txs : list Transaction) : MempoolState := MkMempool ∅ [] ((λ tx, (tx_hash tx, tx)) <$> txs).
Definition producer_of (txs : list Transaction) : BlockProducer := MkProducer (toy_key 3) toy_limits (mempool_of txs) None.
Definition toy_head : AnyBlock (list Transaction) := GenesisBlock toy_genesis.
Definition scattered : list Transaction := [pay 3; pay 7; other_tx; pay 6].
Definition neighbours : list Transaction := [pay 3; pay 7; pay 6; other_tx].

(** A chain of transactions that its validator has just started. *)
Definition tx_genesis : Genesis :=
  MkGenesis "toy" 0 1000 1 toy_limits [] [MkValidator (keypair_public (toy_key 3)) 10] (array32_of_Z 1) ∅.
Definition tx_chain : @Chain toy_crypto (list Transaction) (gmap bytes bytes) :=
  Chain_new tx_genesis toy_vm (MkFinalized (GenesisBlock tx_genesis) ∅).
Definition tx_producer : BlockProducer := set_mempool (Producer_new tx_genesis (toy_key 3)) (mempool_of [pay 0]).
Definition produced : BlockProducer :=
  done_or (produce 2 (with_head tx_chain).1 (with_head tx_chain).2 toy_vm tx_producer) tx_producer.
Definition produced_block : Produced (list Transaction) :=
  default (Produced_new (toy_key 3) 0 (genesis_hash tx_genesis) [] (genesis_hash tx_genesis) []) (pending produced).
End ProducerExample.
Import ProducerExample.

Lemma pending_done (o : Outcome BlockProducer) :
  match o with Done p => match pending p with Some _ => true | None => false end | _ => false end = true →
  is_Some (match o with Done p => pending p | _ => None end).
Proof. destruct o as [p| |]; [|done..]. by destruct (pending p). Qed.

Lemma mempool_of_wf txs : bool_decide (NoDup (tx_hash <$> txs)) = true → mempool_wf (mempool_of txs).
Proof.
  intros Hnd%bool_decide_eq_true. split.
  - apply Forall_fmap, Forall_forall. done.
  - cbn [mp_txs mempool_of]. rewrite <-list_fmap_compose. exact Hnd.
Qed.

Lemma mempool_of_nonces txs :
  forallb (λ tx, (0 <=? tx_nonce tx) && (tx_nonce tx <? u64_max)) txs = true → nonces_ok (mempool_of txs).
Proof.
  intros Hall. unfold nonces_ok, mempool_of. cbn [mp_txs]. rewrite <-list_fmap_compose. apply Forall_fmap, Forall_forall.
  intros tx Hin%list_elem_of_In. rewrite forallb_forall in Hall. apply Hall, andb_true_iff in Hin as [H1 H2].
  apply Z.leb_le in H1. apply Z.ltb_lt in H2. done.
Qed.

(** Otherwise the producer may stop for good: four verified transactions
    that any two payers may submit make it panic when the concurrent map lists
    one payer's transactions apart. They are then two groups, each sorted by
    nonce, and the order check, which takes a smaller nonce after a greater one
    for the continuation of a group, rejects the block that is unwrapped. With
    the same transactions listed as neighbours a block is produced. *)
Theorem scattered_payer_stops_producer :
  Forall (λ tx, verify_signatures tx = Ok tt) scattered ∧ neighbours ≡ₚ scattered ∧
  mempool_wf (mempool_of scattered) ∧ nonces_ok (mempool_of scattered) ∧
  produce 2 toy_state toy_head toy_vm (producer_of scattered) = Panic ∧
  is_Some (match produce 2 toy_state toy_head toy_vm (producer_of neighbours) with Done p => pending p | _ => None end).
Proof.
  split_and!.
  - repeat constructor.
  - unfold neighbours, scattered. solve_Permutation.
  - apply mempool_of_wf. by vm_compute.
  - apply mempool_of_nonces. by vm_compute.
  - apply panics_eq. by vm_compute.
  - apply pending_done. by vm_compute.
Qed.

(** ** Witnesses *)

Lemma take_transactions_partition_witness :
  let r := take_transactions 3 (mempool_of scattered) in r.1 ++ (mp_txs r.2).*2 ≡ₚ scattered ∧ length r.1 = 3%nat.
Proof.
  destruct (take_transactions_partition 3 (mempool_of scattered)) as (Hp & Hl & _); [apply mempool_of_wf; by vm_compute|].
  split; [exact Hp|exact Hl].
Defined.

Lemma produce_succeeds_witness :
  ∃ p' b, produce 2 toy_state toy_head toy_vm (producer_of neighbours) = Done p' ∧ pending p' = Some b ∧ parent b = any_hash toy_head.
Proof.
  destruct (produce_succeeds 2 toy_state toy_head toy_vm (producer_of neighbours)) as (p' & b & Hp & Hb & Hpar & _).
  - apply mempool_of_wf. by vm_compute.
  - apply (bool_decide_unpack _). by vm_compute.
  - apply mempool_of_nonces. by vm_compute.
  - apply is_done_exists. by vm_compute.
  - exists p', b. split; [exact Hp|]. split; [exact Hb|exact Hpar].
Defined.

Lemma produced_ok : produce 2 (with_head tx_chain).1 (with_head tx_chain).2 toy_vm tx_producer = Done produced.
Proof. unfold produced. apply is_done_eq. by vm_compute. Qed.

Lemma produced_pending : pending produced = Some produced_block.
Proof. unfold produced_block. apply is_some_default. by vm_compute. Qed.

