(* ===== verification/Node.v ===== *)
(** * The validator node (src/main.rs)

    The components of the other files, and the loop that connects them. Each arm
    of the loop's [select!] is a function of the node; which arm runs is a choice
    of the step relation. The threads beside the loop are steps too: the task that
    feeds the consumers of blocks, and the task that owns the network. The
    optional services (the RPC server, the copy to an external database) appear
    by what they ask of the loop: a transaction to gossip. *)
From S2P Require Import Prelude Primitives Text State Transaction Contract Currency Builtins Block Machine Execution Consumer Producer Sled BlockStore ForkTree Orphans Chain Schedule Episub Behaviour Network.

Section node.
Context `{Crypto} `{WasmRuntime} `{BuiltinAddresses} `{!BlockData (list Transaction)}.
Context {St : Type} `{StateStore St} {T : Type} `{SledTree T}.
Context `{WeightedRng} `{!TextForms} `{Libp2p} `{!NetPrimitives} `{Zstd} `{Rand}.
Context `{!Bincode Vote} `{!Bincode (Produced (list Transaction))} `{!Bincode Transaction}.
Context `{!Bincode StoredOutputs} `{!Bincode ExecutedTransaction}.
Context `{!Borsh BytecodeAccount} `{!Borsh WasmInstruction}.

Abbreviation BlockType := (list Transaction).
Abbreviation NodeChain := (@Chain _ BlockType St).
Abbreviation NodeNetwork := (@Network _ _ _ BlockType).

Record Node := MkNode {
  nd_keypair : Keypair;
  nd_vm : Machine;
  nd_chain : NodeChain;
  nd_producer : BlockProducer;
  nd_store : @BlockStore T;
  nd_consumers : @BlockConsumers _ BlockType;
  nd_schedule : ScheduleStream;
  nd_responder : SwarmResponder Multihash;
  nd_network : NodeNetwork
}.

(** ** Updates of one field *)

Definition set_chain (c : NodeChain) (n : Node) : Node :=
  MkNode (nd_keypair n) (nd_vm n) c (nd_producer n) (nd_store n) (nd_consumers n) (nd_schedule n) (nd_responder n) (nd_network n).
Definition set_producer (p : BlockProducer) (n : Node) : Node :=
  MkNode (nd_keypair n) (nd_vm n) (nd_chain n) p (nd_store n) (nd_consumers n) (nd_schedule n) (nd_responder n) (nd_network n).
Definition set_store (s : @BlockStore T) (n : Node) : Node :=
  MkNode (nd_keypair n) (nd_vm n) (nd_chain n) (nd_producer n) s (nd_consumers n) (nd_schedule n) (nd_responder n) (nd_network n).
Definition set_consumers (q : BlockConsumers) (n : Node) : Node :=
  MkNode (nd_keypair n) (nd_vm n) (nd_chain n) (nd_producer n) (nd_store n) q (nd_schedule n) (nd_responder n) (nd_network n).
Definition set_schedule (s : ScheduleStream) (n : Node) : Node :=
  MkNode (nd_keypair n) (nd_vm n) (nd_chain n) (nd_producer n) (nd_store n) (nd_consumers n) s (nd_responder n) (nd_network n).
Definition set_responder (r : SwarmResponder Multihash) (n : Node) : Node :=
  MkNode (nd_keypair n) (nd_vm n) (nd_chain n) (nd_producer n) (nd_store n) (nd_consumers n) (nd_schedule n) r (nd_network n).
Definition set_network (k : NodeNetwork) (n : Node) : Node :=
  MkNode (nd_keypair n) (nd_vm n) (nd_chain n) (nd_producer n) (nd_store n) (nd_consumers n) (nd_schedule n) (nd_responder n) k.

(** ** Start *)

(** What [main] returns when it stops: an error of a component, or of a channel
    that was closed. *)
Inductive NodeError := StartError | SendFailed.

(** The latest finalized block that the store holds, or the genesis block. *)
Definition latest_block (g : Genesis) (s : @BlockStore T) : AnyBlock BlockType :=
  match latest s Finalized_ with Some b => ProducedBlock b | None => GenesisBlock g end.

Fixpoint connect_all (peers : list Multiaddr) (k : NodeNetwork) : Result NodeError NodeNetwork :=
  match peers with
  | [] => Ok k
  | p :: peers => k ← map_err (λ _, SendFailed) (connect p k); connect_all peers k
  end.

(** The components before the loop; [seed] is the digest of the genesis hash. *)
Definition node_start (now : Z) (rng : string → ThreadRng) (seed : array32)
    (g : Genesis) (keypair : Keypair) (peers : list Multiaddr) (storage : St) (store : @BlockStore T) : Result NodeError Node :=
  network ← connect_all peers (Network_new now rng g);
  let finalized := MkFinalized (latest_block g store) storage in
  vm ← map_err (λ _, StartError) (Machine_new BUILTIN_CONTRACTS g);
  let chain := Chain_new g vm finalized in
  let producer := Producer_new g keypair in
  schedule ← map_err (λ _, StartError) (Schedule_new seed g);
  let responder := Responder_new (slot_interval g) (Z.of_nat (length (validators g))) in
  mret (MkNode keypair vm chain producer store [] (Stream_new schedule) responder network).

(** ** The arms of the loop *)

(** A message to the network, or the end of the node. *)
Definition send_net (f : NodeNetwork → Result SendError NodeNetwork) (n : Node) : Outcome (Result NodeError Node) :=
  Done (k ← map_err (λ _, SendFailed) (f (nd_network n)); mret (set_network k n)).

(** A slot begins: its leader produces a block on the head of its chain. *)
Definition on_slot (vm_fuel : nat) (v : Validator) (n : Node) : Outcome (Result NodeError Node) :=
  if bool_decide (pubkey v = keypair_public (nd_keypair n)) then
    let '(state, block) := with_head (nd_chain n) in
    p ← produce vm_fuel state block (nd_vm n) (nd_producer n);
    Done (Ok (set_producer p n))
  else Done (Ok n).

Definition on_schedule (fuel vm_fuel : nat) (n : Node) : Outcome (Result NodeError Node) :=
  r ← stream_poll fuel (nd_schedule n);
  let n := set_schedule r.2 n in
  match r.1 with
  | Some (slot, validator) => on_slot vm_fuel validator n
  | None => Done (Ok n)
  end.

(** A block that was asked for, from the forest or from the store. *)
Definition find_block (hash : Multihash) (n : Node) : Outcome (option (Executed BlockType)) :=
  match chain_get (nd_chain n) hash with
  | Some b => Done (Some b)
  | None => r ← get_by_hash (nd_store n) hash; Done match r with Some (b, _) => Some b | None => None end
  end.

Definition on_replay (now : Z) (n : Node) : Outcome (Result NodeError Node) :=
  match responder_poll now (nd_responder n) with
  | (Some hash, r) =>
      let n := set_responder r n in
      block ← find_block hash n;
      match block with
      | Some block => send_net (gossip_block (underlying block)) n
      | None => Done (Ok n)
      end
  | (None, r) => Done (Ok (set_responder r n))
  end.

(** The network's events; [delay] is the random delay of a replay request. *)
Definition on_network (fuel vm_fuel : nat) (now delay : Z) (n : Node) : Outcome (Result NodeError Node) :=
  match network_poll (nd_network n) with
  | (Some event, k) =>
      let n := set_network k n in
      match event with
      | BlockReceived block =>
          let n := set_responder (cancel (block_hash block) (nd_responder n)) n in
          c ← include fuel vm_fuel now block (nd_chain n);
          Done (Ok (set_chain c n))
      | VoteReceived vote => Done (Ok (set_producer (record_vote vote (nd_producer n)) n))
      | MissingBlock hash => r ← request now delay hash (nd_responder n); Done (Ok (set_responder r n))
      | TransactionReceived tx => Done (Ok (set_producer (record_transaction tx (nd_producer n)) n))
      end
  | (None, _) => Done (Ok n)
  end.

(** A block of the own producer. *)
Definition on_produced (fuel vm_fuel : nat) (now : Z) (n : Node) : Outcome (Result NodeError Node) :=
  match producer_poll_next (nd_producer n) with
  | (Some block, p) =>
      let n := set_producer p n in
      c ← include fuel vm_fuel now block (nd_chain n);
      send_net (gossip_block block) (set_chain c n)
  | (None, p) => Done (Ok (set_producer p n))
  end.

(** What the loop does with an event of the chain. *)
Definition on_chain_event (event : ChainEvent) (n : Node) : Outcome (Result NodeError Node) :=
  match event with
  | VoteCast target justification => send_net (gossip_vote (Vote_new (nd_keypair n) target justification)) n
  | BlockDiscarded block => Done (Ok (set_producer (reuse_discarded block (nd_producer n)) n))
  | BlockMissing hash => send_net (gossip_missing hash) n
  | BlockIncluded block => Done (Ok (set_consumers (send (nd_consumers n) block Included) n))
  | BlockConfirmed block votes => Done (Ok (set_consumers (send (nd_consumers n) block Confirmed) n))
  | BlockFinalized block votes => Done (Ok (set_consumers (send (nd_consumers n) block Finalized_) n))
  end.

Definition on_chain (now : Z) (n : Node) : Outcome (Result NodeError Node) :=
  r ← poll_next now (nd_chain n);
  let n := set_chain r.2 n in
  match r.1 with
  | Some event => on_chain_event event n
  | None => Done (Ok n)
  end.

(** A transaction of a client. *)
Definition on_rpc (tx : Transaction) (n : Node) : Outcome (Result NodeError Node) := send_net (gossip_transaction tx) n.

(** ** The other tasks *)

(** The oldest block that waits goes to the store and to the producer. *)
Definition consume_one (n : Node) : Node :=
  let '(q, (s, p)) := receive (nd_consumers n) (nd_store n, nd_producer n) in
  set_consumers q (set_store s (set_producer p n)).

Definition announce_slot (slot : Z) (n : Node) : Node := set_schedule (announce slot (nd_schedule n)) n.

(** ** Runs *)

(** One step, with the block that it handed to the consumers. *)
Inductive node_step : Node → option (Executed BlockType * Commitment) → Node → Prop :=
  | StepSchedule fuel vm_fuel n n' : on_schedule fuel vm_fuel n = Done (Ok n') → node_step n None n'
  | StepReplay now n n' : on_replay now n = Done (Ok n') → node_step n None n'
  | StepNetwork fuel vm_fuel now delay n n' : on_network fuel vm_fuel now delay n = Done (Ok n') → node_step n None n'
  | StepProduced fuel vm_fuel now n n' : on_produced fuel vm_fuel now n = Done (Ok n') → node_step n None n'
  | StepChain now n n' : on_chain now n = Done (Ok n') → node_step n None n'
  | StepRpc tx n n' : on_rpc tx n = Done (Ok n') → node_step n None n'
  | StepConsume n : node_step n (head (nd_consumers n)) (consume_one n)
  | StepAnnounce slot n : node_step n None (announce_slot slot n)
  | StepSwarm step n : node_step n None (set_network (net_swarm_event step (nd_network n)) n)
  | StepCommand now id n : node_step n None (set_network (net_command now id (nd_network n)) n).

(** A run of the node, with the blocks that the consumers got, in order. *)
Inductive node_run (n : Node) : list (Executed BlockType * Commitment) → Node → Prop :=
  | RunStart : node_run n [] n
  | RunStep given n1 x n2 : node_run n given n1 → node_step n1 x n2 → node_run n (given ++ option_list x) n2.
End node.
