(* ===== verification/NodeProps.v ===== *)
(** * Properties of the validator node: the components together

    What the loop keeps between the chain, the consumers and the network. *)
From S2P Require Import Prelude Primitives Text State Transaction Contract Currency Builtins Block Machine Execution Consumer Producer Sled BlockStore BlockStoreProps ForkTree ForkTreeProps Orphans OrphansProps Chain ChainProps Sources Finality ProducerProps Schedule Episub Behaviour Network Node.

Section node_props.
Context `{Crypto} `{WasmRuntime} `{BuiltinAddresses} `{!BlockData (list Transaction)}.
Context {St : Type} `{StateStore St} {T : Type} `{SledTree T} `{!SledTreeLaws T}.
Context `{WeightedRng} `{!TextForms} `{Libp2p} `{!NetPrimitives} `{Zstd} `{Rand}.
Context `{!Bincode Vote} `{!Bincode (Produced (list Transaction))} `{!Bincode Transaction}.
Context `{!Bincode StoredOutputs} `{!Bincode ExecutedTransaction}.
Context `{!Borsh BytecodeAccount} `{!Borsh WasmInstruction}.
Context `{!CryptoLaws} `{!BincodeLaws (Produced (list Transaction))} `{!BincodeLaws StoredOutputs} `{!BincodeLaws ExecutedTransaction}.
Abbreviation BlockType := (list Transaction).
Abbreviation Node := (@Node _ St T _ _ _).
Implicit Types (n : Node) (e : Executed BlockType).

(** ** Finalized blocks on their way to the consumers *)

Definition finalized_of (l : list (Executed BlockType * Commitment)) : list (Executed BlockType) :=
  omap (λ x, if bool_decide (x.2 = Finalized_) then Some x.1 else None) l.

(** Those in the channel of the consumers, then those among the chain's events. *)
Definition waiting n : list (Executed BlockType) := finalized_of (nd_consumers n) ++ awaited (nd_chain n).

Lemma finalized_of_app l k : finalized_of (l ++ k) = finalized_of l ++ finalized_of k.
Proof. apply omap_app. Qed.

(** *** What the arms of the loop leave alone *)

Definition same_queues n n' : Prop := nd_consumers n' = nd_consumers n ∧ nd_store n' = nd_store n.

Lemma send_net_same f n n' : send_net f n = Done (Ok n') → nd_chain n' = nd_chain n ∧ same_queues n n'.
Proof. unfold send_net. destruct (f (nd_network n)); cbn; [|done]. by intros [= <-]. Qed.

Lemma on_schedule_same fuel vm_fuel n n' : on_schedule fuel vm_fuel n = Done (Ok n') → nd_chain n' = nd_chain n ∧ same_queues n n'.
Proof.
  intros ([[[slot v]|] s] & _ & Hr)%outcome_bind_done; cbn in Hr; [|by injection Hr as <-].
  unfold on_slot in Hr. case_bool_decide; [|by injection Hr as <-].
  destruct (with_head _) as [st b]. apply outcome_bind_done in Hr as (p & _ & Hr). by injection Hr as <-.
Qed.

Lemma on_replay_same now n n' : on_replay now n = Done (Ok n') → nd_chain n' = nd_chain n ∧ same_queues n n'.
Proof.
  unfold on_replay. destruct (responder_poll now (nd_responder n)) as [[hash|] r]; [|by intros [= <-]].
  intros ([b|] & _ & Hr)%outcome_bind_done; [|by injection Hr as <-]. by apply send_net_same in Hr.
Qed.

(** A block that the node can take up: it was received, or the node made it. *)
Definition taken n b : Prop :=
  (∃ k, network_poll (nd_network n) = (Some (BlockReceived b), k)) ∨ pending (nd_producer n) = Some b.

Lemma on_network_same fuel vm_fuel now delay n n' :
  on_network fuel vm_fuel now delay n = Done (Ok n') →
  same_queues n n' ∧ (nd_chain n' = nd_chain n ∨ ∃ b, taken n b ∧ include fuel vm_fuel now b (nd_chain n) = Done (nd_chain n')).
Proof.
  unfold on_network. destruct (network_poll (nd_network n)) as [[[hash|b|v|tx]|] k] eqn:Hpoll; [| | | |intros [= <-]; by split; [|left]].
  - intros (r & _ & [= <-])%outcome_bind_done. by split; [|left].
  - intros (c & Hc & [= <-])%outcome_bind_done. split; [done|right]. exists b. split; [left; by exists k|done].
  - intros [= <-]. by split; [|left].
  - intros [= <-]. by split; [|left].
Qed.

Lemma on_produced_same fuel vm_fuel now n n' :
  on_produced fuel vm_fuel now n = Done (Ok n') →
  same_queues n n' ∧ (nd_chain n' = nd_chain n ∨ ∃ b, taken n b ∧ include fuel vm_fuel now b (nd_chain n) = Done (nd_chain n')).
Proof.
  unfold on_produced. destruct (producer_poll_next (nd_producer n)) as [[b|] p] eqn:Hpoll; [|intros [= <-]; by split; [|left]].
  intros (c & Hc & Hn)%outcome_bind_done. apply send_net_same in Hn as [Hch [Hq Hs]]. split; [done|right]. exists b.
  rewrite Hch. split; [right; by injection Hpoll as Hb _|done].
Qed.

Lemma on_chain_same now n n' :
  on_chain now n = Done (Ok n') →
  ∃ ev, poll_next now (nd_chain n) = Done (ev, nd_chain n') ∧ nd_store n' = nd_store n ∧
    finalized_of (nd_consumers n') = finalized_of (nd_consumers n) ++ option_list (ev ≫= finalized_event).
Proof.
  intros ([ev c] & Hp & Hn)%outcome_bind_done. exists ev. cbn in Hn. rewrite Hp.
  destruct ev as [ev|]; [|injection Hn as <-; by rewrite app_nil_r].
  destruct ev; cbn in Hn; try (apply send_net_same in Hn as [-> [-> ->]]; by rewrite app_nil_r);
    injection Hn as <-; cbn; unfold send; rewrite ?finalized_of_app, ?app_nil_r; done.
Qed.

Lemma include_finalized_waiting fuel vm_fuel now b n n' :
  chain_wf (nd_chain n) → nd_consumers n' = nd_consumers n → include fuel vm_fuel now b (nd_chain n) = Done (nd_chain n') →
  chain_wf (nd_chain n') ∧ waiting n' = waiting n ∧ finalized (nd_chain n') = finalized (nd_chain n).
Proof.
  intros Hwf Hq Hi. destruct (include_wf _ _ _ _ _ _ Hwf Hi) as [Hwf' (_ & _ & Hf)]. split_and!; [done| |done].
  unfold waiting. by rewrite Hq, (include_awaited _ _ _ _ _ _ Hi).
Qed.

Lemma consume_one_chain n :
  nd_chain (consume_one n) = nd_chain n ∧
  finalized_of (option_list (head (nd_consumers n))) ++ finalized_of (nd_consumers (consume_one n)) = finalized_of (nd_consumers n).
Proof.
  unfold consume_one, receive. destruct (nd_consumers n) as [|[e c] q]; [done|]. split; [done|].
  rewrite <- finalized_of_app. done.
Qed.

(** *** One step *)

Section invariant.
Context (B : Produced BlockType → Prop) (W : Vote → Prop) (HBW : ∀ b v, B b → v ∈ votes b → W v).
Context (I : @Chain _ BlockType St → Prop) (Q : Executed BlockType → Prop) (HI : finality_invariant W I Q).

(** Runs of a node that takes up certain blocks only. *)
Inductive node_run_from n : list (Executed BlockType * Commitment) → Node → Prop :=
  | FromStart : node_run_from n [] n
  | FromStep given n1 x n2 :
      node_run_from n given n1 → (∀ b, taken n1 b → B b) → node_step n1 x n2 → node_run_from n (given ++ option_list x) n2.

Definition sound n : Prop := sourced B W (nd_chain n) ∧ I (nd_chain n).

(** What a step gives to the consumers was first in the queue, and what it adds
    to the queue continues the finalized chain. *)
Lemma node_step_waiting n x n' :
  node_step n x n' → (∀ b, taken n b → B b) → sound n →
  sound n' ∧ ∃ more, finalized_of (option_list x) ++ waiting n' = waiting n ++ more ∧
    finalizes (finalized (nd_chain n)) more (finalized (nd_chain n')) ∧ Forall Q more.
Proof.
  intros Hstep HB [Hsn HIn]. pose proof (fi_wf _ _ _ HI _ HIn) as Hwf.
  assert (∀ n', nd_chain n' = nd_chain n → nd_consumers n' = nd_consumers n →
    sound n' ∧ ∃ more, finalized_of (option_list None) ++ waiting n' = waiting n ++ more ∧
      finalizes (finalized (nd_chain n)) more (finalized (nd_chain n')) ∧ Forall Q more) as Hsame.
  { intros m Hc Hq. unfold waiting, sound. rewrite Hc, Hq. split; [done|]. exists []. by rewrite app_nil_r. }
  assert (∀ fuel vm_fuel now b n', taken n b → nd_consumers n' = nd_consumers n → include fuel vm_fuel now b (nd_chain n) = Done (nd_chain n') →
    sound n' ∧ ∃ more, finalized_of (option_list None) ++ waiting n' = waiting n ++ more ∧
      finalizes (finalized (nd_chain n)) more (finalized (nd_chain n')) ∧ Forall Q more) as Hinc.
  { intros fuel vm_fuel now b m Hb Hq Hi. split.
    { by eapply (include_invariant B W I (fi_steps _ _ _ HI)); [exact Hi|apply HB| |]. }
    destruct (include_finalized_waiting _ _ _ _ _ _ Hwf Hq Hi) as (_ & -> & ->). exists []. by rewrite app_nil_r. }
  destruct Hstep as [fuel vm_fuel n n' Hn|now n n' Hn|fuel vm_fuel now delay n n' Hn|fuel vm_fuel now n n' Hn|now n n' Hn|tx n n' Hn|n| | |].
  - apply on_schedule_same in Hn as (? & ? & _). by apply Hsame.
  - apply on_replay_same in Hn as (? & ? & _). by apply Hsame.
  - apply on_network_same in Hn as ([? _] & [?|(b & Hb & Hi)]); [by apply Hsame|by eapply Hinc].
  - apply on_produced_same in Hn as ([? _] & [?|(b & Hb & Hi)]); [by apply Hsame|by eapply Hinc].
  - apply on_chain_same in Hn as (ev & Hp & _ & Hq). split.
    { by eapply (poll_next_invariant B W HBW I (fi_steps _ _ _ HI)). }
    destruct (poll_next_awaited B W HBW I Q HI _ _ _ _ Hsn HIn Hp) as (more & Ha & Hl). exists more. split; [|done].
    unfold waiting. cbn. by rewrite Hq, <- !app_assoc, Ha.
  - apply send_net_same in Hn as (? & ? & _). by apply Hsame.
  - destruct (consume_one_chain n) as [Hc Hq]; unfold sound; rewrite Hc. split; [done|]. exists []. rewrite app_nil_r. split; [|done].
    unfold waiting. rewrite app_assoc, Hq. by rewrite (proj1 (consume_one_chain n)).
  - by apply Hsame.
  - by apply Hsame.
  - by apply Hsame.
Qed.

Lemma node_run_waiting n0 given n :
  node_run_from n0 given n → sound n0 → waiting n0 = [] →
  sound n ∧ finalizes (finalized (nd_chain n0)) (finalized_of given ++ waiting n) (finalized (nd_chain n)) ∧
    Forall Q (finalized_of given ++ waiting n).
Proof.
  intros Hrun HI0 Hw0. induction Hrun as [|given n1 x n2 Hrun (HIn & Hf & HQ) HB Hstep]; [rewrite Hw0; split_and!; [done|done|constructor]|].
  destruct (node_step_waiting _ _ _ Hstep HB HIn) as (HI' & more & Hm & Hl & HQ'). split; [done|].
  rewrite finalized_of_app, <- app_assoc, Hm, app_assoc. split; [|by apply Forall_app]. apply finalizes_app. by eexists.
Qed.
End invariant.

Lemma node_run_any n given n' : node_run n given n' → node_run_from (λ _, True) n given n'.
Proof. induction 1; econstructor; done. Qed.

(** Without anything said about the blocks. *)
Lemma node_step_finalizes n x n' :
  node_step n x n' → chain_wf (nd_chain n) →
  ∃ more, finalized_of (option_list x) ++ waiting n' = waiting n ++ more ∧ finalizes (finalized (nd_chain n)) more (finalized (nd_chain n')).
Proof.
  intros Hstep Hwf. destruct (node_step_waiting (λ _, True) (λ _, True) (λ _ _ _ _, Logic.I) _ _ wf_invariant _ _ _ Hstep) as (_ & more & ? & ? & _); [done|by split; [apply sourced_any|]|eauto].
Qed.

Lemma node_run_finalizes n0 given n :
  node_run n0 given n → chain_wf (nd_chain n0) → waiting n0 = [] →
  chain_wf (nd_chain n) ∧ finalizes (finalized (nd_chain n0)) (finalized_of given ++ waiting n) (finalized (nd_chain n)).
Proof.
  intros Hrun Hwf Hw. destruct (node_run_waiting (λ _, True) (λ _, True) (λ _ _ _ _, Logic.I) _ _ wf_invariant _ _ _ (node_run_any _ _ _ Hrun)) as ([_ ?] & ? & _); [by split; [apply sourced_any|]|done|done].
Qed.

(** ** What the store has *)

Lemma node_step_store n x n' :
  node_step n x n' → nd_store n' = match x with Some (e, c) => (store_consume e c (nd_store n)).1 | None => nd_store n end.
Proof.
  intros Hstep. destruct Hstep as [fuel vm_fuel n n' Hn|now n n' Hn|fuel vm_fuel now delay n n' Hn|fuel vm_fuel now n n' Hn|now n n' Hn|tx n n' Hn|n| | |];
    try done.
  - by apply on_schedule_same in Hn as (_ & _ & ?).
  - by apply on_replay_same in Hn as (_ & _ & ?).
  - by apply on_network_same in Hn as ([_ ?] & _).
  - by apply on_produced_same in Hn as ([_ ?] & _).
  - by apply on_chain_same in Hn as (ev & _ & ? & _).
  - by apply send_net_same in Hn as (_ & _ & ?).
  - unfold consume_one, receive. by destruct (nd_consumers n) as [|[e c] q].
Qed.

(** A block that the store can take: its height fits into the machine's
    integers, its transactions have results when these are recorded, and when it
    is confirmed it is not further ahead of finality than the history reaches. *)
Definition digestible (s : @BlockStore T) e (c : Commitment) : Prop :=
  0 < height (underlying e) ≤ u64_max ∧ (detailed s = true → accounted e) ∧ within_window s e c.

(** Runs in which the consumers were given such blocks only. *)
Inductive healthy_run n : list (Executed BlockType * Commitment) → Node → Prop :=
  | HealthyStart : healthy_run n [] n
  | HealthyStep given n1 (x : option (Executed BlockType * Commitment)) n2 :
      healthy_run n given n1 → node_step n1 x n2 → (∀ e c, x = Some (e, c) → digestible (nd_store n1) e c) →
      healthy_run n (given ++ option_list x) n2.

Lemma healthy_run_run n given n' : healthy_run n given n' → node_run n given n'.
Proof. induction 1; econstructor; done. Qed.

(** The store is at the block [b]. *)
Definition store_at g (s : @BlockStore T) (b : AnyBlock BlockType) : Prop := store_wf s ∧ latest_block g s = b.

Lemma store_at_height g s b : store_at g s b → latest_height s = any_height b.
Proof. intros [_ <-]. unfold latest_block, latest_height. by destruct (latest s Finalized_). Qed.

(** Taking a digestible block moves the store to it when it is finalized, which
    needs it to be the next one. *)
Lemma store_at_consume g s b e c :
  store_at g s b → digestible s e c → (c = Finalized_ → height (underlying e) = any_height b + 1) →
  store_at g (store_consume e c s).1 (if bool_decide (c = Finalized_) then ProducedBlock (underlying e) else b).
Proof.
  intros Hat (Hh & Hacc & Hw) Hnext. pose proof (store_at_height _ _ _ Hat) as Hl. destruct Hat as [Hwf Hb].
  pose proof (store_consume_cases s e c Hwf Hh Hacc) as Hcases. pose proof (store_wf_latest s Hwf) as Hlu.
  destruct c.
  - destruct (store_consume e Included s) as [s' r] eqn:E. unfold store_consume in E. rewrite bool_decide_true in E by done. by injection E as <- _.
  - destruct Hcases as [s' Hs']. rewrite Hs'. cbn [fst]. split; [by apply (store_consume_wf s e Confirmed)|].
    rewrite bool_decide_false by done. rewrite <- Hb. unfold latest_block. by rewrite (latest_after_confirmed s e s' Hwf Hh Hw Hs').
  - specialize (Hnext eq_refl). rewrite bool_decide_true in * by done.
    assert (wrap64 (latest_height s + 1) = latest_height s + 1) as Hwrap by (apply wrap64_id; unfold is_u64; lia).
    rewrite Hwrap, (proj2 (Z.eqb_eq _ _)) in Hcases by lia. destruct Hcases as [s' Hs']. rewrite Hs'. cbn [fst].
    split; [by apply (store_consume_wf s e Finalized_)|].
    destruct (latest_after_finalized s e s' Hwf Hh ltac:(lia) Hs') as [_ Hlat]. unfold latest_block. by rewrite Hlat.
Qed.

(** The store is where the blocks given to it end. *)
Lemma healthy_run_store g f n0 given n :
  healthy_run n0 given n → chain_wf (nd_chain n0) → waiting n0 = [] → finalized (nd_chain n0) = f → store_at g (nd_store n0) (fin_underlying f) →
  ∃ m, finalizes f (finalized_of given) m ∧ finalizes m (waiting n) (finalized (nd_chain n)) ∧ store_at g (nd_store n) (fin_underlying m).
Proof.
  intros Hrun Hwf0 Hw0 Hf0 Hat. induction Hrun as [|given n1 x n2 Hrun IH Hstep Hok].
  { exists f. rewrite Hw0. by rewrite Hf0. }
  destruct IH as (m & Hm & Hrest & Hat1). pose proof (node_run_finalizes _ _ _ (healthy_run_run _ _ _ Hrun) Hwf0 Hw0) as [Hwf1 _].
  destruct (node_step_finalizes _ _ _ Hstep Hwf1) as (more & Hq & Hl). pose proof (node_step_store _ _ _ Hstep) as Hs.
  assert (finalizes m (finalized_of (option_list x) ++ waiting n2) (finalized (nd_chain n2))) as Hall.
  { rewrite Hq. apply finalizes_app. by eexists. }
  apply finalizes_app in Hall as (m' & Hm' & Hrest'). exists m'. rewrite finalized_of_app. split_and!; [|done|].
  - apply finalizes_app. by exists m.
  - destruct x as [[e c]|]; cbn [option_list] in Hm'; rewrite Hs.
    + specialize (Hok e c eq_refl). pose proof (store_at_consume g (nd_store n1) (fin_underlying m) e c Hat1 Hok) as Hc.
      unfold finalized_of in Hm'. cbn in Hm'. case_bool_decide as Hfin; cbn in Hm'.
      * destruct Hm' as (f1 & Hap & Hh & <-). destruct (Finalized_apply_inv _ _ _ Hap) as (_ & -> & _). apply Hc. done.
      * subst m'. apply Hc. done.
    + cbn in Hm'. by subst.
Qed.

(** *** Start *)

Lemma node_start_inv now rng seed g keypair peers (storage : St) (store : @BlockStore T) n0 :
  node_start now rng seed g keypair peers storage store = Ok n0 →
  chain_wf (nd_chain n0) ∧ waiting n0 = [] ∧ finalized (nd_chain n0) = MkFinalized (latest_block g store) storage ∧ nd_store n0 = store.
Proof.
  unfold node_start. intros (k & _ & (vm & _ & (sch & _ & [= <-])%bind_ok)%bind_ok)%bind_ok.
  split_and!; try done. apply Chain_new_wf.
Qed.

Lemma node_start_chain now rng seed g keypair peers (storage : St) (store : @BlockStore T) n0 :
  node_start now rng seed g keypair peers storage store = Ok n0 → ∃ vm f, nd_chain n0 = Chain_new g vm f.
Proof. unfold node_start. intros (k & _ & (vm & _ & (sch & _ & [= <-])%bind_ok)%bind_ok)%bind_ok. by eexists _, _. Qed.

(** C28: the consumers of a node get every finalized block once and in order.
    From the latest finalized block that the store had when the node started, the
    blocks that were given to the consumers as finalized, then those on their way
    through the channel and the events, lead block by block to the block that
    the chain finalized last; each was applied to the state of the one before. *)
Theorem finalized_blocks_delivered_in_order now rng seed g keypair peers (storage : St) (store : @BlockStore T) n0 given n :
  node_start now rng seed g keypair peers storage store = Ok n0 → node_run n0 given n →
  finalizes (MkFinalized (latest_block g store) storage) (finalized_of given ++ waiting n) (finalized (nd_chain n)).
Proof.
  intros (Hwf & Hw & <- & _)%node_start_inv Hrun. by apply (node_run_finalizes n0 given n).
Qed.

(** C29: what a restart finds. As long as finality keeps up with the history of
    the store, no finalized block is refused, and the latest block in the store is
    the last one that the consumers got. The state on disk is not that block's:
    it is the state after the blocks on their way as well, because the chain
    applies a block when it finalizes it and the store learns of it later. A node
    that stops in between resumes from a block with the state of a later one. *)
Theorem restart_finds_older_block now rng seed g keypair peers (storage : St) (store : @BlockStore T) n0 given n :
  node_start now rng seed g keypair peers storage store = Ok n0 → store_wf store → healthy_run n0 given n →
  ∃ m, finalizes (MkFinalized (latest_block g store) storage) (finalized_of given) m ∧
    finalizes m (waiting n) (finalized (nd_chain n)) ∧
    store_wf (nd_store n) ∧ latest_block g (nd_store n) = fin_underlying m ∧
    any_height (latest_block g (nd_store n)) = finalized_height (nd_chain n) - Z.of_nat (length (waiting n)).
Proof.
  intros (Hwf & Hw & Hf & Hs)%node_start_inv Hst Hrun.
  destruct (healthy_run_store g _ n0 given n Hrun Hwf Hw Hf) as (m & Hm & Hrest & Hat & Hl).
  { by rewrite Hs. }
  exists m. split_and!; [done..|]. rewrite Hl. apply finalizes_height in Hrest. unfold finalized_height. lia.
Qed.

(** ** From a slot to the forest of every validator *)

(** A block that joins a forest, and that no orphan waits for, is included. *)
Lemma include_fresh fuel vm_fuel now (b : Produced BlockType) (c c1 : @Chain _ BlockType St) :
  acceptable b c = true → try_include vm_fuel b c = Done (Ok (Consumed, c1)) →
  im_get (block_hash b) (orphan_blocks (chain_orphans c)) = None →
  ∃ c', include (S fuel) vm_fuel now b c = Done c' ∧ forest_blocks c' = forest_blocks c1 ∧
    (events c' = events c1 ∨ ∃ ev, events c' = ev :: events c1) ∧ finalized_history c' = finalized_history c1.
Proof.
  intros Hacc Hinc Horph. cbn [include]. rewrite Hacc. cbn [negb]. rewrite Hinc. cbn [mbind outcome_bind].
  pose proof (vote_if_head_orphans (block_hash b) c1) as Ho. rewrite (try_include_orphans _ _ _ _ _ Hinc) in Ho.
  destruct (vote_if_head_core (block_hash b) c1) as (_ & _ & _ & Hf).
  unfold consume_blocks. rewrite Ho, Horph. cbn [fmap option_fmap option_map]. eexists. split; [reflexivity|]. split.
  { unfold forest_blocks. cbn. by rewrite Hf. }
  cbn [events set_orphans finalized_history]. unfold vote_if_head, commit_and_vote. repeat case_match; eauto.
Qed.

(** The block of a slot's leader reaches the forest of every validator. When
    its slot begins the leader makes a block on the head of its chain; polled, it
    includes the block and gossips it; and a validator that has the same head and
    receives the block includes it too, after executing it to the same state. *)
Theorem leader_block_included_everywhere vm_fuel v n n1 :
  pubkey v = keypair_public (nd_keypair n) → pr_keypair (nd_producer n) = nd_keypair n →
  on_slot vm_fuel v n = Done (Ok n1) →
  ∃ b, pending (nd_producer n1) = Some b ∧ parent b = any_hash (with_head (nd_chain n)).2 ∧ Produced_verify_signature b = true ∧
    ∀ (r : Node) fuel now,
      chain_wf (nd_chain r) → with_head (nd_chain r) = with_head (nd_chain n) → virtual_machine (nd_chain r) = nd_vm n →
      is_Some (eligible (nd_chain r) !! pubkey v) → 0 ≤ any_height (with_head (nd_chain n)).2 < u64_max →
      get_block_node (nd_chain r) (block_hash b) = None → im_get (block_hash b) (orphan_blocks (chain_orphans (nd_chain r))) = None →
      (∀ delay k, network_poll (nd_network r) = (Some (BlockReceived b), k) →
        ∃ e r', on_network (S fuel) vm_fuel now delay r = Done (Ok r') ∧ underlying e = b ∧
          forest_blocks (nd_chain r') ≡ₚ e :: forest_blocks (nd_chain r) ∧ BlockIncluded e ∈ events (nd_chain r')) ∧
      (nd_chain n1 = nd_chain r → swarm (nd_network n1) ≠ None →
        ∃ e n2, on_produced (S fuel) vm_fuel now n1 = Done (Ok n2) ∧ underlying e = b ∧
          forest_blocks (nd_chain n2) ≡ₚ e :: forest_blocks (nd_chain n1) ∧ BlockIncluded e ∈ events (nd_chain n2) ∧
          netout (nd_network n2) = netout (nd_network n1) ++ [GossipBlock b]).
Proof.
  intros Hv Hkey Hslot. unfold on_slot in Hslot. rewrite bool_decide_true in Hslot by done.
  destruct (with_head (nd_chain n)) as [st prev] eqn:Hhead. apply outcome_bind_done in Hslot as (p' & Hp & [= <-]).
  assert (∃ b, pending p' = Some b) as [b Hb].
  { unfold produce in Hp. destruct (take_votes _) as [vs mp]. destruct (take_transactions _ mp) as [txs mp'].
    apply outcome_bind_done in Hp as ([out|] & _ & Hp); [|done]. injection Hp as <-. by eexists. }
  destruct (produce_inv _ _ _ _ _ _ _ Hp Hb) as (Hpar & _ & _ & Hsig & _).
  exists b. split_and!; [done..|]. intros r fuel now Hwf Hr Hvm Hel Hh Hfresh Horph.
  destruct (produced_block_accepted vm_fuel (nd_chain r) (nd_producer n) p' b) as (Hacc & e & c1 & Hinc & He & Hforest & Hev);
    [done|by rewrite Hr|by rewrite Hkey, <- Hv|by rewrite Hr, Hvm|done|done|].
  destruct (include_fresh fuel vm_fuel now b (nd_chain r) c1 Hacc Hinc Horph) as (c' & Hi & Hf' & Hevs & _).
  assert (BlockIncluded e ∈ events c') as Hin.
  { assert (BlockIncluded e ∈ events c1) as Hin1 by (destruct (events c1); [done|injection Hev as ->; by left]).
    destruct Hevs as [->|[ev ->]]; [done|by right]. }
  split.
  - intros delay k Hpoll. unfold on_network. rewrite Hpoll. cbn [nd_chain set_responder set_network]. rewrite Hi. cbn.
    exists e. eexists. split_and!; [reflexivity|done| |exact Hin]. cbn. by rewrite Hf'.
  - cbn [nd_chain set_producer]. intros Heq Hsw. unfold on_produced, producer_poll_next. cbn [nd_producer set_producer]. rewrite Hb.
    cbn [nd_chain set_producer]. rewrite Heq, Hi. cbn. unfold send_net. cbn.
    unfold gossip_block, net_send. destruct (swarm (nd_network n)) eqn:Hs; [|done]. cbn.
    exists e. eexists. split_and!; [reflexivity|done| |exact Hin|done]. cbn. by rewrite Hf'.
Qed.
End node_props.
