(* ===== verification/NodeExample.v ===== *)
(** * A node to evaluate the model on

    A single validator that starts from an empty store, and an interpreter of
    the moves of its tasks: every sequence of moves that it plays is a run. *)
From S2P Require Import Prelude Primitives Text State Transaction Contract Currency Builtins Block Machine VmExample Execution Consumer Producer Sled BlockStore StoreExample BlockStoreProps Schedule ScheduleProps Episub NetExample Behaviour Network NetworkProps ForkTree Orphans Chain ChainProps ChainExample Finality ProducerProps Node NodeProps.
Import StoreExample VmExample NetExample ProducerExample.

Module NodeExample.
Abbreviation ToyNode := (@Node toy_crypto (gmap bytes bytes) (gmap bytes bytes) toy_weighted toy_libp2p toy_rand).
Abbreviation Given := (list (Executed (list Transaction) * Commitment)).

(** ** Moves *)

Inductive Move := SlotMove | ReplayMove | NetworkMove | ProducedMove | ChainMove | ConsumeMove
  | AnnounceMove (slot : Z) | DeliverMove (b : Produced (list (@Transaction toy_crypto))).

(** What the swarm task sees when the block arrives on its topic. *)
Definition arrival (b : Produced (list Transaction)) (e : Episub) : Outcome (option NetAction * Episub) :=
  Done (Some (GenerateEvent (EvMessage (topic_of "toy" "block") 0 (bincode_serialize b))), e).

Definition ran (o : Outcome (Result NodeError ToyNode)) : option ToyNode := match o with Done (Ok n) => Some n | _ => None end.

Definition move (m : Move) (n : ToyNode) : option (option (Executed (list Transaction) * Commitment) * ToyNode) :=
  match m with
  | SlotMove => (λ n, (None, n)) <$> ran (on_schedule 10 2 n)
  | ReplayMove => (λ n, (None, n)) <$> ran (on_replay 0 n)
  | NetworkMove => (λ n, (None, n)) <$> ran (on_network 10 2 0 0 n)
  | ProducedMove => (λ n, (None, n)) <$> ran (on_produced 10 2 0 n)
  | ChainMove => (λ n, (None, n)) <$> ran (on_chain 0 n)
  | ConsumeMove => Some (head (nd_consumers n), consume_one n)
  | AnnounceMove slot => Some (None, announce_slot slot n)
  | DeliverMove b => Some (None, set_network (net_swarm_event (arrival b) (nd_network n)) n)
  end.

Lemma ran_ok o n : ran o = Some n → o = Done (Ok n).
Proof. by destruct o as [[m|]| |]; intros [= ->]. Qed.

Lemma move_step m n x n' : move m n = Some (x, n') → node_step n x n'.
Proof.
  destruct m; cbn [move]; intros Hm;
    try (apply fmap_Some in Hm as (n1 & Hr%ran_ok & [= -> ->]); econstructor; exact Hr);
    injection Hm as <- <-; constructor.
Qed.

(** The blocks given to the consumers must suit a store without outputs. *)
Definition digestible_b (s : @BlockStore (gmap bytes bytes)) (e : Executed (list Transaction)) (c : Commitment) : bool :=
  (0 <? height (underlying e)) && (height (underlying e) <=? u64_max) && negb (detailed s) &&
  (negb (bool_decide (c = Confirmed)) || (latest_height s =? 0) || (height (underlying e) - history_len s <=? latest_height s)).

Lemma digestible_b_ok s e c : digestible_b s e c = true → digestible s e c.
Proof.
  unfold digestible_b, digestible, within_window. intros [[[H1%Z.ltb_lt H2%Z.leb_le]%andb_true_iff Hd%negb_true_iff]%andb_true_iff Hw]%andb_true_iff.
  split; [done|]. split; [by rewrite Hd|]. intros ->. rewrite bool_decide_true in Hw by done. cbn in Hw.
  apply orb_true_iff in Hw as [?%Z.eqb_eq|?%Z.leb_le]; [by left|by right].
Qed.

Fixpoint play (given : Given) (ms : list Move) (n : ToyNode) : option (Given * ToyNode) :=
  match ms with
  | [] => Some (given, n)
  | m :: ms =>
      '(x, n') ← move m n;
      if match x with Some (e, c) => digestible_b (nd_store n) e c | None => true end then play (given ++ option_list x) ms n' else None
  end.

Lemma play_healthy n0 given ms n given' n' :
  healthy_run n0 given n → play given ms n = Some (given', n') → healthy_run n0 given' n'.
Proof.
  revert given n. induction ms as [|m ms IH]; intros given n Hrun Hp; cbn [play] in Hp; [by injection Hp as <- <-|].
  destruct (move m n) as [[x n1]|] eqn:E; [|done]. apply move_step in E. cbn in Hp.
  destruct (match x with Some (e, c) => digestible_b (nd_store n) e c | None => true end) eqn:Hok; [|done].
  eapply IH; [|exact Hp]. econstructor; [exact Hrun|exact E|]. intros e c ->. by apply digestible_b_ok.
Qed.

(** ** A node and three blocks *)

Definition rngs : string → @ThreadRng toy_rand := λ _, 0%nat.
Definition start : Result NodeError ToyNode :=
  node_start 0 rngs (array32_of_Z 5) tx_genesis (toy_key 3) [] (∅ : gmap bytes bytes) (empty_store false 5).
Definition idle : ToyNode :=
  MkNode (toy_key 3) toy_vm tx_chain tx_producer (empty_store false 5) [] (Stream_new (MkSchedule 0 [] tx_genesis))
    (Responder_new 0 0) (MkNetwork [] [] "toy" None).
Definition n0 : ToyNode := match start with Ok n => n | Err _ => idle end.

Definition child (h : Z) (p : Multihash) (voted : list Multihash) : Produced (list Transaction) :=
  Produced_new (toy_key 3) h p [] (block_output_hash no_output) ((λ t, Vote_new (toy_key 3) t (genesis_hash tx_genesis)) <$> voted).
Definition b1 := child 1 (genesis_hash tx_genesis) [].
Definition b2 := child 2 (block_hash b1) [block_hash b1].
Definition b3 := child 3 (block_hash b2) [block_hash b2].

(** The blocks arrive one after the other; the chain's events are handled, and
    the consumers are a few blocks late. *)
Definition arrive (b : Produced (list Transaction)) : list Move := [DeliverMove b; NetworkMove].
Definition moves : list Move :=
  arrive b1 ++ arrive b2 ++ arrive b3 ++ replicate 12 ChainMove ++ [ConsumeMove; ConsumeMove].
Definition result : Given * ToyNode := default ([], n0) (play [] moves n0).
Definition given : Given := result.1.
Definition n1 : ToyNode := result.2.

Lemma play_default ms : is_some (play [] ms n0) = true → play [] ms n0 = Some (default ([], n0) (play [] ms n0)).
Proof. apply is_some_default. Qed.

Lemma start_ok : start = Ok n0.
Proof.
  unfold n0. assert (is_ok start = true) as Hok by by vm_compute. destruct start as [n|e]; [done|discriminate].
Qed.

Lemma run_n1 : healthy_run n0 given n1.
Proof.
  apply (play_healthy n0 [] moves n0); [constructor|]. rewrite (play_default moves) by by vm_compute.
  unfold given, n1, result. by destruct (default _ _).
Qed.

Lemma n1_waiting : length (waiting n1) = 1%nat.
Proof. by vm_compute. Qed.
Lemma n1_height : finalized_height (nd_chain n1) = 1.
Proof. by vm_compute. Qed.

(** The node leads a slot; a second one with the same chain gets its block. *)
Definition lead : Validator := MkValidator (keypair_public (toy_key 3)) 10.
Definition leads : ToyNode := default n0 (ran (on_slot 2 lead n0)).
Definition leads_block : Produced (list Transaction) := default b1 (pending (nd_producer leads)).
Definition hears : ToyNode := set_network (net_swarm_event (arrival leads_block) (nd_network n0)) n0.

Lemma leads_ok : on_slot 2 lead n0 = Done (Ok leads).
Proof. apply ran_ok. unfold leads. apply is_some_default. by vm_compute. Qed.

Lemma lead_eligible : is_Some (eligible (nd_chain n0) !! pubkey lead).
Proof. exists 10. by vm_compute. Qed.

Lemma arrival_polled b k e :
  swarm k = Some e → netin k = [] → net_chainid k = "toy" → network_poll (net_swarm_event (arrival b) k) = (Some (BlockReceived b), k).
Proof.
  destruct k as [i o c w]. cbn. intros -> -> ->. unfold net_swarm_event, arrival, network_poll. cbn [swarm netin netout net_chainid].
  assert (dispatch "toy" (EvMessage (topic_of "toy" "block") 0 (bincode_serialize b)) = Some (BlockReceived b)) as ->; [|done].
  unfold dispatch. rewrite !topic_eqb, bool_decide_false, bool_decide_true, bincode_roundtrip by done. done.
Qed.
End NodeExample.
Import NodeExample.

(** ** Witnesses *)

(** One block is finalized and on its way, two reports were consumed. *)
Lemma finalized_blocks_delivered_in_order_witness :
  finalizes (MkFinalized (latest_block tx_genesis (empty_store false 5)) ∅) (finalized_of given ++ waiting n1) (finalized (nd_chain n1)) ∧
  length (finalized_of given ++ waiting n1) = 1%nat.
Proof.
  split; [|by vm_compute].
  apply (finalized_blocks_delivered_in_order 0 rngs (array32_of_Z 5) tx_genesis (toy_key 3) [] ∅ (empty_store false 5) n0 given n1).
  - exact start_ok.
  - apply healthy_run_run, run_n1.
Defined.

(** The chain is at the first block and the store still at the genesis block. *)
Lemma restart_finds_older_block_witness :
  store_wf (nd_store n1) ∧ any_height (latest_block tx_genesis (nd_store n1)) = finalized_height (nd_chain n1) - 1 ∧ finalized_height (nd_chain n1) = 1.
Proof.
  destruct (restart_finds_older_block 0 rngs (array32_of_Z 5) tx_genesis (toy_key 3) [] ∅ (empty_store false 5) n0 given n1) as (m & _ & _ & Hwf & _ & Hh).
  - exact start_ok.
  - apply empty_store_wf. lia.
  - exact run_n1.
  - rewrite n1_waiting in Hh. split; [exact Hwf|]. split; [exact Hh|exact n1_height].
Defined.

Lemma leader_block_included_everywhere_witness :
  ∃ e r', on_network 10 2 0 0 hears = Done (Ok r') ∧ underlying e = leads_block ∧ BlockIncluded e ∈ events (nd_chain r').
Proof.
  destruct (leader_block_included_everywhere 2 lead n0 leads) as (b & Hb & _ & _ & Hr).
  - reflexivity.
  - reflexivity.
  - exact leads_ok.
  - assert (leads_block = b) as <- by (unfold leads_block; rewrite Hb; reflexivity).
    destruct (Hr hears 9%nat 0) as [Hnet _].
    + destruct (node_start_inv _ _ _ _ _ _ _ _ _ start_ok) as (Hwf & _). exact Hwf.
    + reflexivity.
    + reflexivity.
    + exact lead_eligible.
    + apply (bool_decide_unpack _). by vm_compute.
    + apply is_some_none. by vm_compute.
    + apply is_some_none. by vm_compute.
    + destruct (Hnet 0 (nd_network n0)) as (e & r' & H1 & H2 & _ & H3).
      * apply (arrival_polled leads_block (nd_network n0) (Swarm_new 0 rngs tx_genesis)); reflexivity.
      * exists e, r'. split; [exact H1|]. split; [exact H2|exact H3].
Defined.
