(* ===== verification/NodeVotes.v ===== *)
(** * The way of a vote into a block

    A vote that a validator casts is gossiped; a node that receives it keeps it
    in the mempool until one of its blocks takes it along, or a block that was
    included has it. *)
From S2P Require Import Prelude Primitives Text State Transaction Contract Currency Builtins Block Machine VmExample Execution Consumer Producer Sled BlockStore StoreExample BlockStoreProps ForkTree Orphans Chain ChainProps Finality ProducerProps Schedule ScheduleProps Episub NetExample Behaviour Network NetworkProps Node NodeProps ChainExample NodeExample.

Section node_votes.
Context `{Crypto} `{WasmRuntime} `{BuiltinAddresses} `{!BlockData (list Transaction)}.
Context {St : Type} `{StateStore St} {T : Type} `{SledTree T}.
Context `{WeightedRng} `{!TextForms} `{Libp2p} `{!NetPrimitives} `{Zstd} `{Rand}.
Context `{!Bincode Vote} `{!Bincode (Produced (list Transaction))} `{!Bincode Transaction}.
Context `{!Bincode StoredOutputs} `{!Bincode ExecutedTransaction}.
Context `{!Borsh BytecodeAccount} `{!Borsh WasmInstruction} `{!CryptoLaws}.
Abbreviation BlockType := (list Transaction).
Abbreviation Node := (@Node _ St T _ _ _).
Implicit Types (n r : Node) (e : Executed BlockType) (p : BlockProducer) (vote v : Vote).

(** ** What a step of the node does to its producer *)

Inductive producer_step (x : option (Executed BlockType * Commitment)) p : BlockProducer → Prop :=
  | StaysAs : producer_step x p p
  | Produces fuel (st : View) prev vm p' : produce fuel st prev vm p = Done p' → producer_step x p p'
  | RecordsVote v : producer_step x p (record_vote v p)
  | RecordsTransaction tx : producer_step x p (record_transaction tx p)
  | Reuses b : producer_step x p (reuse_discarded b p)
  | HandsOut : producer_step x p (producer_poll_next p).2
  | Consumes e c : x = Some (e, c) → producer_step x p (producer_consume p e c).

Lemma send_net_producer f n n' : send_net f n = Done (Ok n') → nd_producer n' = nd_producer n.
Proof. unfold send_net. destruct (f (nd_network n)); cbn; [|done]. by intros [= <-]. Qed.

Lemma on_schedule_producer fuel vm_fuel n n' : on_schedule fuel vm_fuel n = Done (Ok n') → producer_step None (nd_producer n) (nd_producer n').
Proof.
  intros ([[[slot v]|] s] & _ & Hr)%outcome_bind_done; cbn in Hr; [|injection Hr as <-; constructor].
  unfold on_slot in Hr. case_bool_decide; [|injection Hr as <-; constructor].
  destruct (with_head _) as [st b]. apply outcome_bind_done in Hr as (p & Hp & Hr). injection Hr as <-. by eapply Produces.
Qed.

Lemma on_replay_producer now n n' : on_replay now n = Done (Ok n') → nd_producer n' = nd_producer n.
Proof.
  unfold on_replay. destruct (responder_poll now (nd_responder n)) as [[hash|] r]; [|by intros [= <-]].
  intros ([b|] & _ & Hr)%outcome_bind_done; [|by injection Hr as <-]. by apply send_net_producer in Hr.
Qed.

Lemma on_network_producer fuel vm_fuel now delay n n' :
  on_network fuel vm_fuel now delay n = Done (Ok n') → producer_step None (nd_producer n) (nd_producer n').
Proof.
  unfold on_network. destruct (network_poll (nd_network n)) as [[[hash|b|v|tx]|] k]; [| | | |intros [= <-]; constructor].
  - intros (r & _ & [= <-])%outcome_bind_done. constructor.
  - intros (c & _ & [= <-])%outcome_bind_done. constructor.
  - intros [= <-]. apply RecordsVote.
  - intros [= <-]. apply RecordsTransaction.
Qed.

Lemma on_produced_producer fuel vm_fuel now n n' :
  on_produced fuel vm_fuel now n = Done (Ok n') → producer_step None (nd_producer n) (nd_producer n').
Proof.
  unfold on_produced. destruct (producer_poll_next (nd_producer n)) as [b p] eqn:Hp. replace p with (producer_poll_next (nd_producer n)).2 by by rewrite Hp.
  destruct b; [|intros [= <-]; apply HandsOut].
  intros (c & _ & Hn)%outcome_bind_done. apply send_net_producer in Hn as ->. apply HandsOut.
Qed.

Lemma on_chain_producer now n n' : on_chain now n = Done (Ok n') → producer_step None (nd_producer n) (nd_producer n').
Proof.
  intros ([ev c] & _ & Hn)%outcome_bind_done. cbn in Hn. destruct ev as [ev|]; [|injection Hn as <-; constructor].
  destruct ev; cbn in Hn; try (apply send_net_producer in Hn as ->; constructor); injection Hn as <-; try constructor.
Qed.

Lemma node_step_producer n x n' : node_step n x n' → producer_step x (nd_producer n) (nd_producer n').
Proof.
  intros Hstep. destruct Hstep as [fuel vm_fuel n n' Hn|now n n' Hn|fuel vm_fuel now delay n n' Hn|fuel vm_fuel now n n' Hn|now n n' Hn|tx n n' Hn|n| | |]; try constructor.
  - by eapply on_schedule_producer.
  - apply on_replay_producer in Hn as ->. constructor.
  - by eapply on_network_producer.
  - by eapply on_produced_producer.
  - by eapply on_chain_producer.
  - apply send_net_producer in Hn as ->. constructor.
  - unfold consume_one, receive. destruct (nd_consumers n) as [|[e c] q]; [constructor|]. by apply Consumes.
Qed.

(** ** The place of a vote in the mempool *)

(** The vote that the mempool keeps under a signature. *)
Definition kept p (sig : bytes) : option Vote := im_get sig (mp_votes (mempool p)).

(** The key of a vote in the mempool. *)
Definition vote_key v : bytes := sig_to_bytes (vote_signature v).

Lemma im_get_remove_ne {K V} `{EqDecision K} (k k' : K) (m : list (K * V)) : k' ≠ k → im_get k' (im_remove k m) = im_get k' m.
Proof.
  intros Hne. unfold im_remove. induction m as [|[k0 v0] m IH]; [done|]. rewrite filter_cons. cbn [fst im_get].
  case_decide as Hk; cbn [im_get]; [by rewrite IH|]. subst k0. by rewrite IH, bool_decide_false.
Qed.

Lemma record_vote_validators v p : mp_validators (mempool (record_vote v p)) = mp_validators (mempool p).
Proof. unfold record_vote, mp_add_vote. by case_bool_decide. Qed.

Lemma record_transaction_votes tx p :
  mp_validators (mempool (record_transaction tx p)) = mp_validators (mempool p) ∧ mp_votes (mempool (record_transaction tx p)) = mp_votes (mempool p).
Proof. unfold record_transaction, add_transaction. by repeat case_match. Qed.

Lemma record_vote_kept v p sig : is_Some (kept p sig) → is_Some (kept (record_vote v p) sig).
Proof.
  unfold kept, record_vote, mp_add_vote. case_bool_decide; [|done]. cbn [mempool set_mempool mp_votes].
  destruct (decide (vote_key v = sig)) as [<-|Hne]; [rewrite im_get_insert_eq; eauto|by rewrite im_get_insert_ne].
Qed.

Lemma record_vote_keeps v p : validator v ∈ mp_validators (mempool p) → kept (record_vote v p) (vote_key v) = Some v.
Proof. intros Hv. unfold kept, record_vote, mp_add_vote. rewrite bool_decide_true by done. apply im_get_insert_eq. Qed.

(** What holds of a producer and is preserved by recording. *)
Lemma reuse_discarded_ind (P : BlockProducer → Prop) b p :
  (∀ v p, P p → P (record_vote v p)) → (∀ tx p, P p → P (record_transaction tx p)) → P p → P (reuse_discarded b p).
Proof.
  intros Hv Htx HP. unfold reuse_discarded. assert (P (foldl (λ p v, record_vote v p) p (votes b))) as HP'.
  { revert p HP. induction (votes b) as [|v vs IH]; intros p HP; [done|]. cbn [foldl]. by apply IH, Hv. }
  revert HP'. generalize (foldl (λ p v, record_vote v p) p (votes b)). induction (block_data b) as [|tx txs IH]; intros p' HP'; [done|].
  cbn [foldl]. by apply IH, Htx.
Qed.

Lemma consume_votes_kept (m : list (bytes * Vote)) vs sig :
  sig ∉ (vote_key <$> vs) → im_get sig (foldl (λ m v, im_remove (sig_to_bytes (vote_signature v)) m) m vs) = im_get sig m.
Proof.
  revert m. induction vs as [|v vs IH]; intros m; [done|]. cbn [fmap list_fmap foldl].
  intros [Hne Hvs]%not_elem_of_cons. rewrite IH by done. by apply im_get_remove_ne.
Qed.

Lemma produce_takes fuel (st : View) prev vm p p' :
  produce fuel st prev vm p = Done p' →
  ∃ b, pending p' = Some b ∧ votes b = (mp_votes (mempool p)).*2 ∧ mp_validators (mempool p') = mp_validators (mempool p).
Proof.
  unfold produce. cbn [take_votes fst snd]. destruct (take_transactions _ _) as [txs mp2] eqn:Ht.
  intros ([out|] & _ & Hp)%outcome_bind_done; [|done]. injection Hp as <-.
  unfold take_transactions in Ht. injection Ht as <- <-. eexists. split; [reflexivity|]. split; [done|done].
Qed.

Lemma producer_step_validators x p p' : producer_step x p p' → mp_validators (mempool p') = mp_validators (mempool p).
Proof.
  intros [|fuel st prev vm p1 Hp|v|tx|b| |e c _]; try done.
  - by apply produce_takes in Hp as (b & _ & _ & ->).
  - apply record_vote_validators.
  - by destruct (record_transaction_votes tx p).
  - apply (reuse_discarded_ind (λ q, mp_validators (mempool q) = mp_validators (mempool p))); [| |done].
    + intros v q <-. apply record_vote_validators.
    + intros tx q <-. by destruct (record_transaction_votes tx q).
  - unfold producer_consume. by destruct c.
Qed.

(** A step takes nothing away but into a block of the node, or because of a
    block that was included. *)
Lemma producer_step_kept x p p' sig :
  producer_step x p p' → is_Some (kept p sig) →
  is_Some (kept p' sig) ∨
  (∃ b, pending p' = Some b ∧ votes b = (mp_votes (mempool p)).*2) ∨
  (∃ e v, x = Some (e, Included) ∧ v ∈ votes (underlying e) ∧ vote_key v = sig).
Proof.
  intros [|fuel st prev vm p1 Hp|v|tx|b| |e c Hx] Hk; [by left| |left..|].
  - right. left. apply produce_takes in Hp as (b & Hb & Hvs & _). eauto.
  - by apply record_vote_kept.
  - unfold kept. by destruct (record_transaction_votes tx p) as [_ ->].
  - apply (reuse_discarded_ind (λ q, is_Some (kept q sig))); [| |done]; [intros v q; apply record_vote_kept|].
    intros tx q. unfold kept. by destruct (record_transaction_votes tx q) as [_ ->].
  - exact Hk.
  - destruct (decide (sig ∈ (vote_key <$> votes (underlying e)))) as [(v & -> & Hv)%list_elem_of_fmap|Hno].
    + destruct c; [right; right; eauto|by left..].
    + left. unfold producer_consume. destruct c; [|done..]. unfold kept. cbn [mempool set_mempool mp_votes]. by rewrite consume_votes_kept.
Qed.

(** ** Theorem *)

Lemma node_run_validators n given n' : node_run n given n' → mp_validators (mempool (nd_producer n')) = mp_validators (mempool (nd_producer n)).
Proof.
  induction 1 as [|given n1 x n2 _ IH Hstep]; [done|]. by rewrite (producer_step_validators x _ _ (node_step_producer _ _ _ Hstep)).
Qed.

Lemma node_start_validators now rng seed g keypair peers (storage : St) (store : @BlockStore T) n :
  node_start now rng seed g keypair peers storage store = Ok n → mp_validators (mempool (nd_producer n)) = list_to_set (pubkey <$> validators g).
Proof.
  unfold node_start. destruct (connect_all _ _) as [k|]; [|done]. destruct (Machine_new _ _) as [vm|]; [|done].
  destruct (Schedule_new _ _) as [s|]; [|done]. cbn. by intros [= <-].
Qed.

(** What became of a vote that a node had when the run began. *)
Inductive vote_fate v n (given : list (Executed BlockType * Commitment)) n' : Prop :=
  | Waits : kept (nd_producer n') (vote_key v) = Some v → vote_fate v n given n'
  | TakenAlong n1 given1 given2 b :
      node_run n given1 n1 → node_run n1 given2 n' → pending (nd_producer n1) = Some b → v ∈ votes b → vote_fate v n given n'
  | SeenIncluded e w : (e, Included) ∈ given → w ∈ votes (underlying e) → vote_key w = vote_key v → vote_fate v n given n'
  | Replaced n1 given1 given2 w :
      node_run n given1 n1 → node_run n1 given2 n' → kept (nd_producer n1) (vote_key v) = Some w → w ≠ v → vote_fate v n given n'.

Lemma vote_fate_run v n given n' :
  node_run n given n' → kept (nd_producer n) (vote_key v) = Some v → vote_fate v n given n'.
Proof.
  intros Hrun Hk. induction Hrun as [|given n1 x n2 Hrun IH Hstep]; [by apply Waits|].
  destruct IH as [Hw|n0 given1 given2 b Hr1 Hr2 Hb Hv|e w He Hw Hs|n0 given1 given2 w Hr1 Hr2 Hw Hne].
  - pose proof (RunStep n given n1 x n2 Hrun Hstep) as Hrun2. apply node_step_producer in Hstep.
    destruct (producer_step_kept x _ _ (vote_key v) Hstep) as [[w Hw']|[(b & Hb & Hvs)|(e & w & -> & Hwv & Hs)]]; [eauto|..].
    + destruct (decide (w = v)) as [->|Hne]; [by apply Waits|].
      eapply Replaced; [exact Hrun2|apply RunStart|exact Hw'|exact Hne].
    + eapply TakenAlong; [exact Hrun2|apply RunStart|exact Hb|]. rewrite Hvs. apply im_get_elem_of in Hw.
      apply list_elem_of_fmap. by exists (vote_key v, v).
    + eapply SeenIncluded; [|exact Hwv|exact Hs]. apply elem_of_app. right. by left.
  - eapply TakenAlong; [exact Hr1|by eapply RunStep|done|done].
  - eapply SeenIncluded; [|done|done]. apply elem_of_app. by left.
  - eapply Replaced; [exact Hr1|by eapply RunStep|done|done].
Qed.


(** The signature alone names the place of a vote, and nobody checks it: whoever copies it onto
    a vote for something else puts the vote of a validator out of the mempool. *)
Theorem copied_signature_replaces_vote vote other p :
  kept p (vote_key vote) = Some vote → validator other ∈ mp_validators (mempool p) → vote_signature other = vote_signature vote →
  kept (record_vote other p) (vote_key vote) = Some other.
Proof.
  intros _ Hv Hs. replace (vote_key vote) with (vote_key other) by (unfold vote_key; by rewrite Hs). by apply record_vote_keeps.
Qed.
End node_votes.

(** ** Witness *)

Import StoreExample VmExample NetExample ProducerExample NodeExample.

(** A node whose chain has a vote to cast for the first block, and one that the
    vote has reached. *)
Definition casting : ToyNode := (default ([], n0) (play [] (arrive b1 ++ [ChainMove]) n0)).2.
Definition cast : ToyNode := default n0 (ran (on_chain 0 casting)).
Definition ballot : Vote := Vote_new (toy_key 3) (block_hash b1) (genesis_hash tx_genesis).
Definition ballot_arrives (e : Episub) : Outcome (option NetAction * Episub) :=
  Done (Some (GenerateEvent (EvMessage (topic_of "toy" "vote") 0 (bincode_serialize ballot))), e).
Definition polled : ToyNode := set_network (net_swarm_event ballot_arrives (nd_network n0)) n0.

Lemma cast_ok : on_chain 0 casting = Done (Ok cast).
Proof. apply ran_ok. unfold cast. apply is_some_default. by vm_compute. Qed.

Definition casts {A} (t j : Multihash) (o : Outcome (option (@ChainEvent toy_crypto (list Transaction)) * A)) : bool :=
  match o with Done (Some (VoteCast t' j'), _) => bool_decide (t' = t ∧ j' = j) | _ => false end.

Lemma casts_eq {A} t j (o : Outcome (option ChainEvent * A)) : casts t j o = true → ∃ c, o = Done (Some (VoteCast t j), c).
Proof. destruct o as [[[[]|] c]| |]; try done. cbn. intros [-> ->]%bool_decide_eq_true. by eexists. Qed.

Lemma ballot_polled k e :
  swarm k = Some e → netin k = [] → net_chainid k = "toy" → network_poll (net_swarm_event ballot_arrives k) = (Some (VoteReceived ballot), k).
Proof.
  destruct k as [i o c w]. cbn. intros -> -> ->. unfold net_swarm_event, ballot_arrives, network_poll. cbn [swarm netin netout net_chainid].
  assert (dispatch "toy" (EvMessage (topic_of "toy" "vote") 0 (bincode_serialize ballot)) = Some (VoteReceived ballot)) as ->; [|done].
  unfold dispatch. rewrite !topic_eqb, bool_decide_true, bincode_roundtrip by done. done.
Qed.

