(* ===== verification/SlotFinality.v ===== *)
(** * From the votes in a leader's mempool to finality

    A leader whose mempool holds the votes of a quorum for the head produces a
    block; a node that receives it includes it, counts the votes and finalizes. *)
From S2P Require Import Prelude Primitives Text State Transaction Contract Currency Builtins Block Machine VmExample Execution Consumer Producer Sled BlockStore StoreExample BlockStoreProps ForkTree ForkTreeProps Orphans Chain ChainProps ChainSafety Sources Liveness Finality ProducerProps Schedule ScheduleProps Episub NetExample Behaviour Network NetworkProps Node NodeProps ChainExample NodeExample NodeVotes.

Section slot.
Context `{Crypto} `{WasmRuntime} `{BuiltinAddresses} `{!BlockData (list Transaction)}.
Context {St : Type} `{StateStore St} {T : Type} `{SledTree T} `{!SledTreeLaws T}.
Context `{WeightedRng} `{!TextForms} `{Libp2p} `{!NetPrimitives} `{Zstd} `{Rand}.
Context `{!Bincode Vote} `{!Bincode (Produced (list Transaction))} `{!Bincode Transaction}.
Context `{!Bincode StoredOutputs} `{!Bincode ExecutedTransaction}.
Context `{!Borsh BytecodeAccount} `{!Borsh WasmInstruction}.
Context `{!CryptoLaws} `{!BincodeLaws (Produced (list Transaction))} `{!BincodeLaws StoredOutputs} `{!BincodeLaws ExecutedTransaction}.
Abbreviation BlockType := (list Transaction).
Abbreviation Node := (@Node _ St T _ _ _).
Abbreviation NodeChain := (@Chain _ BlockType St).
Implicit Types (n r : Node) (c : NodeChain) (e : Executed BlockType) (b : Produced BlockType) (X : gset Pubkey).

(** A validator whose chain has nothing to report, and does not know the block. *)
Definition idle_for b c : Prop :=
  events c = [] ∧ get_block_node c (block_hash b) = None ∧ im_get (block_hash b) (orphan_blocks (chain_orphans c)) = None.

Lemma try_include_event vm_fuel b c c1 e :
  try_include vm_fuel b c = Done (Ok (Consumed, c1)) → head (events c1) = Some (BlockIncluded e) → events c = [] →
  events c1 = [BlockIncluded e] ∧ finalized_history c1 = finalized_history c.
Proof.
  intros Hinc Hev Hnone. unfold try_include in Hinc. destruct (get_block_node c (block_hash b)); [injection Hinc as <-; by rewrite Hnone in Hev|].
  case_bool_decide.
  - destruct (negb _); [done|]. apply try_bind_ok in Hinc as (e' & _ & Hok). apply (inj Done) in Hok. injection Hok as <-.
    cbn in Hev |- *. rewrite Hnone. by injection Hev as ->.
  - destruct (find_root (parent b) (forktrees c)) as [[k p]|]; [|done]. destruct (negb _); [done|].
    apply try_bind_ok in Hinc as (e' & _ & Hok). case_bool_decide; [done|]. apply (inj Done) in Hok. injection Hok as <-.
    cbn in Hev |- *. rewrite Hnone. by injection Hev as ->.
Qed.

Lemma in_finalized_history_eq c c' hash :
  genesis c' = genesis c → finalized c' = finalized c → finalized_history c' = finalized_history c →
  in_finalized_history c' hash = in_finalized_history c hash.
Proof. unfold in_finalized_history, finalized_hash. by intros -> -> ->. Qed.

(** The block of a leader, as an idle validator with the same head takes it. *)
Lemma slot_block_included vm_fuel fuel now p p' b c :
  chain_wf c → 0 ≤ any_height (with_head c).2 < u64_max → is_Some (eligible c !! keypair_public (pr_keypair p)) →
  produce vm_fuel (with_head c).1 (with_head c).2 (virtual_machine c) p = Done p' → pending p' = Some b → idle_for b c →
  ∃ e c', include (S fuel) vm_fuel now b c = Done c' ∧ underlying e = b ∧ forest_blocks c' ≡ₚ e :: forest_blocks c ∧
    last (events c') = Some (BlockIncluded e) ∧ finalized_history c' = finalized_history c.
Proof.
  intros Hwf Hh Hel Hp Hb (Hnone & Hnew & Horph).
  destruct (produced_block_accepted vm_fuel c p p' b Hwf Hh Hel Hp Hb Hnew) as (Hacc & e & c1 & Hinc & He & Hforest & Hev).
  destruct (try_include_event _ _ _ _ _ Hinc Hev Hnone) as [Hevs Hhist].
  destruct (include_fresh fuel vm_fuel now b c c1 Hacc Hinc Horph) as (c' & Hi & Hf' & Hev' & Hhist').
  exists e, c'. split_and!; [done|done|by rewrite Hf'| |by rewrite Hhist'].
  destruct Hev' as [->|[ev ->]]; by rewrite Hevs.
Qed.

End slot.

(** ** Runs of a node's chain *)

Section runs.
Context `{Crypto} `{WasmRuntime} `{BuiltinAddresses} `{!BlockData (list Transaction)}.
Context {St : Type} `{StateStore St} {T : Type} `{SledTree T} `{!SledTreeLaws T}.
Context `{WeightedRng} `{!TextForms} `{Libp2p} `{!NetPrimitives} `{Zstd} `{Rand}.
Context `{!Bincode Vote} `{!Bincode (Produced (list Transaction))} `{!Bincode Transaction}.
Context `{!Bincode StoredOutputs} `{!Bincode ExecutedTransaction}.
Context `{!Borsh BytecodeAccount} `{!Borsh WasmInstruction}.
Abbreviation Node := (@Node _ St T _ _ _).
Implicit Types (n : Node).

Lemma node_step_chain n x n' :
  node_step n x n' → (nd_chain n' = nd_chain n ∨ chain_step (nd_chain n) (nd_chain n')).
Proof.
  intros Hstep. destruct Hstep as [fuel vm_fuel n n' Hn|now n n' Hn|fuel vm_fuel now delay n n' Hn|fuel vm_fuel now n n' Hn|now n n' Hn|tx n n' Hn|n| | |];
    try by left.
  - left. by apply on_schedule_same in Hn as (? & _).
  - left. by apply on_replay_same in Hn as (? & _).
  - apply on_network_same in Hn as (_ & [?|(b & _ & Hi)]); [by left|right; by eapply StepInclude].
  - apply on_produced_same in Hn as (_ & [?|(b & _ & Hi)]); [by left|right; by eapply StepInclude].
  - apply on_chain_same in Hn as (ev & Hp & _). right. by eapply ChainProps.StepPoll.
  - left. by apply send_net_same in Hn as (? & _).
  - left. apply consume_one_chain.
Qed.

Lemma node_step_vm n x n' : node_step n x n' → nd_vm n' = nd_vm n.
Proof.
  assert (∀ f n n', send_net f n = Done (Ok n') → nd_vm n' = nd_vm n) as Hsend.
  { intros f m m'. unfold send_net. destruct (f (nd_network m)); cbn; [|done]. by intros [= <-]. }
  intros Hstep. destruct Hstep as [fuel vm_fuel n n' Hn|now n n' Hn|fuel vm_fuel now delay n n' Hn|fuel vm_fuel now n n' Hn|now n n' Hn|tx n n' Hn|n| | |]; try done.
  - apply outcome_bind_done in Hn as ([[[slot v]|] s] & _ & Hr); cbn in Hr; [|by injection Hr as <-].
    unfold on_slot in Hr. case_bool_decide; [|by injection Hr as <-].
    destruct (with_head _) as [st b]. apply outcome_bind_done in Hr as (p & _ & Hr). by injection Hr as <-.
  - unfold on_replay in Hn. destruct (responder_poll now (nd_responder n)) as [[hash|] r]; [|by injection Hn as <-].
    apply outcome_bind_done in Hn as ([b|] & _ & Hr); [by apply Hsend in Hr|by injection Hr as <-].
  - unfold on_network in Hn. destruct (network_poll (nd_network n)) as [[[hash|b|v|tx]|] k]; try (by injection Hn as <-);
      apply outcome_bind_done in Hn as (? & _ & Hr); by injection Hr as <-.
  - unfold on_produced in Hn. destruct (producer_poll_next (nd_producer n)) as [[b|] p]; [|by injection Hn as <-].
    apply outcome_bind_done in Hn as (c & _ & Hn). by apply Hsend in Hn.
  - apply outcome_bind_done in Hn as ([ev c] & _ & Hn). cbn in Hn. destruct ev as [ev|]; [|by injection Hn as <-].
    destruct ev; cbn in Hn; first [by apply Hsend in Hn|by injection Hn as <-].
  - by apply Hsend in Hn.
  - unfold consume_one, receive. by destruct (nd_consumers n) as [|[e c] q].
Qed.

(** The chain of a node runs by its own steps, on the machine of the node. *)
Lemma node_run_chain n given n' :
  node_run n given n' → virtual_machine (nd_chain n) = nd_vm n →
  rtc chain_step (nd_chain n) (nd_chain n') ∧ virtual_machine (nd_chain n') = nd_vm n'.
Proof.
  intros Hrun Hvm. induction Hrun as [|given n1 x n2 Hrun [Hc Hv] Hstep]; [done|]. rewrite (node_step_vm _ _ _ Hstep), <-Hv.
  destruct (node_step_chain _ _ _ Hstep) as [Heq|Hs]; [by rewrite Heq|]. split; [by eapply rtc_r|by apply chain_step_machine].
Qed.

Lemma node_start_machine now rng seed g keypair peers (storage : St) (store : @BlockStore T) n :
  node_start now rng seed g keypair peers storage store = Ok n → virtual_machine (nd_chain n) = nd_vm n.
Proof. unfold node_start. by intros (k & _ & (vm & _ & (sch & _ & [= <-])%bind_ok)%bind_ok)%bind_ok. Qed.
End runs.

(** ** Witness *)

Import StoreExample VmExample NetExample ProducerExample NodeExample.

Module SlotExample.
(** A node that has taken up the first block and whose chain is idle again; the
    leader that has the validator's vote for the block as well. *)
Definition waiting_moves : list Move := arrive b1 ++ [ChainMove; ChainMove].
Definition waited : Given * ToyNode := default ([], n0) (play [] waiting_moves n0).
Definition waits : ToyNode := waited.2.
Definition leader : ToyNode := set_producer (record_vote ballot (nd_producer waits)) waits.
Definition slot_taken : ToyNode := default n0 (ran (on_slot 2 lead leader)).
Definition slot_block : Produced (list Transaction) := default b1 (pending (nd_producer slot_taken)).
Definition receiver : ToyNode := set_network (net_swarm_event (arrival slot_block) (nd_network waits)) waits.
End SlotExample.
Import SlotExample.

Lemma waits_run : ∃ given, node_run n0 given waits.
Proof.
  exists waited.1. apply healthy_run_run, (play_healthy n0 [] waiting_moves n0); [constructor|].
  rewrite (play_default waiting_moves) by by vm_compute. unfold waits, waited. by destruct (default _ _).
Qed.

Lemma set_network_chain (n : ToyNode) net : nd_chain (set_network net n) = nd_chain n.
Proof. done. Qed.
Lemma set_producer_chain (n : ToyNode) prod : nd_chain (set_producer prod n) = nd_chain n ∧ nd_vm (set_producer prod n) = nd_vm n.
Proof. done. Qed.
Lemma receiver_chain : nd_chain receiver = nd_chain waits.
Proof. unfold receiver. apply set_network_chain. Qed.
Lemma leader_chain : nd_chain leader = nd_chain waits ∧ nd_vm leader = nd_vm waits.
Proof. unfold leader. apply set_producer_chain. Qed.

Lemma set_network_network (n : ToyNode) net : nd_network (set_network net n) = net.
Proof. done. Qed.

Lemma receiver_polls : network_poll (nd_network receiver) = (Some (BlockReceived slot_block), nd_network waits).
Proof.
  assert (is_some (swarm (nd_network waits)) = true) as Hs by by vm_compute.
  assert (length (netin (nd_network waits)) = 0%nat) as Hn by by vm_compute.
  assert (net_chainid (nd_network waits) = "toy") as Hid by by vm_compute.
  unfold receiver. rewrite set_network_network. revert Hs Hn Hid. generalize (nd_network waits), slot_block. intros net b Hs Hn Hid.
  destruct (swarm net) as [e|] eqn:He; [|done]. apply nil_length_inv in Hn. by apply (arrival_polled b net e).
Qed.

Lemma slot_ok : on_slot 2 lead leader = Done (Ok slot_taken).
Proof. apply ran_ok. unfold slot_taken. apply is_some_default. by vm_compute. Qed.

