(* ===== verification/Agreement.v ===== *)
(** * Agreement on finalized blocks

    Every block that a node hands to its consumers as finalized carries a
    certificate: signed votes of a supermajority, for the block or for blocks
    above it. Nodes that finalize blocks on different forks hold two votes of more
    than a third of the stake. *)
From S2P Require Import Prelude Primitives Text State Transaction Contract Currency Builtins Block Machine VmExample Execution Consumer Producer Sled BlockStore StoreExample BlockStoreProps ForkTree ForkTreeProps Orphans Chain ChainProps ChainSafety Sources Accountability Finality ProducerProps Schedule ScheduleProps Episub NetExample Behaviour Network NetworkProps Node NodeProps ChainExample NodeExample.

Section certificates.
Context `{Crypto} `{WasmRuntime} {D : Type} `{BlockData D} `{!Executable D} {St : Type} `{StateStore St}.
Abbreviation Chain := (@Chain _ D St).
Implicit Types (c : Chain) (b x y : Produced D) (e : Executed D) (t m : TreeNode D) (p : Pubkey) (X : gset Pubkey).

(** ** Certificates *)

(** [y] is a block on top of [x]. *)
Definition child_of x y : Prop := parent y = block_hash x ∧ height y = height x + 1.

Section votes.
(** Where the votes are to be found. *)
Context (W : Vote → Prop).

(** A signed vote for the block or for one above it. *)
Definition voted_above b p : Prop :=
  ∃ vote x, W vote ∧ Vote_verify_signature vote = true ∧ validator vote = p ∧ target vote = block_hash x ∧ rtc child_of b x.

Definition certified c b : Prop :=
  ∃ X, X ⊆ dom (eligible c) ∧ minimum_majority_stake c ≤ stake_of c X ∧ ∀ p, p ∈ X → voted_above b p.

(** The nodes of a tree are above its root. *)
Lemma tree_lineage (stakes : gmap Pubkey Z) t m :
  tree_wf stakes t → m ∈ tree_nodes t → rtc child_of (underlying (block (value t))) (underlying (block (value m))).
Proof.
  induction t as [v cs IH] using TreeNode_induction. rewrite Forall_forall in IH.
  intros (_ & Hl & Hcs)%tree_wf_node [->|(d & Hd & Hm)]%elem_of_tree_nodes; [done|].
  rewrite Forall_forall in Hl, Hcs. destruct (Hl d Hd) as (Hp & Hh & _). eapply rtc_l; [|by apply (IH d Hd); [apply Hcs|]].
  split; [exact Hp|exact Hh].
Qed.

Lemma root_certified c t :
  chain_wf c → signed_forest W c → stakes_ok c → t ∈ forktrees c → minimum_majority_stake c ≤ vb_votes (value t) →
  certified c (underlying (block (value t))).
Proof.
  intros Hwf Hs Hok Ht Hmaj. pose proof (forest_votes_ok c t t Hwf Ht (tree_nodes_self t)) as Hv.
  exists (voters (value t)). split; [apply Hv|]. split; [by rewrite <-(votes_are_stakes c _ Hok Hv)|].
  intros p Hp. destruct (forest_voted W c t t p Hs Ht (tree_nodes_self t) Hp) as (vote & HW & Hsig & Hval & (m & Htgt & Hm)%list_elem_of_fmap).
  exists vote, (underlying (block (value m))). split_and!; [done|done|done|exact Htgt|].
  pose proof (wf_trees c Hwf) as Hall. rewrite Forall_forall in Hall. by eapply tree_lineage; [apply Hall|].
Qed.

(** ** Along a run *)

(** What holds while a chain runs with the stakes of [c0]. *)
Definition certifying c0 c : Prop := chain_wf c ∧ signed_forest W c ∧ genesis c = genesis c0 ∧ stakes c = stakes c0.

Lemma certifying_same c0 c : certifying c0 c → eligible c = eligible c0 ∧ minimum_majority_stake c = minimum_majority_stake c0.
Proof. intros (_ & _ & Hg & Hs). unfold eligible, minimum_majority_stake, total_stake. by rewrite Hg, Hs. Qed.

Lemma certified_same c c' b :
  eligible c' = eligible c → minimum_majority_stake c' = minimum_majority_stake c → certified c b → certified c' b.
Proof. intros He Hm (X & HX & Hmaj & Hv). exists X. unfold stake_of in *. rewrite He, Hm. done. Qed.

Lemma certifying_steps c0 : step_invariant W (certifying c0).
Proof.
  destruct (signed_forest_invariant W) as [Hcore Hvote Hinc Hfin]. split.
  - intros c c' Hsame (Hwf & Hs & Hg & Hst). pose proof Hsame as (Hg' & Hs' & _).
    split_and!; [by eapply same_core_wf|by eapply Hcore|by rewrite Hg'|by rewrite Hs'].
  - intros vote c HW (Hwf & Hs & Hg & Hst). destruct (injest_vote_core vote c) as (Hg' & Hs' & _).
    split_and!; [by apply injest_vote_wf|by apply Hvote|by rewrite Hg'|by rewrite Hs'].
  - intros vm_fuel b c i c' Hacc (Hwf & Hs & Hg & Hst) Htry. pose proof (try_include_wf _ _ _ _ _ Hwf Hacc Htry) as (Hwf' & Hg' & Hs' & _).
    split_and!; [done|by eapply Hinc|by rewrite Hg'|by rewrite Hs'].
  - intros c ok c' (Hwf & Hs & Hg & Hst) Htry. split; [by eapply try_finalize_roots_wf|]. split; [by eapply Hfin|].
    apply try_finalize_roots_inv in Htry. destruct ok; [|destruct Htry as [-> _]; done].
    destruct Htry as (_ & _ & _ & _ & _ & Hg' & Hs' & _). by rewrite Hg', Hs'.
Qed.

Lemma certified_invariant c0 : stakes_ok c0 → finality_invariant W (certifying c0) (λ e, certified c0 (underlying e)).
Proof.
  intros Hok. split; [apply certifying_steps|by intros c (? & _)|].
  intros c t Hc Ht [Hmaj%Z.leb_le _]%andb_true_iff. destruct (certifying_same c0 c Hc) as [He Hm]. destruct Hc as (Hwf & Hs & _ & _).
  apply (certified_same c c0); [done..|]. apply root_certified; [done|done| |done|done]. unfold stakes_ok. by rewrite He.
Qed.
End votes.

(** Two certificates share validators with more than a third of the stake. *)
Lemma certificates_intersect W W' c b b' :
  stakes_ok c → 0 < total_stake c → certified W c b → certified W' c b' →
  ∃ X, total_stake c < 3 * stake_of c X ∧ X ⊆ dom (eligible c) ∧ ∀ p, p ∈ X → voted_above W b p ∧ voted_above W' b' p.
Proof.
  intros Hok Hne (X & HX & Hm & Hv) (Y & HY & Hm' & Hv'). exists (X ∩ Y). split_and!; [|set_solver|set_solver].
  pose proof (quorums_intersect c X Y Hok HX HY). destruct (supermajority c Hne). lia.
Qed.
End certificates.

Section node_agreement.
Context `{Crypto} `{WasmRuntime} `{BuiltinAddresses} `{!BlockData (list Transaction)}.
Context {St : Type} `{StateStore St} {T : Type} `{SledTree T} `{!SledTreeLaws T}.
Context `{WeightedRng} `{!TextForms} `{Libp2p} `{!NetPrimitives} `{Zstd} `{Rand}.
Context `{!Bincode Vote} `{!Bincode (Produced (list Transaction))} `{!Bincode Transaction}.
Context `{!Bincode StoredOutputs} `{!Bincode ExecutedTransaction}.
Context `{!Borsh BytecodeAccount} `{!Borsh WasmInstruction}.
Context `{!CryptoLaws} `{!BincodeLaws (Produced (list Transaction))} `{!BincodeLaws StoredOutputs} `{!BincodeLaws ExecutedTransaction}.
Abbreviation BlockType := (list Transaction).
Abbreviation Node := (@Node _ St T _ _ _).
Implicit Types (n m : Node) (e : Executed BlockType) (B : Produced BlockType → Prop) (X : gset Pubkey).

(** What a node finalizes is certified by votes in the blocks that it took up. *)
Lemma finalized_certified B now rng seed g keypair peers (storage : St) (store : @BlockStore T) n0 given n e :
  node_start now rng seed g keypair peers storage store = Ok n0 → node_run_from B n0 given n → stakes_ok (nd_chain n0) →
  e ∈ finalized_of given ++ waiting n → certified (in_blocks B) (nd_chain n0) (underlying e).
Proof.
  intros Hstart Hrun Hok Hin. destruct (node_start_inv _ _ _ _ _ _ _ _ _ Hstart) as (Hwf & Hw & _ & _).
  destruct (node_start_chain _ _ _ _ _ _ _ _ _ Hstart) as (vm & f & Hc).
  destruct (node_run_waiting B (in_blocks B) (votes_in_blocks B) _ _ (certified_invariant (in_blocks B) (nd_chain n0) Hok) n0 given n Hrun) as (_ & _ & HQ); [|done|].
  - split; [rewrite Hc; apply new_sourced|]. split_and!; [done| |done|done]. rewrite Hc. constructor.
  - rewrite Forall_forall in HQ. by apply HQ.
Qed.

(** C3: Nodes agree on what is final, or validators can be held to account. Two nodes are started
    with the same genesis block, whatever their keys, peers, stores and random numbers are, and run
    in any environment; the one takes up blocks of [B] and the other blocks of [B'], which
    they receive or make. Of any two blocks that they hand to their consumers as finalized, or are
    about to, it holds that validators with more than a third of the stake have signed a vote that is
    in a block of [B] for the first one or a block above it, and a vote that is in a block of [B']
    for the second one or a block above it. When the two blocks are on different forks, all these
    validators voted for both forks. *)
Theorem nodes_agree_or_equivocate B B' g n0 m0 now now' rng rng' seed seed' keypair keypair' peers peers'
    (storage storage' : St) (store store' : @BlockStore T) given given' n m e e' :
  node_start now rng seed g keypair peers storage store = Ok n0 → node_run_from B n0 given n →
  node_start now' rng' seed' g keypair' peers' storage' store' = Ok m0 → node_run_from B' m0 given' m →
  stakes_ok (nd_chain n0) → 0 < total_stake (nd_chain n0) →
  e ∈ finalized_of given ++ waiting n → e' ∈ finalized_of given' ++ waiting m →
  ∃ X, total_stake (nd_chain n0) < 3 * stake_of (nd_chain n0) X ∧ X ⊆ dom (eligible (nd_chain n0)) ∧
    ∀ p, p ∈ X → voted_above (in_blocks B) (underlying e) p ∧ voted_above (in_blocks B') (underlying e') p.
Proof.
  intros Hn Hrun Hm Hrun' Hok Hpos He He'.
  destruct (node_start_chain _ _ _ _ _ _ _ _ _ Hn) as (vm & f & Hc). destruct (node_start_chain _ _ _ _ _ _ _ _ _ Hm) as (vm' & f' & Hc').
  assert (eligible (nd_chain m0) = eligible (nd_chain n0)) as Hel by (by rewrite Hc, Hc').
  assert (minimum_majority_stake (nd_chain m0) = minimum_majority_stake (nd_chain n0)) as Hmaj by (by rewrite Hc, Hc').
  apply certificates_intersect; [done|done|by eapply finalized_certified|].
  apply (certified_same _ (nd_chain m0)); [done|done|]. eapply finalized_certified; [exact Hm|exact Hrun'| |exact He'].
  unfold stakes_ok. by rewrite Hel.
Qed.
End node_agreement.

(** ** Witness *)

Import StoreExample VmExample NetExample ProducerExample NodeExample.

Module AgreementExample.
Definition with_hash (hs : list Multihash) (b : Produced (list (@Transaction toy_crypto))) : Prop := block_hash b ∈ hs.

(** Moves of a node, as long as it takes up blocks with these hashes. *)
Definition takes_b (hs : list Multihash) (n : ToyNode) : bool :=
  match (network_poll (nd_network n)).1 with Some (BlockReceived b) => bool_decide (block_hash b ∈ hs) | _ => true end &&
  match pending (nd_producer n) with Some b => bool_decide (block_hash b ∈ hs) | None => true end.

Lemma takes_b_ok hs n : takes_b hs n = true → ∀ b, taken n b → with_hash hs b.
Proof.
  unfold takes_b, taken, with_hash. intros [Hnet Hpend]%andb_true_iff b [[k Hk]|Hb].
  - rewrite Hk in Hnet. by apply bool_decide_eq_true in Hnet.
  - rewrite Hb in Hpend. by apply bool_decide_eq_true in Hpend.
Qed.

Fixpoint play_from (hs : list Multihash) (given : Given) (ms : list Move) (n : ToyNode) : option (Given * ToyNode) :=
  match ms with
  | [] => Some (given, n)
  | m :: ms => '(x, n') ← move m n; if takes_b hs n then play_from hs (given ++ option_list x) ms n' else None
  end.

Lemma play_from_run hs n0 given ms n given' n' :
  node_run_from (with_hash hs) n0 given n → play_from hs given ms n = Some (given', n') → node_run_from (with_hash hs) n0 given' n'.
Proof.
  revert given n. induction ms as [|m ms IH]; intros given n Hrun Hp; cbn [play_from] in Hp; [by injection Hp as <- <-|].
  destruct (move m n) as [[x n1]|] eqn:E; [|done]. apply move_step in E. cbn in Hp. destruct (takes_b hs n) eqn:Htakes; [|done].
  eapply IH; [|exact Hp]. econstructor; [exact Hrun|by apply takes_b_ok|exact E].
Qed.

(** Three other blocks: the first one carries a vote for the genesis block. *)
Definition o1 := child 1 (genesis_hash tx_genesis) [genesis_hash tx_genesis].
Definition o2 := child 2 (block_hash o1) [block_hash o1].
Definition o3 := child 3 (block_hash o2) [block_hash o2].

Definition blocks (bs : list (Produced (list Transaction))) : list Multihash := block_hash <$> bs.
Definition on_fork (bs : list (Produced (list Transaction))) : option (Given * ToyNode) :=
  play_from (blocks bs) [] (concat (arrive <$> bs) ++ replicate 12 ChainMove) n0.
Definition fork_node (bs : list (Produced (list Transaction))) : Given * ToyNode := default ([], n0) (on_fork bs).

Lemma fork_run bs : is_some (on_fork bs) = true → node_run_from (with_hash (blocks bs)) n0 (fork_node bs).1 (fork_node bs).2.
Proof.
  intros Hs. apply (is_some_default _ ([], n0)) in Hs. fold (fork_node bs) in Hs. unfold on_fork in Hs.
  apply (play_from_run _ n0 [] (concat (arrive <$> bs) ++ replicate 12 ChainMove) n0 _ _ (FromStart _ _)). rewrite Hs. by destruct (fork_node bs).
Qed.

Definition finals (bs : list (Produced (list Transaction))) : list (Executed (list Transaction)) :=
  finalized_of (fork_node bs).1 ++ waiting (fork_node bs).2.
Definition first_final (bs : list (Produced (list Transaction))) : Executed (list Transaction) :=
  hd (MkExecuted b1 no_output) (finals bs).
End AgreementExample.
Import AgreementExample.

Lemma nodes_agree_or_equivocate_witness :
  block_hash (underlying (first_final [b1; b2; b3])) ≠ block_hash (underlying (first_final [o1; o2; o3])) ∧
  ∃ X : gset Pubkey, total_stake (nd_chain n0) < 3 * stake_of (nd_chain n0) X ∧ X ⊆ dom (eligible (nd_chain n0)) ∧
    ∀ p, p ∈ X →
      voted_above (in_blocks (with_hash (blocks [b1; b2; b3]))) (underlying (first_final [b1; b2; b3])) p ∧
      voted_above (in_blocks (with_hash (blocks [o1; o2; o3]))) (underlying (first_final [o1; o2; o3])) p.
Proof.
  split; [apply (bool_decide_unpack _); by vm_compute|].
  apply (nodes_agree_or_equivocate (with_hash (blocks [b1; b2; b3])) (with_hash (blocks [o1; o2; o3])) tx_genesis n0 n0 0 0 rngs rngs
    (array32_of_Z 5) (array32_of_Z 5) (toy_key 3) (toy_key 3) [] [] ∅ ∅ (empty_store false 5) (empty_store false 5)
    (fork_node [b1; b2; b3]).1 (fork_node [o1; o2; o3]).1 (fork_node [b1; b2; b3]).2 (fork_node [o1; o2; o3]).2).
  - exact start_ok.
  - apply fork_run. by vm_compute.
  - exact start_ok.
  - apply fork_run. by vm_compute.
  - apply stakes_ok_test. by vm_compute.
  - by vm_compute.
  - apply hd_elem. by vm_compute.
  - apply hd_elem. by vm_compute.
Defined.
