(* ===== verification/Forks.v ===== *)
(** * What the rules for own votes do not rule out

    One validator follows the rules for its votes on every block that reaches it.
    Two nodes that receive different blocks finalize different forks with these
    votes. *)
From S2P Require Import Prelude Primitives State Transaction Contract Block Machine VmExample Execution ForkTree Orphans Chain ChainExample ChainProps ChainSafety Sources Accountability Finality.
Import VmExample ChainExample.

Module ForksExample.
(** Two forks from the genesis block, of three and of four blocks without votes,
    each followed by a block with the validator's vote for the end of the fork. *)
Definition a1 : Produced string := Produced_new key 1 (genesis_hash toy_chain_genesis) "a" empty_hash [].
Definition a2 : Produced string := next_block 2 (block_hash a1) [].
Definition a3 : Produced string := next_block 3 (block_hash a2) [].
Definition a4 : Produced string := next_block 4 (block_hash a3) [vote_for a3].
Definition k1 : Produced string := Produced_new key 1 (genesis_hash toy_chain_genesis) "k" empty_hash [].
Definition k2 : Produced string := next_block 2 (block_hash k1) [].
Definition k3 : Produced string := next_block 3 (block_hash k2) [].
Definition k4 : Produced string := next_block 4 (block_hash k3) [].
Definition k5 : Produced string := next_block 5 (block_hash k4) [vote_for k4].

Definition receive_all (bs : list (Produced string)) (c : ToyChain) : ToyChain := foldl (λ c b, include_block b c) c bs.
Fixpoint polls (k : nat) (c : ToyChain) : ToyChain := match k with O => c | S k => polls k (poll c) end.

(** The validator's own chain, and those of the two nodes. *)
Definition voter : ToyChain := receive_all [a1; a2; a3; k1; k2; k3; k4] c0.
Definition node_a : ToyChain := polls 8 (receive_all [a1; a2; a3; a4] c0).
Definition node_k : ToyChain := polls 10 (receive_all [k1; k2; k3; k4; k5] c0).

(** ** These are runs *)

Fixpoint receives (bs : list (Produced string)) (c : ToyChain) : bool :=
  match bs with [] => true | b :: bs => is_done (include 10 1 0 b c) && receives bs (include_block b c) end.
Fixpoint polls_done (k : nat) (c : ToyChain) : bool :=
  match k with O => true | S k => is_done (poll_next 0 c) && polls_done k (poll c) end.

Lemma receive_all_from (B : Produced string → Prop) bs c :
  Forall B bs → receives bs c = true → rtc (chain_step_from B) c0 c → rtc (chain_step_from B) c0 (receive_all bs c).
Proof.
  unfold receive_all. revert c. induction bs as [|b bs IH]; intros c HB Hd Hc; [done|]. cbn [receives] in Hd.
  apply andb_true_iff in Hd as [Hb Hd]. apply Forall_cons in HB as [HBb HB]. cbn [foldl]. apply IH; [done|done|]. by apply include_block_from.
Qed.

Lemma polls_from (B : Produced string → Prop) k c :
  polls_done k c = true → rtc (chain_step_from B) c0 c → rtc (chain_step_from B) c0 (polls k c).
Proof.
  revert c. induction k as [|k IH]; intros c Hd Hc; [done|]. cbn [polls_done] in Hd. apply andb_true_iff in Hd as [Hp Hd].
  cbn [polls]. apply IH; [done|]. by apply poll_from.
Qed.

(** Vote events, by what they vote for. *)
Definition casts (t j : Multihash) (ev : @ChainEvent toy_crypto string) : bool :=
  match ev with VoteCast t' j' => bool_decide (t' = t ∧ j' = j) | _ => false end.

Lemma casts_in t j evs : existsb (casts t j) evs = true → VoteCast t j ∈ evs.
Proof.
  intros (ev & Hin & Hc)%existsb_exists. apply list_elem_of_In in Hin. destruct ev; try done. cbn in Hc.
  by apply bool_decide_eq_true in Hc as [-> ->].
Qed.

(** The blocks of the forks, and the votes in them. *)
Definition fork_a : list (Produced string) := [a1; a2; a3; a4].
Definition fork_k : list (Produced string) := [k1; k2; k3; k4; k5].
Definition votes_in (bs : list (Produced string)) : list Vote := bs ≫= votes.

Lemma receive_fork bs : receives bs c0 = true → rtc (chain_step_from (λ b, b ∈ bs)) c0 (receive_all bs c0).
Proof. intros Hd. apply receive_all_from; [|done|apply rtc_refl]. apply Forall_forall. auto. Qed.
End ForksExample.
Import ForksExample.

(** ** Theorem *)

