(* ===== verification/RpcExample.v ===== *)
(** * Requests to a service to evaluate the RPC model on

    A service over the store of StoreExample.v, with a confirmed block above the
    finalized one, and one that keeps the blocks that a node without the service
    had stored. *)
From S2P Require Import Prelude Primitives Text State Transaction Contract Block Machine VmExample Execution Consumer Sled BlockStore StoreExample BlockStoreProps ChainExample Rpc RpcProps StoreService CurrencyProps.
Import CoinExample VmExample StoreExample.

#[export] Instance toy_transaction_json : ToJson (@Transaction toy_crypto) := λ t, JNumber (tx_nonce t).
#[export] Instance toy_votes_json : ToJson (list (@Vote toy_crypto)) := λ vs, JNumber (Z.of_nat (length vs)).
#[export] Instance toy_error_json : ToJson ContractError := λ e, JString (error_code e).2.
#[export] Instance toy_genesis_json : ToJson Genesis := λ g, JString (chain_id g).

Module RpcExample.
Abbreviation ToyService := (@ServiceSharedState toy_crypto (gmap bytes bytes) (gmap bytes bytes)).

(** Block two is confirmed and block one is finalized. *)
Definition full_store : ToyStore := drain [(e1, Confirmed); (e1, Finalized_); (e2, Confirmed)] (empty_store true 5).
Definition full_service : ToyService := MkService ∅ full_store toy_genesis (Some []).

(** The same blocks, stored without the service, and the service switched on later. *)
Definition lean_store : ToyStore := drain [(e1, Confirmed); (e1, Finalized_); (e2, Confirmed)] (empty_store false 5).
Definition late_service : ToyService :=
  MkService ∅ (MkStore true 5 (confirmed_tree lean_store) (finalized_tree lean_store) (hashes lean_store) (outputs lean_store) (transactions lean_store))
    toy_genesis (Some []).

Definition first_tx : Transaction := transfer_tx prog alice alice bob 4 1 [alice].
Definition ask_confirmed : gmap string string := {["commitment" := "Confirmed"]}%string.

(** A height that is found and writes no account. *)
Definition idle_height (svc : ToyService) (h : Z) : bool :=
  match get_by_height (svc_blocks svc) h with
  | Done (Some (e, _)) => bool_decide (sd_data (out_state (output e)) = ∅)
  | _ => false
  end.

Lemma idle_height_found svc h : idle_height svc h = true → found svc h ∧ ∀ account, written_at svc h account = None.
Proof.
  unfold idle_height, found, written_at. destruct (get_by_height (svc_blocks svc) h) as [[[e c]|]| |]; [|discriminate..].
  intros He%bool_decide_eq_true. split; [by eexists|]. intros account. unfold sd_get. by rewrite He.
Qed.

Lemma full_range : confirmed_range full_service = (1, 2).
Proof. by vm_compute. Qed.
Lemma full_found : heights_found full_service.
Proof.
  intros h. rewrite full_range. cbn [fst snd]. intros Hh. assert (h = 2) as -> by lia. apply idle_height_found. by vm_compute.
Qed.

Lemma full_nonces fuel p : (1 ≤ fuel)%nat → account_nonce fuel full_service p = 0.
Proof.
  intros Hfuel. unfold account_nonce. destruct (get_confirmed_account_newest full_service p fuel full_found) as (r & -> & Hr).
  { unfold enough_fuel. rewrite full_range. cbn [fst snd]. lia. }
  rewrite full_range in Hr. destruct r as [acc|]; [|done]. destruct Hr as (h & Hh & Hw & _). cbn [fst snd] in Hh. assert (h = 2) as -> by lia.
  rewrite (proj2 (idle_height_found full_service 2 ltac:(by vm_compute))) in Hw. discriminate.
Qed.
End RpcExample.
Import RpcExample.

(** ** Witnesses *)


Lemma confirmed_account_newest_witness :
  ∃ r, serve_account 1 alice ask_confirmed full_service = Done r.
Proof.
  destruct (confirmed_account_newest 1 alice ask_confirmed full_service) as (r & Hr & _).
  - exact full_found.
  - unfold enough_fuel. rewrite full_range. cbn [fst snd]. lia.
  - by vm_compute.
  - exists r. exact Hr.
Defined.

Lemma late_range : confirmed_range late_service = (1, 2).
Proof. by vm_compute. Qed.
Lemma first_tx_limits : is_ok (verify_limits first_tx (limits (svc_genesis late_service))) = true.
Proof. by vm_compute. Qed.
Lemma first_tx_signed : is_ok (verify_signatures first_tx) = true.
Proof. by vm_compute. Qed.
Lemma is_ok_unit {E} (r : Result E unit) : is_ok r = true → r = Ok tt.
Proof. by destruct r as [[]|]. Qed.
Lemma late_gap : get_by_height (svc_blocks late_service) 2 = Done None.
Proof.
  assert (match get_by_height (svc_blocks late_service) 2 with Done None => true | _ => false end = true) as Hg by by vm_compute.
  by destruct (get_by_height (svc_blocks late_service) 2) as [[]| |].
Qed.

Lemma confirmed_gap_hangs_request_witness :
  serve_account 100 alice ask_confirmed late_service = OutOfFuel ∧ serve_send_transactions 100 [first_tx] late_service = OutOfFuel.
Proof.
  apply (confirmed_gap_hangs_request alice ask_confirmed first_tx [] 2 late_service).
  - rewrite late_range. cbn [fst snd]. lia.
  - exact late_gap.
  - intros h. rewrite late_range. cbn [fst snd]. lia.
  - by vm_compute.
  - split; apply is_ok_unit; [exact first_tx_limits|exact first_tx_signed].
  - reflexivity.
Defined.

Lemma full_confirmed : is_Some (confirmed_at full_store 2).
Proof. eexists. apply is_some_default. by vm_compute. Unshelve. exact s2. Qed.

(** A test for the steps of a store. *)
Definition accounted_test (e : Executed (list Transaction)) : bool :=
  forallb (λ tx, is_some (im_get (tx_hash tx) (out_logs (output e))) || is_some (im_get (tx_hash tx) (out_errors (output e)))) (block_data (underlying e)).
Fixpoint steps_test (q : BlockConsumers) (s : ToyStore) : bool :=
  match q with
  | [] => true
  | (e, c) :: q =>
      (0 <? height (underlying e)) && (height (underlying e) <=? u64_max) && accounted_test e &&
      ((latest_height s =? 0) || (height (underlying e) - history_len s <=? latest_height s)) && steps_test q (consume s e c)
  end.

Lemma is_some_is_Some {A} (o : option A) : is_some o = true → is_Some o.
Proof. destruct o; [by eexists|done]. Qed.

Lemma accounted_test_ok e : accounted_test e = true → accounted e.
Proof.
  unfold accounted_test. intros Ht tx Htx. rewrite forallb_forall in Ht. apply list_elem_of_In, Ht, orb_prop in Htx.
  destruct Htx as [?|?]; [left|right]; by apply is_some_is_Some.
Qed.

Lemma steps_test_ok q s : steps_test q s = true → rtc store_step s (drain q s).
Proof.
  revert s. induction q as [|[e c] q IH]; intros s; [intros _; apply rtc_refl|]. cbn [steps_test drain].
  intros [[[[H1 H2]%andb_prop Ha]%andb_prop Hw]%andb_prop Hq]%andb_prop. apply (rtc_l _ _ (consume s e c)); [|by apply IH].
  apply StoreStep; [by split; [apply Z.ltb_lt|apply Z.leb_le]|intros _; by apply accounted_test_ok|].
  intros _. apply orb_prop in Hw as [?%Z.eqb_eq|?%Z.leb_le]; [by left|by right].
Qed.

Lemma full_steps : rtc store_step (empty_store true 5) full_store.
Proof. apply steps_test_ok. by vm_compute. Qed.

Lemma detailed_store_serves_blocks_witness :
  (∃ e c, get_by_height full_store 2 = Done (Some (e, c))) ∧ heights_found full_service.
Proof.
  destruct (detailed_store_serves_blocks (empty_store true 5) full_store) as [Hserves Hfound].
  - intros k. exact (lookup_empty k).
  - intros k. exact (lookup_empty k).
  - intros k. exact (lookup_empty k).
  - discriminate.
  - reflexivity.
  - exact full_steps.
  - split.
    + destruct (Hserves 2) as (e & c & He & _); [split; by vm_compute|left; apply full_confirmed|]. exists e, c. exact He.
    + apply (Hfound _ full_service eq_refl).
      * rewrite full_range. discriminate.
      * rewrite full_range. discriminate.
      * intros h. rewrite full_range. cbn [fst snd]. intros Hh. assert (h = 2) as -> by lia. exact full_confirmed.
Defined.
